(* ===== verification/_CoqProject ===== *)
-Q . S2P
Prelude.v
Effects.v
GoString.v
GoPath.v
GoJson.v
GoTime.v
DiscoveryState.v
DiscoveryFuel.v
Config.v
Gpio.v
GpioLevels.v
Expansion.v
Mqtt.v
MqttProofs.v
Discovery.v
DiscoveryProofs.v
DiscoverySafety.v
Dedupe.v
Action.v
ActionProofs.v
Controller.v
ControllerProofs.v
Workers.v
WorkersProofs.v
Validation.v
ValidationProofs.v
Service.v
ServiceProofs.v
GoNet.v
Broker.v
BrokerProofs.v
Load.v
LoadProofs.v
System.v
