(* ===== verification/Prelude.v ===== *)
(** * mqtt-raspberry-controller

    A verification development for [mqtt-raspberry-controller], a daemon that
    exposes the GPIO lines of a Raspberry Pi to Home Assistant over MQTT.  Paths
    below are relative to [src/].

    ** The program and its parts

    [cmd/mqtt-raspberry-controller/main.go] loads a YAML configuration
    ([config/]), builds an MQTT client ([mqtt/client.go]), opens the GPIO outputs
    ([gpio/manager.go]), builds an executor of actions ([action/]) and a
    controller ([controller/]), registers the command topics, connects, opens
    the inputs and publishes the states; on a signal it stops the controller, the
    client and the lines, in that order.  A command on a topic is accepted once
    (duplicate cache), queued for the worker of its entity, and handled: its
    actions drive outputs, run external commands, wait or publish, and the state
    is published.  An edge on an input publishes the sensors bound to it.  On
    every connection the controller reconciles the retained discovery topics of
    Home Assistant with the configuration, through a state file.

    ** Files

    Libraries.
    - [Prelude]: [result], the error monads, automation, generic lemmas.
    - [Effects]: programs of operations ([prog]), what the environment may
      answer, crash points, the logic [wp]; conversations ([path]).
    - [GoString], [GoPath], [GoTime], [GoJson], [GoNet]: the functions of Go's
      standard library the program calls, on byte strings: [TrimSpace], [ToUpper],
      [filepath.Clean], [time.ParseDuration] with its overflow tests,
      [encoding/json] in both directions, [ParseIP], [Atoi], [EqualFold].
    Configuration.
    - [Config] ([config/config.go]): records, [applyDefaults], accessors.
    - [Expansion] ([config/expansion.go]): [${NAME}] in every field.
    - [Validation], [ValidationProofs] ([config/validation.go] from the device on).
    - [Broker], [BrokerProofs] (the rest of [config/validation.go]): broker URL,
      credentials, TLS files.
    - [Load], [LoadProofs]: [load] and [mqtt.New], which put validation to use.
    Devices and transport.
    - [Gpio] ([gpio/manager.go]): [Manager] over [LineEnv], with its theorems;
      [GpioLevels]: the outputs as a store of states.
    - [Mqtt], [MqttProofs] ([mqtt/client.go]): [Client] over [MqttEnv].
    - [Action], [ActionProofs] ([action/executor.go], [action/process_linux.go]).
    Controller.
    - [DiscoveryState], [Discovery], [DiscoveryProofs], [DiscoverySafety]
      ([controller/discovery.go]): the state file's format; reconciliation; what
      the kernel and the broker may answer; the guarantees.  [DiscoveryFuel]: the
      reader always has fuel enough.
    - [Dedupe]: the duplicate cache of [acceptMessage] and its specification.
    - [Controller], [ControllerProofs] ([controller/controller.go]): the handlers.
    - [Workers], [WorkersProofs]: goroutines, queues and [Shutdown] as a
      transition system.
    The whole.
    - [Service], [ServiceProofs] ([main.go]): [run] and [shutdownService].
    - [System]: controller, executor, manager and client on one world.

    ** How state and operations correspond

    Definitions keep the names of the source.  A Go function that returns an
    error is a [result] with one constructor per error of the package; a method
    on a shared object passes the object's record: [Manager], [Client],
    [Controller], [dedupeCache].  Channels of capacity 32 are lists with the
    guard of the send; wait groups are counters; a mutex is the atomicity of a
    step of [Workers].  Code that the kernel, the broker or a library answers is
    either a class of operations on a world ([LineEnv], [MqttEnv], and the
    controller's own interfaces [GpioManager], [MqttPublisher], [ActionExecutor],
    [Registry]) whose documented laws are a second class ([LineLaws],
    [LineLevels], [MqttLaws], [LevelLaws]) with a concrete instance, or the
    operations of a [prog], answered by a relation that lets every call fail.  A nil dereference
    is [None] ([handleSwitch]) or the operation [OpPanic] ([executeOne]).
    Machine integers are [Z] or [N] with their wrap written out where it can
    happen: the generation of the cache and the totals of the output buffer are
    [uint64], [ParseDuration] tests its overflows.

    ** What the theorems show

    - Discovery (crash safety): at every crash point every retained topic of
      ours is in the state file, the file is the old or the new one and is
      accepted by the next run; a success means the broker retains exactly what
      is configured; foreign files and topics are left alone; the file
      round-trips.
    - Workers: no handler panics, queues are bounded and first-in first-out,
      after the cancellation at most one handler per worker ends, [Shutdown]
      waits for everything and its wait ends.
    - Cache: it refines a sliding window of 256 keys.
    - Handlers: what is published for each outcome of the actions and of an edge.
    - Actions: the life of an external command under any behaviour of the
      kernel; the first failure; the bounds of the output buffer.
    - Devices: opening is all or nothing, closing releases every line, and open
      outputs are a store that starts at the configured states.
    - Client: order of the steps of a connection and of closing, whatever the
      handlers publish and whether or not the callbacks end; bounded payloads; the
      options it is built from.
    - Configuration: validation decides declarative well-formedness ([iff] for
      GPIO and for the broker policy), and gives the hypotheses under which
      discovery and the executor are proved (for the state file of discovery
      its texts must be valid UTF-8 besides, which validation does not check);
      expansion renders templates; what [load] returns is valid, down to the
      readings of its credential files, and its defaults are settled.
    - Service: GPIO is closed last, what was started is stopped, no line leaks.
    - System: a command reaches the line and the state topic tells the truth.

    ** Bounds and fuel

    [expand_from] gets the length of its input plus one, every iteration consumes
    a byte; [expand_from_fuel] shows that more changes nothing.  The reader of
    the state file gets the length of the data, every member and element
    consumes input, and more fuel changes nothing ([decode_state_fuel]);
    [ParseIP] gets 9 for the at most eight groups of an IPv6 address.  All other
    recursion is structural; the loops of the goroutines are steps.

    ** Arguments

    [url.Parse] (its grammar depends on the Go release), [AppendCertsFromPEM] and
    [X509KeyPair], the YAML decoder, [os.Stat], the random names of temporary
    files, and the orders in which Go ranges over maps are arguments of the
    definitions that use them; theorems hold for all of them.

    ** Not modelled

    - The polling loop of [observeCommand] (its result is an answer of the kernel)
      and [action/process_other.go], the fallback on systems other than Linux.
    - Log lines, but for the rate limits that decide them; texts of errors, but
      for those that are data.
    - Handlers that never return: in [Workers] a handler call is one step, and a
      program of [Effects] goes on when the environment answers.
    - Goroutine scheduling inside the MQTT client: callbacks are counted, the wait
      for them is an operation of the world. *)

From stdpp Require Export base list gmap strings pretty sorting.
From Stdlib Require Export ZArith Lia.

(** ** Results of fallible Go functions

    A Go function returning [(T, error)] is a [result E T]: [Ok v] when the
    error is nil, [Err e] otherwise.  Each component has its own inductive
    error type [E], one constructor per [fmt.Errorf] of the source. *)

Inductive result (E A : Type) : Type :=
| Ok (a : A)
| Err (e : E).
Arguments Ok {E A} a.
Arguments Err {E A} e.

#[global] Instance result_ret E : MRet (result E) := λ A a, Ok a.
#[global] Instance result_bind E : MBind (result E) := λ A B k m,
  match m with Ok a => k a | Err e => Err e end.
#[global] Instance result_fmap E : FMap (result E) := λ A B f m,
  match m with Ok a => Ok (f a) | Err e => Err e end.

#[global] Instance result_eq_dec E A `{EqDecision E, EqDecision A} :
  EqDecision (result E A).
Proof. solve_decision. Defined.

Definition is_ok {E A} (r : result E A) : bool :=
  match r with Ok _ => true | Err _ => false end.

(** [fmt.Errorf("...: %w", err)]: rewrap the error of a failed call. *)
Definition map_err {E E' A} (f : E → E') (r : result E A) : result E' A :=
  match r with Ok a => Ok a | Err e => Err (f e) end.

(** A guard of the source, [if cond { return err }]. *)
Definition reject_if {E} (c : bool) (e : E) : result E unit :=
  if c then Err e else Ok tt.

(** [for _, x := range l { if err := f(x); err != nil { return err } }] *)
Fixpoint for_each {E A} (f : A → result E unit) (l : list A) : result E unit :=
  match l with
  | [] => Ok tt
  | x :: l => f x ;; for_each f l
  end.

(** The same loop with the index of [for i, x := range l]. *)
Fixpoint for_each_from {E A} (f : nat → A → result E unit) (i : nat) (l : list A)
    : result E unit :=
  match l with
  | [] => Ok tt
  | x :: l => f i x ;; for_each_from f (S i) l
  end.

(** ** Stateful, fallible computations

    A method that reads and writes the world [W] and may fail. *)

Definition ME (W E A : Type) : Type := W → result E A * W.

#[global] Instance me_ret W E : MRet (ME W E) := λ A a w, (Ok a, w).
#[global] Instance me_bind W E : MBind (ME W E) := λ A B k m w,
  match m w with
  | (Ok a, w') => k a w'
  | (Err e, w') => (Err e, w')
  end.

Definition me_fail {W E A} (e : E) : ME W E A := λ w, (Err e, w).
Definition me_lift {W E A} (r : result E A) : ME W E A := λ w, (r, w).
Definition me_map_err {W E E' A} (f : E → E') (m : ME W E A) : ME W E' A :=
  λ w, let '(r, w') := m w in (map_err f r, w').

(** [if err := f(); err != nil { log.Printf(...) }]: the error is a value. *)
Definition me_try {W E E' A} (m : ME W E A) : ME W E' (result E A) :=
  λ w, let '(r, w') := m w in (Ok r, w').

Fixpoint me_for_each {W E A} (f : A → ME W E unit) (l : list A) : ME W E unit :=
  match l with
  | [] => mret tt
  | x :: l => f x ≫= λ _, me_for_each f l
  end.

(** ** Machine integers *)

(** [uint64] arithmetic wraps. *)
Definition wrap64 (z : Z) : Z := z `mod` 2 ^ 64.
Definition max_uint64 : Z := 2 ^ 64 - 1.

(** ** Sorted key lists: [sort.Strings] *)

Definition sort_strings (l : list string) : list string := merge_sort String.le l.

(** The keys of a Go map, collected and sorted ([sortedKeys]). *)
Definition sorted_map_keys {V} (m : gmap string V) : list string :=
  sort_strings (map_to_list m).*1.

(** ** Automation *)

Create HintDb golib.
Create Rewrite HintDb golib.

(** Case analysis on the matches and decisions of a definition under proof. *)
Ltac case_all :=
  repeat (case_match || case_decide || case_bool_decide); simplify_eq/=; try done.

(** Split boolean conjunctions and disjunctions in hypotheses. *)
Ltac bool_split :=
  repeat match goal with
  | H : _ && _ = true |- _ => apply andb_true_iff in H as [??]
  | H : _ || _ = false |- _ => apply orb_false_iff in H as [??]
  | H : negb _ = true |- _ => apply negb_true_iff in H
  | H : negb _ = false |- _ => apply negb_false_iff in H
  end.

(** Invert [m ≫= k = Ok _]: every step of a chain that succeeded did. *)
Ltac ok_inv :=
  repeat match goal with
  | H : mbind _ ?m = Ok _ |- _ =>
      let E := fresh "E" in
      destruct m eqn:E; simpl in H; [|discriminate H]
  | H : reject_if ?c _ = Ok _ |- _ =>
      let E := fresh "E" in
      unfold reject_if in H; destruct c eqn:E; [discriminate H|clear H]
  | H : Ok _ = Ok _ |- _ => injection H as H; subst
  end.

(** Invert [m ≫= k = Err _]: one goal per step of the chain that may have
    failed, with the failure of that step as [E]. *)
Ltac err_inv :=
  repeat match goal with
  | H : mbind _ ?m = Err _ |- _ =>
      let E := fresh "E" in
      destruct m eqn:E; simpl in H; [clear E | injection H as H; subst]
  | H : mret _ = Err _ |- _ => discriminate H
  | H : Ok _ = Err _ |- _ => discriminate H
  end.

(** ** Shared lemmas *)

Section results_bind.
Context {E A B : Type}.
Implicit Types (m : result E A) (k : A → result E B).

Lemma bind_ok m k b : m ≫= k = Ok b ↔ ∃ a, m = Ok a ∧ k a = Ok b.
Proof.
  destruct m as [a|e]; simpl; split; [by eauto| |done|].
  - by intros (? & [= ->] & ?).
  - by intros (? & ? & ?).
Qed.
End results_bind.

Section results.
Context {E A : Type}.

Lemma reject_if_ok c (e : E) : reject_if c e = Ok tt ↔ c = false.
Proof. by destruct c. Qed.

Lemma for_each_ok (f : A → result E unit) l :
  for_each f l = Ok tt ↔ Forall (λ x, f x = Ok tt) l.
Proof.
  induction l as [|x l IH]; simpl; [by split|].
  rewrite Forall_cons, <- IH. destruct (f x) as [[]|e]; simpl; [tauto|].
  split; [done|]. by intros [? _].
Qed.

(** The error of a loop is the error of its first failing element. *)
Lemma for_each_err (f : A → result E unit) l e :
  for_each f l = Err e ↔
  ∃ l1 x l2, l = l1 ++ x :: l2 ∧ Forall (λ y, f y = Ok tt) l1 ∧ f x = Err e.
Proof.
  induction l as [|x l IH]; simpl.
  { split; [done|]. intros (l1 & x & l2 & H & _). by destruct l1. }
  split.
  - destruct (f x) as [[]|e'] eqn:Hx; simpl.
    + rewrite IH. intros (l1 & y & l2 & -> & ? & ?).
      exists (x :: l1), y, l2. auto.
    + intros [= ->]. exists [], x, l. auto.
  - intros (l1 & y & l2 & Hl & Hall & Hy).
    destruct l1 as [|z l1]; simplify_eq/=; [by rewrite Hy|].
    apply Forall_cons in Hall as [-> Hall]. simpl. apply IH. eauto 10.
Qed.

Lemma for_each_from_ok (f : nat → A → result E unit) i l :
  for_each_from f i l = Ok tt ↔ ∀ j x, l !! j = Some x → f (i + j) x = Ok tt.
Proof.
  revert i. induction l as [|x l IH]; intros i; simpl; [by split|].
  rewrite bind_ok. setoid_rewrite IH. split.
  - intros ([] & Hx & Hl) [|j] y Hy; simplify_eq/=.
    + by rewrite Nat.add_0_r.
    + rewrite Nat.add_succ_r. by apply (Hl j).
  - intros H. exists tt. split; [rewrite <- (Nat.add_0_r i); by apply (H 0)|].
    intros j y Hy. replace (S i + j) with (i + S j) by lia. by apply (H (S j)).
Qed.
End results.

#[export] Hint Rewrite @bind_ok @reject_if_ok @for_each_ok : golib.

(** The parts of a result and a state. *)
Lemma triple_eta {A B C} (x : A * (B * C)) : x = (x.1, (x.2.1, x.2.2)).
Proof. by destruct x as [? []]. Qed.

(** [sort.Strings] permutes and orders its argument. *)
Lemma sort_strings_perm l : sort_strings l ≡ₚ l.
Proof. apply merge_sort_Permutation. Qed.

Lemma sort_strings_sorted l : Sorted String.le (sort_strings l).
Proof. apply Sorted_merge_sort, _. Qed.

Lemma elem_of_sort_strings x l : x ∈ sort_strings l ↔ x ∈ l.
Proof. by rewrite sort_strings_perm. Qed.

Lemma NoDup_sort_strings l : NoDup (sort_strings l) ↔ NoDup l.
Proof. by rewrite sort_strings_perm. Qed.

(** Two lists with the same elements sort to the same list. *)
Lemma sort_strings_proper l1 l2 : l1 ≡ₚ l2 → sort_strings l1 = sort_strings l2.
Proof.
  intros H. apply (Sorted_unique String.le).
  - apply sort_strings_sorted.
  - apply sort_strings_sorted.
  - by rewrite !sort_strings_perm.
Qed.

#[global] Instance sort_strings_Proper : Proper ((≡ₚ) ==> (=)) sort_strings.
Proof. intros ???. by apply sort_strings_proper. Qed.

Lemma elem_of_sorted_map_keys {V} (m : gmap string V) k :
  k ∈ sorted_map_keys m ↔ is_Some (m !! k).
Proof.
  unfold sorted_map_keys. rewrite elem_of_sort_strings, list_elem_of_fmap. split.
  - intros ([k' v] & -> & H%elem_of_map_to_list). by exists v.
  - intros [v H]. exists (k, v). by rewrite elem_of_map_to_list.
Qed.

Lemma NoDup_sorted_map_keys {V} (m : gmap string V) : NoDup (sorted_map_keys m).
Proof. apply NoDup_sort_strings, NoDup_fst_map_to_list. Qed.

#[export] Hint Resolve sort_strings_sorted NoDup_sorted_map_keys : golib.

Lemma wrap64_range z : (0 ≤ wrap64 z ≤ max_uint64)%Z.
Proof.
  unfold wrap64, max_uint64. pose proof (Z.mod_pos_bound z (2 ^ 64) ltac:(lia)). lia.
Qed.
#[export] Hint Resolve wrap64_range : golib.
