(* ===== verification/Effects.v ===== *)
(** * Effectful programs, crash points and a program logic

    A procedure that makes system calls or publishes messages is a tree
    [prog]: [Ret a] returned [a], [Vis o k] performs operation [o] and goes on
    with its response.  The environment answers by a relation [sem], which may
    be non-deterministic (every call can fail).  A process that is killed
    stops between two operations, so a property of the world at every crash
    point is a property of every world a small step reaches; [wp] is the
    weakest precondition that establishes it. *)

From S2P Require Import Prelude.
From stdpp Require Import relations.

(** ** Programs *)

Section prog.
Context {Op : Type} {resp : Op → Type}.

Inductive prog (A : Type) : Type :=
| Ret (a : A)
| Vis (o : Op) (k : resp o → prog A).
Arguments Ret {A} a.
Arguments Vis {A} o k.

Fixpoint prog_bind {A B} (f : A → prog B) (p : prog A) : prog B :=
  match p with
  | Ret a => f a
  | Vis o k => Vis o (λ r, prog_bind f (k r))
  end.

#[global] Instance prog_ret : MRet prog := λ A a, Ret a.
#[global] Instance prog_mbind : MBind prog := λ A B f p, prog_bind f p.

(** Perform one operation. *)
Definition perform (o : Op) : prog (resp o) := Vis o Ret.

(** A fallible program: [if err := f(); err != nil { return err }]. *)
Definition eprog (E A : Type) : Type := prog (result E A).

Definition ebind {E A B} (p : eprog E A) (f : A → eprog E B) : eprog E B :=
  prog_bind (λ r, match r with Ok a => f a | Err e => Ret (Err e) end) p.

Definition elift {E A} (r : result E A) : eprog E A := Ret r.

Definition emap_err {E E' A} (g : E → E') (p : eprog E A) : eprog E' A :=
  prog_bind (λ r, Ret (map_err g r)) p.

(** [for _, x := range l { if err := f(x); err != nil { return err } }] *)
Fixpoint efor_each {E X} (f : X → eprog E unit) (l : list X) : eprog E unit :=
  match l with
  | [] => Ret (Ok tt)
  | x :: l => ebind (f x) (λ _, efor_each f l)
  end.

(** Run the program against a deterministic environment. *)
Fixpoint run {W A} (h : ∀ o, W → resp o * W) (p : prog A) (w : W) : A * W :=
  match p with
  | Ret a => (a, w)
  | Vis o k => let '(r, w') := h o w in run h (k r) w'
  end.

(** The same run, killed after [n] operations or at one [h] does not answer. *)
Fixpoint run_for {W A} (n : nat) (h : ∀ o, W → option (resp o * W)) (p : prog A) (w : W)
    : prog A * W :=
  match n, p with
  | S n, Vis o k =>
      match h o w with
      | Some (r, w') => run_for n h (k r) w'
      | None => (p, w)
      end
  | _, _ => (p, w)
  end.

(** A complete conversation with the environment, whatever it answers: the
    operations with their responses, and the result. *)
Fixpoint path {A} (p : prog A) (l : list {o : Op & resp o}) (a : A) : Prop :=
  match p with
  | Ret b => l = [] ∧ a = b
  | Vis o k => ∃ r l', l = existT o r :: l' ∧ path (k r) l' a
  end.

(** No path of the program performs an operation of [bad]. *)
Fixpoint avoids {A} (bad : Op → Prop) (p : prog A) : Prop :=
  match p with
  | Ret _ => True
  | Vis o k => ¬ bad o ∧ ∀ r, avoids bad (k r)
  end.

(** ** Small steps *)

Section semantics.
Context {W : Type} (sem : ∀ o, W → resp o → W → Prop).

Inductive pstep {A} : prog A * W → prog A * W → Prop :=
| pstep_vis o k w r w' : sem o w r w' → pstep (Vis o k, w) (k r, w').

(** [I] holds at every crash point, [Q] of the result if the program ends. *)
Fixpoint wp {A} (I : W → Prop) (p : prog A) (Q : A → W → Prop) (w : W) : Prop :=
  I w ∧
  match p with
  | Ret a => Q a w
  | Vis o k => ∀ r w', sem o w r w' → wp I (k r) Q w'
  end.

(** A failed step of a fallible program leaves it with [F]. *)
Definition ewp {E A} (I : W → Prop) (p : eprog E A) (Q : A → W → Prop)
    (F : W → Prop) (w : W) : Prop :=
  wp I p (λ r w, match r with Ok a => Q a w | Err _ => F w end) w.
End semantics.
End prog.

Arguments prog {Op} resp A.
Arguments eprog {Op} resp E A.
Arguments Ret {Op resp A} a.
Arguments Vis {Op resp A} o k.

(** Bind of the fallible programs: [let! x := p in q] and
    [do! p in q]. *)
Notation "'let!' x ':=' p 'in' q" := (ebind p (λ x, q))
  (at level 10, x name, p at level 100, q at level 200, only parsing) : stdpp_scope.
Notation "'do!' p 'in' q" := (ebind p (λ _, q))
  (at level 10, p at level 100, q at level 200, only parsing) : stdpp_scope.

(** ** Rules *)

Section rules.
Context {Op : Type} {resp : Op → Type} {W : Type} (sem : ∀ o, W → resp o → W → Prop).

Lemma wp_crash {A} I (p : prog resp A) Q w : wp sem I p Q w → I w.
Proof. by destruct p; intros [? _]. Qed.

Lemma wp_mono {A} (I : W → Prop) (p : prog resp A) (Q Q' : A → W → Prop) w :
  (∀ a w, I w → Q a w → Q' a w) → wp sem I p Q w → wp sem I p Q' w.
Proof.
  intros HQ. revert w. induction p as [a|o k IH]; intros w [HI H]; (split; [done|]).
  - by apply HQ.
  - intros r w' Hr. by apply IH, H.
Qed.

(** The rule of consequence, crash condition included. *)
Lemma wp_weaken {A} (I I' : W → Prop) (p : prog resp A) (Q Q' : A → W → Prop) w :
  (∀ w, I w → I' w) → (∀ a w, Q a w → wp sem I' (Ret a) Q' w) →
  wp sem I p Q w → wp sem I' p Q' w.
Proof.
  intros HI HQ. revert w. induction p as [a|o k IH]; intros w [H0 H].
  - by apply HQ.
  - split; [by apply HI|]. intros r w' Hr. by apply IH, H.
Qed.

Lemma wp_bind {A B} (I : W → Prop) (p : prog resp A) (f : A → prog resp B) Q w :
  wp sem I p (λ a w, wp sem I (f a) Q w) w → wp sem I (prog_bind f p) Q w.
Proof.
  revert w. induction p as [a|o k IH]; intros w [HI H]; [done|].
  split; [done|]. intros r w' Hr. by apply IH, H.
Qed.

Lemma ewp_mono {E A} I (p : eprog resp E A) Q Q' (F F' : W → Prop) w :
  (∀ a w, I w → Q a w → Q' a w) → (∀ w, I w → F w → F' w) →
  ewp sem I p Q F w → ewp sem I p Q' F' w.
Proof. intros HQ HF. apply wp_mono. intros [a|e] w'; auto. Qed.

Lemma ewp_bind {E A B} (I : W → Prop) (p : eprog resp E A) (f : A → eprog resp E B) Q F w :
  ewp sem I p (λ a w, ewp sem I (f a) Q F w) F w → ewp sem I (ebind p f) Q F w.
Proof.
  intros H. apply wp_bind. eapply wp_mono; [|exact H].
  intros [a|e] w' HI Hr; [done|]. by split.
Qed.

Lemma ewp_map_err {E E' A} (g : E → E') I (p : eprog resp E A) Q F w :
  ewp sem I p Q F w → ewp sem I (emap_err g p) Q F w.
Proof.
  intros H. apply wp_bind. eapply wp_mono; [|exact H].
  intros [a|e] w' HI Hr; by split.
Qed.

Lemma avoids_bind {A B} (bad : Op → Prop) (f : A → prog resp B) p :
  avoids bad p → (∀ a, avoids bad (f a)) → avoids bad (prog_bind f p).
Proof. intros Hp Hf. induction p as [a|o k IH]; [apply Hf|]. destruct Hp. split; auto. Qed.

Lemma avoids_ebind {E A B} (bad : Op → Prop) (f : A → eprog resp E B) (p : eprog resp E A) :
  avoids bad p → (∀ a, avoids bad (f a)) → avoids bad (ebind p f).
Proof. intros Hp Hf. apply avoids_bind; [done|]. by intros [a|e]. Qed.

(** A loop with an invariant on the part of the list still to do. *)
Lemma ewp_for_each {E X} (f : X → eprog resp E unit) (J : list X → W → Prop) I F l w :
  (∀ x l w, J (x :: l) w → ewp sem I (f x) (λ _ w, J l w) F w) →
  (∀ w, J [] w → I w) →
  J l w → ewp sem I (efor_each f l) (λ _ w, J [] w) F w.
Proof.
  intros Hf HI. revert w. induction l as [|x l IH]; intros w HJ; simpl.
  - split; [by apply HI|done].
  - apply ewp_bind. eapply ewp_mono; [| |by apply Hf]; [|done].
    intros ? w' _. apply IH.
Qed.

(** Soundness: [wp] speaks of every state the steps reach. *)
Lemma wp_step {A} I (c c' : prog resp A * W) Q :
  pstep sem c c' → wp sem I c.1 Q c.2 → wp sem I c'.1 Q c'.2.
Proof. destruct 1. intros [_ H']. simpl in *. auto. Qed.

Lemma wp_steps {A} I (c c' : prog resp A * W) Q :
  rtc (pstep sem) c c' → wp sem I c.1 Q c.2 → wp sem I c'.1 Q c'.2.
Proof. induction 1; eauto using wp_step. Qed.

Lemma wp_sound {A} I (p p' : prog resp A) Q w w' :
  wp sem I p Q w → rtc (pstep sem) (p, w) (p', w') →
  I w' ∧ (∀ a, p' = Ret a → Q a w').
Proof.
  intros Hwp Hs. apply (wp_steps I _ _ Q) in Hs; [|done]. simpl in Hs.
  split; [by eapply wp_crash|]. intros a ->. by destruct Hs.
Qed.

(** A run against a deterministic environment is a sequence of steps. *)
Lemma run_steps {A} (h : ∀ o, W → resp o * W) (p : prog resp A) w a w' :
  (∀ o w r w', h o w = (r, w') → sem o w r w') →
  run h p w = (a, w') → rtc (pstep sem) (p, w) (Ret a, w').
Proof.
  intros Hh. revert w. induction p as [b|o k IH]; intros w H; simpl in H.
  - by simplify_eq.
  - destruct (h o w) as [r w1] eqn:Ho. eapply rtc_l; [by constructor; apply Hh|].
    by apply IH.
Qed.

Lemma run_for_steps {A} n (h : ∀ o, W → option (resp o * W)) (p : prog resp A) w :
  (∀ o w r w', h o w = Some (r, w') → sem o w r w') →
  rtc (pstep sem) (p, w) (run_for n h p w).
Proof.
  intros Hh. revert p w. induction n as [|n IH]; intros [a|o k] w; simpl; try done.
  destruct (h o w) as [[r w1]|] eqn:Ho; [|done].
  eapply rtc_l; [by constructor; apply Hh|]. apply IH.
Qed.

(** ** Conversations *)

Lemma path_bind {A B} (f : A → prog resp B) p l b :
  path (prog_bind f p) l b ↔ ∃ l1 a l2, l = l1 ++ l2 ∧ path p l1 a ∧ path (f a) l2 b.
Proof.
  revert l. induction p as [a|o k IH]; intros l; cbn.
  - split; [by exists [], a, l|]. by intros (l1 & a' & l2 & -> & [-> ->] & H).
  - setoid_rewrite IH. split.
    + intros (r & l' & -> & l1 & a & l2 & -> & ? & ?). exists (existT o r :: l1), a, l2. eauto 10.
    + intros (l1 & a & l2 & -> & (r & l' & -> & ?) & ?). exists r, (l' ++ l2). eauto 10.
Qed.

(** ** Complete runs *)

(** [p] started in [w] can end in [w'] with result [a]. *)
Definition exec {A} (p : prog resp A) (w : W) (a : A) (w' : W) : Prop :=
  rtc (pstep sem) (p, w) (Ret a, w').

Lemma exec_ret {A} (a b : A) w w' : exec (Ret a) w b w' ↔ a = b ∧ w = w'.
Proof.
  split; [|intros [-> ->]; apply rtc_refl].
  intros H. inversion H as [|? ? ? Hs]; subst; [done|].
  inversion Hs.
Qed.

Lemma exec_vis {A} o (k : resp o → prog resp A) w b w' :
  exec (Vis o k) w b w' ↔ ∃ r w1, sem o w r w1 ∧ exec (k r) w1 b w'.
Proof.
  split.
  - intros H. inversion H as [|? ? ? Hs Hr]; subst.
    refine (match Hs in pstep _ c c' return
      match c with (Vis o k, w) => rtc (pstep sem) c' (Ret b, w') →
        ∃ r w1, sem o w r w1 ∧ exec (k r) w1 b w' | _ => True end
      with pstep_vis _ _ _ _ _ _ _ => _ end Hr).
    intros Hr'. eauto.
  - intros (r & w1 & Hs & Hr). eapply rtc_l; [by constructor|done].
Qed.

Lemma exec_bind {A B} (f : A → prog resp B) p w b w' :
  exec (prog_bind f p) w b w' ↔ ∃ a w1, exec p w a w1 ∧ exec (f a) w1 b w'.
Proof.
  revert w. induction p as [a|o k IH]; intros w; simpl.
  - setoid_rewrite exec_ret. split; [by eauto|]. by intros (? & ? & [-> ->] & ?).
  - rewrite exec_vis. setoid_rewrite exec_vis. setoid_rewrite IH. split.
    + intros (r & w1 & Hs & a & w2 & Hr & Hf). eauto 10.
    + intros (a & w2 & (r & w1 & Hs & Hr) & Hf). eauto 10.
Qed.
End rules.
