(* ===== verification/GoString.v ===== *)
(** * Go strings

    The functions of Go's [strings], [fmt] and [path/filepath] packages that
    the program calls, on Go strings.  A Go string is a sequence of bytes: an
    [ascii] is one byte, and a string literal of the source is the bytes of its
    UTF-8 encoding. *)

From S2P Require Import Prelude.
From Stdlib Require Import Ascii.

(** ** Bytes *)

Definition byte_of (n : N) : ascii := ascii_of_N n.
Definition code (c : ascii) : N := N_of_ascii c.

(** [lo <= c && c <= hi] *)
Definition in_range (lo hi c : ascii) : bool :=
  (code lo <=? code c)%N && (code c <=? code hi)%N.

Definition is_digit (c : ascii) : bool := in_range "0" "9" c.
Definition is_lower (c : ascii) : bool := in_range "a" "z" c.
Definition is_upper (c : ascii) : bool := in_range "A" "Z" c.

(** ** Strings as byte sequences *)

(** Every byte of [s] satisfies [p]. *)
Fixpoint str_forall (p : ascii → bool) (s : string) : bool :=
  match s with
  | EmptyString => true
  | String c s => p c && str_forall p s
  end.

(** [strings.IndexByte(s, c)]; [None] is -1. *)
Fixpoint index_byte (s : string) (c : ascii) : option nat :=
  match s with
  | EmptyString => None
  | String a s => if Ascii.eqb a c then Some 0 else S <$> index_byte s c
  end.

(** [strings.IndexByte(s, c) >= 0] *)
Definition has_byte (s : string) (c : ascii) : bool :=
  negb (str_forall (λ a, negb (Ascii.eqb a c)) s).

(** [strings.ContainsAny(s, chars)] for a set of ASCII characters. *)
Definition contains_any (s chars : string) : bool :=
  negb (str_forall (λ a, negb (has_byte chars a)) s).

(** [s[:n]] and [s[n:]], for [n <= len(s)]. *)
Fixpoint str_take (n : nat) (s : string) : string :=
  match n, s with
  | S n, String c s => String c (str_take n s)
  | _, _ => EmptyString
  end.
Fixpoint str_drop (n : nat) (s : string) : string :=
  match n, s with
  | S n, String _ s => str_drop n s
  | _, _ => s
  end.

(** [strings.HasPrefix] *)
Fixpoint has_prefix (s p : string) {struct p} : bool :=
  match p, s with
  | EmptyString, _ => true
  | String a p, String b s => Ascii.eqb a b && has_prefix s p
  | _, _ => false
  end.

(** ** [strings.Split], [strings.Join] and [strings.Trim] *)

(** [strings.Split(s, sep)] for a one-byte separator; never empty. *)
Fixpoint split_on (sep : ascii) (s : string) : list string :=
  match s with
  | EmptyString => [""]
  | String c s =>
      if Ascii.eqb c sep then "" :: split_on sep s
      else match split_on sep s with
           | [] => [String c ""]
           | w :: ws => String c w :: ws
           end
  end.

(** [strings.Join(l, sep)] *)
Fixpoint join (sep : string) (l : list string) : string :=
  match l with
  | [] => ""
  | [w] => w
  | w :: ws => w +:+ sep +:+ join sep ws
  end.

(** [strings.Trim(s, cutset)] for a one-byte cutset. *)
Fixpoint trim_left_byte (c : ascii) (s : string) : string :=
  match s with
  | String a s' => if Ascii.eqb a c then trim_left_byte c s' else s
  | EmptyString => EmptyString
  end.
Fixpoint trim_right_byte (c : ascii) (s : string) : string :=
  match s with
  | EmptyString => EmptyString
  | String a s =>
      match trim_right_byte c s with
      | EmptyString => if Ascii.eqb a c then EmptyString else String a EmptyString
      | s' => String a s'
      end
  end.
Definition trim_byte (c : ascii) (s : string) : string :=
  trim_right_byte c (trim_left_byte c s).

(** ** [strings.TrimSpace]

    [unicode.IsSpace] holds of the ASCII spaces, U+0085, U+00A0, U+1680,
    U+2000..U+200A, U+2028, U+2029, U+202F, U+205F and U+3000; these are the
    one-, two- and three-byte encodings below.  UTF-8 is self-synchronising, so
    a prefix or suffix of the string with these bytes is decoded as that rune. *)

Definition space1 (a : ascii) : bool :=
  Ascii.eqb a " " || ((9 <=? code a)%N && (code a <=? 13)%N).
Definition space2 (a b : ascii) : bool :=
  (code a =? 194)%N && ((code b =? 133)%N || (code b =? 160)%N).
Definition space3 (a b c : ascii) : bool :=
  ((code a =? 225)%N && (code b =? 154)%N && (code c =? 128)%N)
  || ((code a =? 226)%N && (code b =? 128)%N
      && (((128 <=? code c)%N && (code c <=? 138)%N)
          || (code c =? 168)%N || (code c =? 169)%N || (code c =? 175)%N))
  || ((code a =? 226)%N && (code b =? 129)%N && (code c =? 159)%N)
  || ((code a =? 227)%N && (code b =? 128)%N && (code c =? 128)%N).

Section trim_space.
Context (sp2 : ascii → ascii → bool) (sp3 : ascii → ascii → ascii → bool).

Fixpoint trim_start (s : string) : string :=
  match s with
  | EmptyString => EmptyString
  | String a s1 =>
      if space1 a then trim_start s1 else
      match s1 with
      | EmptyString => s
      | String b s2 =>
          if sp2 a b then trim_start s2 else
          match s2 with
          | EmptyString => s
          | String c s3 => if sp3 a b c then trim_start s3 else s
          end
      end
  end.
End trim_space.

Definition trim_left_space (s : string) : string := trim_start space2 space3 s.
(** The reversed string starts with the last byte. *)
Definition trim_right_space (s : string) : string :=
  String.rev (trim_start (λ b a, space2 a b) (λ c b a, space3 a b c) (String.rev s)).
Definition trim_space (s : string) : string := trim_right_space (trim_left_space s).

(** ** [strings.ToUpper]

    ASCII letters are mapped as Go does.  Outside ASCII exactly two runes have
    an ASCII upper case, U+0131 (to [I]) and U+017F (to [S]); every other
    non-ASCII sequence keeps its bytes here, where Go may map it to another
    non-ASCII sequence: a comparison of the result with an ASCII string, the
    only use the program makes of it, has the same answer. *)
Definition upper_ascii (c : ascii) : ascii :=
  if is_lower c then byte_of (code c - 32) else c.
Fixpoint to_upper (s : string) : string :=
  match s with
  | EmptyString => EmptyString
  | String a s1 =>
      match s1 with
      | String b s2 =>
          if (code a =? 196)%N && (code b =? 177)%N then String "I" (to_upper s2)
          else if (code a =? 197)%N && (code b =? 191)%N then String "S" (to_upper s2)
          else String (upper_ascii a) (to_upper s1)
      | EmptyString => String (upper_ascii a) EmptyString
      end
  end.

(** [fmt.Sprintf("%d", n)] *)
Definition fmt_d (n : Z) : string := pretty n.

(** ** Lemmas *)

Lemma str_forall_app p s1 s2 :
  str_forall p (s1 +:+ s2) = str_forall p s1 && str_forall p s2.
Proof.
  induction s1 as [|c s1 IH]; [done|].
  change (String c s1 +:+ s2) with (String c (s1 +:+ s2)). simpl.
  by rewrite IH, andb_assoc.
Qed.

Lemma str_app_nil_r s : s +:+ "" = s.
Proof.
  induction s as [|c s IH]; [done|].
  change (String c (s +:+ "") = String c s). by rewrite IH.
Qed.

Lemma str_app_assoc s1 s2 s3 : (s1 +:+ s2) +:+ s3 = s1 +:+ s2 +:+ s3.
Proof.
  induction s1 as [|c s1 IH]; [done|].
  change (String c ((s1 +:+ s2) +:+ s3) = String c (s1 +:+ s2 +:+ s3)).
  by rewrite IH.
Qed.

Lemma str_cons_app c s1 s2 : String c s1 +:+ s2 = String c (s1 +:+ s2).
Proof. done. Qed.
Lemma str_nil_app s : "" +:+ s = s.
Proof. done. Qed.
#[export] Hint Rewrite str_app_nil_r str_app_assoc str_cons_app str_nil_app
  str_forall_app : golib.

Lemma has_byte_app c s1 s2 : has_byte (s1 +:+ s2) c = has_byte s1 c || has_byte s2 c.
Proof. unfold has_byte. by rewrite str_forall_app, negb_andb. Qed.

Lemma has_byte_cons c a s : has_byte (String a s) c = Ascii.eqb a c || has_byte s c.
Proof. unfold has_byte. simpl. by rewrite negb_andb, negb_involutive. Qed.
#[export] Hint Rewrite has_byte_app has_byte_cons : golib.

Lemma str_forall_impl (p q : ascii → bool) s :
  (∀ c, p c = true → q c = true) → str_forall p s = true → str_forall q s = true.
Proof.
  intros Hpq. induction s as [|c s IH]; simpl; [done|].
  rewrite !andb_true_iff. intros [? ?]. auto.
Qed.

(** The last separator of a string is unique: two strings that end with a
    separator followed by separator-free text split the same way. *)
Lemma last_sep_inj c s1 t1 s2 t2 :
  has_byte t1 c = false → has_byte t2 c = false →
  s1 +:+ String c t1 = s2 +:+ String c t2 → s1 = s2 ∧ t1 = t2.
Proof.
  intros H1 H2. revert s2.
  induction s1 as [|a s1 IH]; intros [|b s2]; autorewrite with golib; intros Heq.
  - by injection Heq.
  - injection Heq as -> ->. revert H1. autorewrite with golib.
    by rewrite Ascii.eqb_refl, orb_true_r.
  - injection Heq as -> <-. revert H2. autorewrite with golib.
    by rewrite Ascii.eqb_refl, orb_true_r.
  - injection Heq as -> Heq. by destruct (IH _ Heq) as [-> ->].
Qed.

(** Decimal numerals are made of digits (and a leading minus sign). *)
Lemma pretty_N_char_digit x : is_digit (pretty_N_char x) = true.
Proof. destruct x as [|p]; [done|]. by repeat (destruct p as [p|p|]; try done). Qed.

Lemma pretty_N_go_forall p x s :
  (∀ d, p (pretty_N_char d) = true) →
  str_forall p s = true → str_forall p (pretty_N_go x s) = true.
Proof.
  intros Hp. revert s. induction (N.lt_wf_0 x) as [x _ IH]; intros s Hs.
  destruct (decide (x = 0%N)) as [->|]; [by rewrite pretty_N_go_0|].
  rewrite pretty_N_go_step by lia. apply IH; [apply N.div_lt; lia|].
  simpl. by rewrite Hp, Hs.
Qed.

Lemma fmt_d_digits n : (0 ≤ n)%Z → str_forall is_digit (fmt_d n) = true.
Proof.
  intros Hn. destruct n as [|p|p]; [done| |lia].
  unfold fmt_d, pretty, pretty_Z, pretty, pretty_positive, pretty, pretty_N.
  case_decide; [done|]. apply pretty_N_go_forall; [|done].
  apply pretty_N_char_digit.
Qed.

Lemma fmt_d_no_byte c n :
  (0 ≤ n)%Z → is_digit c = false → has_byte (fmt_d n) c = false.
Proof.
  intros Hn Hc. apply negb_false_iff.
  apply (str_forall_impl is_digit); [|by apply fmt_d_digits].
  intros a Ha. destruct (Ascii.eqb_spec a c); [congruence|done].
Qed.

#[global] Instance fmt_d_inj : Inj (=) (=) fmt_d.
Proof. apply pretty_Z_inj. Qed.

(** [fmt.Sprintf("%s:%d", s, n)] is injective on non-negative numbers: the
    string part may contain colons, the numeral may not. *)
Lemma sprintf_colon_inj s1 s2 n1 n2 :
  (0 ≤ n1)%Z → (0 ≤ n2)%Z →
  s1 +:+ ":" +:+ fmt_d n1 = s2 +:+ ":" +:+ fmt_d n2 → s1 = s2 ∧ n1 = n2.
Proof.
  intros H1 H2 Heq.
  destruct (last_sep_inj ":" s1 (fmt_d n1) s2 (fmt_d n2)) as [-> Hd];
    [by apply fmt_d_no_byte..|exact Heq|].
  split; [done|]. by apply (inj fmt_d).
Qed.

(** ** Lemmas: searching and slicing *)

Lemma str_length_app s1 s2 : String.length (s1 +:+ s2) = String.length s1 + String.length s2.
Proof. induction s1 as [|c s1 IH]; [done|]. rewrite str_cons_app. simpl. by rewrite IH. Qed.

Lemma str_length_drop n s : String.length (str_drop n s) = String.length s - n.
Proof. revert s. induction n as [|n IH]; intros [|c s]; simpl; [done..|apply IH]. Qed.

Lemma index_byte_app name c s :
  has_byte name c = false → index_byte (name +:+ String c s) c = Some (String.length name).
Proof.
  induction name as [|a name IH]; autorewrite with golib; intros H; simpl.
  - by rewrite Ascii.eqb_refl.
  - apply orb_false_iff in H as [-> H]. by rewrite IH.
Qed.

Lemma str_take_all n s : String.length s ≤ n → str_take n s = s.
Proof.
  revert n. induction s as [|c s IH]; intros [|n] Hn; simpl in *; try done; [lia|].
  f_equal. apply IH. lia.
Qed.

Lemma str_take_app n s1 s2 : n = String.length s1 → str_take n (s1 +:+ s2) = s1.
Proof.
  intros ->. induction s1 as [|c s1 IH]; [by destruct s2|].
  rewrite str_cons_app. simpl. by rewrite IH.
Qed.

Lemma str_drop_app n s1 s2 : n = String.length s1 → str_drop n (s1 +:+ s2) = s2.
Proof.
  intros ->. induction s1 as [|c s1 IH]; [done|]. rewrite str_cons_app. exact IH.
Qed.

(** ** Lemmas: splitting *)

Lemma split_on_nonempty c s : split_on c s ≠ [].
Proof. destruct s as [|a s]; simpl; [done|]. repeat case_match; done. Qed.

Lemma split_on_none c s : has_byte s c = false → split_on c s = [s].
Proof.
  induction s as [|a s IH]; autorewrite with golib; [done|].
  intros [Ha Hs]%orb_false_iff. simpl. by rewrite Ha, IH.
Qed.

Lemma split_on_app c s1 s2 :
  split_on c (s1 +:+ String c s2) = split_on c s1 ++ split_on c s2.
Proof.
  induction s1 as [|a s1 IH]; [simpl; by rewrite Ascii.eqb_refl|].
  rewrite str_cons_app. simpl. rewrite IH.
  destruct (Ascii.eqb a c); [done|].
  pose proof (split_on_nonempty c s1). by destruct (split_on c s1).
Qed.

Lemma join_split c s : join (String c "") (split_on c s) = s.
Proof.
  induction s as [|a s IH]; [done|]. simpl.
  pose proof (split_on_nonempty c s) as Hne.
  destruct (Ascii.eqb_spec a c) as [->|Ha].
  - destruct (split_on c s) as [|w ws]; [done|]. by rewrite <- IH.
  - destruct (split_on c s) as [|w ws]; [done|]. rewrite <- IH. by destruct ws.
Qed.

(** A string without [c] on its parts. *)
Lemma has_byte_join c sep l :
  has_byte (join sep l) c = true → has_byte sep c = true ∨ Exists (λ w, has_byte w c = true) l.
Proof.
  induction l as [|w l IH]; [done|]. destruct l as [|w2 l]; simpl in *.
  - intros H. right. by left.
  - rewrite !has_byte_app. intros [H|[H|H]%orb_true_iff]%orb_true_iff; [right; by left|by left|].
    destruct (IH H); [by left|right; by right].
Qed.
