(* ===== verification/GoPath.v ===== *)
(** * Go paths

    The functions of [path/filepath] (on Unix) that the program uses. *)

From S2P Require Import Prelude GoString.
From Stdlib Require Import Ascii.

(** [filepath.IsAbs] *)
Definition IsAbs (path : string) : bool := has_prefix path "/".

(** One path element of [filepath.Clean]: the stack holds the elements already
    written, innermost first. *)
Definition clean_step (rooted : bool) (stack : list string) (e : string) : list string :=
  if decide (e = "") then stack
  else if decide (e = ".") then stack
  else if decide (e = "..") then
    match stack with
    | [] => if rooted then [] else [".."]
    | top :: rest => if decide (top = "..") then ".." :: stack else rest
    end
  else e :: stack.

(** [filepath.Clean] *)
Definition Clean (path : string) : string :=
  let rooted := IsAbs path in
  let out := join "/" (rev (foldl (clean_step rooted) [] (split_on "/" path))) in
  if rooted then "/" +:+ out else if decide (out = "") then "." else out.

(** The part of a path up to and including its last slash. *)
Fixpoint up_to_last_slash (s : string) : string :=
  match s with
  | EmptyString => EmptyString
  | String c s =>
      match up_to_last_slash s with
      | EmptyString => if Ascii.eqb c "/" then String c EmptyString else EmptyString
      | p => String c p
      end
  end.

(** [filepath.Dir] *)
Definition Dir (path : string) : string := Clean (up_to_last_slash path).

Example clean_examples :
  map Clean ["/a//b/./c/../d"; ""; "../a/.."; "/.."; "/"; "a/b/../../.."]
  = ["/a/b/d"; "."; ".."; "/"; "/"; ".."].
Proof. vm_compute. reflexivity. Qed.
Example dir_examples :
  map Dir ["/var/lib/x/state.json"; "state.json"; "/s"] = ["/var/lib/x"; "."; "/"].
Proof. vm_compute. reflexivity. Qed.
