(* ===== verification/GoJson.v ===== *)
(** * Go JSON

    The encoder of [encoding/json] for the values the program writes, and its
    string decoder, with their round trip.  Strings are written with
    [escapeHTML], invalid UTF-8 becomes the replacement character in both
    directions. *)

From S2P Require Import Prelude GoString.
From Stdlib Require Import Ascii.

(** ** [encoding/json]: strings *)

Definition between (lo hi : N) (c : ascii) : bool := (lo <=? code c)%N && (code c <=? hi)%N.
Definition cont (c : ascii) : bool := between 128 191 c.

Definition utf8_2 (a b : ascii) : bool := between 194 223 a && cont b.
Definition utf8_3 (a b c : ascii) : bool :=
  cont c && (((code a =? 224)%N && between 160 191 b)
             || ((between 225 236 a || between 238 239 a) && cont b)
             || ((code a =? 237)%N && between 128 159 b)).
Definition utf8_4 (a b c d : ascii) : bool :=
  cont c && cont d && (((code a =? 240)%N && between 144 191 b)
                       || (between 241 243 a && cont b)
                       || ((code a =? 244)%N && between 128 143 b)).

Definition hex_digit (n : N) : ascii :=
  byte_of (if (n <? 10)%N then 48 + n else 87 + n).

(** [\u00XX] *)
Definition u00 (c : ascii) : string :=
  "\u00" +:+ String (hex_digit (code c / 16)) (String (hex_digit (code c `mod` 16)) "").

(** The escape of an ASCII byte, with [escapeHTML]. *)
Definition escape_ascii (c : ascii) : string :=
  if (code c =? 34)%N then String "\" (String c "")
  else if (code c =? 92)%N then "\\"
  else if (code c =? 8)%N then "\b"
  else if (code c =? 12)%N then "\f"
  else if (code c =? 10)%N then "\n"
  else if (code c =? 13)%N then "\r"
  else if (code c =? 9)%N then "\t"
  else if (code c <? 32)%N || (code c =? 60)%N || (code c =? 62)%N || (code c =? 38)%N
  then u00 c
  else String c "".

(** The line separators U+2028 and U+2029. *)
Definition line_sep (a b c : ascii) : bool :=
  (code a =? 226)%N && (code b =? 128)%N && between 168 169 c.

(** [appendString]: the body of a JSON string; an invalid byte is written as
    the replacement character. *)
Fixpoint json_body (s : string) : string :=
  match s with
  | EmptyString => EmptyString
  | String a s1 =>
      if (code a <? 128)%N then escape_ascii a +:+ json_body s1 else
      match s1 with
      | String b s2 =>
          if utf8_2 a b then String a (String b (json_body s2)) else
          match s2 with
          | String c s3 =>
              if utf8_3 a b c then
                (if line_sep a b c
                 then "\u202" +:+ String (hex_digit (code c - 160)) (json_body s3)
                 else String a (String b (String c (json_body s3))))
              else
                match s3 with
                | String d s4 =>
                    if utf8_4 a b c d
                    then String a (String b (String c (String d (json_body s4))))
                    else "\ufffd" +:+ json_body s1
                | EmptyString => "\ufffd" +:+ json_body s1
                end
          | EmptyString => "\ufffd" +:+ json_body s1
          end
      | EmptyString => "\ufffd"
      end
  end.

Definition quote_char : ascii := byte_of 34.
Definition dq : string := String quote_char "".
Definition json_string (s : string) : string := dq +:+ json_body s +:+ dq.

(** ** [encoding/json]: values *)

Inductive json : Type :=
| JString (s : string)
| JBool (b : bool)
| JNumber (n : Z)
| JStrings (l : list string)
| JObject (fields : list (string * json)).

(** A Go map is written with its keys sorted. *)
Definition json_map (m : gmap string json) : json :=
  JObject (omap (λ k, v ← m !! k; Some (k, v)) (sorted_map_keys m)).

(** [json.Marshal] *)
Fixpoint Marshal (v : json) : string :=
  match v with
  | JString s => json_string s
  | JBool b => if b then "true" else "false"
  | JNumber n => fmt_d n
  | JStrings l => "[" +:+ join "," (map json_string l) +:+ "]"
  | JObject fields =>
      "{" +:+ join "," (map (λ '(k, v), json_string k +:+ ":" +:+ Marshal v) fields) +:+ "}"
  end.

(** ** Decoding strings *)

Definition hex_val (c : ascii) : option N :=
  if between 48 57 c then Some (code c - 48)%N
  else if between 97 102 c then Some (code c - 87)%N
  else if between 65 70 c then Some (code c - 55)%N
  else None.

Definition hex4 (a b c d : ascii) : option N :=
  x ← hex_val a; y ← hex_val b; z ← hex_val c; t ← hex_val d;
  Some (((x * 16 + y) * 16 + z) * 16 + t)%N.

(** [utf8.AppendRune] *)
Definition utf8_encode (r : N) : string :=
  let tail n := byte_of (128 + n `mod` 64) in
  (if r <? 128 then String (byte_of r) ""
   else if r <? 2048 then String (byte_of (192 + r / 64)) (String (tail r) "")
   else if r <? 65536 then
     String (byte_of (224 + r / 4096)) (String (tail (r / 64)) (String (tail r) ""))
   else String (byte_of (240 + r / 262144))
          (String (tail (r / 4096)) (String (tail (r / 64)) (String (tail r) ""))))%N.

Definition replacement : string := utf8_encode 65533.
Definition is_high (r : N) : bool := (55296 <=? r)%N && (r <=? 56319)%N.
Definition is_low (r : N) : bool := (56320 <=? r)%N && (r <=? 57343)%N.

(** The character after a backslash, other than [u]. *)
Definition unescape (e : ascii) : option ascii :=
  if (code e =? 34)%N || (code e =? 92)%N || (code e =? 47)%N then Some e
  else if Ascii.eqb e "b" then Some (byte_of 8)
  else if Ascii.eqb e "f" then Some (byte_of 12)
  else if Ascii.eqb e "n" then Some (byte_of 10)
  else if Ascii.eqb e "r" then Some (byte_of 13)
  else if Ascii.eqb e "t" then Some (byte_of 9)
  else None.

Definition prepend (s : string) (r : option (string * string)) : option (string * string) :=
  '(t, rest) ← r; Some (s +:+ t, rest).

(** The body of a JSON string up to its closing quote, and the rest of the
    input; [None] is a syntax error. *)
Fixpoint unquote (s : string) : option (string * string) :=
  match s with
  | EmptyString => None
  | String a s1 =>
      if (code a =? 34)%N then Some ("", s1)
      else if (code a =? 92)%N then
        match s1 with
        | EmptyString => None
        | String e s2 =>
            if Ascii.eqb e "u" then
              match s2 with
              | String h1 (String h2 (String h3 (String h4 s3))) =>
                  match hex4 h1 h2 h3 h4 with
                  | None => None
                  | Some r =>
                      if is_high r then
                        match s3 with
                        | String b (String u (String l1 (String l2 (String l3 (String l4 s4))))) =>
                            match hex4 l1 l2 l3 l4 with
                            | Some r2 =>
                                if (code b =? 92)%N && Ascii.eqb u "u" && is_low r2
                                then prepend (utf8_encode
                                       (65536 + (r - 55296) * 1024 + (r2 - 56320))) (unquote s4)
                                else prepend replacement (unquote s3)
                            | None => prepend replacement (unquote s3)
                            end
                        | _ => prepend replacement (unquote s3)
                        end
                      else if is_low r then prepend replacement (unquote s3)
                      else prepend (utf8_encode r) (unquote s3)
                  end
              | _ => None
              end
            else
              match unescape e with
              | None => None
              | Some c => prepend (String c "") (unquote s2)
              end
        end
      else if (code a <? 32)%N then None
      else if (code a <? 128)%N then prepend (String a "") (unquote s1)
      else
        match s1 with
        | EmptyString => None
        | String b s2 =>
            if utf8_2 a b then prepend (String a (String b "")) (unquote s2) else
            match s2 with
            | EmptyString => prepend replacement (unquote s1)
            | String c s3 =>
                if utf8_3 a b c
                then prepend (String a (String b (String c ""))) (unquote s3) else
                match s3 with
                | EmptyString => prepend replacement (unquote s1)
                | String d s4 =>
                    if utf8_4 a b c d
                    then prepend (String a (String b (String c (String d "")))) (unquote s4)
                    else prepend replacement (unquote s1)
                end
            end
        end
  end.

(** [utf8.ValidString] *)
Fixpoint valid_utf8 (s : string) : bool :=
  match s with
  | EmptyString => true
  | String a s1 =>
      if (code a <? 128)%N then valid_utf8 s1 else
      match s1 with
      | EmptyString => false
      | String b s2 =>
          if utf8_2 a b then valid_utf8 s2 else
          match s2 with
          | EmptyString => false
          | String c s3 =>
              if utf8_3 a b c then valid_utf8 s3 else
              match s3 with
              | EmptyString => false
              | String d s4 => if utf8_4 a b c d then valid_utf8 s4 else false
              end
          end
      end
  end.

Example unquote_examples :
  unquote (String "\" ("u00e9\n\ud83d\ude00" +:+ dq +:+ " rest"))
  = Some ("é" +:+ String (byte_of 10) "😀", " rest").
Proof. vm_compute. reflexivity. Qed.

(** ** Lemmas: UTF-8 *)

(** Turn byte tests into inequalities on codes. *)
Ltac byte_facts :=
  unfold line_sep, utf8_2, utf8_3, utf8_4, cont, between in *;
  repeat match goal with
  | H : _ && _ = true |- _ => apply andb_true_iff in H as [??]
  | H : _ || _ = true |- _ => apply orb_true_iff in H as [?|?]
  | H : (_ <=? _)%N = true |- _ => apply N.leb_le in H
  | H : (_ <? _)%N = true |- _ => apply N.ltb_lt in H
  | H : (_ =? _)%N = true |- _ => apply N.eqb_eq in H
  end.

(** Decide the byte tests of the goal from such inequalities. *)
Ltac byte_eval :=
  repeat match goal with
  | |- context [(?x <? ?y)%N] =>
      first [rewrite (proj2 (N.ltb_lt x y)) by lia | rewrite (proj2 (N.ltb_ge x y)) by lia]
  | |- context [(?x =? ?y)%N] => rewrite (proj2 (N.eqb_neq x y)) by lia
  end.

Lemma utf8_2_lead a b : utf8_2 a b = true → (194 ≤ code a ≤ 223)%N.
Proof. intros H. byte_facts; lia. Qed.
Lemma utf8_3_lead a b c : utf8_3 a b c = true → (224 ≤ code a ≤ 239)%N.
Proof. intros H. byte_facts; lia. Qed.
Lemma utf8_4_lead a b c d : utf8_4 a b c d = true → (240 ≤ code a ≤ 244)%N.
Proof. intros H. byte_facts; lia. Qed.

Lemma utf8_2_not a b : (code a < 194 ∨ 223 < code a)%N → utf8_2 a b = false.
Proof. intros H. apply not_true_iff_false. intros ?%utf8_2_lead. lia. Qed.
Lemma utf8_3_not a b c : (code a < 224 ∨ 239 < code a)%N → utf8_3 a b c = false.
Proof. intros H. apply not_true_iff_false. intros ?%utf8_3_lead. lia. Qed.

(** Induction over the runes of a valid string. *)
Lemma valid_utf8_ind (P : string → Prop) :
  P "" →
  (∀ a s, (code a < 128)%N → P s → P (String a s)) →
  (∀ a b s, utf8_2 a b = true → P s → P (String a (String b s))) →
  (∀ a b c s, utf8_3 a b c = true → P s → P (String a (String b (String c s)))) →
  (∀ a b c d s, utf8_4 a b c d = true → P s →
     P (String a (String b (String c (String d s))))) →
  ∀ s, valid_utf8 s = true → P s.
Proof.
  intros H0 H1 H2 H3 H4 s. remember (String.length s) as n eqn:Hn.
  revert s Hn. induction (Nat.lt_wf_0 n) as [n _ IHn]. intros s ->.
  assert (∀ t, (String.length t < String.length s)%nat → valid_utf8 t = true → P t) as IH
    by eauto.
  clear IHn.
  destruct s as [|a s1]; [done|]. simpl. intros Hv.
  destruct (code a <? 128)%N eqn:Ha.
  { apply H1; [by apply N.ltb_lt|]. apply IH; [simpl; lia|done]. }
  destruct s1 as [|b s2]; [done|].
  destruct (utf8_2 a b) eqn:E2; [apply H2, IH; [done|simpl; lia|done]|].
  destruct s2 as [|c s3]; [done|].
  destruct (utf8_3 a b c) eqn:E3; [apply H3, IH; [done|simpl; lia|done]|].
  destruct s3 as [|d s4]; [done|].
  destruct (utf8_4 a b c d) eqn:E4; [apply H4, IH; [done|simpl; lia|done]|done].
Qed.

Lemma byte_of_code a n : code a = n → a = byte_of n.
Proof. intros <-. symmetry. apply ascii_N_embedding. Qed.

(** ** Lemmas: string round trip *)

Lemma unquote_escape_ascii a s :
  (code a < 128)%N → unquote (escape_ascii a +:+ s) = prepend (String a "") (unquote s).
Proof.
  intros Ha. destruct a as [[] [] [] [] [] [] [] []]; try reflexivity;
    exfalso; vm_compute in Ha; discriminate Ha.
Qed.

Lemma unquote_line_sep a b c s :
  line_sep a b c = true →
  unquote ("\u202" +:+ String (hex_digit (code c - 160)) s)
  = prepend (String a (String b (String c ""))) (unquote s).
Proof.
  intros H. byte_facts.
  rewrite (byte_of_code a 226), (byte_of_code b 128) by done.
  assert (code c = 168 ∨ code c = 169)%N as [Hc|Hc] by lia;
    rewrite Hc, (byte_of_code c _ Hc); reflexivity.
Qed.

Lemma prepend_Some s t rest : prepend s (Some (t, rest)) = Some (s +:+ t, rest).
Proof. done. Qed.

(** Decoding the body of an encoded string gives the string back. *)
Lemma unquote_json_body s rest :
  valid_utf8 s = true →
  unquote (json_body s +:+ String quote_char rest) = Some (s, rest).
Proof.
  revert s. apply valid_utf8_ind.
  - reflexivity.
  - intros a s Ha IH. cbn [json_body]. byte_eval.
    by rewrite str_app_assoc, unquote_escape_ascii, IH.
  - intros a b s H IH. apply utf8_2_lead in H as Hl. cbn [json_body]. byte_eval.
    rewrite H, !str_cons_app. cbn [unquote]. byte_eval. by rewrite H, IH.
  - intros a b c s H IH. apply utf8_3_lead in H as Hl. cbn [json_body]. byte_eval.
    rewrite utf8_2_not, H by lia. destruct (line_sep a b c) eqn:Hs.
    + rewrite str_app_assoc, (str_cons_app (hex_digit (code c - 160))), (unquote_line_sep a b c) by done. by rewrite IH.
    + rewrite !str_cons_app. cbn [unquote]. byte_eval.
      by rewrite utf8_2_not, H, IH by lia.
  - intros a b c d s H IH. apply utf8_4_lead in H as Hl. cbn [json_body]. byte_eval.
    rewrite utf8_2_not, utf8_3_not, H by lia. rewrite !str_cons_app. cbn [unquote].
    byte_eval. by rewrite utf8_2_not, utf8_3_not, H, IH by lia.
Qed.

(** ** Lemmas: decoded strings are valid UTF-8 *)

(** Linear arithmetic with division by constants. *)
Ltac dlia := zify; Z.to_euclidean_division_equations; lia.

Lemma code_byte_of n : (n < 256)%N → code (byte_of n) = n.
Proof. apply N_ascii_embedding. Qed.

Lemma valid_utf8_app s1 s2 :
  valid_utf8 s1 = true → valid_utf8 (s1 +:+ s2) = valid_utf8 s2.
Proof.
  revert s1. apply (valid_utf8_ind (λ s1, valid_utf8 (s1 +:+ s2) = valid_utf8 s2)).
  - done.
  - intros a s Ha IH. rewrite str_cons_app. cbn [valid_utf8].
    by rewrite (proj2 (N.ltb_lt _ _) Ha).
  - intros a b s H IH. apply utf8_2_lead in H as Hl. rewrite !str_cons_app.
    cbn [valid_utf8]. byte_eval. by rewrite H.
  - intros a b c s H IH. apply utf8_3_lead in H as Hl. rewrite !str_cons_app.
    cbn [valid_utf8]. byte_eval. by rewrite utf8_2_not, H by lia.
  - intros a b c d s H IH. apply utf8_4_lead in H as Hl. rewrite !str_cons_app.
    cbn [valid_utf8]. byte_eval. by rewrite utf8_2_not, utf8_3_not, H by lia.
Qed.

Lemma cont_tail n : cont (byte_of (128 + n `mod` 64)) = true.
Proof.
  unfold cont, between. rewrite code_byte_of by dlia.
  apply andb_true_iff; split; apply N.leb_le; dlia.
Qed.

(** Prove a byte test from arithmetic facts about the codes. *)
Ltac byte_prove :=
  repeat first
    [ apply andb_true_iff; split
    | apply N.leb_le; dlia | apply N.eqb_eq; dlia ].

Lemma utf8_2_encode r :
  (128 ≤ r < 2048)%N → utf8_2 (byte_of (192 + r / 64)) (byte_of (128 + r `mod` 64)) = true.
Proof.
  intros H. unfold utf8_2. rewrite cont_tail, andb_true_r. unfold between.
  rewrite code_byte_of by dlia. byte_prove.
Qed.

Lemma is_surrogate_false r :
  is_high r = false → is_low r = false → (r < 55296 ∨ 57343 < r)%N.
Proof.
  unfold is_high, is_low. rewrite !andb_false_iff, !N.leb_gt. lia.
Qed.

Lemma utf8_3_encode r :
  (2048 ≤ r < 65536)%N → is_high r = false → is_low r = false →
  utf8_3 (byte_of (224 + r / 4096)) (byte_of (128 + (r / 64) `mod` 64))
    (byte_of (128 + r `mod` 64)) = true.
Proof.
  intros H Hh Hl. pose proof (is_surrogate_false r Hh Hl) as Hs. clear Hh Hl.
  unfold utf8_3. rewrite !cont_tail. unfold between.
  rewrite !code_byte_of by dlia. rewrite !andb_true_r. cbn [andb].
  rewrite !orb_true_iff.
  destruct (decide (r / 4096 = 0)%N) as [H0|H0]; [left; left; byte_prove|].
  destruct (decide (r / 4096 = 13)%N) as [H1|H1]; [right; byte_prove|].
  left; right. destruct (decide (r / 4096 < 13)%N); [left|right]; byte_prove.
Qed.

Lemma utf8_4_encode r :
  (65536 ≤ r < 1114112)%N →
  utf8_4 (byte_of (240 + r / 262144)) (byte_of (128 + (r / 4096) `mod` 64))
    (byte_of (128 + (r / 64) `mod` 64)) (byte_of (128 + r `mod` 64)) = true.
Proof.
  intros H. unfold utf8_4. rewrite !cont_tail. unfold between.
  rewrite !code_byte_of by dlia. rewrite !andb_true_r. cbn [andb].
  rewrite !orb_true_iff.
  destruct (decide (r / 262144 = 0)%N) as [H0|H0]; [left; left; byte_prove|].
  destruct (decide (r / 262144 = 4)%N) as [H1|H1]; [right; byte_prove|].
  left; right. byte_prove.
Qed.

Lemma valid_utf8_encode r :
  (r < 1114112)%N → is_high r = false → is_low r = false → valid_utf8 (utf8_encode r) = true.
Proof.
  intros Hr Hh Hl. unfold utf8_encode.
  destruct (N.ltb_spec r 128).
  { cbn [valid_utf8]. rewrite code_byte_of by lia. by rewrite (proj2 (N.ltb_lt _ _)) by lia. }
  destruct (N.ltb_spec r 2048).
  { pose proof (utf8_2_encode r ltac:(lia)) as H2. apply utf8_2_lead in H2 as Hlead.
    cbn [valid_utf8]. byte_eval. by rewrite H2. }
  destruct (N.ltb_spec r 65536).
  { pose proof (utf8_3_encode r ltac:(lia) Hh Hl) as H3. apply utf8_3_lead in H3 as Hlead.
    cbn [valid_utf8]. byte_eval. by rewrite utf8_2_not, H3 by lia. }
  pose proof (utf8_4_encode r ltac:(lia)) as H4. apply utf8_4_lead in H4 as Hlead.
  cbn [valid_utf8]. byte_eval. by rewrite utf8_2_not, utf8_3_not, H4 by lia.
Qed.

Lemma hex_val_bound c n : hex_val c = Some n → (n < 16)%N.
Proof.
  unfold hex_val. repeat case_match; intros [= <-]; byte_facts; lia.
Qed.

Lemma hex4_bound a b c d n : hex4 a b c d = Some n → (n < 65536)%N.
Proof.
  unfold hex4. intros H. repeat (apply bind_Some in H as (? & ?%hex_val_bound & H)).
  injection H as <-. lia.
Qed.

Lemma unescape_ascii e c : unescape e = Some c → (code c < 128)%N.
Proof.
  unfold unescape. destruct (_ || _ || _) eqn:He.
  - intros [= <-]. byte_facts; lia.
  - repeat case_match; intros [= <-]; done.
Qed.

Lemma valid_utf8_1 a : (code a < 128)%N → valid_utf8 (String a "") = true.
Proof. intros Ha. cbn [valid_utf8]. by rewrite (proj2 (N.ltb_lt _ _)). Qed.

Lemma valid_utf8_2 a b : utf8_2 a b = true → valid_utf8 (String a (String b "")) = true.
Proof.
  intros H. apply utf8_2_lead in H as Hl. cbn [valid_utf8]. byte_eval. by rewrite H.
Qed.

Lemma valid_utf8_3 a b c :
  utf8_3 a b c = true → valid_utf8 (String a (String b (String c ""))) = true.
Proof.
  intros H. apply utf8_3_lead in H as Hl. cbn [valid_utf8]. byte_eval.
  by rewrite utf8_2_not, H by lia.
Qed.

Lemma valid_utf8_4 a b c d :
  utf8_4 a b c d = true → valid_utf8 (String a (String b (String c (String d "")))) = true.
Proof.
  intros H. apply utf8_4_lead in H as Hl. cbn [valid_utf8]. byte_eval.
  by rewrite utf8_2_not, utf8_3_not, H by lia.
Qed.

Lemma valid_surrogates r1 r2 :
  is_high r1 = true → is_low r2 = true →
  valid_utf8 (utf8_encode (65536 + (r1 - 55296) * 1024 + (r2 - 56320))) = true.
Proof.
  unfold is_high, is_low. intros H1 H2. byte_facts.
  apply valid_utf8_encode; [lia| |]; apply andb_false_iff; right; apply N.leb_gt; lia.
Qed.
Create HintDb utf8.
#[local] Hint Resolve valid_utf8_1 valid_utf8_2 valid_utf8_3 valid_utf8_4
  valid_surrogates unescape_ascii hex4_bound valid_utf8_encode : utf8.

(** The runes of a decoded string come one at a time. *)
Lemma prepend_valid c s t rest :
  valid_utf8 c = true →
  (∀ t rest, unquote s = Some (t, rest) → valid_utf8 t = true) →
  prepend c (unquote s) = Some (t, rest) → valid_utf8 t = true.
Proof.
  intros Hc IH. destruct (unquote s) as [[t' r]|] eqn:Hu; [|done].
  intros [= <- <-]. rewrite valid_utf8_app by done. by eapply IH.
Qed.

Lemma unquote_valid s t rest : unquote s = Some (t, rest) → valid_utf8 t = true.
Proof.
  remember (String.length s) as n eqn:Hn. revert s t rest Hn.
  induction (Nat.lt_wf_0 n) as [n _ IHn]. intros s t rest ->.
  assert (∀ s' c t' rest', (String.length s' < String.length s)%nat →
    valid_utf8 c = true → prepend c (unquote s') = Some (t', rest') →
    valid_utf8 t' = true) as IH.
  { intros s' c t' rest' Hlt Hc. apply prepend_valid; [done|]. intros. by eapply IHn. }
  clear IHn. destruct s as [|a s1]; [done|]. cbn [unquote].
  destruct (code a =? 34)%N; [by intros [= <- <-]|].
  destruct (code a =? 92)%N.
  { destruct s1 as [|e s2]; [done|]. destruct (Ascii.eqb e "u").
    - destruct s2 as [|h1 [|h2 [|h3 [|h4 s3]]]]; try done.
      destruct (hex4 h1 h2 h3 h4) as [r|] eqn:Hr; [|done].
      apply hex4_bound in Hr.
      destruct (is_high r) eqn:Hh.
      + repeat case_match; bool_split; (apply IH; [cbn; lia|auto with utf8]).
      + destruct (is_low r) eqn:Hl; (apply IH; [cbn; lia|]); [done|].
        apply valid_utf8_encode; [lia|done..].
    - destruct (unescape e) as [c|] eqn:He; [|done].
      apply IH; [cbn; lia|]. eauto with utf8. }
  destruct (code a <? 32)%N; [done|].
  destruct (N.ltb_spec (code a) 128) as [Ha|Ha].
  { apply IH; [cbn; lia|]. auto with utf8. }
  destruct s1 as [|b s2]; [done|].
  destruct (utf8_2 a b) eqn:H2; [apply IH; [cbn; lia|]; auto with utf8|].
  destruct s2 as [|c s3]; [apply IH; [cbn; lia|done]|].
  destruct (utf8_3 a b c) eqn:H3; [apply IH; [cbn; lia|]; auto with utf8|].
  destruct s3 as [|d s4]; [apply IH; [cbn; lia|done]|].
  destruct (utf8_4 a b c d) eqn:H4; (apply IH; [cbn; lia|]; auto with utf8).
Qed.
