(* ===== verification/GoTime.v ===== *)
(** * Go durations and instants

    [time.ParseDuration] of Go's standard library, byte for byte, with its
    [uint64] overflow tests and its [float64] fraction, and the deadline
    arithmetic the program does on [time.Duration].  A duration is a number of
    nanoseconds in the [int64] range; an instant is a [Z] of nanoseconds and
    the zero [time.Time] is [None]. *)

From S2P Require Import Prelude GoString.
From Stdlib Require Import Ascii SpecFloat.

Open Scope Z_scope.

(** ** Units *)

Definition Nanosecond : Z := 1.
Definition Microsecond : Z := 1000 * Nanosecond.
Definition Millisecond : Z := 1000 * Microsecond.
Definition Second : Z := 1000 * Millisecond.
Definition Minute : Z := 60 * Second.
Definition Hour : Z := 60 * Minute.

(** [unitMap]; both the micro sign and the Greek mu are accepted. *)
Definition unit_of (u : string) : option Z :=
  if decide (u = "ns") then Some Nanosecond
  else if decide (u = "us") then Some Microsecond
  else if decide (u = "µs") then Some Microsecond
  else if decide (u = "μs") then Some Microsecond
  else if decide (u = "ms") then Some Millisecond
  else if decide (u = "s") then Some Second
  else if decide (u = "m") then Some Minute
  else if decide (u = "h") then Some Hour
  else None.

(** ** [float64] *)

Definition float_of (z : Z) : spec_float := binary_normalize 53 1024 z 0 false.
Definition float_mul (x y : spec_float) : spec_float := SFmul 53 1024 x y.
Definition float_div (x y : spec_float) : spec_float := SFdiv 53 1024 x y.
(** [uint64(x)]: truncation. *)
Definition float_trunc (x : spec_float) : Z :=
  match x with
  | S754_finite false m e =>
      if 0 <=? e then Zpos m * 2 ^ e else Zpos m / 2 ^ (- e)
  | _ => 0
  end.

(** ** Parsing *)

Inductive DurationError : Type :=
| InvalidDuration
| MissingUnit
| UnknownUnit (u : string).

#[global] Instance DurationError_eq_dec : EqDecision DurationError.
Proof. solve_decision. Defined.

Definition digit_val (c : ascii) : Z := Z.of_N (code c) - 48.

(** [leadingInt]: [None] is overflow. *)
Fixpoint leading_int (x : Z) (s : string) : option (Z * string) :=
  match s with
  | String c s' =>
      if is_digit c then
        if 2 ^ 63 / 10 <? x then None
        else let x' := x * 10 + digit_val c in
             if 2 ^ 63 <? x' then None else leading_int x' s'
      else Some (x, s)
  | EmptyString => Some (x, s)
  end.

(** [leadingFraction]: digits past the overflow are skipped. *)
Fixpoint leading_fraction (x : Z) (scale : spec_float) (overflow : bool) (s : string)
    : Z * spec_float * string :=
  match s with
  | String c s' =>
      if is_digit c then
        if overflow then leading_fraction x scale overflow s'
        else if (2 ^ 63 - 1) / 10 <? x then leading_fraction x scale true s'
        else let y := x * 10 + digit_val c in
             if 2 ^ 63 <? y then leading_fraction x scale true s'
             else leading_fraction y (float_mul scale (float_of 10)) false s'
      else (x, scale, s)
  | EmptyString => (x, scale, s)
  end.

(** The unit runs up to the next dot or digit. *)
Fixpoint span_unit (s : string) : string * string :=
  match s with
  | String c s' =>
      if Ascii.eqb c "." || is_digit c then (EmptyString, s)
      else let '(u, r) := span_unit s' in (String c u, r)
  | EmptyString => (EmptyString, EmptyString)
  end.

(** One number and its unit: the nanoseconds and the rest of the input. *)
Definition parse_component (s : string) : result DurationError (Z * string) :=
  match s with
  | EmptyString => Err InvalidDuration
  | String c _ =>
      if negb (Ascii.eqb c "." || is_digit c) then Err InvalidDuration else
      match leading_int 0 s with
      | None => Err InvalidDuration
      | Some (v, s1) =>
          let pre := negb (String.length s1 =? String.length s)%nat in
          let '(f, scale, s2, post) :=
            match s1 with
            | String c1 s1' =>
                if Ascii.eqb c1 "." then
                  let '(f, scale, r) := leading_fraction 0 (float_of 1) false s1' in
                  (f, scale, r, negb (String.length r =? String.length s1')%nat)
                else (0, float_of 1, s1, false)
            | EmptyString => (0, float_of 1, s1, false)
            end in
          if negb pre && negb post then Err InvalidDuration else
          let '(u, s3) := span_unit s2 in
          if (String.length u =? 0)%nat then Err MissingUnit else
          match unit_of u with
          | None => Err (UnknownUnit u)
          | Some unit =>
              if 2 ^ 63 / unit <? v then Err InvalidDuration else
              let v1 := v * unit in
              if 0 <? f then
                let v2 := wrap64 (v1 + float_trunc
                            (float_mul (float_of f) (float_div (float_of unit) scale))) in
                if 2 ^ 63 <? v2 then Err InvalidDuration else Ok (v2, s3)
              else Ok (v1, s3)
          end
      end
  end.

(** The loop over components; each one consumes input, so the length of the
    input is enough fuel. *)
Fixpoint parse_components (fuel : nat) (d : Z) (s : string) : result DurationError Z :=
  match s, fuel with
  | EmptyString, _ => Ok d
  | _, O => Err InvalidDuration
  | _, S fuel =>
      '(v, s') ← parse_component s;
      let d' := wrap64 (d + v) in
      if 2 ^ 63 <? d' then Err InvalidDuration else parse_components fuel d' s'
  end.

Definition ParseDuration (orig : string) : result DurationError Z :=
  let '(neg, s) :=
    match orig with
    | String c s' => if Ascii.eqb c "-" then (true, s')
                     else if Ascii.eqb c "+" then (false, s') else (false, orig)
    | EmptyString => (false, orig)
    end in
  if decide (s = "0") then Ok 0
  else if decide (s = "") then Err InvalidDuration
  else
    d ← parse_components (String.length s) 0 s;
    if (neg : bool) then Ok (- d)
    else if 2 ^ 63 - 1 <? d then Err InvalidDuration else Ok d.

(** ** Examples from the documentation and the configurations *)

Example parse_30s : ParseDuration "30s" = Ok (30 * Second).
Proof. vm_compute. reflexivity. Qed.
Example parse_mixed : ParseDuration "1h15m30.918s" = Ok (4530918 * Millisecond).
Proof. vm_compute. reflexivity. Qed.
Example parse_frac : ParseDuration "-1.5h" = Ok (- (90 * Minute)).
Proof. vm_compute. reflexivity. Qed.
Example parse_micro : ParseDuration "2µs" = Ok (2 * Microsecond).
Proof. vm_compute. reflexivity. Qed.
Example parse_bare : ParseDuration "10" = Err MissingUnit.
Proof. vm_compute. reflexivity. Qed.
Example parse_min : ParseDuration "-9223372036854775808ns" = Ok (- 2 ^ 63).
Proof. vm_compute. reflexivity. Qed.
Example parse_over : ParseDuration "9223372036854775808ns" = Err InvalidDuration.
Proof. vm_compute. reflexivity. Qed.
