(* ===== verification/DiscoveryState.v ===== *)
(** * Package controller: the discovery state file

    The ownership record of [src/controller/discovery.go]: the
    [discoveryState] structure, its JSON form as [encoding/json] writes and
    reads it, its validation and the topic list operations.  The reader follows
    [json.Decoder] with [DisallowUnknownFields] on this structure: keys match
    case-insensitively, [null] leaves a field alone, any other type mismatch,
    unknown key, syntax error or trailing data is an error. *)

From S2P Require Import Prelude GoString GoJson.
From Stdlib Require Import Ascii.

Open Scope Z_scope.

Definition discoveryStateVersion : Z := 1.
Definition maxDiscoveryStateSize : Z := 64 * 1024.

Record discoveryState := {
  ds_Version : Z;
  ds_OwnerID : string;
  ds_DeviceID : string;
  ds_Topics : list string;
}.

#[global] Instance discoveryState_eq_dec : EqDecision discoveryState.
Proof. solve_decision. Defined.

(** [discoveryState{}] *)
Definition zero_state : discoveryState :=
  {| ds_Version := 0; ds_OwnerID := ""; ds_DeviceID := ""; ds_Topics := [] |}.

(** ** Writing: [json.MarshalIndent(state, "", "  ")] and a final newline *)

Definition nl : string := String (byte_of 10) "".

Definition json_key (name : string) : string := dq +:+ name +:+ dq +:+ ": ".

(** The elements of an indented array, each on a line of its own. *)
Fixpoint json_items (l : list string) : string :=
  match l with
  | [] => nl +:+ "  ]"
  | [t] => nl +:+ "    " +:+ json_string t +:+ nl +:+ "  ]"
  | t :: l => nl +:+ "    " +:+ json_string t +:+ "," +:+ json_items l
  end.

(** A nil slice is written [null]. *)
Definition json_topics (l : list string) : string :=
  match l with [] => "null" | _ => "[" +:+ json_items l end.

Definition encode_state (st : discoveryState) : string :=
  "{" +:+ nl +:+
  "  " +:+ json_key "version" +:+ fmt_d (ds_Version st) +:+ "," +:+ nl +:+
  "  " +:+ json_key "owner_id" +:+ json_string (ds_OwnerID st) +:+ "," +:+ nl +:+
  "  " +:+ json_key "device_id" +:+ json_string (ds_DeviceID st) +:+ "," +:+ nl +:+
  "  " +:+ json_key "topics" +:+ json_topics (ds_Topics st) +:+ nl +:+
  "}" +:+ nl.

(** ** Reading *)

Definition is_ws (c : ascii) : bool :=
  (code c =? 32)%N || (code c =? 9)%N || (code c =? 10)%N || (code c =? 13)%N.

Fixpoint skip_ws (s : string) : string :=
  match s with
  | String c s' => if is_ws c then skip_ws s' else s
  | EmptyString => s
  end.

Definition expect (c : ascii) (s : string) : option string :=
  match s with
  | String a s' => if Ascii.eqb a c then Some s' else None
  | EmptyString => None
  end.

(** The input after the literal [null]. *)
Definition parse_null (s : string) : option string :=
  if has_prefix s "null" then Some (str_drop 4 s) else None.

Definition parse_string (s : string) : option (string * string) :=
  s' ← expect quote_char s; unquote s'.

Fixpoint digits (acc : Z) (s : string) : Z * string :=
  match s with
  | String c s' =>
      if is_digit c then digits (acc * 10 + (Z.of_N (code c) - 48)) s' else (acc, s)
  | EmptyString => (acc, s)
  end.

(** A number that is an [int]: no fraction, no exponent, in range. *)
Definition parse_int (s : string) : option (Z * string) :=
  let '(neg, s1) := match s with
                    | String c s' => if Ascii.eqb c "-" then (true, s') else (false, s)
                    | EmptyString => (false, s)
                    end in
  match s1 with
  | EmptyString => None
  | String c s2 =>
      if negb (is_digit c) then None else
      let '(v, rest) := if Ascii.eqb c "0" then (0, s2) else digits 0 s1 in
      let stop := match rest with
                  | String d _ => Ascii.eqb d "." || Ascii.eqb d "e" || Ascii.eqb d "E" || is_digit d
                  | EmptyString => false
                  end in
      let v := if (neg : bool) then - v else v in
      if stop || (v <? - 2 ^ 63) || (2 ^ 63 - 1 <? v) then None else Some (v, rest)
  end.

(** [foldName]: ASCII letters to upper case, U+017F to [S], U+212A to [K]. *)
Fixpoint fold_name (s : string) : string :=
  match s with
  | String a s1 =>
      match s1 with
      | String b s2 =>
          if (code a =? 197)%N && (code b =? 191)%N then String "S" (fold_name s2) else
          match s2 with
          | String c s3 =>
              if (code a =? 226)%N && (code b =? 132)%N && (code c =? 170)%N
              then String "K" (fold_name s3)
              else String (upper_ascii a) (fold_name s1)
          | EmptyString => String (upper_ascii a) (fold_name s1)
          end
      | EmptyString => String (upper_ascii a) EmptyString
      end
  | EmptyString => EmptyString
  end.

Definition key_is (key field : string) : bool := bool_decide (fold_name key = fold_name field).

(** The structure being filled; a [null] array element keeps what the backing
    array of the slice holds at its index. *)
Record partial_state := {
  ps_Version : Z;
  ps_OwnerID : string;
  ps_DeviceID : string;
  ps_backing : list string;
  ps_len : nat;
}.

Definition zero_partial : partial_state :=
  {| ps_Version := 0; ps_OwnerID := ""; ps_DeviceID := ""; ps_backing := []; ps_len := 0 |}.

Definition set_at (i : nat) (v : string) (l : list string) : list string :=
  if decide (i < length l)%nat then <[i := v]> l else l ++ [v].

(** The elements of a non-empty array, from index [i] on. *)
Fixpoint parse_elements (fuel i : nat) (backing : list string) (s : string)
    : option (list string * nat * string) :=
  match fuel with
  | O => None
  | S fuel =>
      '(backing', rest) ←
        match parse_null s with
        | Some r => Some (set_at i (default "" (backing !! i)) backing, r)
        | None => '(t, r) ← parse_string s; Some (set_at i t backing, r)
        end;
      match skip_ws rest with
      | String c r =>
          if Ascii.eqb c "," then parse_elements fuel (S i) backing' (skip_ws r)
          else if Ascii.eqb c "]" then Some (backing', S i, r) else None
      | EmptyString => None
      end
  end.

Definition parse_topics (fuel : nat) (backing : list string) (s : string)
    : option (list string * nat * string) :=
  match parse_null s with
  | Some r => Some ([], 0%nat, r)
  | None =>
      s1 ← expect "[" s;
      match expect "]" (skip_ws s1) with
      | Some r => Some ([], 0%nat, r)
      | None => parse_elements fuel 0 backing (skip_ws s1)
      end
  end.

(** A string field: [null] keeps the old value. *)
Definition parse_string_field (old s : string) : option (string * string) :=
  match parse_null s with Some r => Some (old, r) | None => parse_string s end.

Definition parse_field (fuel : nat) (key s : string) (p : partial_state)
    : option (partial_state * string) :=
  if key_is key "version" then
    '(v, r) ← match parse_null s with
              | Some r => Some (ps_Version p, r)
              | None => parse_int s
              end;
    Some ({| ps_Version := v; ps_OwnerID := ps_OwnerID p; ps_DeviceID := ps_DeviceID p;
             ps_backing := ps_backing p; ps_len := ps_len p |}, r)
  else if key_is key "owner_id" then
    '(v, r) ← parse_string_field (ps_OwnerID p) s;
    Some ({| ps_Version := ps_Version p; ps_OwnerID := v; ps_DeviceID := ps_DeviceID p;
             ps_backing := ps_backing p; ps_len := ps_len p |}, r)
  else if key_is key "device_id" then
    '(v, r) ← parse_string_field (ps_DeviceID p) s;
    Some ({| ps_Version := ps_Version p; ps_OwnerID := ps_OwnerID p; ps_DeviceID := v;
             ps_backing := ps_backing p; ps_len := ps_len p |}, r)
  else if key_is key "topics" then
    '(backing, len, r) ← parse_topics fuel (ps_backing p) s;
    Some ({| ps_Version := ps_Version p; ps_OwnerID := ps_OwnerID p;
             ps_DeviceID := ps_DeviceID p; ps_backing := backing; ps_len := len |}, r)
  else None.

(** The members of a non-empty object. *)
Fixpoint parse_members (fuel : nat) (s : string) (p : partial_state)
    : option (partial_state * string) :=
  match fuel with
  | O => None
  | S fuel =>
      '(key, s1) ← parse_string s;
      s2 ← expect ":" (skip_ws s1);
      '(p', s3) ← parse_field (S fuel) key (skip_ws s2) p;
      match skip_ws s3 with
      | String c s4 =>
          if Ascii.eqb c "," then parse_members fuel (skip_ws s4) p'
          else if Ascii.eqb c "}" then Some (p', s4) else None
      | EmptyString => None
      end
  end.

Definition finish (p : partial_state) : discoveryState :=
  {| ds_Version := ps_Version p; ds_OwnerID := ps_OwnerID p; ds_DeviceID := ps_DeviceID p;
     ds_Topics := take (ps_len p) (ps_backing p) |}.

(** One value, then nothing but white space. *)
Definition decode_state (data : string) : option discoveryState :=
  let s := skip_ws data in
  '(st, rest) ←
    match parse_null s with
    | Some r => Some (zero_state, r)
    | None =>
        s1 ← expect "{" s;
        match expect "}" (skip_ws s1) with
        | Some r => Some (zero_state, r)
        | None => '(p, r) ← parse_members (String.length data) (skip_ws s1) zero_partial;
                  Some (finish p, r)
        end
    end;
  if decide (skip_ws rest = "") then Some st else None.

Definition sample_state : discoveryState :=
  {| ds_Version := 1; ds_OwnerID := "client"; ds_DeviceID := "pi";
     ds_Topics := ["homeassistant/button/pi/b/config"; "homeassistant/switch/pi/a/config"] |}.
Example decode_sample : decode_state (encode_state sample_state) = Some sample_state.
Proof. vm_compute. reflexivity. Qed.
Example decode_null : decode_state "null" = Some zero_state.
Proof. vm_compute. reflexivity. Qed.

(** ** Lemmas: the codec *)

Definition valid_state (st : discoveryState) : Prop :=
  ds_Version st = discoveryStateVersion ∧ valid_utf8 (ds_OwnerID st) = true ∧
  valid_utf8 (ds_DeviceID st) = true ∧ Forall (λ t, valid_utf8 t = true) (ds_Topics st).

Lemma parse_null_json_string s rest : parse_null (json_string s +:+ rest) = None.
Proof. reflexivity. Qed.

Lemma skip_ws_json_string s rest : skip_ws (json_string s +:+ rest) = json_string s +:+ rest.
Proof. reflexivity. Qed.

Lemma parse_string_json_string s rest :
  valid_utf8 s = true → parse_string (json_string s +:+ rest) = Some (s, rest).
Proof.
  intros Hs. unfold json_string. rewrite !str_app_assoc.
  change (unquote (json_body s +:+ String quote_char rest) = Some (s, rest)).
  by apply unquote_json_body.
Qed.

Lemma parse_string_field_json_string old s rest :
  valid_utf8 s = true → parse_string_field old (json_string s +:+ rest) = Some (s, rest).
Proof.
  intros Hs. unfold parse_string_field. rewrite parse_null_json_string.
  by apply parse_string_json_string.
Qed.

Lemma set_at_length v l : set_at (length l) v l = l ++ [v].
Proof. unfold set_at. by rewrite decide_False by lia. Qed.

Lemma parse_element_json_string fuel done t rest :
  valid_utf8 t = true →
  parse_elements (S fuel) (length done) done (json_string t +:+ rest)
  = match skip_ws rest with
    | String c r =>
        if Ascii.eqb c "," then parse_elements fuel (S (length done)) (done ++ [t]) (skip_ws r)
        else if Ascii.eqb c "]" then Some (done ++ [t], S (length done), r) else None
    | EmptyString => None
    end.
Proof.
  intros Ht. cbn [parse_elements].
  rewrite parse_null_json_string, parse_string_json_string by done.
  cbn. by rewrite set_at_length.
Qed.

Lemma parse_elements_items fuel done ts rest :
  ts ≠ [] → Forall (λ t, valid_utf8 t = true) ts → (length ts ≤ fuel)%nat →
  parse_elements fuel (length done) done (skip_ws (json_items ts +:+ rest))
  = Some (done ++ ts, length (done ++ ts), rest).
Proof.
  intros Hne Hv. revert fuel done Hne.
  induction Hv as [|t ts Ht Hts IH]; [done|]. intros [|fuel] done _ Hf; simpl in Hf; [lia|].
  destruct ts as [|t2 ts].
  - change (skip_ws (json_items [t] +:+ rest))
      with ((json_string t +:+ nl +:+ "  ]") +:+ rest).
    rewrite str_app_assoc, parse_element_json_string by done. cbn.
    by rewrite length_app, Nat.add_comm.
  - change (skip_ws (json_items (t :: t2 :: ts) +:+ rest))
      with ((json_string t +:+ "," +:+ json_items (t2 :: ts)) +:+ rest).
    rewrite str_app_assoc, parse_element_json_string by done.
    change (skip_ws (("," +:+ json_items (t2 :: ts)) +:+ rest))
      with (String "," (json_items (t2 :: ts) +:+ rest)).
    cbn [Ascii.eqb]. specialize (IH fuel (done ++ [t])).
    rewrite length_app, Nat.add_comm in IH. cbn [length Nat.add] in IH.
    rewrite <- (assoc_L (++)) in IH. apply IH; [done|cbn [length] in *; lia].
Qed.

Lemma parse_topics_json_topics fuel ts rest :
  Forall (λ t, valid_utf8 t = true) ts → (length ts ≤ fuel)%nat →
  parse_topics fuel [] (json_topics ts +:+ rest) = Some (ts, length ts, rest).
Proof.
  intros Hv Hf. destruct ts as [|t ts]; [reflexivity|].
  change (json_topics (t :: ts) +:+ rest)
    with (String "[" (json_items (t :: ts) +:+ rest)).
  unfold parse_topics. cbn [parse_null has_prefix Ascii.eqb andb expect].
  change (parse_null (String "[" (json_items (t :: ts) +:+ rest))) with (@None string).
  assert (expect "]" (skip_ws (json_items (t :: ts) +:+ rest)) = None) as He
    by (by destruct ts).
  cbn. cbn in He. rewrite He.
  by apply (parse_elements_items fuel [] (t :: ts)).
Qed.

(** One member whose key is a plain constant. *)
Lemma parse_members_key fuel k v p :
  (∀ rest, unquote (k +:+ String quote_char rest) = Some (k, rest)) →
  skip_ws v = v →
  parse_members (S fuel) (json_key k +:+ v) p
  = ('(p', s3) ← parse_field (S fuel) k v p;
     match skip_ws s3 with
     | String c s4 =>
         if Ascii.eqb c "," then parse_members fuel (skip_ws s4) p'
         else if Ascii.eqb c "}" then Some (p', s4) else None
     | EmptyString => None
     end).
Proof.
  intros Hk Hv. unfold json_key. rewrite !str_app_assoc. cbn [parse_members].
  change (parse_string (dq +:+ k +:+ dq +:+ ": " +:+ v))
    with (unquote (k +:+ String quote_char (": " +:+ v))).
  rewrite Hk. cbn [mbind option_bind].
  change (expect ":" (skip_ws (": " +:+ v))) with (Some (String " " v)).
  cbn [mbind option_bind].
  change (skip_ws (String " " v)) with (skip_ws v). by rewrite Hv.
Qed.

Section members.
Context (st : discoveryState) (Hst : valid_state st).

Definition topics_member : string := json_key "topics" +:+ json_topics (ds_Topics st) +:+ nl +:+ "}" +:+ nl.
Definition device_member : string :=
  json_key "device_id" +:+ json_string (ds_DeviceID st) +:+ "," +:+ nl +:+ "  " +:+ topics_member.
Definition owner_member : string :=
  json_key "owner_id" +:+ json_string (ds_OwnerID st) +:+ "," +:+ nl +:+ "  " +:+ device_member.
Definition all_members : string :=
  json_key "version" +:+ "1" +:+ "," +:+ nl +:+ "  " +:+ owner_member.

Lemma parse_topics_member fuel p :
  (length (ds_Topics st) ≤ fuel)%nat → ps_backing p = [] →
  parse_members (S fuel) topics_member p
  = Some ({| ps_Version := ps_Version p; ps_OwnerID := ps_OwnerID p;
             ps_DeviceID := ps_DeviceID p; ps_backing := ds_Topics st;
             ps_len := length (ds_Topics st) |}, nl).
Proof using Hst.
  destruct Hst as (_ & _ & _ & Ht). intros Hf Hp. unfold topics_member.
  rewrite parse_members_key; [|reflexivity|by destruct (ds_Topics st)].
  unfold parse_field. cbn [key_is].
  change (key_is "topics" "version") with false.
  change (key_is "topics" "owner_id") with false.
  change (key_is "topics" "device_id") with false.
  change (key_is "topics" "topics") with true. cbn iota.
  rewrite Hp, parse_topics_json_topics by (done || lia). reflexivity.
Qed.

Lemma parse_device_member fuel p :
  parse_members (S fuel) device_member p
  = parse_members fuel topics_member
      {| ps_Version := ps_Version p; ps_OwnerID := ps_OwnerID p;
         ps_DeviceID := ds_DeviceID st; ps_backing := ps_backing p; ps_len := ps_len p |}.
Proof using Hst.
  destruct Hst as (_ & _ & Hd & _). unfold device_member.
  rewrite parse_members_key; [|reflexivity|apply skip_ws_json_string].
  unfold parse_field.
  change (key_is "device_id" "version") with false.
  change (key_is "device_id" "owner_id") with false.
  change (key_is "device_id" "device_id") with true. cbn iota.
  by rewrite parse_string_field_json_string.
Qed.

Lemma parse_owner_member fuel p :
  parse_members (S fuel) owner_member p
  = parse_members fuel device_member
      {| ps_Version := ps_Version p; ps_OwnerID := ds_OwnerID st;
         ps_DeviceID := ps_DeviceID p; ps_backing := ps_backing p; ps_len := ps_len p |}.
Proof using Hst.
  destruct Hst as (_ & Ho & _ & _). unfold owner_member.
  rewrite parse_members_key; [|reflexivity|apply skip_ws_json_string].
  unfold parse_field.
  change (key_is "owner_id" "version") with false.
  change (key_is "owner_id" "owner_id") with true. cbn iota.
  by rewrite parse_string_field_json_string.
Qed.

Lemma parse_version_member fuel p :
  parse_members (S fuel) all_members p
  = parse_members fuel owner_member
      {| ps_Version := 1; ps_OwnerID := ps_OwnerID p;
         ps_DeviceID := ps_DeviceID p; ps_backing := ps_backing p; ps_len := ps_len p |}.
Proof. reflexivity. Qed.

Lemma json_topics_length ts : (length ts ≤ String.length (json_topics ts))%nat.
Proof.
  assert (∀ t ts, (length (t :: ts) ≤ String.length (json_items (t :: ts)))%nat) as H.
  { intros t l. revert t. induction l as [|t2 l IH]; intros t.
    { change (json_items [t]) with (String (byte_of 10) ("    " +:+ json_string t +:+ nl +:+ "  ]")).
      cbn [length String.length]. lia. }
    change (json_items (t :: t2 :: l))
      with (String (byte_of 10) ("    " +:+ json_string t +:+ "," +:+ json_items (t2 :: l))).
    specialize (IH t2). cbn [length String.length] in *. rewrite !str_length_app. lia. }
  destruct ts as [|t ts]; [cbn; lia|].
  change (json_topics (t :: ts)) with (String "[" (json_items (t :: ts))).
  specialize (H t ts). cbn [String.length]. lia.
Qed.

(** The state file round trip. *)
Lemma decode_encode_state : decode_state (encode_state st) = Some st.
Proof using Hst.
  assert (encode_state st = "{" +:+ nl +:+ "  " +:+ all_members) as He.
  { unfold encode_state. destruct Hst as (-> & _). reflexivity. }
  assert ((length (ds_Topics st) + 10 ≤ String.length (encode_state st))%nat) as Hl.
  { rewrite He. unfold all_members, owner_member, device_member, topics_member.
    rewrite !str_length_app. pose proof (json_topics_length (ds_Topics st)). cbn. lia. }
  unfold decode_state.
  revert Hl. generalize (String.length (encode_state st)). intros fuel Hl. rewrite He.
  change (parse_null (skip_ws ("{" +:+ nl +:+ "  " +:+ all_members))) with (@None string).
  change (expect "{" (skip_ws ("{" +:+ nl +:+ "  " +:+ all_members)))
    with (Some (nl +:+ "  " +:+ all_members)).
  cbn [mbind option_bind].
  change (expect "}" (skip_ws (nl +:+ "  " +:+ all_members))) with (@None string).
  change (skip_ws (nl +:+ "  " +:+ all_members)) with all_members.
  destruct fuel as [|[|[|[|n]]]]; [lia..|].
  rewrite parse_version_member, parse_owner_member, parse_device_member,
    parse_topics_member by (done || lia).
  cbn. unfold finish. cbn. rewrite firstn_all. destruct Hst as (Hv & _).
  destruct st as [v o d ts]. cbn in *. by rewrite Hv.
Qed.
End members.

(** ** Identifiers and topics *)

Definition id_head (c : ascii) : bool := is_lower c || is_digit c.
Definition id_tail (c : ascii) : bool :=
  is_lower c || is_digit c || Ascii.eqb c "_" || Ascii.eqb c "-".

Definition validDiscoveryID (value : string) : bool :=
  match value with
  | EmptyString => false
  | String c s => id_head c && str_forall id_tail s
  end.

Definition discovery_types : list string := ["switch"; "button"; "binary_sensor"].

(** The parts of the topic are read from the end. *)
Definition ownedDiscoveryTopic (topic deviceID : string) : bool :=
  match rev (split_on "/" topic) with
  | config :: id :: dev :: typ :: ((_ :: _) as rprefix) =>
      let prefix := join "/" (rev rprefix) in
      bool_decide (config = "config") && bool_decide (dev = deviceID)
      && validDiscoveryID id && bool_decide (typ ∈ discovery_types)
      && negb (bool_decide (prefix = "")) && negb (contains_any prefix "+#")
  | _ => false
  end.

(** ** Validation *)

Inductive StateError : Type :=
| ErrUnsupportedVersion (v : Z)
| ErrMissingOwner
| ErrInvalidDevice
| ErrForeignTopic (topic deviceID : string)
| ErrDuplicateTopic (topic : string).

(** The loop over the topics with its [seen] set. *)
Fixpoint validate_topics (deviceID : string) (seen : gset string) (l : list string)
    : result StateError unit :=
  match l with
  | [] => Ok tt
  | topic :: l =>
      if negb (ownedDiscoveryTopic topic deviceID) then Err (ErrForeignTopic topic deviceID)
      else if decide (topic ∈ seen) then Err (ErrDuplicateTopic topic)
      else validate_topics deviceID ({[topic]} ∪ seen) l
  end.

Definition validateDiscoveryState (st : discoveryState) : result StateError unit :=
  if (ds_Version st =? 0) && bool_decide (ds_OwnerID st = "")
     && bool_decide (ds_DeviceID st = "") && (length (ds_Topics st) =? 0)%nat
  then Ok tt
  else if negb (ds_Version st =? discoveryStateVersion)
  then Err (ErrUnsupportedVersion (ds_Version st))
  else if decide (ds_OwnerID st = "") then Err ErrMissingOwner
  else if negb (validDiscoveryID (ds_DeviceID st)) then Err ErrInvalidDevice
  else validate_topics (ds_DeviceID st) ∅ (ds_Topics st).

(** ** Topic lists *)

(** The keys of a Go set, sorted; the order in which Go ranges over the set
    does not matter. *)
Definition unionTopics (first second : list string) : list string :=
  sort_strings (elements (list_to_set (first ++ second) : gset string)).

Definition differenceTopics (previous desired : list string) : list string :=
  sort_strings (filter (λ t, t ∉ desired) previous).

(** [fmt.Sprintf("%s/%s/%s/%s/config", ...)] *)
Definition discovery_topic (prefix typ deviceID entityID : string) : string :=
  prefix +:+ "/" +:+ typ +:+ "/" +:+ deviceID +:+ "/" +:+ entityID +:+ "/config".

(** ** Lemmas: topics *)

Lemma elem_of_unionTopics t l1 l2 : t ∈ unionTopics l1 l2 ↔ t ∈ l1 ∨ t ∈ l2.
Proof.
  unfold unionTopics. rewrite elem_of_sort_strings, elem_of_elements, elem_of_list_to_set.
  apply elem_of_app.
Qed.

Lemma NoDup_unionTopics l1 l2 : NoDup (unionTopics l1 l2).
Proof. apply NoDup_sort_strings, NoDup_elements. Qed.

Lemma elem_of_differenceTopics t l1 l2 : t ∈ differenceTopics l1 l2 ↔ t ∈ l1 ∧ t ∉ l2.
Proof.
  unfold differenceTopics. rewrite elem_of_sort_strings, list_elem_of_filter. tauto.
Qed.
#[export] Hint Rewrite elem_of_unionTopics elem_of_differenceTopics : golib.
#[export] Hint Resolve NoDup_unionTopics : golib.

Lemma id_no_slash id : validDiscoveryID id = true → has_byte id "/" = false.
Proof.
  intros H. apply negb_false_iff.
  assert (str_forall id_tail id = true) as Ha.
  { destruct id as [|c s]; [done|]. simpl in *. apply andb_true_iff in H as [Hc ->].
    unfold id_head in Hc. unfold id_tail. by rewrite Hc. }
  revert Ha. apply str_forall_impl. intros c Hc.
  by destruct (Ascii.eqb_spec c "/") as [->|].
Qed.

Lemma validate_topics_ok dev seen l :
  validate_topics dev seen l = Ok tt ↔
  Forall (λ t, ownedDiscoveryTopic t dev = true) l ∧ NoDup l ∧ Forall (λ t, t ∉ seen) l.
Proof.
  revert seen. induction l as [|t l IH]; intros seen; simpl.
  { repeat split; constructor. }
  rewrite !Forall_cons, NoDup_cons.
  destruct (ownedDiscoveryTopic t dev) eqn:Ho; simpl; [|naive_solver].
  case_decide as Hs; [naive_solver|].
  rewrite IH, !Forall_forall. set_solver.
Qed.

(** The topics the controller builds are topics it recognises as its own. *)
Lemma split_discovery_topic prefix typ dev id :
  has_byte typ "/" = false → has_byte dev "/" = false → has_byte id "/" = false →
  split_on "/" (discovery_topic prefix typ dev id)
  = split_on "/" prefix ++ [typ; dev; id; "config"].
Proof.
  intros Ht Hd Hi. unfold discovery_topic.
  change (prefix +:+ "/" +:+ typ +:+ "/" +:+ dev +:+ "/" +:+ id +:+ "/config")
    with (prefix +:+ String "/" (typ +:+ String "/" (dev +:+ String "/" (id +:+ String "/" "config")))).
  rewrite !split_on_app, (split_on_none "/" typ), (split_on_none "/" dev),
    (split_on_none "/" id) by done. done.
Qed.

Lemma discovery_type_no_slash typ : typ ∈ discovery_types → has_byte typ "/" = false.
Proof. unfold discovery_types. set_unfold. by intros [->|[->|[->|[]]]]. Qed.

Lemma discovery_topic_owned prefix typ dev id :
  prefix ≠ "" → contains_any prefix "+#" = false →
  typ ∈ discovery_types → validDiscoveryID dev = true → validDiscoveryID id = true →
  ownedDiscoveryTopic (discovery_topic prefix typ dev id) dev = true.
Proof.
  intros Hp Hw Ht Hd Hi. unfold ownedDiscoveryTopic.
  rewrite split_discovery_topic, rev_app_distr
    by auto using discovery_type_no_slash, id_no_slash.
  cbn [rev app].
  pose proof (split_on_nonempty "/" prefix) as Hne.
  destruct (rev (split_on "/" prefix)) as [|w ws] eqn:Hr.
  { apply (f_equal (@rev string)) in Hr. by rewrite rev_involutive in Hr. }
  rewrite <- Hr, rev_involutive, join_split.
  rewrite !bool_decide_eq_true_2, bool_decide_eq_false_2, Hi, Hw by done. done.
Qed.

Lemma discovery_topic_id_inj prefix t1 t2 dev id1 id2 :
  has_byte id1 "/" = false → has_byte id2 "/" = false →
  discovery_topic prefix t1 dev id1 = discovery_topic prefix t2 dev id2 → id1 = id2.
Proof.
  intros H1 H2. unfold discovery_topic.
  intros Heq.
  assert (∀ t id, prefix +:+ "/" +:+ t +:+ "/" +:+ dev +:+ "/" +:+ id +:+ "/config"
    = (prefix +:+ "/" +:+ t +:+ "/" +:+ dev +:+ String "/" id) +:+ String "/" "config") as Ha.
  { intros. rewrite !str_app_assoc. done. }
  rewrite !Ha in Heq. apply last_sep_inj in Heq as [Heq _]; [|done..].
  assert (∀ t id, prefix +:+ "/" +:+ t +:+ "/" +:+ dev +:+ String "/" id
    = (prefix +:+ "/" +:+ t +:+ "/" +:+ dev) +:+ String "/" id) as Hb.
  { intros. by rewrite !str_app_assoc. }
  rewrite !Hb in Heq. by apply last_sep_inj in Heq as [_ ->].
Qed.

(** What a state the controller writes satisfies. *)
Lemma validate_written owner dev l :
  owner ≠ "" → validDiscoveryID dev = true →
  Forall (λ t, ownedDiscoveryTopic t dev = true) l → NoDup l →
  validateDiscoveryState {| ds_Version := discoveryStateVersion; ds_OwnerID := owner;
                            ds_DeviceID := dev; ds_Topics := l |} = Ok tt.
Proof.
  intros Ho Hd Hl Hnd. unfold validateDiscoveryState. cbn.
  rewrite decide_False, Hd by done. cbn. apply validate_topics_ok.
  split_and!; [done..|]. apply Forall_forall. set_solver.
Qed.

Lemma validate_topics_of st :
  validateDiscoveryState st = Ok tt →
  st = {| ds_Version := 0; ds_OwnerID := ""; ds_DeviceID := ""; ds_Topics := [] |} ∨
  (ds_Version st = discoveryStateVersion ∧ ds_OwnerID st ≠ "" ∧
   validDiscoveryID (ds_DeviceID st) = true ∧
   Forall (λ t, ownedDiscoveryTopic t (ds_DeviceID st) = true) (ds_Topics st) ∧
   NoDup (ds_Topics st)).
Proof.
  destruct st as [v o d ts]. unfold validateDiscoveryState. cbn.
  destruct ((v =? 0) && bool_decide (o = "") && bool_decide (d = "")
            && (length ts =? 0)%nat) eqn:Hz.
  - intros _. left. bool_split. repeat match goal with
      | H : bool_decide _ = true |- _ => apply bool_decide_eq_true_1 in H end.
    destruct ts; [|done]. f_equal; [by apply Z.eqb_eq|done..].
  - clear Hz. destruct (Z.eqb_spec v discoveryStateVersion) as [->|]; cbn; [|done].
    case_decide; [done|]. destruct (validDiscoveryID d) eqn:Hd; cbn; [|done].
    intros (? & ? & _)%validate_topics_ok. right. by split_and!.
Qed.

(** ** Lemmas: everything read from the file is valid UTF-8 *)

Abbreviation valid8 := (λ t, valid_utf8 t = true).

Definition valid_partial (p : partial_state) : Prop :=
  valid8 (ps_OwnerID p) ∧ valid8 (ps_DeviceID p) ∧ Forall valid8 (ps_backing p).

Lemma parse_string_valid s t rest : parse_string s = Some (t, rest) → valid8 t.
Proof.
  unfold parse_string. intros (s' & _ & H)%bind_Some. by eapply unquote_valid.
Qed.

Lemma parse_string_field_valid old s t rest :
  valid8 old → parse_string_field old s = Some (t, rest) → valid8 t.
Proof.
  intros Ho. unfold parse_string_field. destruct (parse_null s); [by intros [= <- <-]|].
  apply parse_string_valid.
Qed.

Lemma set_at_valid i t l : valid8 t → Forall valid8 l → Forall valid8 (set_at i t l).
Proof.
  intros Ht Hl. unfold set_at. case_decide.
  - by apply Forall_insert.
  - apply Forall_app. auto.
Qed.

Lemma parse_elements_valid fuel i l s l' n rest :
  Forall valid8 l → parse_elements fuel i l s = Some (l', n, rest) → Forall valid8 l'.
Proof.
  revert i l s. induction fuel as [|fuel IH]; intros i l s Hl; cbn [parse_elements]; [done|].
  intros ([l1 r1] & H1 & H)%bind_Some.
  assert (Forall valid8 l1) as Hl1.
  { destruct (parse_null s).
    - injection H1 as <- <-. apply set_at_valid; [|done].
      destruct (l !! i) eqn:Hi; [|done]. exact (Forall_lookup_1 _ _ _ _ Hl Hi).
    - apply bind_Some in H1 as ([t r] & Hs & [= <- <-]).
      apply set_at_valid; [by eapply parse_string_valid|done]. }
  destruct (skip_ws r1) as [|c r]; [done|]. repeat case_match; simplify_eq; eauto.
Qed.

Lemma parse_topics_valid fuel l s l' n rest :
  Forall valid8 l → parse_topics fuel l s = Some (l', n, rest) → Forall valid8 l'.
Proof.
  intros Hl. unfold parse_topics.
  destruct (parse_null s); [by intros [= <- <- <-]|].
  intros (s1 & _ & H)%bind_Some. destruct (expect "]" _).
  - by injection H as <- <- <-.
  - by eapply parse_elements_valid.
Qed.

Lemma parse_field_valid fuel key s p p' rest :
  valid_partial p → parse_field fuel key s p = Some (p', rest) → valid_partial p'.
Proof.
  intros (Ho & Hd & Hb). unfold parse_field, valid_partial.
  destruct (key_is key "version"); [|destruct (key_is key "owner_id");
    [|destruct (key_is key "device_id"); [|destruct (key_is key "topics"); [|done]]]].
  - intros ([v r] & _ & [= <- <-])%bind_Some. done.
  - intros ([v r] & Hs & [= <- <-])%bind_Some. cbn.
    split_and!; [exact (parse_string_field_valid _ _ _ _ Ho Hs)|done..].
  - intros ([v r] & Hs & [= <- <-])%bind_Some. cbn.
    split_and!; [done|exact (parse_string_field_valid _ _ _ _ Hd Hs)|done].
  - intros ([[v n] r] & Hs & [= <- <-])%bind_Some. cbn.
    split_and!; [done..|exact (parse_topics_valid _ _ _ _ _ _ Hb Hs)].
Qed.

Lemma parse_members_valid fuel s p p' rest :
  valid_partial p → parse_members fuel s p = Some (p', rest) → valid_partial p'.
Proof.
  revert s p. induction fuel as [|fuel IH]; intros s p Hp; cbn [parse_members]; [done|].
  intros ([k s1] & _ & (s2 & _ & ([p1 s3] & Hf & H)%bind_Some)%bind_Some)%bind_Some.
  apply parse_field_valid in Hf; [|done].
  destruct (skip_ws s3); [done|]. repeat case_match; simplify_eq; eauto.
Qed.

Lemma decode_state_valid data st :
  decode_state data = Some st →
  valid8 (ds_OwnerID st) ∧ valid8 (ds_DeviceID st) ∧ Forall valid8 (ds_Topics st).
Proof.
  unfold decode_state. intros ([st' rest] & H & Hend)%bind_Some.
  case_decide; [injection Hend as ->|done].
  destruct (parse_null _); [by injection H as <- <-|].
  apply bind_Some in H as (s1 & _ & H).
  destruct (expect "}" _); [by injection H as <- <-|].
  apply bind_Some in H as ([p r] & Hm & [= <- <-]).
  apply parse_members_valid in Hm as (Ho & Hd & Hb); [|by repeat split].
  cbn. split_and!; [done..|]. by apply Forall_take.
Qed.

(** ** Lemmas: what the controller writes can be read back *)

Lemma id_tail_valid s : str_forall id_tail s = true → valid8 s.
Proof.
  induction s as [|c s IH]; [done|]. cbn [str_forall]. intros [Hc Hs]%andb_true_iff.
  change (String c s) with (String c "" +:+ s). rewrite valid_utf8_app; [by apply IH|].
  apply valid_utf8_1. unfold id_tail, is_lower, is_digit, in_range in Hc.
  revert Hc. destruct (Ascii.eqb_spec c "_") as [->|]; [done|].
  destruct (Ascii.eqb_spec c "-") as [->|]; [done|].
  unfold code. cbn -[N_of_ascii N.leb]. rewrite !orb_false_r.
  intros [H|H]%orb_true_iff; apply andb_true_iff in H as [_ H%N.leb_le]; cbn in H; lia.
Qed.

Lemma id_valid s : validDiscoveryID s = true → valid8 s.
Proof.
  destruct s as [|c s]; [done|]. cbn [validDiscoveryID]. intros [Hc Hs]%andb_true_iff.
  apply id_tail_valid. cbn [str_forall]. rewrite Hs, andb_true_r.
  unfold id_head in Hc. unfold id_tail. by rewrite Hc.
Qed.

Lemma discovery_topic_valid prefix typ dev id :
  valid8 prefix → typ ∈ discovery_types → validDiscoveryID dev = true →
  validDiscoveryID id = true → valid8 (discovery_topic prefix typ dev id).
Proof.
  intros Hp Ht Hd Hi. unfold discovery_topic.
  rewrite valid_utf8_app by done. rewrite valid_utf8_app by done.
  rewrite valid_utf8_app.
  - rewrite valid_utf8_app by done. rewrite valid_utf8_app by (by apply id_valid).
    rewrite valid_utf8_app by done. by rewrite valid_utf8_app by (by apply id_valid).
  - revert Ht. unfold discovery_types. set_unfold. by intros [->|[->|[->|[]]]].
Qed.
