(* ===== verification/DiscoveryFuel.v ===== *)
(** * The state file reader never runs out of fuel

    Every parser of [DiscoveryState] leaves less input than it got, so that the
    length of the data is fuel enough for the loops of [decode_state]: with more
    fuel the answers are the same. *)

From S2P Require Import Prelude GoString GoJson DiscoveryState.
From Stdlib Require Import Ascii.

Abbreviation size := String.length.

(** ** Parsers consume *)

Lemma skip_ws_size s : (size (skip_ws s) ≤ size s)%nat.
Proof. induction s as [|c s IH]; cbn; [done|]. destruct (is_ws c); cbn; lia. Qed.

Lemma expect_size c s r : expect c s = Some r → size s = S (size r).
Proof. destruct s as [|a s]; cbn; [done|]. destruct (Ascii.eqb a c); by intros [= ->]. Qed.

Lemma parse_null_size s r : parse_null s = Some r → (size r ≤ size s)%nat.
Proof.
  unfold parse_null. case_match; [|done]. intros Hr.
  assert (r = str_drop 4 s) as -> by congruence. rewrite str_length_drop. lia.
Qed.

Lemma prepend_rest c r t rest : prepend c r = Some (t, rest) → ∃ t', r = Some (t', rest).
Proof. unfold prepend. intros ([t' r'] & -> & [= _ <-])%bind_Some. eauto. Qed.

Lemma unquote_size s t rest : unquote s = Some (t, rest) → (size rest < size s)%nat.
Proof.
  remember (size s) as n eqn:Hn. revert s t rest Hn.
  induction (Nat.lt_wf_0 n) as [n _ IHn]. intros s t rest ->.
  assert (∀ s' c t' rest', (size s' < size s)%nat →
    prepend c (unquote s') = Some (t', rest') → (size rest' < size s)%nat) as IH.
  { intros s' c t' rest' Hlt [t2 H]%prepend_rest. eapply IHn in H; [|exact Hlt|done]. lia. }
  clear IHn. destruct s as [|a s1]; [done|]. cbn [unquote].
  destruct (code a =? 34)%N; [intros [= <- <-]; cbn; lia|].
  repeat case_match; try done; subst; apply IH; cbn; lia.
Qed.

Lemma parse_string_size s t rest : parse_string s = Some (t, rest) → (size rest < size s)%nat.
Proof.
  unfold parse_string. intros (s' & He & Hu)%bind_Some.
  apply expect_size in He. apply unquote_size in Hu. lia.
Qed.

Lemma digits_size acc s v rest : digits acc s = (v, rest) → (size rest ≤ size s)%nat.
Proof.
  revert acc. induction s as [|c s IH]; intros acc; cbn; [by intros [= _ <-]|].
  destruct (is_digit c); [intros ?%IH; lia|intros [= _ <-]; cbn; lia].
Qed.

Lemma parse_int_size s v rest : parse_int s = Some (v, rest) → (size rest ≤ size s)%nat.
Proof.
  unfold parse_int.
  destruct (match s with String _ _ => _ | EmptyString => _ end) as [neg s1] eqn:Hs1.
  assert (size s1 ≤ size s)%nat as Hle.
  { destruct s as [|c s']; [by injection Hs1 as _ <-|].
    destruct (Ascii.eqb c "-"); injection Hs1 as _ <-; cbn; lia. }
  destruct s1 as [|c s2]; [done|]. destruct (negb (is_digit c)); [done|].
  destruct (if Ascii.eqb c "0" then _ else _) as [v1 r] eqn:Hr.
  assert (size r ≤ size (String c s2))%nat as Hle2.
  { destruct (Ascii.eqb c "0"); [injection Hr as _ <-; cbn; lia|by eapply digits_size]. }
  destruct (_ || _); [done|]. intros [= _ <-]. lia.
Qed.

Lemma parse_string_field_size old s v rest :
  parse_string_field old s = Some (v, rest) → (size rest ≤ size s)%nat.
Proof.
  unfold parse_string_field. destruct (parse_null s) eqn:Hn.
  - intros [= _ <-]. by apply parse_null_size.
  - intros ?%parse_string_size. lia.
Qed.

(** ** The loops *)

(** The text of one element. *)
Definition parse_element (i : nat) (backing : list string) (s : string)
    : option (list string * string) :=
  match parse_null s with
  | Some r => Some (set_at i (default "" (backing !! i)) backing, r)
  | None => '(t, r) ← parse_string s; Some (set_at i t backing, r)
  end.

Lemma parse_element_size i backing s b rest :
  parse_element i backing s = Some (b, rest) → (size rest ≤ size s)%nat.
Proof.
  unfold parse_element. destruct (parse_null s) eqn:Hn.
  - intros [= _ <-]. by apply parse_null_size.
  - intros ([t r] & Hs%parse_string_size & [= _ <-])%bind_Some. lia.
Qed.

Lemma parse_elements_S n i backing s :
  parse_elements (S n) i backing s
  = ('(backing', rest) ← parse_element i backing s;
     match skip_ws rest with
     | String c r =>
         if Ascii.eqb c "," then parse_elements n (S i) backing' (skip_ws r)
         else if Ascii.eqb c "]" then Some (backing', S i, r) else None
     | EmptyString => None
     end).
Proof. done. Qed.

Lemma parse_elements_size n i backing s b k rest :
  parse_elements n i backing s = Some (b, k, rest) → (size rest < size s)%nat.
Proof.
  revert i backing s. induction n as [|n IH]; intros i backing s; [done|].
  rewrite parse_elements_S. intros ([b' r] & He%parse_element_size & H)%bind_Some.
  pose proof (skip_ws_size r) as Hr. destruct (skip_ws r) as [|c r']; [done|]. cbn in Hr.
  destruct (Ascii.eqb c ",").
  - apply IH in H. pose proof (skip_ws_size r'). lia.
  - destruct (Ascii.eqb c "]"); [|done]. injection H as _ _ <-. lia.
Qed.

Lemma parse_elements_fuel n m i backing s :
  (size s ≤ n)%nat → (size s ≤ m)%nat →
  parse_elements n i backing s = parse_elements m i backing s.
Proof.
  assert (∀ k j b, parse_elements k j b "" = None) as Hempty by by intros [].
  revert m i backing s. induction n as [|n IH]; intros [|m] i backing s Hn Hm;
    [done|destruct s; [by rewrite !Hempty|cbn in *; lia]..|].
  rewrite !parse_elements_S. destruct (parse_element i backing s) as [[b r]|] eqn:He; [|done].
  apply parse_element_size in He. cbn [mbind option_bind].
  pose proof (skip_ws_size r) as Hr. destruct (skip_ws r) as [|c r']; [done|]. cbn in Hr.
  pose proof (skip_ws_size r') as Hr'. destruct (Ascii.eqb c ","); [|done]. apply IH; lia.
Qed.

Lemma parse_topics_fuel n m backing s :
  (size s ≤ n)%nat → (size s ≤ m)%nat → parse_topics n backing s = parse_topics m backing s.
Proof.
  intros Hn Hm. unfold parse_topics. destruct (parse_null s); [done|].
  destruct (expect "[" s) as [s1|] eqn:He; [|done]. cbn [mbind option_bind].
  apply expect_size in He. pose proof (skip_ws_size s1).
  destruct (expect "]" _); [done|]. apply parse_elements_fuel; lia.
Qed.

Lemma parse_topics_size n backing s b k rest :
  parse_topics n backing s = Some (b, k, rest) → (size rest ≤ size s)%nat.
Proof.
  unfold parse_topics. destruct (parse_null s) eqn:Hn.
  { intros [= _ _ <-]. by apply parse_null_size. }
  intros (s1 & He%expect_size & H)%bind_Some. pose proof (skip_ws_size s1).
  destruct (expect "]" _) eqn:Hx.
  - apply expect_size in Hx. injection H as _ _ <-. lia.
  - apply parse_elements_size in H. lia.
Qed.

Lemma parse_field_size n key s p p' rest :
  parse_field n key s p = Some (p', rest) → (size rest ≤ size s)%nat.
Proof.
  unfold parse_field. destruct (key_is key "version"); [|destruct (key_is key "owner_id");
    [|destruct (key_is key "device_id"); [|destruct (key_is key "topics"); [|done]]]].
  - intros ([v r] & H & [= _ <-])%bind_Some. destruct (parse_null s) eqn:Hn.
    + injection H as _ <-. by apply parse_null_size.
    + by eapply parse_int_size.
  - intros ([v r] & H & [= _ <-])%bind_Some. by eapply parse_string_field_size.
  - intros ([v r] & H & [= _ <-])%bind_Some. by eapply parse_string_field_size.
  - intros ([[v k] r] & H & [= _ <-])%bind_Some. by eapply parse_topics_size.
Qed.

Lemma parse_field_fuel n m key s p :
  (size s ≤ n)%nat → (size s ≤ m)%nat → parse_field n key s p = parse_field m key s p.
Proof.
  intros Hn Hm. unfold parse_field.
  by rewrite (parse_topics_fuel n m (ps_backing p) s Hn Hm).
Qed.

Lemma parse_members_fuel n m s p :
  (size s ≤ n)%nat → (size s ≤ m)%nat → parse_members n s p = parse_members m s p.
Proof.
  assert (∀ k q, parse_members k "" q = None) as Hempty by by intros [].
  revert m s p. induction n as [|n IH]; intros [|m] s p Hn Hm;
    [done|destruct s; [by rewrite !Hempty|cbn in *; lia]..|].
  cbn [parse_members]. destruct (parse_string s) as [[key s1]|] eqn:Hk; [|done].
  apply parse_string_size in Hk. cbn [mbind option_bind].
  destruct (expect ":" (skip_ws s1)) as [s2|] eqn:Hc; [|done]. apply expect_size in Hc.
  cbn [mbind option_bind]. pose proof (skip_ws_size s1). pose proof (skip_ws_size s2).
  rewrite (parse_field_fuel (S n) (S m)) by lia.
  destruct (parse_field (S m) key (skip_ws s2) p) as [[p' s3]|] eqn:Hf; [|done].
  apply parse_field_size in Hf. cbn [mbind option_bind]. pose proof (skip_ws_size s3).
  destruct (skip_ws s3) as [|c s4]; [done|]. cbn in *. pose proof (skip_ws_size s4).
  destruct (Ascii.eqb c ","); [|done]. apply IH; lia.
Qed.

(** The members of the state file are read with fuel enough. *)
Theorem decode_state_fuel data fuel s :
  expect "{" (skip_ws data) = Some s → (size data ≤ fuel)%nat →
  parse_members fuel (skip_ws s) zero_partial
  = parse_members (size data) (skip_ws s) zero_partial.
Proof.
  intros He%expect_size Hf. pose proof (skip_ws_size data). pose proof (skip_ws_size s).
  apply parse_members_fuel; lia.
Qed.
