(* ===== verification/Config.v ===== *)
(** * Package config: data model, defaults and derived settings

    The configuration records of [src/config/config.go], [applyDefaults] and
    the accessors the other packages call.  A Go pointer that may be nil is an
    [option]; a [byte] and an [int] are integers in their range. *)

From S2P Require Import Prelude GoString GoTime.
From Stdlib Require Import Ascii.

Open Scope Z_scope.

(** ** Records *)

Record MQTTTLSConfig := {
  CAFile : string;
  CertFile : string;
  KeyFile : string;
  ServerName : string;
  MinVersion : string;
}.

Record DiscoveryConfig := {
  disc_Enabled : option bool;
  disc_Prefix : string;
  disc_StateFile : string;
}.

Record MQTTConfig := {
  mq_Broker : string;
  mq_Username : string;
  mq_Password : string;
  mq_PasswordFile : string;
  mq_AllowUnauthenticated : bool;
  mq_AllowInsecureTransport : bool;
  mq_TLS : MQTTTLSConfig;
  mq_ClientID : string;
  mq_BaseTopic : string;
  mq_QoS : option Z;
  mq_KeepAlive : string;
  mq_ConnectTimeout : string;
  mq_Discovery : DiscoveryConfig;
}.

Record DeviceConfig := {
  dev_ID : string;
  dev_Name : string;
  dev_Manufacturer : string;
  dev_Model : string;
}.

Record GPIOOutputConfig := {
  out_Chip : string;
  out_Line : Z;
  out_ActiveLow : bool;
  out_Initial : bool;
}.

Record GPIOInputConfig := {
  in_Chip : string;
  in_Line : Z;
  in_ActiveLow : bool;
  in_Bias : string;
  in_Debounce : string;
}.

Record GPIOConfig := {
  gpio_Outputs : gmap string GPIOOutputConfig;
  gpio_Inputs : gmap string GPIOInputConfig;
}.

Record StateConfig := { state_Type : string; state_GPIO : string }.
Record SourceConfig := { source_Type : string; source_GPIO : string }.

Record Action := {
  act_Type : string;
  act_GPIO : string;
  act_Value : option bool;
  act_Command : string;
  act_Args : list string;
  act_WorkingDir : string;
  act_Env : gmap string string;
  act_Timeout : string;
  act_Duration : string;
  act_Topic : string;
  act_Payload : string;
  act_QoS : option Z;
  act_Retain : bool;
  act_IgnoreError : bool;
}.

Record EntityConfig := {
  ent_ID : string;
  ent_Type : string;
  ent_Name : string;
  ent_Icon : string;
  ent_DeviceClass : string;
  ent_InitialState : option bool;
  ent_State : StateConfig;
  ent_Source : SourceConfig;
  ent_On : list Action;
  ent_Off : list Action;
  ent_Press : list Action;
}.

Record Config := {
  cfg_MQTT : MQTTConfig;
  cfg_Device : DeviceConfig;
  cfg_GPIO : GPIOConfig;
  cfg_Entities : list EntityConfig;
}.

#[global] Instance StateConfig_eq_dec : EqDecision StateConfig.
Proof. solve_decision. Defined.
#[global] Instance SourceConfig_eq_dec : EqDecision SourceConfig.
Proof. solve_decision. Defined.
#[global] Instance Action_eq_dec : EqDecision Action.
Proof. solve_decision. Defined.
#[global] Instance EntityConfig_eq_dec : EqDecision EntityConfig.
Proof. solve_decision. Defined.

(** ** Constants *)

Definition DefaultMQTTQoS : Z := 1.
Definition DefaultMQTTKeepAlive : Z := 30 * Second.
Definition DefaultMQTTConnectTimeout : Z := 10 * Second.
Definition DefaultCommandTimeout : Z := 10 * Second.
Definition DefaultDiscoveryPrefix : string := "homeassistant".
Definition DefaultDiscoveryStateFile : string :=
  "/var/lib/mqtt-raspberry-controller/discovery-state.json".

(** ** [applyDefaults] *)

(** [if s == "" { s = d }] *)
Definition or_default (s d : string) : string := if decide (s = "") then d else s.

Definition output_defaults (o : GPIOOutputConfig) : GPIOOutputConfig :=
  {| out_Chip := or_default (out_Chip o) "gpiochip0"; out_Line := out_Line o;
     out_ActiveLow := out_ActiveLow o; out_Initial := out_Initial o |}.

Definition input_defaults (i : GPIOInputConfig) : GPIOInputConfig :=
  {| in_Chip := or_default (in_Chip i) "gpiochip0"; in_Line := in_Line i;
     in_ActiveLow := in_ActiveLow i; in_Bias := or_default (in_Bias i) "disabled";
     in_Debounce := in_Debounce i |}.

Definition discovery_defaults (d : DiscoveryConfig) : DiscoveryConfig :=
  {| disc_Enabled := disc_Enabled d;
     disc_Prefix := trim_byte "/" (or_default (disc_Prefix d) DefaultDiscoveryPrefix);
     disc_StateFile := or_default (disc_StateFile d) DefaultDiscoveryStateFile |}.

Definition mqtt_defaults (device_id : string) (m : MQTTConfig) : MQTTConfig :=
  {| mq_Broker := mq_Broker m; mq_Username := mq_Username m;
     mq_Password := mq_Password m; mq_PasswordFile := mq_PasswordFile m;
     mq_AllowUnauthenticated := mq_AllowUnauthenticated m;
     mq_AllowInsecureTransport := mq_AllowInsecureTransport m;
     mq_TLS := mq_TLS m;
     mq_ClientID := or_default (mq_ClientID m) device_id;
     mq_BaseTopic := trim_byte "/" (or_default (mq_BaseTopic m) device_id);
     mq_QoS := mq_QoS m; mq_KeepAlive := mq_KeepAlive m;
     mq_ConnectTimeout := mq_ConnectTimeout m;
     mq_Discovery := discovery_defaults (mq_Discovery m) |}.

Definition device_defaults (d : DeviceConfig) : DeviceConfig :=
  {| dev_ID := dev_ID d; dev_Name := dev_Name d;
     dev_Manufacturer := or_default (dev_Manufacturer d) "mqtt-raspberry-controller";
     dev_Model := or_default (dev_Model d) "mqtt-raspberry-controller" |}.

Definition applyDefaults (c : Config) : Config :=
  {| cfg_MQTT := mqtt_defaults (dev_ID (cfg_Device c)) (cfg_MQTT c);
     cfg_Device := device_defaults (cfg_Device c);
     cfg_GPIO := {| gpio_Outputs := output_defaults <$> gpio_Outputs (cfg_GPIO c);
                    gpio_Inputs := input_defaults <$> gpio_Inputs (cfg_GPIO c) |};
     cfg_Entities := cfg_Entities c |}.

(** ** Accessors *)

Definition MQTTQoS (c : Config) : Z := default DefaultMQTTQoS (mq_QoS (cfg_MQTT c)).

Definition DiscoveryEnabled (c : Config) : bool :=
  default true (disc_Enabled (mq_Discovery (cfg_MQTT c))).

(** An empty or unparsable duration falls back to the default. *)
Definition duration_or (raw : string) (d : Z) : Z :=
  if decide (raw = "") then d
  else match ParseDuration raw with Ok v => v | Err _ => d end.

Definition MQTTKeepAlive (c : Config) : Z :=
  duration_or (mq_KeepAlive (cfg_MQTT c)) DefaultMQTTKeepAlive.
Definition MQTTConnectTimeout (c : Config) : Z :=
  duration_or (mq_ConnectTimeout (cfg_MQTT c)) DefaultMQTTConnectTimeout.
Definition CommandTimeout (a : Action) : Z :=
  duration_or (act_Timeout a) DefaultCommandTimeout.

(** ** A small installation, for examples *)

Definition set_output (gpio : string) (v : bool) : Action :=
  {| act_Type := "gpio"; act_GPIO := gpio; act_Value := Some v; act_Command := "";
     act_Args := []; act_WorkingDir := ""; act_Env := ∅; act_Timeout := "";
     act_Duration := ""; act_Topic := ""; act_Payload := ""; act_QoS := None;
     act_Retain := false; act_IgnoreError := false |}.

Definition wait (d : string) : Action :=
  {| act_Type := "delay"; act_GPIO := ""; act_Value := None; act_Command := "";
     act_Args := []; act_WorkingDir := ""; act_Env := ∅; act_Timeout := "";
     act_Duration := d; act_Topic := ""; act_Payload := ""; act_QoS := None;
     act_Retain := false; act_IgnoreError := false |}.

Definition no_state : StateConfig := {| state_Type := ""; state_GPIO := "" |}.
Definition no_source : SourceConfig := {| source_Type := ""; source_GPIO := "" |}.

Definition sample_lamp : EntityConfig :=
  {| ent_ID := "lamp"; ent_Type := "switch"; ent_Name := "Lamp"; ent_Icon := "mdi:lamp";
     ent_DeviceClass := ""; ent_InitialState := Some true;
     ent_State := {| state_Type := "gpio"; state_GPIO := "relay" |};
     ent_Source := no_source; ent_On := [set_output "relay" true];
     ent_Off := [set_output "relay" false]; ent_Press := [] |}.

Definition sample_bell : EntityConfig :=
  {| ent_ID := "bell"; ent_Type := "button"; ent_Name := "Bell"; ent_Icon := "";
     ent_DeviceClass := ""; ent_InitialState := None; ent_State := no_state;
     ent_Source := no_source; ent_On := []; ent_Off := [];
     ent_Press := [set_output "relay" true; wait "200ms"; set_output "relay" false] |}.

Definition sample_door : EntityConfig :=
  {| ent_ID := "door"; ent_Type := "binary_sensor"; ent_Name := "Door"; ent_Icon := "";
     ent_DeviceClass := "door"; ent_InitialState := None; ent_State := no_state;
     ent_Source := {| source_Type := "gpio"; source_GPIO := "contact" |};
     ent_On := []; ent_Off := []; ent_Press := [] |}.

Definition sample_config : Config :=
  {| cfg_MQTT :=
       {| mq_Broker := "tcp://localhost:1883"; mq_Username := ""; mq_Password := "";
          mq_PasswordFile := ""; mq_AllowUnauthenticated := true;
          mq_AllowInsecureTransport := false;
          mq_TLS := {| CAFile := ""; CertFile := ""; KeyFile := ""; ServerName := "";
                       MinVersion := "" |};
          mq_ClientID := "pi"; mq_BaseTopic := "home/pi"; mq_QoS := None;
          mq_KeepAlive := "30s"; mq_ConnectTimeout := "";
          mq_Discovery := {| disc_Enabled := None; disc_Prefix := "homeassistant";
                             disc_StateFile := "/var/lib/pi/discovery.json" |} |};
     cfg_Device := {| dev_ID := "pi"; dev_Name := "Pi"; dev_Manufacturer := "";
                      dev_Model := "" |};
     cfg_GPIO :=
       {| gpio_Outputs := {[ "relay" := {| out_Chip := "gpiochip0"; out_Line := 17;
                                           out_ActiveLow := false; out_Initial := false |} ]};
          gpio_Inputs := {[ "contact" := {| in_Chip := "gpiochip0"; in_Line := 27;
                                            in_ActiveLow := true; in_Bias := "pull_up";
                                            in_Debounce := "20ms" |} ]} |};
     cfg_Entities := [sample_lamp; sample_bell; sample_door] |}.

(** ** Lemmas *)

Lemma or_default_nonempty s d : d ≠ "" → or_default s d ≠ "".
Proof. unfold or_default. by case_decide. Qed.

Lemma or_default_idemp s d : or_default (or_default s d) d = or_default s d.
Proof. unfold or_default. repeat case_decide; congruence. Qed.
#[export] Hint Rewrite or_default_idemp : golib.
