(* ===== verification/Gpio.v ===== *)
(** * Package gpio: the manager of the GPIO lines

    [src/gpio/manager.go]: opening the configured outputs and inputs, the
    rollback when one of them fails, reading and driving lines, closing.

    Requesting, driving and releasing a line is go-gpiocdev and the kernel:
    the class [LineEnv] lists these calls and [LineLaws] the part of their
    documentation the manager relies on. *)

From S2P Require Import Prelude GoString GoTime Config.

Open Scope Z_scope.

Inductive lineDirection : Type := lineInput | lineOutput.

(** The event handler of an input is the closure [inputEventHandler] builds,
    here the name it closes over. *)
Record lineRequest := {
  lr_chip : string;
  lr_offset : Z;
  lr_consumer : string;
  lr_direction : lineDirection;
  lr_initial : Z;
  lr_activeLow : bool;
  lr_bias : string;
  lr_debounce : Z;
  lr_bothEdges : bool;
  lr_eventHandler : option string;
}.

Inductive GpioError : Type :=
| ErrOpenOutput (name : string) (cause : string)
| ErrOpenInput (name : string) (cause : string)
| ErrDebounce (name : string)
| ErrNotOpen (name : string)
| ErrSet (name : string) (cause : string)
| ErrRead (name : string) (cause : string)
| ErrClose (name : string) (cause : string).

(** The options of go-gpiocdev that the program uses. *)
Inductive LineReqOption : Type :=
| WithConsumer (consumer : string)
| AsActiveLow
| AsActiveHigh
| AsOutput (initial : Z)
| AsInput
| WithBothEdges
| WithEventHandler (handler : option string)
| WithPullUp
| WithPullDown
| WithBiasDisabled
| WithDebounce (period : Z).

#[global] Instance LineReqOption_eq_dec : EqDecision LineReqOption.
Proof. solve_decision. Defined.

(** The options [requestGPIOLine] builds, in its order. *)
Definition line_options (r : lineRequest) : list LineReqOption :=
  [WithConsumer (lr_consumer r); if lr_activeLow r then AsActiveLow else AsActiveHigh] ++
  match lr_direction r with
  | lineOutput => [AsOutput (lr_initial r)]
  | lineInput =>
      [AsInput] ++ (if lr_bothEdges r then [WithBothEdges] else []) ++
      [WithEventHandler (lr_eventHandler r);
       if decide (lr_bias r = "pull_up") then WithPullUp
       else if decide (lr_bias r = "pull_down") then WithPullDown else WithBiasDisabled] ++
      (if 0 <? lr_debounce r then [WithDebounce (lr_debounce r)] else [])
  end.

Class LineEnv (L W : Type) := {
  RequestLine : string → Z → list LineReqOption → W → result string L * W;
  line_SetValue : L → Z → W → result string unit * W;
  line_Value : L → W → result string Z * W;
  line_Close : L → W → result string unit * W;
  (** the order in which Go ranges over a map of lines *)
  range_lines : W → gmap string L → list (string * L);
}.

Record Manager (L : Type) := MkManager {
  gm_config : GPIOConfig;
  gm_outputs : gmap string L;
  gm_inputs : gmap string L;
}.
Arguments MkManager {L}.
Arguments gm_config {L}.
Arguments gm_outputs {L}.
Arguments gm_inputs {L}.

Section manager.
Context {L W : Type} `{!LineEnv L W}.
#[local] Abbreviation Manager := (Manager L).
#[local] Abbreviation M A := (ME (Manager * W) GpioError A).

Definition requestGPIOLine (r : lineRequest) : W → result string L * W :=
  RequestLine (lr_chip r) (lr_offset r) (line_options r).

(** The manager's [requestLine] is [requestGPIOLine]. *)
Definition new_manager (cfg : GPIOConfig) : Manager := MkManager cfg ∅ ∅.

Definition set_outputs (f : gmap string L → gmap string L) (m : Manager) : Manager :=
  MkManager (gm_config m) (f (gm_outputs m)) (gm_inputs m).
Definition set_inputs (f : gmap string L → gmap string L) (m : Manager) : Manager :=
  MkManager (gm_config m) (gm_outputs m) (f (gm_inputs m)).

Definition sortedOutputNames (values : gmap string GPIOOutputConfig) : list string :=
  sorted_map_keys values.
Definition sortedInputNames (values : gmap string GPIOInputConfig) : list string :=
  sorted_map_keys values.

(** Close the lines of [l] in order; the first error is kept, every line is
    closed and forgotten. *)
Fixpoint close_lines (forget : string → Manager → Manager) (l : list (string * L))
    (first : option GpioError) (s : Manager * W) : option GpioError * (Manager * W) :=
  match l with
  | [] => (first, s)
  | (name, line) :: l =>
      let '(m, w) := s in
      let '(r, w') := line_Close line w in
      let first' := match r, first with
                    | Err e, None => Some (ErrClose name e)
                    | _, _ => first
                    end in
      close_lines forget l first' (forget name m, w')
  end.

Definition closeInputsLocked (s : Manager * W) : option GpioError * (Manager * W) :=
  close_lines (λ name, set_inputs (delete name)) (range_lines s.2 (gm_inputs s.1)) None s.

Definition closeLocked (s : Manager * W) : option GpioError * (Manager * W) :=
  let '(firstErr, s) := closeInputsLocked s in
  close_lines (λ name, set_outputs (delete name)) (range_lines s.2 (gm_outputs s.1)) firstErr s.

Definition Close : M unit := λ s,
  let '(e, s') := closeLocked s in
  (match e with Some e => Err e | None => Ok tt end, s').

Definition output_request (name : string) (cfg : GPIOOutputConfig) : lineRequest :=
  {| lr_chip := out_Chip cfg; lr_offset := out_Line cfg;
     lr_consumer := "mqtt-raspberry-controller:" +:+ name;
     lr_direction := lineOutput; lr_initial := if out_Initial cfg then 1 else 0;
     lr_activeLow := out_ActiveLow cfg; lr_bias := ""; lr_debounce := 0;
     lr_bothEdges := false; lr_eventHandler := None |}.

Definition input_request (name : string) (cfg : GPIOInputConfig) (debounce : Z) : lineRequest :=
  {| lr_chip := in_Chip cfg; lr_offset := in_Line cfg;
     lr_consumer := "mqtt-raspberry-controller:" +:+ name;
     lr_direction := lineInput; lr_initial := 0;
     lr_activeLow := in_ActiveLow cfg; lr_bias := in_Bias cfg; lr_debounce := debounce;
     lr_bothEdges := true; lr_eventHandler := Some name |}.

(** One iteration of the loop of [OpenOutputs]. *)
Definition open_output (name : string) : M unit := λ s,
  let '(m, w) := s in
  match gm_outputs m !! name, gpio_Outputs (gm_config m) !! name with
  | Some _, _ | _, None => (Ok tt, s)
  | None, Some cfg =>
      match requestGPIOLine (output_request name cfg) w with
      | (Err e, w') => let '(_, s') := closeLocked (m, w') in (Err (ErrOpenOutput name e), s')
      | (Ok line, w') => (Ok tt, (set_outputs (<[name := line]>) m, w'))
      end
  end.

Definition OpenOutputs : M unit := λ s,
  me_for_each open_output (sortedOutputNames (gpio_Outputs (gm_config s.1))) s.

Definition input_debounce (cfg : GPIOInputConfig) : option Z :=
  if decide (in_Debounce cfg = "") then Some 0
  else match ParseDuration (in_Debounce cfg) with Ok d => Some d | Err _ => None end.

(** One iteration of the loop of [OpenInputs]. *)
Definition open_input (name : string) : M unit := λ s,
  let '(m, w) := s in
  match gm_inputs m !! name, gpio_Inputs (gm_config m) !! name with
  | Some _, _ | _, None => (Ok tt, s)
  | None, Some cfg =>
      match input_debounce cfg with
      | None => let '(_, s') := closeInputsLocked s in (Err (ErrDebounce name), s')
      | Some debounce =>
          match requestGPIOLine (input_request name cfg debounce) w with
          | (Err e, w') =>
              let '(_, s') := closeInputsLocked (m, w') in (Err (ErrOpenInput name e), s')
          | (Ok line, w') => (Ok tt, (set_inputs (<[name := line]>) m, w'))
          end
      end
  end.

Definition OpenInputs : M unit := λ s,
  me_for_each open_input (sortedInputNames (gpio_Inputs (gm_config s.1))) s.

Definition SetOutput (name : string) (state : bool) : M unit := λ s,
  let '(m, w) := s in
  match gm_outputs m !! name with
  | None => (Err (ErrNotOpen name), s)
  | Some line =>
      let '(r, w') := line_SetValue line (if state then 1 else 0) w in
      (map_err (ErrSet name) r, (m, w'))
  end.

(** [OutputState] and [InputState] on the line table they consult. *)
Definition line_state (lines : Manager → gmap string L) (name : string) : M bool := λ s,
  let '(m, w) := s in
  match lines m !! name with
  | None => (Err (ErrNotOpen name), s)
  | Some line =>
      let '(r, w') := line_Value line w in
      (match r with Ok value => Ok (value =? 1) | Err e => Err (ErrRead name e) end, (m, w'))
  end.

Definition OutputState : string → M bool := line_state gm_outputs.
Definition InputState : string → M bool := line_state gm_inputs.
End manager.

(** ** Edge events *)

(** The event types of go-gpiocdev; any other value is [OtherEdge]. *)
Inductive LineEventType : Type := LineEventRisingEdge | LineEventFallingEdge | OtherEdge (n : Z).

Definition stateFromEvent (event : LineEventType) : option bool :=
  match event with
  | LineEventRisingEdge => Some true
  | LineEventFallingEdge => Some false
  | OtherEdge _ => None
  end.

(** [inputEventHandler name handler]; a nil handler is [None], and an unknown
    edge is only logged. *)
Definition inputEventHandler {W} (name : string) (handler : option (string → bool → W → W))
    (event : LineEventType) (w : W) : W :=
  match handler with
  | None => w
  | Some h => match stateFromEvent event with
              | Some state => h name state w
              | None => w
              end
  end.

(** ** What the manager relies on *)

(** [held w] is the set of line handles the process holds: a request that
    succeeds hands out a new handle, [Close] releases it, whatever it returns. *)
Class LineLaws (L W : Type) `{LineEnv L W, Countable L} := {
  held : W → gset L;
  RequestLine_ok chip offset options w l w' :
    RequestLine chip offset options w = (Ok l, w') → (l ∉ held w) ∧ held w' = {[ l ]} ∪ held w;
  RequestLine_err chip offset options w e w' :
    RequestLine chip offset options w = (Err e, w') → held w' = held w;
  close_held l w r w' : line_Close l w = (r, w') → held w' = held w ∖ {[ l ]};
  set_held l v w r w' : line_SetValue l v w = (r, w') → held w' = held w;
  value_held l w r w' : line_Value l w = (r, w') → held w' = held w;
  range_lines_perm w m : range_lines w m ≡ₚ map_to_list m;
}.

Section laws.
Context {L W : Type} `{LineLaws L W}.
Implicit Types (m : Manager L) (w : W).

Definition lines_of (t : gmap string L) : gset L := list_to_set (map_to_list t).*2.
Definition owned m : gset L := lines_of (gm_outputs m) ∪ lines_of (gm_inputs m).

(** The manager's tables are injective, disjoint, held, and hold configured
    names only. *)
Record manager_inv m w : Prop := {
  mi_held : owned m ⊆ held w;
  mi_disjoint : lines_of (gm_outputs m) ## lines_of (gm_inputs m);
  mi_outputs_inj n1 n2 l : gm_outputs m !! n1 = Some l → gm_outputs m !! n2 = Some l → n1 = n2;
  mi_inputs_inj n1 n2 l : gm_inputs m !! n1 = Some l → gm_inputs m !! n2 = Some l → n1 = n2;
  mi_outputs : dom (gm_outputs m) ⊆ dom (gpio_Outputs (gm_config m));
  mi_inputs : dom (gm_inputs m) ⊆ dom (gpio_Inputs (gm_config m));
}.

(** The lines the process holds for anything but the manager. *)
Definition others m w : gset L := held w ∖ owned m.

Lemma elem_of_lines_of t l : l ∈ lines_of t ↔ ∃ n, t !! n = Some l.
Proof.
  unfold lines_of. rewrite elem_of_list_to_set, list_elem_of_fmap. split.
  - intros ([n l'] & -> & Hn%elem_of_map_to_list). eauto.
  - intros [n Hn]. exists (n, l). by rewrite elem_of_map_to_list.
Qed.

Lemma lines_of_empty : lines_of ∅ = ∅.
Proof. unfold lines_of. by rewrite map_to_list_empty. Qed.

Lemma lines_of_insert n l t : t !! n = None → lines_of (<[n := l]> t) = {[ l ]} ∪ lines_of t.
Proof. intros Hn. unfold lines_of. by rewrite map_to_list_insert. Qed.

(** Deleting every name of the table empties it. *)
Lemma delete_all (l : list (string * L)) (t : gmap string L) :
  (∀ n, is_Some (t !! n) → n ∈ l.*1) → foldl (λ t p, delete p.1 t) t l = ∅.
Proof.
  revert t. induction l as [|[n x] l IH]; intros t Ht; cbn.
  - apply map_empty. intros n. destruct (t !! n) eqn:Hn; [|done].
    destruct (not_elem_of_nil n). apply Ht. eauto.
  - apply IH. intros n' Hn'. destruct (decide (n' = n)) as [->|Hne].
    + rewrite lookup_delete_eq in Hn'. by destruct Hn'.
    + rewrite lookup_delete_ne in Hn' by done. apply Ht in Hn'. set_solver.
Qed.

Lemma close_lines_spec forget l first m w e m' w' :
  close_lines forget l first (m, w) = (e, (m', w')) →
  m' = foldl (λ m p, forget p.1 m) m l ∧ held w' = held w ∖ list_to_set l.*2 ∧
  (first ≠ None → e = first).
Proof.
  revert first m w. induction l as [|[n x] l IH]; intros first m w; cbn.
  - intros [= <- <- <-]. split_and!; [done|set_solver|done].
  - destruct (line_Close x w) as [r w1] eqn:Hc. intros (-> & Hh & He)%IH.
    apply close_held in Hc. split_and!; [done|rewrite Hh, Hc; set_solver|].
    intros Hf. rewrite He; by destruct r, first.
Qed.

Lemma foldl_set_inputs (l : list (string * L)) m :
  foldl (λ m p, set_inputs (delete p.1) m) m l
  = set_inputs (λ t, foldl (λ t p, delete p.1 t) t l) m.
Proof.
  revert m. induction l as [|p l IH]; intros m; cbn; [by destruct m|]. by rewrite IH.
Qed.

Lemma foldl_set_outputs (l : list (string * L)) m :
  foldl (λ m p, set_outputs (delete p.1) m) m l
  = set_outputs (λ t, foldl (λ t p, delete p.1 t) t l) m.
Proof.
  revert m. induction l as [|p l IH]; intros m; cbn; [by destruct m|]. by rewrite IH.
Qed.

Lemma range_lines_all w t n : is_Some (t !! n) → n ∈ (range_lines w t).*1.
Proof.
  intros [x Hx]. rewrite range_lines_perm. apply list_elem_of_fmap.
  exists (n, x). by rewrite elem_of_map_to_list.
Qed.

Lemma range_lines_values w t : list_to_set (range_lines w t).*2 = lines_of t.
Proof.
  unfold lines_of. apply set_eq. intros x. rewrite !elem_of_list_to_set.
  by rewrite range_lines_perm.
Qed.

Lemma closeInputsLocked_spec m w e m' w' :
  closeInputsLocked (m, w) = (e, (m', w')) →
  m' = MkManager (gm_config m) (gm_outputs m) ∅ ∧ held w' = held w ∖ lines_of (gm_inputs m).
Proof.
  unfold closeInputsLocked. intros (-> & Hh & _)%close_lines_spec.
  rewrite foldl_set_inputs, Hh. cbn [fst snd].
  rewrite range_lines_values. unfold set_inputs. split; [|done].
  f_equal. apply delete_all. intros n. apply range_lines_all.
Qed.

Lemma closeLocked_spec m w e m' w' :
  closeLocked (m, w) = (e, (m', w')) →
  m' = MkManager (gm_config m) ∅ ∅ ∧ held w' = held w ∖ owned m.
Proof.
  unfold closeLocked. destruct (closeInputsLocked (m, w)) as [e1 [m1 w1]] eqn:Hi.
  apply closeInputsLocked_spec in Hi as [-> Hh1].
  intros (-> & Hh & _)%close_lines_spec. rewrite foldl_set_outputs, Hh, Hh1. cbn [fst snd].
  rewrite range_lines_values. unfold set_outputs. cbn. split.
  - f_equal. apply delete_all. intros n. apply range_lines_all.
  - unfold owned. set_solver.
Qed.

(** *** Preservation *)

Lemma manager_inv_new cfg w : manager_inv (new_manager cfg) w.
Proof. unfold new_manager. split; cbn; unfold owned; cbn; rewrite ?lines_of_empty; set_solver. Qed.

Lemma manager_inv_closed m w w' :
  manager_inv m w → held w' = held w ∖ owned m →
  manager_inv (MkManager (gm_config m) ∅ ∅) w' ∧
  others (MkManager (gm_config m) ∅ ∅) w' = others m w.
Proof.
  intros Hi Hh. split.
  - apply (manager_inv_new (gm_config m)).
  - unfold others. rewrite Hh. unfold owned at 2. cbn. rewrite !lines_of_empty. set_solver.
Qed.

Lemma manager_inv_inputs_closed m w w' :
  manager_inv m w → held w' = held w ∖ lines_of (gm_inputs m) →
  manager_inv (MkManager (gm_config m) (gm_outputs m) ∅) w' ∧
  others (MkManager (gm_config m) (gm_outputs m) ∅) w' = others m w.
Proof.
  intros [Hheld Hdisj Ho Hi Hd1 Hd2] Hh. unfold owned in *. split.
  - split; cbn; unfold owned; cbn; rewrite ?lines_of_empty, ?Hh; try done; set_solver.
  - unfold others, owned. cbn. rewrite Hh, lines_of_empty. set_solver.
Qed.

Lemma manager_inv_add_output m w w' name cfg l :
  manager_inv m w → gm_outputs m !! name = None → gpio_Outputs (gm_config m) !! name = Some cfg →
  (l ∉ held w) → held w' = {[ l ]} ∪ held w →
  manager_inv (set_outputs (<[name := l]>) m) w' ∧
  others (set_outputs (<[name := l]>) m) w' = others m w.
Proof.
  intros [Hheld Hdisj Ho Hi Hd1 Hd2] Hn Hcfg Hl Hh. unfold owned in *. split.
  - split; cbn; unfold owned; cbn; rewrite ?lines_of_insert, ?Hh by done; try done; [set_solver..| |].
    + intros n1 n2 l'. rewrite !lookup_insert_Some.
      intros [[<- <-]|[_ Hx1]] [[<- E]|[_ Hx2]]; try done; [| |by eapply Ho].
      * destruct Hl. apply Hheld, elem_of_union_l, elem_of_lines_of. eauto.
      * subst l'. destruct Hl. apply Hheld, elem_of_union_l, elem_of_lines_of. eauto.
    + rewrite dom_insert_L. apply elem_of_dom_2 in Hcfg. set_solver.
  - unfold others, owned. cbn. rewrite Hh, lines_of_insert by done. set_solver.
Qed.

Lemma manager_inv_add_input m w w' name cfg l :
  manager_inv m w → gm_inputs m !! name = None → gpio_Inputs (gm_config m) !! name = Some cfg →
  (l ∉ held w) → held w' = {[ l ]} ∪ held w →
  manager_inv (set_inputs (<[name := l]>) m) w' ∧
  others (set_inputs (<[name := l]>) m) w' = others m w.
Proof.
  intros [Hheld Hdisj Ho Hi Hd1 Hd2] Hn Hcfg Hl Hh. unfold owned in *. split.
  - split; cbn; unfold owned; cbn; rewrite ?lines_of_insert, ?Hh by done; try done; [set_solver..| |].
    + intros n1 n2 l'. rewrite !lookup_insert_Some.
      intros [[<- <-]|[_ Hx1]] [[<- E]|[_ Hx2]]; try done; [| |by eapply Hi].
      * destruct Hl. apply Hheld, elem_of_union_r, elem_of_lines_of. eauto.
      * subst l'. destruct Hl. apply Hheld, elem_of_union_r, elem_of_lines_of. eauto.
    + rewrite dom_insert_L. apply elem_of_dom_2 in Hcfg. set_solver.
  - unfold others, owned. cbn. rewrite Hh, lines_of_insert by done. set_solver.
Qed.

(** What the loop of [OpenOutputs] leaves behind. *)
Definition outputs_opened (names : list string) m w (r : result GpioError unit) m' w' : Prop :=
  manager_inv m' w' ∧ gm_config m' = gm_config m ∧ others m' w' = others m w ∧
  match r with
  | Ok _ => gm_inputs m' = gm_inputs m ∧ gm_outputs m ⊆ gm_outputs m' ∧
            ∀ n, n ∈ names → is_Some (gm_outputs m' !! n)
  | Err _ => gm_outputs m' = ∅ ∧ gm_inputs m' = ∅
  end.

Lemma open_output_spec name m w r m' w' :
  manager_inv m w → is_Some (gpio_Outputs (gm_config m) !! name) →
  open_output name (m, w) = (r, (m', w')) → outputs_opened [name] m w r m' w'.
Proof.
  intros Hi [cfg Hcfg]. unfold open_output, outputs_opened. rewrite Hcfg.
  destruct (gm_outputs m !! name) as [l|] eqn:Ho.
  - intros [= <- <- <-]. split_and!; [done..|]. intros n ->%list_elem_of_singleton. eauto.
  - destruct (requestGPIOLine _ w) as [[l|e] w1] eqn:Hr.
    + intros [= <- <- <-]. apply RequestLine_ok in Hr as [Hl Hh].
      destruct (manager_inv_add_output m w w1 name cfg l) as [Hi' Hoth]; [done..|].
      split_and!; [done..|by apply insert_subseteq|].
      intros n ->%list_elem_of_singleton. cbn. rewrite lookup_insert_eq. eauto.
    + apply RequestLine_err in Hr.
      destruct (closeLocked (m, w1)) as [e' [m2 w2]] eqn:Hc.
      apply closeLocked_spec in Hc as [-> Hh]. intros [= <- <- <-]. rewrite Hr in Hh.
      destruct (manager_inv_closed m w w2) as [??]; [done..|]. by split_and!.
Qed.

Lemma open_outputs_loop names m w r m' w' :
  manager_inv m w → (∀ n, n ∈ names → is_Some (gpio_Outputs (gm_config m) !! n)) →
  me_for_each open_output names (m, w) = (r, (m', w')) → outputs_opened names m w r m' w'.
Proof.
  revert m w. induction names as [|n names IH]; intros m w Hi Hn; cbn.
  - intros [= <- <- <-]. split_and!; [done..|]. set_solver.
  - unfold mbind, me_bind.
    destruct (open_output n (m, w)) as [[[]|e] [m1 w1]] eqn:E1;
      (apply open_output_spec in E1 as (Hi1 & Hc1 & Ho1 & Hr1); [|done|apply Hn; left]).
    + intros Hloop. apply IH in Hloop as (Hi2 & Hc2 & Ho2 & Hr2);
        [|done|intros n' ?; rewrite Hc1; apply Hn; by right].
      destruct Hr1 as (Hin1 & Hsub1 & Hn1).
      split_and!; [done|congruence|congruence|]. destruct r as [[]|e]; [|done].
      destruct Hr2 as (Hin2 & Hsub2 & Hn2).
      split_and!; [congruence|by etrans|].
      intros n' [->|?]%elem_of_cons; [|auto].
      destruct (Hn1 n) as [l Hl]; [left|]. exists l. by eapply lookup_weaken.
    + intros [= <- <- <-]. destruct Hr1. by split_and!.
Qed.

(** What the loop of [OpenInputs] leaves behind: a failure releases the inputs
    only. *)
Definition inputs_opened (names : list string) m w (r : result GpioError unit) m' w' : Prop :=
  manager_inv m' w' ∧ gm_config m' = gm_config m ∧ others m' w' = others m w ∧
  gm_outputs m' = gm_outputs m ∧
  match r with
  | Ok _ => gm_inputs m ⊆ gm_inputs m' ∧ ∀ n, n ∈ names → is_Some (gm_inputs m' !! n)
  | Err _ => gm_inputs m' = ∅
  end.

Lemma close_inputs_opened names m w e e' m' w' :
  manager_inv m w → closeInputsLocked (m, w) = (e', (m', w')) →
  inputs_opened names m w (Err e) m' w'.
Proof.
  intros Hi Hc. apply closeInputsLocked_spec in Hc as [-> Hh].
  destruct (manager_inv_inputs_closed m w w') as [??]; [done..|]. by split_and!.
Qed.

Lemma open_input_spec name m w r m' w' :
  manager_inv m w → is_Some (gpio_Inputs (gm_config m) !! name) →
  open_input name (m, w) = (r, (m', w')) → inputs_opened [name] m w r m' w'.
Proof.
  intros Hi [cfg Hcfg]. unfold open_input. rewrite Hcfg.
  destruct (gm_inputs m !! name) as [l|] eqn:Ho.
  - intros [= <- <- <-]. split_and!; [done..|]. intros n ->%list_elem_of_singleton. eauto.
  - destruct (input_debounce cfg) as [d|].
    + destruct (requestGPIOLine _ w) as [[l|e] w1] eqn:Hr.
      * intros [= <- <- <-]. apply RequestLine_ok in Hr as [Hl Hh].
        destruct (manager_inv_add_input m w w1 name cfg l) as [Hi' Hoth]; [done..|].
        split_and!; [done..|by apply insert_subseteq|].
        intros n ->%list_elem_of_singleton. cbn. rewrite lookup_insert_eq. eauto.
      * apply RequestLine_err in Hr.
        destruct (closeInputsLocked (m, w1)) as [e' [m2 w2]] eqn:Hc.
        intros [= <- <- <-].
        assert (manager_inv m w1 ∧ others m w1 = others m w) as [Hi1 Ho1].
        { unfold others. rewrite Hr. split; [|done]. destruct Hi. split; try done. by rewrite Hr. }
        apply (close_inputs_opened [name] _ _ (ErrOpenInput name e)) in Hc as (?&?&?&?&?); [|done].
        split_and!; [done..|congruence|done|done].
    + destruct (closeInputsLocked (m, w)) as [e' [m2 w2]] eqn:Hc. intros [= <- <- <-].
      by eapply close_inputs_opened.
Qed.

Lemma open_inputs_loop names m w r m' w' :
  manager_inv m w → (∀ n, n ∈ names → is_Some (gpio_Inputs (gm_config m) !! n)) →
  me_for_each open_input names (m, w) = (r, (m', w')) → inputs_opened names m w r m' w'.
Proof.
  revert m w. induction names as [|n names IH]; intros m w Hi Hn; cbn.
  - intros [= <- <- <-]. split_and!; [done..|]. set_solver.
  - unfold mbind, me_bind.
    destruct (open_input n (m, w)) as [[[]|e] [m1 w1]] eqn:E1;
      (apply open_input_spec in E1 as (Hi1 & Hc1 & Ho1 & Hout1 & Hr1); [|done|apply Hn; left]).
    + intros Hloop. apply IH in Hloop as (Hi2 & Hc2 & Ho2 & Hout2 & Hr2);
        [|done|intros n' ?; rewrite Hc1; apply Hn; by right].
      destruct Hr1 as (Hsub1 & Hn1).
      split_and!; [done|congruence|congruence|congruence|]. destruct r as [[]|e]; [|done].
      destruct Hr2 as (Hsub2 & Hn2).
      split_and!; [by etrans|].
      intros n' [->|?]%elem_of_cons; [|auto].
      destruct (Hn1 n) as [l Hl]; [left|]. exists l. by eapply lookup_weaken.
    + intros [= <- <- <-]. by split_and!.
Qed.

(** *** The operations *)

Lemma OpenOutputs_spec m w r m' w' :
  manager_inv m w → OpenOutputs (m, w) = (r, (m', w')) →
  manager_inv m' w' ∧ others m' w' = others m w ∧
  match r with
  | Ok _ => gm_inputs m' = gm_inputs m ∧
            dom (gm_outputs m') = dom (gpio_Outputs (gm_config m))
  | Err _ => owned m' = ∅
  end.
Proof.
  intros Hi Ho. apply open_outputs_loop in Ho as (Hi' & Hc & Hoth & Hr); [|done|].
  - split_and!; [done..|]. destruct r as [[]|e].
    + destruct Hr as (Hin & _ & Hn). split; [done|]. apply set_eq. intros n. split.
      * intros Hd. rewrite <- Hc. by apply Hi'.
      * intros Hd%elem_of_dom. apply elem_of_dom, Hn, elem_of_sorted_map_keys, Hd.
    + destruct Hr as [Ho Hin]. unfold owned. by rewrite Ho, Hin, lines_of_empty, (union_idemp_L ∅).
  - intros n. unfold sortedOutputNames. by rewrite elem_of_sorted_map_keys.
Qed.

(** C29: [OpenOutputs] opens every configured output, or rolls back and leaves
    no line of the manager open.  Either way the lines the process holds for
    anything else are untouched: no line leaks. *)
Theorem OpenOutputs_all_or_nothing m w r m' w' :
  manager_inv m w → OpenOutputs (m, w) = (r, (m', w')) →
  manager_inv m' w' ∧ others m' w' = others m w ∧
  match r with
  | Ok _ => gm_inputs m' = gm_inputs m ∧
            dom (gm_outputs m') = dom (gpio_Outputs (gm_config m))
  | Err _ => owned m' = ∅
  end.
Proof. apply OpenOutputs_spec. Qed.

(** C30: [OpenInputs] opens every configured input, or closes all inputs and
    keeps the outputs as they were. *)
Theorem OpenInputs_all_or_nothing m w r m' w' :
  manager_inv m w → OpenInputs (m, w) = (r, (m', w')) →
  manager_inv m' w' ∧ others m' w' = others m w ∧ gm_outputs m' = gm_outputs m ∧
  match r with
  | Ok _ => dom (gm_inputs m') = dom (gpio_Inputs (gm_config m))
  | Err _ => gm_inputs m' = ∅
  end.
Proof.
  intros Hi Ho. apply open_inputs_loop in Ho as (Hi' & Hc & Hoth & Hout & Hr); [|done|].
  - split_and!; [done..|]. destruct r as [[]|e]; [|done].
    destruct Hr as (_ & Hn). apply set_eq. intros n. split.
    + intros Hd. rewrite <- Hc. by apply Hi'.
    + intros Hd%elem_of_dom. apply elem_of_dom, Hn, elem_of_sorted_map_keys, Hd.
  - intros n. unfold sortedInputNames. by rewrite elem_of_sorted_map_keys.
Qed.

(** C31: [Close] releases every line of the manager and no other, whatever the
    releases return and in whatever order the maps are walked. *)
Theorem Close_releases_all m w r m' w' :
  Close (m, w) = (r, (m', w')) →
  gm_outputs m' = ∅ ∧ gm_inputs m' = ∅ ∧ held w' = held w ∖ owned m.
Proof.
  unfold Close. destruct (closeLocked (m, w)) as [e [m1 w1]] eqn:Hc.
  apply closeLocked_spec in Hc as [-> Hh]. by intros [= _ <- <-].
Qed.
End laws.

(** ** A simulated board *)

(** Line handles are offsets; a line can be requested once, and line 99 does
    not exist.  A pin is its logical level and whether it is inverted; later
    options override earlier ones. *)
Abbreviation board := (gmap Z (Z * bool)).

Definition apply_option (pin : Z * bool) (o : LineReqOption) : Z * bool :=
  match o with
  | AsOutput v => (v, pin.2)
  | AsActiveLow => (pin.1, true)
  | AsActiveHigh => (pin.1, false)
  | _ => pin
  end.

Definition requested_pin (options : list LineReqOption) : Z * bool :=
  foldl apply_option (0, false) options.

#[export] Instance board_env : LineEnv Z board := {
  RequestLine _ offset options w :=
    if decide (offset = 99) then (Err "no such line", w)
    else match w !! offset with
         | Some _ => (Err "device or resource busy", w)
         | None => (Ok offset, <[offset := requested_pin options]> w)
         end;
  line_SetValue l v w :=
    match w !! l with
    | Some pin => (Ok tt, <[l := (v, pin.2)]> w)
    | None => (Err "closed", w)
    end;
  line_Value l w := (match w !! l with Some pin => Ok pin.1 | None => Err "closed" end, w);
  line_Close l w := (Ok tt, delete l w);
  range_lines _ m := map_to_list m;
}.

#[export] Program Instance board_laws : LineLaws Z board := { held w := dom w }.
Next Obligation.
  intros chip offset options w l w'. cbn. case_decide; [done|]. case_match eqn:Hl; [done|].
  intros [= <- <-]. rewrite dom_insert_L. split; [|done]. by apply not_elem_of_dom.
Qed.
Next Obligation.
  intros chip offset options w e w'. cbn. case_decide; [by intros [= _ <-]|]. case_match; [|done].
  by intros [= _ <-].
Qed.
Next Obligation. intros l w r w' [= _ <-]. by rewrite dom_delete_L. Qed.
Next Obligation.
  intros l v w r w'. cbn. destruct (w !! l) eqn:Hl; intros [= _ <-]; [|done].
  apply elem_of_dom_2 in Hl. rewrite dom_insert_L. set_solver.
Qed.
Next Obligation. by intros l w r w' [= _ <-]. Qed.
Next Obligation. done. Qed.

(** ** Concrete runs *)

Definition two_outputs (line : Z) : GPIOConfig :=
  {| gpio_Outputs := <["fan" := {| out_Chip := "gpiochip0"; out_Line := line;
                                   out_ActiveLow := false; out_Initial := true |}]>
                     (gpio_Outputs (cfg_GPIO sample_config));
     gpio_Inputs := gpio_Inputs (cfg_GPIO sample_config) |}.

(** Line 5 belongs to someone else. *)
Definition board0 : board := {[ 5 := (0, false) ]}.

Definition opened (line : Z) : result GpioError unit * (Manager Z * board) :=
  OpenOutputs (new_manager (two_outputs line), board0).

Example opened_ok : (opened 4).1 = Ok tt.
Proof. vm_compute. reflexivity. Qed.

(** The relay is opened after the fan, in the order of the names. *)
Example opened_board : (opened 4).2.2 = <[17 := (0, false)]> (<[4 := (1, false)]> board0).
Proof. vm_compute. reflexivity. Qed.

Definition with_inputs (line : Z) : result GpioError unit * (Manager Z * board) :=
  OpenInputs ((opened line).2.1, (opened line).2.2).

Definition closed (line : Z) : result GpioError unit * (Manager Z * board) :=
  Close ((opened line).2.1, (opened line).2.2).

Lemma opened_inv : manager_inv (opened 4).2.1 (opened 4).2.2.
Proof.
  refine (proj1 (open_outputs_loop (sortedOutputNames (gpio_Outputs (two_outputs 4)))
            (new_manager (two_outputs 4)) board0 _ _ _ (manager_inv_new _ _) _ (triple_eta _))).
  intros n. unfold sortedOutputNames. by rewrite elem_of_sorted_map_keys.
Qed.

Lemma OpenOutputs_all_or_nothing_witness : dom (gm_outputs (opened 4).2.1) = {[ "fan"; "relay" ]}.
Proof.
  destruct (OpenOutputs_all_or_nothing (new_manager (two_outputs 4)) board0
              _ _ _ (manager_inv_new _ _) (triple_eta (opened 4))) as (_ & _ & Hr).
  rewrite opened_ok in Hr. destruct Hr as [_ ->]. by vm_compute.
Defined.

Lemma OpenInputs_all_or_nothing_witness :
  gm_outputs (with_inputs 4).2.1 = gm_outputs (opened 4).2.1.
Proof.
  exact (proj1 (proj2 (proj2 (OpenInputs_all_or_nothing _ _ _ _ _ opened_inv
           (triple_eta (with_inputs 4)))))).
Defined.

Lemma Close_releases_all_witness :
  held (closed 4).2.2 = held (opened 4).2.2 ∖ owned (opened 4).2.1.
Proof.
  exact (proj2 (proj2 (Close_releases_all _ _ _ _ _ (triple_eta (closed 4))))).
Defined.
