(* ===== verification/GpioLevels.v ===== *)
(** * Package gpio: the outputs as a store of states

    What a client of the manager may rely on: once the outputs are open,
    [SetOutput] and [OutputState] behave as writes and reads of a store that
    starts at the configured initial states.  [LineLevels] is the part of the
    documentation of go-gpiocdev this takes. *)

From S2P Require Import Prelude GoString GoTime Config Gpio.

Open Scope Z_scope.

Definition bit (v : bool) : Z := if v then 1 else 0.

(** Which options of a request decide the direction and which the polarity. *)
Definition direction_option (o : LineReqOption) : bool :=
  match o with AsOutput _ | AsInput => true | _ => false end.
Definition polarity_option (o : LineReqOption) : bool :=
  match o with AsActiveLow | AsActiveHigh => true | _ => false end.

Definition directions (options : list LineReqOption) : list LineReqOption :=
  filter (λ o, direction_option o = true) options.
Definition polarities (options : list LineReqOption) : list LineReqOption :=
  filter (λ o, polarity_option o = true) options.

(** [level] is the logical level of a line, [inverted] whether that is the
    opposite of the physical one.  A line requested with the one direction
    [AsOutput(v)] starts at [v]; a line requested with the one polarity
    [AsActiveLow] or [AsActiveHigh] has it; only a [SetValue] changes a level.
    (A requested line is this process's alone.) *)
Class LineLevels (L W : Type) `{!LineEnv L W} := {
  level : W → L → option Z;
  inverted : W → L → option bool;
  level_request chip offset options w l w' v :
    RequestLine chip offset options w = (Ok l, w') → directions options = [AsOutput v] →
    level w' l = Some v;
  inverted_request chip offset options w l w' o :
    RequestLine chip offset options w = (Ok l, w') → polarities options = [o] →
    inverted w' l = Some (bool_decide (o = AsActiveLow));
  level_request_other chip offset options w r w' l' :
    RequestLine chip offset options w = (r, w') → r ≠ Ok l' →
    level w' l' = level w l' ∧ inverted w' l' = inverted w l';
  level_set l v w r w' :
    line_SetValue l v w = (r, w') →
    (r = Ok tt → level w' l = Some v) ∧ ∀ l', l' ≠ l → level w' l' = level w l';
  level_read l w v w' : line_Value l w = (Ok v, w') → level w l = Some v;
  level_value l w r w' l' : line_Value l w = (r, w') → level w' l' = level w l';
}.

(** ** The specification *)

Inductive output_op : Type :=
| SetTo (name : string) (v : bool)
| GetState (name : string).

Definition op_name (o : output_op) : string :=
  match o with SetTo name _ | GetState name => name end.

(** A store of known states over the configured [names].  An output whose write
    failed may be at either level until it is written again. *)
Inductive store_step (names : gset string) (σ : gmap string bool)
    : output_op → result GpioError (option bool) → gmap string bool → Prop :=
| store_unknown o :
    op_name o ∉ names → store_step names σ o (Err (ErrNotOpen (op_name o))) σ
| store_set n v : n ∈ names → store_step names σ (SetTo n v) (Ok None) (<[n := v]> σ)
| store_set_err n v e :
    n ∈ names → store_step names σ (SetTo n v) (Err (ErrSet n e)) (delete n σ)
| store_get n b :
    n ∈ names → (∀ b', σ !! n = Some b' → b = b') →
    store_step names σ (GetState n) (Ok (Some b)) σ
| store_get_err n e : n ∈ names → store_step names σ (GetState n) (Err (ErrRead n e)) σ.

Inductive store_run (names : gset string)
    : gmap string bool → list output_op → list (result GpioError (option bool)) → Prop :=
| store_end σ : store_run names σ [] []
| store_next σ o r σ' ops rs :
    store_step names σ o r σ' → store_run names σ' ops rs → store_run names σ (o :: ops) (r :: rs).

Definition initial_store (cfg : GPIOConfig) : gmap string bool := out_Initial <$> gpio_Outputs cfg.

(** ** The manager *)

Section manager.
Context {L W : Type} `{!LineEnv L W}.
Implicit Types (m : Manager L) (w : W).

Definition do_output (o : output_op) (s : Manager L * W)
    : result GpioError (option bool) * (Manager L * W) :=
  match o with
  | SetTo name v => let '(r, s') := SetOutput name v s in ((λ _, None) <$> r, s')
  | GetState name => let '(r, s') := OutputState name s in (Some <$> r, s')
  end.

Fixpoint do_outputs (ops : list output_op) (s : Manager L * W)
    : list (result GpioError (option bool)) * (Manager L * W) :=
  match ops with
  | [] => ([], s)
  | o :: ops =>
      let '(r, s1) := do_output o s in let '(rs, s2) := do_outputs ops s1 in (r :: rs, s2)
  end.

Section levels.
Context `{!LineLevels L W}.

Lemma SetOutput_level name v m w r m' w' :
  SetOutput name v (m, w) = (r, (m', w')) →
  m' = m ∧ (r = Ok tt → ∃ l, gm_outputs m !! name = Some l ∧ level w' l = Some (bit v)) ∧
  ∀ l, gm_outputs m !! name ≠ Some l → level w' l = level w l.
Proof.
  unfold SetOutput. destruct (gm_outputs m !! name) as [l|] eqn:Hl.
  - destruct (line_SetValue l _ w) as [r1 w1] eqn:Hs. intros [= <- <- <-].
    apply level_set in Hs as [Hok Hother]. split_and!; [done|..].
    + intros Hr. exists l. split; [done|]. apply Hok. by destruct r1 as [[]|].
    + intros l' Hne. apply Hother. congruence.
  - by intros [= <- <- <-].
Qed.

Lemma OutputState_level name m w r m' w' :
  OutputState name (m, w) = (r, (m', w')) →
  m' = m ∧ (∀ l, level w' l = level w l) ∧
  match gm_outputs m !! name with
  | None => r = Err (ErrNotOpen name)
  | Some l => ∀ v, level w l = Some (bit v) → r = Ok v ∨ ∃ e, r = Err (ErrRead name e)
  end.
Proof.
  unfold OutputState, line_state. destruct (gm_outputs m !! name) as [l|] eqn:Hl.
  - destruct (line_Value l w) as [r1 w1] eqn:Hr. intros [= <- <- <-].
    split; [done|]. split; [intros l'; by eapply level_value|]. intros v Hv.
    destruct r1 as [x|e]; [left|eauto]. apply level_read in Hr. rewrite Hv in Hr.
    injection Hr as <-. by destruct v.
  - by intros [= <- <- <-].
Qed.

(** The lines show what the store knows. *)
Definition shows m w (σ : gmap string bool) : Prop :=
  ∀ n b, σ !! n = Some b → ∃ l, gm_outputs m !! n = Some l ∧ level w l = Some (bit b).

Definition separate m : Prop :=
  ∀ n1 n2 l, gm_outputs m !! n1 = Some l → gm_outputs m !! n2 = Some l → n1 = n2.

Lemma do_output_refines o m w σ r m' w' :
  separate m → shows m w σ → do_output o (m, w) = (r, (m', w')) →
  m' = m ∧ ∃ σ', store_step (dom (gm_outputs m)) σ o r σ' ∧ shows m w' σ'.
Proof.
  intros Hsep Hshow. destruct (gm_outputs m !! op_name o) as [l|] eqn:Hl.
  - assert (op_name o ∈ dom (gm_outputs m)) as Hn by (apply elem_of_dom; eauto).
    destruct o as [n v|n]; cbn [op_name do_output] in *.
    + destruct (SetOutput n v (m, w)) as [r1 [m1 w1]] eqn:Hs. intros [= <- -> ->].
      pose proof (SetOutput_level _ _ _ _ _ _ _ Hs) as (-> & Hok & Hother). split; [done|].
      assert (shows m w' (delete n σ)) as Hdel.
      { intros n' b' [Hne Hb]%lookup_delete_Some. apply Hshow in Hb as (l' & Hl' & Hv).
        exists l'. split; [done|]. rewrite Hother; [done|]. intros Heq. by eapply Hne, Hsep. }
      destruct r1 as [[]|e].
      * exists (<[n := v]> σ). split; [by constructor|]. destruct (Hok eq_refl) as (l' & Hl' & Hv).
        intros n' b'. rewrite lookup_insert_Some. intros [[<- <-]|[Hne Hb]]; [eauto|].
        apply Hdel. by apply lookup_delete_Some.
      * exists (delete n σ). split; [|done]. unfold SetOutput in Hs. rewrite Hl in Hs.
        destruct (line_SetValue l _ w) as [[[]|e1] w1]; [done|]. cbn in Hs.
        injection Hs as <- <-. by constructor.
    + destruct (OutputState n (m, w)) as [r1 [m1 w1]] eqn:Hs. intros [= <- -> ->].
      pose proof (OutputState_level _ _ _ _ _ _ Hs) as (-> & Hw & Hr). rewrite Hl in Hr.
      split; [done|]. exists σ. split.
      * destruct r1 as [b|e]; cbn.
        -- constructor; [done|]. intros b' (l' & Hl' & Hv)%Hshow. rewrite Hl' in Hl.
           injection Hl as ->. destruct (Hr b' Hv) as [[= ->]|[e He]]; done.
        -- unfold OutputState, line_state in Hs. rewrite Hl in Hs.
           destruct (line_Value l w) as [[x|e1] w1]; injection Hs as Hs _; [done|].
           rewrite <- Hs. by constructor.
      * intros n' b' (l' & Hl' & Hv)%Hshow. exists l'. by rewrite Hw.
  - assert (op_name o ∉ dom (gm_outputs m)) as Hn by by apply not_elem_of_dom.
    intros Hd. assert (r = Err (ErrNotOpen (op_name o)) ∧ m' = m ∧ w' = w) as (-> & -> & ->).
    { destruct o as [n v|n]; cbn in Hd, Hl; unfold SetOutput, OutputState, line_state in Hd;
        rewrite Hl in Hd; by injection Hd as <- <- <-. }
    split; [done|]. exists σ. split; [by constructor|done].
Qed.

Lemma do_outputs_refines ops m w σ rs m' w' :
  separate m → shows m w σ → do_outputs ops (m, w) = (rs, (m', w')) →
  store_run (dom (gm_outputs m)) σ ops rs.
Proof.
  intros Hsep. revert w σ rs. induction ops as [|o ops IH]; intros w σ rs Hshow; cbn.
  - intros [= <- _ _]. constructor.
  - destruct (do_output o (m, w)) as [r [m1 w1]] eqn:Ho.
    destruct (do_output_refines _ _ _ _ _ _ _ Hsep Hshow Ho) as (-> & σ' & Hstep & Hshow').
    destruct (do_outputs ops (m, w1)) as [rs1 [m2 w2]] eqn:Hops. intros [= <- -> ->].
    econstructor; [done|]. by eapply IH.
Qed.
End levels.
End manager.

(** ** Opening *)

Section opening.
Context {L W : Type} `{LineLaws L W, !LineLevels L W}.
Implicit Types (m : Manager L) (w : W).

(** Every open output is at its initial state, with its polarity. *)
Definition at_initial m w : Prop :=
  ∀ n l, gm_outputs m !! n = Some l →
    ∃ cfg, gpio_Outputs (gm_config m) !! n = Some cfg ∧
      level w l = Some (bit (out_Initial cfg)) ∧ inverted w l = Some (out_ActiveLow cfg).

(** The options of an output: one direction, with the initial value, and the
    configured polarity. *)
Lemma output_directions name cfg :
  directions (line_options (output_request name cfg)) = [AsOutput (bit (out_Initial cfg))].
Proof. unfold line_options. cbn. by destruct (out_ActiveLow cfg). Qed.

Lemma output_polarities name cfg :
  polarities (line_options (output_request name cfg))
  = [if out_ActiveLow cfg then AsActiveLow else AsActiveHigh].
Proof. unfold line_options. cbn. by destruct (out_ActiveLow cfg). Qed.

Lemma open_output_initial name m w m' w' :
  manager_inv m w → at_initial m w → open_output name (m, w) = (Ok tt, (m', w')) →
  at_initial m' w' ∧ gm_config m' = gm_config m.
Proof.
  intros Hi Hat. unfold open_output.
  destruct (gm_outputs m !! name) as [l|] eqn:Ho; [by intros [= <- <-]|].
  destruct (gpio_Outputs (gm_config m) !! name) as [cfg|] eqn:Hcfg; [|by intros [= <- <-]].
  destruct (requestGPIOLine _ w) as [[l|e] w1] eqn:Hr; [|by destruct (closeLocked _)].
  intros [= <- <-]. split; [|done]. unfold requestGPIOLine in Hr.
  intros n l'. cbn. rewrite lookup_insert_Some. intros [[<- <-]|[Hne Hl']].
  - exists cfg. split; [done|]. split; [by eapply level_request, output_directions|].
    rewrite (inverted_request _ _ _ _ _ _ _ Hr (output_polarities name cfg)).
    by destruct (out_ActiveLow cfg).
  - destruct (Hat _ _ Hl') as (cfg' & Hcfg' & Hv & Hp). exists cfg'. split; [done|].
    rewrite <- Hv, <- Hp. eapply level_request_other; [exact Hr|]. intros [= ->].
    apply RequestLine_ok in Hr as [Hn _].
    destruct Hn. apply (mi_held _ _ Hi). apply elem_of_union_l, elem_of_lines_of. eauto.
Qed.

Lemma open_outputs_initial names m w m' w' :
  manager_inv m w → at_initial m w → (∀ n, n ∈ names → is_Some (gpio_Outputs (gm_config m) !! n)) →
  me_for_each open_output names (m, w) = (Ok tt, (m', w')) → at_initial m' w'.
Proof.
  revert m w. induction names as [|n names IH]; intros m w Hi Hat Hn; cbn.
  - by intros [= <- <-].
  - unfold mbind, me_bind. destruct (open_output n (m, w)) as [[[]|e] [m1 w1]] eqn:E1; [|done].
    destruct (open_output_initial _ _ _ _ _ Hi Hat E1) as [Hat1 Hc1].
    apply open_output_spec in E1 as (Hi1 & _); [|done|apply Hn; left].
    apply IH; [done..|]. intros n' ?. rewrite Hc1. apply Hn. by right.
Qed.

(** C10: the outputs as a store.  When [OpenOutputs] has succeeded, every
    configured output has its configured polarity, and any sequence of
    [SetOutput] and [OutputState] answers as reads and writes of a store that
    holds the configured initial states: a read that succeeds returns the state
    last written, or the initial one; an output that is not configured is
    reported as not open and changes nothing. *)
Theorem outputs_refine_store cfg w m w1 ops rs m' w' :
  OpenOutputs (new_manager cfg, w) = (Ok tt, (m, w1)) →
  do_outputs ops (m, w1) = (rs, (m', w')) →
  (∀ n c, gpio_Outputs cfg !! n = Some c →
     ∃ l, gm_outputs m !! n = Some l ∧ inverted w1 l = Some (out_ActiveLow c)) ∧
  store_run (dom (gpio_Outputs cfg)) (initial_store cfg) ops rs.
Proof.
  intros Ho Hops. pose proof (manager_inv_new (L:=L) cfg w) as Hi.
  assert (at_initial m w1) as Hat.
  { eapply open_outputs_initial; [exact Hi|done| |exact Ho].
    intros n. unfold sortedOutputNames. by rewrite elem_of_sorted_map_keys. }
  apply open_outputs_loop in Ho as (Hi' & Hc & _ & _ & _ & Hn); [|done|].
  2: { intros n. unfold sortedOutputNames. by rewrite elem_of_sorted_map_keys. }
  cbn in Hc, Hn. unfold sortedOutputNames in Hn. setoid_rewrite elem_of_sorted_map_keys in Hn.
  assert (∀ n c, gpio_Outputs cfg !! n = Some c → ∃ l, gm_outputs m !! n = Some l ∧
    level w1 l = Some (bit (out_Initial c)) ∧ inverted w1 l = Some (out_ActiveLow c)) as Hopen.
  { intros n c Hcn. destruct (Hn n ltac:(eauto)) as [l Hl]. exists l. split; [done|].
    destruct (Hat _ _ Hl) as (c' & Hc' & Hv). rewrite Hc in Hc'. by simplify_eq. }
  split; [intros n c (l & ? & _ & ?)%Hopen; eauto|].
  assert (dom (gm_outputs m) = dom (gpio_Outputs cfg)) as Hdom.
  { apply set_eq. intros n. split; [|by intros [c Hcn]%elem_of_dom; apply elem_of_dom, Hn; eauto].
    rewrite <- Hc. apply (mi_outputs _ _ Hi'). }
  rewrite <- Hdom. eapply do_outputs_refines; [exact (mi_outputs_inj _ _ Hi')| |exact Hops].
  intros n b. unfold initial_store. rewrite lookup_fmap, fmap_Some.
  intros (c & (l & ? & ? & _)%Hopen & ->). eauto.
Qed.
End opening.

(** ** On the simulated board *)

(** The last direction and the last polarity of a request count. *)
Lemma requested_level options pin v :
  directions options = [AsOutput v] → (foldl apply_option pin options).1 = v.
Proof.
  revert pin. assert (∀ l pin, directions l = [] → (foldl apply_option pin l).1 = pin.1) as Hnone.
  { induction l as [|o l IH]; intros pin; [done|]. unfold directions. rewrite filter_cons.
    destruct o; try done; cbn; intros Hl; by rewrite (IH _ Hl). }
  induction options as [|o l IH]; intros pin; [done|]. unfold directions. rewrite filter_cons.
  destruct o; try done; try (apply IH). cbn. intros [= -> Hl]. by rewrite Hnone.
Qed.

Lemma requested_polarity options pin o :
  polarities options = [o] →
  (foldl apply_option pin options).2 = bool_decide (o = AsActiveLow).
Proof.
  revert pin. assert (∀ l pin, polarities l = [] → (foldl apply_option pin l).2 = pin.2) as Hnone.
  { induction l as [|o' l IH]; intros pin; [done|]. unfold polarities. rewrite filter_cons.
    destruct o'; try done; cbn; intros Hl; by rewrite (IH _ Hl). }
  induction options as [|o' l IH]; intros pin; [done|]. unfold polarities. rewrite filter_cons.
  destruct o'; try done; try (apply IH); cbn; intros [= <- Hl]; by rewrite Hnone.
Qed.

#[export] Program Instance board_levels : LineLevels Z board :=
  { level w l := fst <$> w !! l; inverted w l := snd <$> w !! l }.
Next Obligation.
  intros chip offset options w l w' v. cbn. case_decide; [done|].
  destruct (w !! offset); [done|]. intros [= <- <-] Hv.
  rewrite lookup_insert_eq. cbn. f_equal. by apply requested_level.
Qed.
Next Obligation.
  intros chip offset options w l w' o. cbn. case_decide; [done|].
  destruct (w !! offset); [done|]. intros [= <- <-] Hv.
  rewrite lookup_insert_eq. cbn. f_equal. by apply requested_polarity.
Qed.
Next Obligation.
  intros chip offset options w r w' l'. cbn. case_decide; [by intros [= _ <-]|].
  destruct (w !! offset) eqn:Ho; intros [= <- <-]; [done|]. intros Hne.
  rewrite lookup_insert_ne by congruence. done.
Qed.
Next Obligation.
  intros l v w r w'. cbn. destruct (w !! l) eqn:Hl; intros [= <- <-]; [|done].
  split; [by rewrite lookup_insert_eq|]. intros l' Hne. by rewrite lookup_insert_ne.
Qed.
Next Obligation. intros l w v w'. cbn. destruct (w !! l); by intros [= <- _]. Qed.
Next Obligation. by intros l w r w' l' [= _ <-]. Qed.

Definition fan_session : list output_op :=
  [GetState "fan"; SetTo "fan" false; SetTo "relay" true; GetState "fan"; GetState "relay";
   SetTo "lamp" true].

Definition fan_answers : list (result GpioError (option bool)) :=
  [Ok (Some true); Ok None; Ok None; Ok (Some false); Ok (Some true); Err (ErrNotOpen "lamp")].

Definition after_session : list (result GpioError (option bool)) * (Manager Z * board) :=
  do_outputs fan_session ((opened 4).2.1, (opened 4).2.2).

Example fan_session_answers : after_session.1 = fan_answers.
Proof. vm_compute. reflexivity. Qed.

Lemma outputs_refine_store_witness :
  store_run {[ "fan"; "relay" ]} (initial_store (two_outputs 4)) fan_session fan_answers.
Proof.
  rewrite <- fan_session_answers.
  replace ({[ "fan"; "relay" ]} : gset string) with (dom (gpio_Outputs (two_outputs 4)))
    by by vm_compute.
  refine (proj2 (outputs_refine_store (two_outputs 4) board0 (opened 4).2.1 (opened 4).2.2
            fan_session _ after_session.2.1 after_session.2.2 _ (triple_eta after_session))).
  rewrite <- opened_ok. exact (triple_eta (opened 4)).
Defined.
