(* ===== verification/Expansion.v ===== *)
(** * Package config: environment expansion

    [src/config/expansion.go]: [expandValue] and the traversal of the whole
    configuration by [expandEnvironment].  A configuration field is named by a
    [FieldPath] instead of the formatted text of its path. *)

From S2P Require Import Prelude GoString GoTime Config.
From Stdlib Require Import Ascii.

(** [func(string) (string, bool)]: [None] when the variable is not set. *)
Definition lookupEnvFunc : Type := string → option string.

(** ** One value *)

Definition isASCIILetter (c : ascii) : bool := is_upper c || is_lower c.

Definition validEnvironmentName (name : string) : bool :=
  match name with
  | EmptyString => false
  | String c s =>
      (isASCIILetter c || Ascii.eqb c "_")
      && str_forall (λ c, isASCIILetter c || is_digit c || Ascii.eqb c "_") s
  end.

(** The loop of [expandValue] from the current index on; [Err name] when the
    variable [name] is missing.  Every iteration consumes input. *)
Fixpoint expand_from (fuel : nat) (lookup : lookupEnvFunc) (s : string)
    : result string string :=
  match fuel with
  | O => Ok ""
  | S fuel =>
      match s with
      | EmptyString => Ok ""
      | String c rest =>
          if negb (Ascii.eqb c "$") then String c <$> expand_from fuel lookup rest else
          match rest with
          | String d rest' =>
              if Ascii.eqb d "$" then String "$" <$> expand_from fuel lookup rest'
              else if negb (Ascii.eqb d "{") then String "$" <$> expand_from fuel lookup rest
              else
                match index_byte rest' "}" with
                | None => Ok s
                | Some endOffset =>
                    let name := str_take endOffset rest' in
                    let after := str_drop (S endOffset) rest' in
                    if negb (validEnvironmentName name) then
                      String.append ("${" +:+ name +:+ "}") <$> expand_from fuel lookup after
                    else
                      match lookup name with
                      | None => Err name
                      | Some replacement =>
                          String.append replacement <$> expand_from fuel lookup after
                      end
                end
          | EmptyString => String "$" <$> expand_from fuel lookup rest
          end
      end
  end.

(** [expandValue] returns the expansion and the name of a missing variable. *)
Definition expandValue (value : string) (lookup : lookupEnvFunc) : string * string :=
  match expand_from (S (String.length value)) lookup value with
  | Ok expanded => (expanded, "")
  | Err missing => ("", missing)
  end.

(** ** Fields *)

Inductive FieldPath : Type :=
| PField (name : string)
| POutputChip (output : string)
| PInput (input field : string)
| PEntity (i : nat) (field : string)
| PAction (i : nat) (sequence : string) (j : nat) (field : string)
| PActionArg (i : nat) (sequence : string) (j k : nat)
| PActionEnv (i : nat) (sequence : string) (j : nat) (name : string).

Record ExpandError := ErrMissingVariable { ee_path : FieldPath; ee_name : string }.

Definition expandField (path : FieldPath) (value : string) (lookup : lookupEnvFunc)
    : result ExpandError string :=
  let '(expanded, missing) := expandValue value lookup in
  if decide (missing = "") then Ok expanded else Err (ErrMissingVariable path missing).

(** [for _, name := range sortedKeys(m) { v := m[name]; ...; m[name] = v }] *)
Fixpoint expand_keys {V} (f : string → V → result ExpandError V) (keys : list string)
    (m : gmap string V) : result ExpandError (gmap string V) :=
  match keys with
  | [] => Ok m
  | k :: keys =>
      match m !! k with
      | None => expand_keys f keys m
      | Some v => f k v ≫= λ v', expand_keys f keys (<[k := v']> m)
      end
  end.

(** [for i := range l { ... &l[i] ... }] *)
Fixpoint expand_list {A} (f : nat → A → result ExpandError A) (i : nat) (l : list A)
    : result ExpandError (list A) :=
  match l with
  | [] => Ok []
  | x :: l => x' ← f i x; l' ← expand_list f (S i) l; mret (x' :: l')
  end.

(** ** Actions, entities, the configuration *)

Definition expandAction (i : nat) (sequence : string) (lookup : lookupEnvFunc)
    (j : nat) (a : Action) : result ExpandError Action :=
  let field name v := expandField (PAction i sequence j name) v lookup in
  type ← field "type" (act_Type a);
  gpio ← field "gpio" (act_GPIO a);
  command ← field "command" (act_Command a);
  args ← expand_list (λ k v, expandField (PActionArg i sequence j k) v lookup) 0 (act_Args a);
  working_dir ← field "working_dir" (act_WorkingDir a);
  env ← expand_keys (λ name v, expandField (PActionEnv i sequence j name) v lookup)
          (sorted_map_keys (act_Env a)) (act_Env a);
  timeout ← field "timeout" (act_Timeout a);
  duration ← field "duration" (act_Duration a);
  topic ← field "topic" (act_Topic a);
  payload ← field "payload" (act_Payload a);
  mret {| act_Type := type; act_GPIO := gpio; act_Value := act_Value a;
          act_Command := command; act_Args := args; act_WorkingDir := working_dir;
          act_Env := env; act_Timeout := timeout; act_Duration := duration;
          act_Topic := topic; act_Payload := payload; act_QoS := act_QoS a;
          act_Retain := act_Retain a; act_IgnoreError := act_IgnoreError a |}.

Definition expandEntity (lookup : lookupEnvFunc) (i : nat) (e : EntityConfig)
    : result ExpandError EntityConfig :=
  let field name v := expandField (PEntity i name) v lookup in
  id ← field "id" (ent_ID e);
  type ← field "type" (ent_Type e);
  name ← field "name" (ent_Name e);
  icon ← field "icon" (ent_Icon e);
  device_class ← field "device_class" (ent_DeviceClass e);
  state_type ← field "state.type" (state_Type (ent_State e));
  state_gpio ← field "state.gpio" (state_GPIO (ent_State e));
  source_type ← field "source.type" (source_Type (ent_Source e));
  source_gpio ← field "source.gpio" (source_GPIO (ent_Source e));
  on ← expand_list (expandAction i "on" lookup) 0 (ent_On e);
  off ← expand_list (expandAction i "off" lookup) 0 (ent_Off e);
  press ← expand_list (expandAction i "press" lookup) 0 (ent_Press e);
  mret {| ent_ID := id; ent_Type := type; ent_Name := name; ent_Icon := icon;
          ent_DeviceClass := device_class; ent_InitialState := ent_InitialState e;
          ent_State := {| state_Type := state_type; state_GPIO := state_gpio |};
          ent_Source := {| source_Type := source_type; source_GPIO := source_gpio |};
          ent_On := on; ent_Off := off; ent_Press := press |}.

Definition expandOutput (lookup : lookupEnvFunc) (name : string) (o : GPIOOutputConfig)
    : result ExpandError GPIOOutputConfig :=
  chip ← expandField (POutputChip name) (out_Chip o) lookup;
  mret {| out_Chip := chip; out_Line := out_Line o; out_ActiveLow := out_ActiveLow o;
          out_Initial := out_Initial o |}.

Definition expandInput (lookup : lookupEnvFunc) (name : string) (i : GPIOInputConfig)
    : result ExpandError GPIOInputConfig :=
  chip ← expandField (PInput name "chip") (in_Chip i) lookup;
  bias ← expandField (PInput name "bias") (in_Bias i) lookup;
  debounce ← expandField (PInput name "debounce") (in_Debounce i) lookup;
  mret {| in_Chip := chip; in_Line := in_Line i; in_ActiveLow := in_ActiveLow i;
          in_Bias := bias; in_Debounce := debounce |}.

Definition expandMQTT (lookup : lookupEnvFunc) (m : MQTTConfig)
    : result ExpandError MQTTConfig :=
  let field name v := expandField (PField name) v lookup in
  broker ← field "mqtt.broker" (mq_Broker m);
  username ← field "mqtt.username" (mq_Username m);
  password ← field "mqtt.password" (mq_Password m);
  password_file ← field "mqtt.password_file" (mq_PasswordFile m);
  ca_file ← field "mqtt.tls.ca_file" (CAFile (mq_TLS m));
  cert_file ← field "mqtt.tls.cert_file" (CertFile (mq_TLS m));
  key_file ← field "mqtt.tls.key_file" (KeyFile (mq_TLS m));
  server_name ← field "mqtt.tls.server_name" (ServerName (mq_TLS m));
  min_version ← field "mqtt.tls.min_version" (MinVersion (mq_TLS m));
  client_id ← field "mqtt.client_id" (mq_ClientID m);
  base_topic ← field "mqtt.base_topic" (mq_BaseTopic m);
  keep_alive ← field "mqtt.keep_alive" (mq_KeepAlive m);
  connect_timeout ← field "mqtt.connect_timeout" (mq_ConnectTimeout m);
  prefix ← field "mqtt.discovery.prefix" (disc_Prefix (mq_Discovery m));
  state_file ← field "mqtt.discovery.state_file" (disc_StateFile (mq_Discovery m));
  mret {| mq_Broker := broker; mq_Username := username; mq_Password := password;
          mq_PasswordFile := password_file;
          mq_AllowUnauthenticated := mq_AllowUnauthenticated m;
          mq_AllowInsecureTransport := mq_AllowInsecureTransport m;
          mq_TLS := {| CAFile := ca_file; CertFile := cert_file; KeyFile := key_file;
                       ServerName := server_name; MinVersion := min_version |};
          mq_ClientID := client_id; mq_BaseTopic := base_topic; mq_QoS := mq_QoS m;
          mq_KeepAlive := keep_alive; mq_ConnectTimeout := connect_timeout;
          mq_Discovery := {| disc_Enabled := disc_Enabled (mq_Discovery m);
                             disc_Prefix := prefix; disc_StateFile := state_file |} |}.

Definition expandDevice (lookup : lookupEnvFunc) (d : DeviceConfig)
    : result ExpandError DeviceConfig :=
  let field name v := expandField (PField name) v lookup in
  id ← field "device.id" (dev_ID d);
  name ← field "device.name" (dev_Name d);
  manufacturer ← field "device.manufacturer" (dev_Manufacturer d);
  model ← field "device.model" (dev_Model d);
  mret {| dev_ID := id; dev_Name := name; dev_Manufacturer := manufacturer;
          dev_Model := model |}.

Definition expandEnvironment (lookup : lookupEnvFunc) (c : Config)
    : result ExpandError Config :=
  mqtt ← expandMQTT lookup (cfg_MQTT c);
  device ← expandDevice lookup (cfg_Device c);
  outputs ← expand_keys (expandOutput lookup)
              (sorted_map_keys (gpio_Outputs (cfg_GPIO c))) (gpio_Outputs (cfg_GPIO c));
  inputs ← expand_keys (expandInput lookup)
             (sorted_map_keys (gpio_Inputs (cfg_GPIO c))) (gpio_Inputs (cfg_GPIO c));
  entities ← expand_list (expandEntity lookup) 0 (cfg_Entities c);
  mret {| cfg_MQTT := mqtt; cfg_Device := device;
          cfg_GPIO := {| gpio_Outputs := outputs; gpio_Inputs := inputs |};
          cfg_Entities := entities |}.

Definition test_env : lookupEnvFunc := λ n,
  if decide (n = "HOST") then Some "br$$oker${X}" else None.
Example expand_one :
  expandValue "tcp://${HOST}:1883 $$5 ${1x} $ ${open" test_env
  = ("tcp://br$$oker${X}:1883 $5 ${1x} $ ${open", "").
Proof. vm_compute. reflexivity. Qed.
Example expand_missing : expandValue "a${B}c" test_env = ("", "B").
Proof. vm_compute. reflexivity. Qed.

(** ** Specification: templates

    A template is a sequence of literal texts and variables; [print] writes it
    in the syntax of the configuration file. *)

Inductive token : Type :=
| Lit (text : string)
| Var (name : string).

(** A dollar of a literal text is doubled. *)
Fixpoint escape (s : string) : string :=
  match s with
  | EmptyString => EmptyString
  | String c s => if Ascii.eqb c "$" then "$$" +:+ escape s else String c (escape s)
  end.

Definition print_token (t : token) : string :=
  match t with Lit s => escape s | Var n => "${" +:+ n +:+ "}" end.

Fixpoint print (ts : list token) : string :=
  match ts with [] => "" | t :: ts => print_token t +:+ print ts end.

(** The text a template denotes, or its first missing variable. *)
Fixpoint render (lookup : lookupEnvFunc) (ts : list token) : result string string :=
  match ts with
  | [] => Ok ""
  | Lit s :: ts => String.append s <$> render lookup ts
  | Var n :: ts =>
      match lookup n with
      | None => Err n
      | Some v => String.append v <$> render lookup ts
      end
  end.

Definition token_valid (t : token) : Prop :=
  match t with Lit _ => True | Var n => validEnvironmentName n = true end.

(** What expansion may not change: keys, numbers, booleans and lengths. *)
Definition same_action (a a' : Action) : Prop :=
  act_Value a' = act_Value a ∧ length (act_Args a') = length (act_Args a) ∧
  dom (act_Env a') = dom (act_Env a) ∧ act_QoS a' = act_QoS a ∧
  act_Retain a' = act_Retain a ∧ act_IgnoreError a' = act_IgnoreError a.

Definition same_entity (e e' : EntityConfig) : Prop :=
  ent_InitialState e' = ent_InitialState e ∧
  Forall2 same_action (ent_On e) (ent_On e') ∧
  Forall2 same_action (ent_Off e) (ent_Off e') ∧
  Forall2 same_action (ent_Press e) (ent_Press e').

Definition same_output (o o' : GPIOOutputConfig) : Prop :=
  out_Line o' = out_Line o ∧ out_ActiveLow o' = out_ActiveLow o ∧
  out_Initial o' = out_Initial o.

Definition same_input (i i' : GPIOInputConfig) : Prop :=
  in_Line i' = in_Line i ∧ in_ActiveLow i' = in_ActiveLow i.

(** Two maps with the same keys and related values. *)
Definition same_map {V} (R : V → V → Prop) (m m' : gmap string V) : Prop :=
  ∀ k, option_Forall2 R (m !! k) (m' !! k).

Definition same_structure (c c' : Config) : Prop :=
  mq_QoS (cfg_MQTT c') = mq_QoS (cfg_MQTT c) ∧
  mq_AllowUnauthenticated (cfg_MQTT c') = mq_AllowUnauthenticated (cfg_MQTT c) ∧
  mq_AllowInsecureTransport (cfg_MQTT c') = mq_AllowInsecureTransport (cfg_MQTT c) ∧
  disc_Enabled (mq_Discovery (cfg_MQTT c')) = disc_Enabled (mq_Discovery (cfg_MQTT c)) ∧
  same_map same_output (gpio_Outputs (cfg_GPIO c)) (gpio_Outputs (cfg_GPIO c')) ∧
  same_map same_input (gpio_Inputs (cfg_GPIO c)) (gpio_Inputs (cfg_GPIO c')) ∧
  Forall2 same_entity (cfg_Entities c) (cfg_Entities c').

(** ** Lemmas: the loop needs no more fuel than the input is long *)

Lemma expand_from_fuel lookup n m s :
  (String.length s < n)%nat → (String.length s < m)%nat →
  expand_from n lookup s = expand_from m lookup s.
Proof.
  revert m s. induction n as [|n IH]; intros [|m] s Hn Hm; [lia..|].
  destruct s as [|c [|d rest']]; cbn [expand_from String.length] in *; [done| |].
  - rewrite (IH m "") by (cbn; lia). done.
  - rewrite (IH m (String d rest')), (IH m rest') by (cbn; lia).
    destruct (index_byte rest' "}") as [k|]; [|done].
    by rewrite (IH m (str_drop (S k) rest')) by (rewrite str_length_drop; lia).
Qed.

(** The loop with enough fuel, and its equations. *)
Definition expand (lookup : lookupEnvFunc) (s : string) : result string string :=
  expand_from (S (String.length s)) lookup s.

Lemma expand_char lookup c s :
  c ≠ "$"%char → expand lookup (String c s) = String c <$> expand lookup s.
Proof.
  intros Hc. unfold expand. cbn [expand_from].
  by rewrite (proj2 (Ascii.eqb_neq _ _) Hc).
Qed.

Lemma expand_dollar lookup s :
  expand lookup ("$$" +:+ s) = String "$" <$> expand lookup s.
Proof.
  unfold expand. change ("$$" +:+ s) with (String "$" (String "$" s)).
  cbn [expand_from Ascii.eqb negb].
  by rewrite (expand_from_fuel lookup (String.length (String "$" (String "$" s)))
                (S (String.length s)) s) by (cbn; lia).
Qed.

Lemma expand_var lookup name s :
  validEnvironmentName name = true → has_byte name "}" = false →
  expand lookup ("${" +:+ name +:+ "}" +:+ s)
  = match lookup name with
    | None => Err name
    | Some v => String.append v <$> expand lookup s
    end.
Proof.
  intros Hv Hb. unfold expand.
  change ("${" +:+ name +:+ "}" +:+ s) with
    (String "$" (String "{" (name +:+ String "}" s))).
  set (n := String.length _). cbn [expand_from Ascii.eqb negb].
  rewrite index_byte_app by done.
  rewrite str_take_app, Hv by done. cbn [negb].
  replace (name +:+ String "}" s) with ((name +:+ "}") +:+ s)
    by (by rewrite str_app_assoc).
  rewrite str_drop_app by (rewrite str_length_app; simpl; lia).
  destruct (lookup name); [|done].
  rewrite (expand_from_fuel lookup n (S (String.length s)) s); [done| |lia].
  unfold n. cbn. rewrite str_length_app. cbn. lia.
Qed.

Lemma valid_name_no_brace name :
  validEnvironmentName name = true → has_byte name "}" = false.
Proof.
  intros Hv. apply negb_false_iff.
  assert (str_forall (λ c, isASCIILetter c || is_digit c || Ascii.eqb c "_") name = true) as Ha.
  { destruct name as [|c s]; [done|]. simpl in *.
    apply andb_true_iff in Hv as [Hc ->]. rewrite andb_true_r.
    destruct (isASCIILetter c), (is_digit c); cbn in *; done. }
  revert Ha. apply str_forall_impl. intros c Hc.
  destruct (Ascii.eqb_spec c "}") as [->|]; done.
Qed.

Lemma expand_escape lookup t s :
  expand lookup (escape t +:+ s) = String.append t <$> expand lookup s.
Proof.
  induction t as [|c t IH]; simpl escape.
  - rewrite str_nil_app. by destruct (expand lookup s).
  - destruct (Ascii.eqb_spec c "$") as [->|Hc].
    + rewrite str_app_assoc, expand_dollar, IH. by destruct (expand lookup s).
    + rewrite str_cons_app, expand_char, IH by done. by destruct (expand lookup s).
Qed.

Lemma expand_print lookup ts :
  Forall token_valid ts → expand lookup (print ts) = render lookup ts.
Proof.
  induction 1 as [|t ts Ht Hts IH]; [done|]. simpl.
  destruct t as [text|name]; simpl.
  - by rewrite expand_escape, IH.
  - rewrite !str_app_assoc, expand_var, IH by (done || by apply valid_name_no_brace). done.
Qed.

Lemma expandValue_expand lookup s :
  expandValue s lookup
  = match expand lookup s with Ok e => (e, "") | Err n => ("", n) end.
Proof. done. Qed.


(** ** Lemmas: traversals *)

Section traversals.
Context {A : Type}.
Implicit Types (f : nat → A → result ExpandError A).

Lemma expand_list_ok f (R : A → A → Prop) i l l' :
  (∀ i x x', f i x = Ok x' → R x x') →
  expand_list f i l = Ok l' → Forall2 R l l'.
Proof.
  intros Hf. revert i l'. induction l as [|x l IH]; intros i l' H; simpl in H.
  - ok_inv. constructor.
  - apply bind_ok in H as (x' & Hx & H). apply bind_ok in H as (l1 & Hl & H).
    injection H as <-. eauto.
Qed.

Lemma expand_list_err f (P : ExpandError → Prop) i l e :
  (∀ i x e, f i x = Err e → P e) → expand_list f i l = Err e → P e.
Proof.
  intros Hf. revert i. induction l as [|x l IH]; intros i H; simpl in H; [done|].
  destruct (f i x) eqn:Hx; simpl in H; [|simplify_eq; eauto].
  destruct (expand_list f (S i) l) eqn:Hl; simpl in H; simplify_eq; eauto.
Qed.

Lemma expand_keys_lookup (g : string → A → result ExpandError A) keys m m' k :
  NoDup keys → expand_keys g keys m = Ok m' →
  match m !! k with
  | None => m' !! k = None
  | Some v => if decide (k ∈ keys) then ∃ v', m' !! k = Some v' ∧ g k v = Ok v'
              else m' !! k = Some v
  end.
Proof.
  intros Hnd. revert m. induction Hnd as [|k1 keys Hk1 Hnd IH]; intros m H; simpl in H.
  { injection H as <-. destruct (m !! k); [|done].
    rewrite decide_False by apply not_elem_of_nil. done. }
  destruct (m !! k1) as [v1|] eqn:Hm1; [apply bind_ok in H as (v1' & Hg & H)|];
    specialize (IH _ H); destruct (decide (k = k1)) as [->|Hne].
  - rewrite lookup_insert_eq in IH. rewrite Hm1.
    rewrite decide_False in IH by done. rewrite decide_True by set_solver. eauto.
  - rewrite lookup_insert_ne in IH by done. destruct (m !! k); [|done].
    rewrite (decide_ext _ (k ∈ keys)) by set_solver. done.
  - by rewrite Hm1 in *.
  - destruct (m !! k); [|done]. rewrite (decide_ext _ (k ∈ keys)) by set_solver. done.
Qed.

Lemma expand_keys_ok (g : string → A → result ExpandError A) (R : A → A → Prop) m m' :
  (∀ k v v', g k v = Ok v' → R v v') →
  expand_keys g (sorted_map_keys m) m = Ok m' → same_map R m m'.
Proof.
  intros Hg H k. apply (expand_keys_lookup _ _ _ _ k) in H; [|auto with golib].
  destruct (m !! k) as [v|] eqn:Hm; [|rewrite H; constructor].
  rewrite decide_True in H by (apply elem_of_sorted_map_keys; eauto).
  destruct H as (v' & -> & Hv). constructor. eauto.
Qed.

Lemma expand_keys_err (g : string → A → result ExpandError A) (P : ExpandError → Prop)
    keys m e :
  (∀ k v e, g k v = Err e → P e) → expand_keys g keys m = Err e → P e.
Proof.
  intros Hg. revert m. induction keys as [|k keys IH]; intros m H; simpl in H; [done|].
  destruct (m !! k); [|eauto].
  destruct (g k a) eqn:Hk; simpl in H; [eauto|simplify_eq; eauto].
Qed.
End traversals.

Lemma same_map_dom {V} (R : V → V → Prop) (m m' : gmap string V) :
  same_map R m m' → dom m' = dom m.
Proof.
  intros H. apply set_eq. intros k. rewrite !elem_of_dom.
  destruct (H k); split; intros [??]; by eauto.
Qed.

(** ** Lemmas: errors name a missing variable *)

Definition missing_variable (lookup : lookupEnvFunc) (e : ExpandError) : Prop :=
  lookup (ee_name e) = None ∧ validEnvironmentName (ee_name e) = true.

Lemma fmap_err {A B} (f : A → B) (r : result string A) n : f <$> r = Err n → r = Err n.
Proof. destruct r; simpl; congruence. Qed.

Lemma expand_from_err lookup fuel s n :
  expand_from fuel lookup s = Err n → lookup n = None ∧ validEnvironmentName n = true.
Proof.
  revert s. induction fuel as [|fuel IH]; intros [|c [|d rest']];
    cbn [expand_from]; try done.
  - destruct (negb _); intros H%fmap_err; by eapply IH.
  - destruct (negb (Ascii.eqb c "$")); [by intros ?%fmap_err%IH|].
    destruct (Ascii.eqb d "$"); [by intros ?%fmap_err%IH|].
    destruct (negb (Ascii.eqb d "{")); [by intros ?%fmap_err%IH|].
    destruct (index_byte rest' "}") as [k|]; [|done].
    destruct (validEnvironmentName (str_take k rest')) eqn:Hv; cbn [negb];
      [|by intros ?%fmap_err%IH].
    destruct (lookup (str_take k rest')) eqn:Hl; [by intros ?%fmap_err%IH|].
    by intros [= <-].
Qed.

Lemma expandField_err path v lookup e :
  expandField path v lookup = Err e → missing_variable lookup e.
Proof.
  unfold expandField, expandValue.
  destruct (expand_from _ lookup v) as [s|n] eqn:H; case_decide; try done.
  intros [= <-]. by apply expand_from_err in H.
Qed.
#[local] Hint Resolve expandField_err : core.

(** Close an error goal: the step is a field or a loop over fields. *)
Ltac err_loop :=
  first [ by eauto
        | eapply expand_list_err; [|eassumption]; cbv beta; by eauto
        | eapply expand_keys_err; [|eassumption]; cbv beta; by eauto ].

Lemma expandAction_err i sequence lookup j a e :
  expandAction i sequence lookup j a = Err e → missing_variable lookup e.
Proof.
  unfold expandAction. intros H. err_inv; err_loop.
Qed.
#[local] Hint Resolve expandAction_err : core.

Lemma expandEntity_err lookup i x e :
  expandEntity lookup i x = Err e → missing_variable lookup e.
Proof.
  unfold expandEntity. intros H. err_inv; err_loop.
Qed.
#[local] Hint Resolve expandEntity_err : core.

Lemma expandOutput_err lookup name o e :
  expandOutput lookup name o = Err e → missing_variable lookup e.
Proof. unfold expandOutput. intros H. err_inv; err_loop. Qed.

Lemma expandInput_err lookup name i e :
  expandInput lookup name i = Err e → missing_variable lookup e.
Proof. unfold expandInput. intros H. err_inv; err_loop. Qed.
#[local] Hint Resolve expandOutput_err expandInput_err : core.

Lemma expandEnvironment_err lookup c e :
  expandEnvironment lookup c = Err e → missing_variable lookup e.
Proof.
  unfold expandEnvironment, expandMQTT, expandDevice. intros H. err_inv; err_loop.
Qed.

(** ** Lemmas: the structure is untouched *)

Ltac ok_chain :=
  repeat match goal with
  | H : mbind _ _ = Ok _ |- _ => apply bind_ok in H as (? & ? & H)
  | H : mret _ = Ok _ |- _ => injection H as H; subst
  end.

Lemma expand_list_length {A} (f : nat → A → result ExpandError A) i l l' :
  expand_list f i l = Ok l' → length l' = length l.
Proof.
  intros H. symmetry. eapply Forall2_length.
  by eapply (expand_list_ok f (λ _ _, True)).
Qed.

Lemma expand_keys_dom {V} (g : string → V → result ExpandError V) m m' :
  expand_keys g (sorted_map_keys m) m = Ok m' → dom m' = dom m.
Proof.
  intros H. eapply same_map_dom. by apply (expand_keys_ok g (λ _ _, True)).
Qed.

Lemma expandAction_same i sequence lookup j a a' :
  expandAction i sequence lookup j a = Ok a' → same_action a a'.
Proof.
  unfold expandAction, same_action. intros H. ok_chain. cbn.
  repeat split; [by eapply expand_list_length | by eapply expand_keys_dom].
Qed.

Lemma expandEntity_same lookup i e e' :
  expandEntity lookup i e = Ok e' → same_entity e e'.
Proof.
  unfold expandEntity, same_entity. intros H. ok_chain. cbn.
  repeat split; (eapply expand_list_ok; [|eassumption]); eauto using expandAction_same.
Qed.

Lemma expandOutput_same lookup name o o' :
  expandOutput lookup name o = Ok o' → same_output o o'.
Proof. unfold expandOutput. intros H. by ok_chain. Qed.

Lemma expandInput_same lookup name i i' :
  expandInput lookup name i = Ok i' → same_input i i'.
Proof. unfold expandInput. intros H. by ok_chain. Qed.

Lemma expandEnvironment_same lookup c c' :
  expandEnvironment lookup c = Ok c' → same_structure c c'.
Proof.
  unfold expandEnvironment, expandMQTT, expandDevice, same_structure.
  intros H. ok_chain. cbn. do 4 (split; [done|]). split_and!.
  - eapply expand_keys_ok; [|eassumption]. eauto using expandOutput_same.
  - eapply expand_keys_ok; [|eassumption]. eauto using expandInput_same.
  - eapply expand_list_ok; [|eassumption]. eauto using expandEntity_same.
Qed.

(** ** Properties *)

(** C35: expansion implements templates.  Writing a template in the syntax of
    the configuration file and expanding it gives the text it denotes: each
    [${NAME}] is replaced by the value of the variable, each [$$] by a dollar,
    other text is copied, and a substituted value is never scanned again
    (whatever dollars or braces it holds).  When variables are missing, the
    first one in the text is reported and nothing is returned. *)
Theorem expandValue_renders_templates (lookup : lookupEnvFunc) (ts : list token) :
  Forall token_valid ts →
  expandValue (print ts) lookup
  = match render lookup ts with Ok s => (s, "") | Err name => ("", name) end.
Proof.
  intros Hts. by rewrite expandValue_expand, expand_print.
Qed.

(** An expansion error of the whole configuration is genuine: it names a
    well-formed variable that the environment does not define. *)
Theorem expandEnvironment_error_sound (lookup : lookupEnvFunc) (c : Config) (e : ExpandError) :
  expandEnvironment lookup c = Err e →
  lookup (ee_name e) = None ∧ validEnvironmentName (ee_name e) = true.
Proof. apply expandEnvironment_err. Qed.

(** Expansion only rewrites texts: map keys, numbers, booleans, QoS values
    and the numbers of entities, actions and arguments are those of the file. *)
Theorem expandEnvironment_keeps_structure (lookup : lookupEnvFunc) (c c' : Config) :
  expandEnvironment lookup c = Ok c' → same_structure c c'.
Proof. apply expandEnvironment_same. Qed.

(** ** The properties at concrete inputs *)

Definition sample_lookup : lookupEnvFunc :=
  λ name, if decide (name = "HOST") then Some "${USER}$" else None.

Lemma expandValue_renders_templates_witness :
  expandValue "pi-${HOST}: 5$$" sample_lookup = ("pi-${USER}$: 5$", "").
Proof.
  refine (expandValue_renders_templates sample_lookup [Lit "pi-"; Var "HOST"; Lit ": 5$"] _).
  repeat constructor.
Defined.

(** The sample installation with a client identifier of its own. *)
Definition sample_client (id : string) : Config :=
  let m := cfg_MQTT sample_config in
  {| cfg_MQTT :=
       {| mq_Broker := mq_Broker m; mq_Username := mq_Username m; mq_Password := mq_Password m;
          mq_PasswordFile := mq_PasswordFile m;
          mq_AllowUnauthenticated := mq_AllowUnauthenticated m;
          mq_AllowInsecureTransport := mq_AllowInsecureTransport m; mq_TLS := mq_TLS m;
          mq_ClientID := id; mq_BaseTopic := mq_BaseTopic m; mq_QoS := mq_QoS m;
          mq_KeepAlive := mq_KeepAlive m; mq_ConnectTimeout := mq_ConnectTimeout m;
          mq_Discovery := mq_Discovery m |};
     cfg_Device := cfg_Device sample_config; cfg_GPIO := cfg_GPIO sample_config;
     cfg_Entities := cfg_Entities sample_config |}.

Lemma expandEnvironment_error_sound_witness :
  sample_lookup "USER" = None ∧ validEnvironmentName "USER" = true.
Proof.
  refine (expandEnvironment_error_sound sample_lookup (sample_client "pi-${USER}")
    (ErrMissingVariable (PField "mqtt.client_id") "USER") _).
  vm_compute. reflexivity.
Defined.

Lemma expandEnvironment_keeps_structure_witness :
  expandEnvironment sample_lookup (sample_client "$$${HOST}") = Ok (sample_client "$${USER}$") ∧
  same_structure (sample_client "$$${HOST}") (sample_client "$${USER}$").
Proof.
  assert (expandEnvironment sample_lookup (sample_client "$$${HOST}")
          = Ok (sample_client "$${USER}$")) as H by (vm_compute; reflexivity).
  exact (conj H (expandEnvironment_keeps_structure sample_lookup _ _ H)).
Defined.
