(* ===== verification/Mqtt.v ===== *)
(** * Package mqtt: the client

    [src/mqtt/client.go]: the subscription registry, session and connect
    handlers, message dispatch, publication and shutdown of the MQTT client.

    Handlers are Go closures; here they are elements of types [H], [SH], [CH]
    that the environment knows how to run.  The Paho transport, the clock and
    the scheduler are code outside the repository: the class [MqttEnv] lists
    the operations of the world that the client calls, and each theorem names
    the documented behaviour it relies on. *)

From S2P Require Import Prelude GoString GoTime Config.

Open Scope Z_scope.

Definition MaxCommandPayload : nat := 4096.

(** ** Messages *)

Record Message := {
  msg_Topic : string;
  msg_Payload : string;
  msg_Retained : bool;
  msg_Duplicate : bool;
  msg_QoS : Z;
  msg_MessageID : Z;
}.

#[global] Instance Message_eq_dec : EqDecision Message.
Proof. solve_decision. Defined.

(** The message Paho hands to a subscription callback. *)
Record PahoMessage := {
  paho_Topic : string;
  paho_Payload : string;
  paho_Retained : bool;
  paho_Duplicate : bool;
  paho_Qos : Z;
  paho_MessageID : Z;
}.

Definition messageFromPaho (m : PahoMessage) : Message :=
  {| msg_Topic := paho_Topic m; msg_Payload := paho_Payload m;
     msg_Retained := paho_Retained m; msg_Duplicate := paho_Duplicate m;
     msg_QoS := paho_Qos m; msg_MessageID := paho_MessageID m |}.

(** ** Rate-limited log *)

Record rateLimitedLog := { suppressed : Z; rl_last : option Z }.
Definition empty_rateLimitedLog : rateLimitedLog := {| suppressed := 0; rl_last := None |}.

(** [!l.last.IsZero() && now.Sub(l.last) < time.Second] *)
Definition within_second (last : option Z) (now : Z) : bool :=
  match last with Some t => now - t <? Second | None => false end.

(** [printf] at instant [now]: the new log and, when a line is printed, the
    number of suppressed lines it reports. *)
Definition printf (l : rateLimitedLog) (now : Z) : rateLimitedLog * option Z :=
  if within_second (rl_last l) now
  then ({| suppressed := wrap64 (suppressed l + 1); rl_last := rl_last l |}, None)
  else ({| suppressed := 0; rl_last := Some now |}, Some (suppressed l)).

(** ** Errors *)

Inductive MqttError : Type :=
| ErrAlreadyRegistered (topic : string)
| ErrShuttingDown
| ErrNotConnected
| ErrPublishTimedOut (topic : string)
| ErrPublish (topic cause : string)
| ErrSubscribeTimedOut (topic : string)
| ErrToken (cause : string)
| ErrConnect (cause : string)
| ErrCallbacksTimedOut (timeout : Z)
| ErrShutdownTimedOut (timeout : Z)
| ErrShutdownTimedOutAfter (timeout : Z) (cause : MqttError)
| ErrOffline (cause : MqttError).

(** What waiting for a Paho token yields. *)
Inductive TokenOutcome : Type :=
| TokenDone
| TokenError (cause : string)
| TokenTimedOut.

(** ** Client state *)

Record Client (H SH CH : Type) := MkClient {
  cl_cfg : Config;
  cl_subscribers : gmap string H;
  cl_onSession : list SH;
  cl_onConnect : list CH;
  cl_accepting : bool;
  cl_callbacks : nat;
  cl_rejectedLog : rateLimitedLog;
}.
Arguments MkClient {H SH CH}.
Arguments cl_cfg {H SH CH}.
Arguments cl_subscribers {H SH CH}.
Arguments cl_onSession {H SH CH}.
Arguments cl_onConnect {H SH CH}.
Arguments cl_accepting {H SH CH}.
Arguments cl_callbacks {H SH CH}.
Arguments cl_rejectedLog {H SH CH}.

Definition StatusTopic (cfg : Config) : string := mq_BaseTopic (cfg_MQTT cfg) +:+ "/status".

Section client.
Context {H SH CH : Type}.
#[local] Abbreviation Client := (Client H SH CH).

(** The client [mqtt.New] builds; the subscriptions come later. *)
Definition new_client (cfg : Config) : Client :=
  MkClient cfg ∅ [] [] true 0 empty_rateLimitedLog.

Definition set_subscribers (s : gmap string H) (c : Client) : Client :=
  MkClient (cl_cfg c) s (cl_onSession c) (cl_onConnect c) (cl_accepting c)
    (cl_callbacks c) (cl_rejectedLog c).
Definition set_callbacks (n : nat) (c : Client) : Client :=
  MkClient (cl_cfg c) (cl_subscribers c) (cl_onSession c) (cl_onConnect c)
    (cl_accepting c) n (cl_rejectedLog c).
Definition set_rejectedLog (l : rateLimitedLog) (c : Client) : Client :=
  MkClient (cl_cfg c) (cl_subscribers c) (cl_onSession c) (cl_onConnect c)
    (cl_accepting c) (cl_callbacks c) l.

Definition AddConnectHandler (h : CH) (c : Client) : Client :=
  if cl_accepting c then
    MkClient (cl_cfg c) (cl_subscribers c) (cl_onSession c) (cl_onConnect c ++ [h])
      (cl_accepting c) (cl_callbacks c) (cl_rejectedLog c)
  else c.

Definition AddSessionHandler (h : SH) (c : Client) : Client :=
  if cl_accepting c then
    MkClient (cl_cfg c) (cl_subscribers c) (cl_onSession c ++ [h]) (cl_onConnect c)
      (cl_accepting c) (cl_callbacks c) (cl_rejectedLog c)
  else c.

Definition StopAccepting (c : Client) : Client :=
  MkClient (cl_cfg c) (cl_subscribers c) (cl_onSession c) (cl_onConnect c)
    false (cl_callbacks c) (cl_rejectedLog c).

Definition beginCallback (c : Client) : bool * Client :=
  if cl_accepting c then (true, set_callbacks (S (cl_callbacks c)) c) else (false, c).

(** [c.callbacks.Done()] *)
Definition endCallback (c : Client) : Client := set_callbacks (pred (cl_callbacks c)) c.
End client.

(** ** The world of the client *)

Class MqttEnv (H SH CH W : Type) := {
  env_client : W → Client H SH CH;
  env_set_client : Client H SH CH → W → W;
  (** [time.Now()] *)
  env_now : W → Z;
  (** [c.transport != nil && c.transport.IsConnected()] *)
  tr_IsConnected : W → bool;
  (** [token := transport.Connect(); token.Wait()] *)
  tr_Connect : W → TokenOutcome * W;
  (** [token := transport.Publish(...); token.WaitTimeout(timeout)] *)
  tr_Publish : string → Z → bool → string → Z → W → TokenOutcome * W;
  (** [token := transport.Subscribe(...); token.WaitTimeout(timeout)] *)
  tr_Subscribe : string → Z → H → Z → W → TokenOutcome * W;
  (** [transport.Disconnect(quiesce)], in milliseconds *)
  tr_Disconnect : Z → W → W;
  (** wait for the callbacks to finish until a deadline: true when they did *)
  env_wait_callbacks : Z → W → bool * W;
  (** run a registered closure *)
  run_message : H → Message → W → W;
  run_session : SH → W → W;
  run_connect : CH → W → W;
}.

Section operations.
Context {H SH CH W : Type} `{!MqttEnv H SH CH W}.
Implicit Types (w : W).

Definition with_client (f : Client H SH CH → Client H SH CH) (w : W) : W :=
  env_set_client (f (env_client w)) w.

Definition cfg_of (w : W) : Config := cl_cfg (env_client w).

Definition Connect : ME W MqttError unit := λ w,
  match tr_Connect w with
  | (TokenError e, w') => (Err (ErrConnect e), w')
  | (_, w') => (Ok tt, w')
  end.

Definition subscribeWithClient (topic : string) (handler : H) : ME W MqttError unit :=
  λ w,
  match tr_Subscribe topic (MQTTQoS (cfg_of w)) handler (5 * Second) w with
  | (TokenTimedOut, w') => (Err (ErrSubscribeTimedOut topic), w')
  | (TokenError e, w') => (Err (ErrToken e), w')
  | (TokenDone, w') => (Ok tt, w')
  end.

Definition RegisterSubscription (topic : string) (handler : H) : ME W MqttError unit :=
  λ w,
  let c := env_client w in
  match cl_subscribers c !! topic with
  | Some _ => (Err (ErrAlreadyRegistered topic), w)
  | None =>
      if negb (cl_accepting c) then (Err ErrShuttingDown, w) else
      let w1 := env_set_client
                  (set_subscribers (<[topic := handler]> (cl_subscribers c)) c) w in
      if tr_IsConnected w1 then subscribeWithClient topic handler w1 else (Ok tt, w1)
  end.

Definition publishWithTimeout (topic payload : string) (qos : Z) (retain : bool)
    (timeout : Z) : ME W MqttError unit := λ w,
  if negb (tr_IsConnected w) then (Err ErrNotConnected, w)
  else if timeout <=? 0 then (Err (ErrPublishTimedOut topic), w)
  else match tr_Publish topic qos retain payload timeout w with
       | (TokenTimedOut, w') => (Err (ErrPublishTimedOut topic), w')
       | (TokenError e, w') => (Err (ErrPublish topic e), w')
       | (TokenDone, w') => (Ok tt, w')
       end.

Definition Publish (topic payload : string) (qos : Z) (retain : bool) :
    ME W MqttError unit :=
  publishWithTimeout topic payload qos retain (5 * Second).

(** The body of [dispatchMessage]. *)
Definition dispatchMessage (handler : H) (m : PahoMessage) (w : W) : bool * W :=
  if (MaxCommandPayload <? String.length (paho_Payload m))%nat then
    (false, with_client (λ c,
              set_rejectedLog (fst (printf (cl_rejectedLog c) (env_now w))) c) w)
  else (true, run_message handler (messageFromPaho m) w).

(** The closure [subscribeWithClient] gives to Paho. *)
Definition onMessage (handler : H) (m : PahoMessage) (w : W) : W :=
  match beginCallback (env_client w) with
  | (false, _) => w
  | (true, c) =>
      let '(_, w') := dispatchMessage handler m (env_set_client c w) in
      with_client endCallback w'
  end.

(** [order] is the order in which Go ranges over the copied map. *)
Definition handleConnect (order : list (string * H)) (w : W) : W :=
  match beginCallback (env_client w) with
  | (false, _) => w
  | (true, c) =>
      let w1 := env_set_client c w in
      let w2 := foldl (λ w h, run_session h w) w1 (cl_onSession c) in
      let w3 := foldl (λ w '(topic, h), snd (subscribeWithClient topic h w)) w2 order in
      let '(_, w4) := Publish (StatusTopic (cl_cfg c)) "online"
                        (MQTTQoS (cl_cfg c)) true w3 in
      let w5 := foldl (λ w h, run_connect h w) w4 (cl_onConnect c) in
      with_client endCallback w5
  end.

Definition Close (timeout : Z) : ME W MqttError unit := λ w,
  let deadline := env_now w + timeout in
  match env_wait_callbacks deadline (with_client StopAccepting w) with
  | (false, w2) => (Err (ErrCallbacksTimedOut timeout), w2)
  | (true, w2) =>
      if negb (tr_IsConnected w2) then (Ok tt, w2) else
      let remaining := deadline - env_now w2 in
      if remaining <=? 0 then (Err (ErrShutdownTimedOut timeout), w2) else
      let '(publishErr, w3) :=
        publishWithTimeout (StatusTopic (cfg_of w2)) "offline" (MQTTQoS (cfg_of w2))
          true ((5 * Second) `min` remaining) w2 in
      let remaining := deadline - env_now w3 in
      if remaining <=? 0 then
        (Err (match publishErr with
              | Ok _ => ErrShutdownTimedOut timeout
              | Err e => ErrShutdownTimedOutAfter timeout e
              end), w3)
      else
        let w4 := tr_Disconnect (((500 * Millisecond) `min` remaining) `div` Millisecond) w3 in
        match publishErr with
        | Err e => (Err (ErrOffline e), w4)
        | Ok _ => (Ok tt, w4)
        end
  end.
End operations.
