(* ===== verification/MqttProofs.v ===== *)
(** * Package mqtt: proofs

    What the client of [Mqtt] does on a connection, on a message and when it is
    closed, and its rate-limited log.  The class [MqttLaws] states how the
    world keeps the client's record and an account of the calls made. *)

From S2P Require Import Prelude GoString GoTime Config Mqtt.

Open Scope Z_scope.

(** ** The rate-limited log *)

(** The log after messages at the given instants, and the counts its lines
    report. *)
Fixpoint run_printf (l : rateLimitedLog) (times : list Z) : rateLimitedLog * list Z :=
  match times with
  | [] => (l, [])
  | t :: times =>
      let '(l1, line) := printf l t in
      let '(l2, lines) := run_printf l1 times in
      (l2, match line with Some n => n :: lines | None => lines end)
  end.

Lemma run_printf_count l times :
  suppressed l + Z.of_nat (length times) < 2 ^ 64 → 0 ≤ suppressed l →
  let '(l', lines) := run_printf l times in
  suppressed l + Z.of_nat (length times)
  = suppressed l' + Z.of_nat (length lines) + foldr Z.add 0 lines.
Proof.
  revert l. induction times as [|t times IH]; intros l Hl H0; cbn [run_printf].
  - cbn. lia.
  - unfold printf. destruct (within_second (rl_last l) t).
    + specialize (IH {| suppressed := wrap64 (suppressed l + 1); rl_last := rl_last l |}).
      assert (wrap64 (suppressed l + 1) = suppressed l + 1) as Hw.
      { unfold wrap64. apply Z.mod_small. cbn [length] in Hl. lia. }
      destruct (run_printf _ times) as [l' lines]. cbn [suppressed length] in *.
      rewrite Hw in IH. lia.
    + specialize (IH {| suppressed := 0; rl_last := Some t |}).
      destruct (run_printf _ times) as [l' lines]. cbn [suppressed length foldr] in *. lia.
Qed.

(** No rejection goes uncounted: over any run of the log, every call is a
    line, is counted by a later line, or is still counted in the log. *)
Theorem printf_conservation times :
  Z.of_nat (length times) < 2 ^ 64 →
  let '(l, lines) := run_printf empty_rateLimitedLog times in
  Z.of_nat (length times) = suppressed l + Z.of_nat (length lines) + foldr Z.add 0 lines.
Proof.
  intros Ht. pose proof (run_printf_count empty_rateLimitedLog times) as H.
  destruct (run_printf _ _). cbn in H. lia.
Qed.

Lemma printf_conservation_witness :
  run_printf empty_rateLimitedLog [0; 5; 10; Second; Second + 1]
  = ({| suppressed := 1; rl_last := Some Second |}, [0; 2]) ∧ 5 = 1 + 2 + (0 + (2 + 0)).
Proof.
  split; [reflexivity|].
  exact (printf_conservation [0; 5; 10; Second; Second + 1] ltac:(cbn; lia)).
Defined.

(** ** What the world keeps *)

Inductive mqtt_event (H SH CH : Type) : Type :=
| EvSubscribe (topic : string) (qos : Z) (h : H)
| EvPublish (topic payload : string) (qos : Z) (retain : bool) (timeout : Z)
| EvDisconnect (quiesce : Z)
| EvMessage (h : H) (m : Message)
| EvSession (h : SH)
| EvSessionDone (h : SH)
| EvConnect (h : CH)
| EvConnectDone (h : CH).
Arguments EvSubscribe {H SH CH}.
Arguments EvPublish {H SH CH}.
Arguments EvDisconnect {H SH CH}.
Arguments EvMessage {H SH CH}.
Arguments EvSession {H SH CH}.
Arguments EvSessionDone {H SH CH}.
Arguments EvConnect {H SH CH}.
Arguments EvConnectDone {H SH CH}.

(** What a registered closure may ask of the client. *)
Definition handler_call {H SH CH} (e : mqtt_event H SH CH) : Prop :=
  match e with EvPublish _ _ _ _ _ | EvSubscribe _ _ _ => True | _ => False end.

(** The configuration of a client is fixed, and what a closure or a callback
    does with it leaves the count of the callbacks as it was. *)
Definition same_account {H SH CH} (c c' : Client H SH CH) : Prop :=
  cl_cfg c' = cl_cfg c ∧ cl_callbacks c' = cl_callbacks c.

(** The transport and the clock leave the client's own record alone and each
    call is noted in [trace].  Session and connect handlers may publish and
    subscribe before they return.  [sync.WaitGroup.Wait] returns when the count
    is zero; meanwhile other goroutines use the client, which never starts to
    accept again; without that the wait lasts until its deadline. *)
Class MqttLaws (H SH CH W : Type) `{!MqttEnv H SH CH W} := {
  trace : W → list (mqtt_event H SH CH);
  client_set c w : env_client (env_set_client c w) = c;
  trace_set c w : trace (env_set_client c w) = trace w;
  now_set c w : env_now (env_set_client c w) = env_now w;
  client_publish t q r p d w : env_client (tr_Publish t q r p d w).2 = env_client w;
  trace_publish t q r p d w :
    trace (tr_Publish t q r p d w).2 = trace w ++ [EvPublish t p q r d];
  client_subscribe t q h d w : env_client (tr_Subscribe t q h d w).2 = env_client w;
  trace_subscribe t q h d w :
    trace (tr_Subscribe t q h d w).2 = trace w ++ [EvSubscribe t q h];
  client_disconnect q w : env_client (tr_Disconnect q w) = env_client w;
  trace_disconnect q w : trace (tr_Disconnect q w) = trace w ++ [EvDisconnect q];
  wait_done d w w' : env_wait_callbacks d w = (true, w') → cl_callbacks (env_client w') = 0%nat;
  wait_expired d w w' : env_wait_callbacks d w = (false, w') → d ≤ env_now w';
  wait_client d w over w' :
    env_wait_callbacks d w = (over, w') → cl_accepting (env_client w) = false →
    cl_accepting (env_client w') = false ∧ cl_cfg (env_client w') = cl_cfg (env_client w);
  client_message h m w : env_client (run_message h m w) = env_client w;
  trace_message h m w : trace (run_message h m w) = trace w ++ [EvMessage h m];
  account_session h w : same_account (env_client w) (env_client (run_session h w));
  trace_session h w : ∃ calls, Forall handler_call calls ∧
    trace (run_session h w) = trace w ++ EvSession h :: calls ++ [EvSessionDone h];
  account_connect h w : same_account (env_client w) (env_client (run_connect h w));
  trace_connect h w : ∃ calls, Forall handler_call calls ∧
    trace (run_connect h w) = trace w ++ EvConnect h :: calls ++ [EvConnectDone h];
}.

(** Reduce the record and the account of a world to those it came from. *)
Ltac mqtt_simp :=
  repeat first
    [ rewrite client_set | rewrite trace_set | rewrite now_set
    | rewrite client_publish | rewrite trace_publish
    | rewrite client_subscribe | rewrite trace_subscribe
    | rewrite client_disconnect | rewrite trace_disconnect
    | rewrite client_message | rewrite trace_message ].

Section client.
Context {H SH CH W : Type} `{!MqttEnv H SH CH W} `{!MqttLaws H SH CH W}.
Implicit Types (w : W).

(** ** Publishing *)

(** A publication waits at most its timeout, and is not even attempted without
    a connection or without time. *)
Lemma publishWithTimeout_trace topic payload qos retain timeout w r w' :
  publishWithTimeout topic payload qos retain timeout w = (r, w') →
  env_client w' = env_client w ∧
  trace w' = trace w ++ (if tr_IsConnected w && (0 <? timeout)
                         then [EvPublish topic payload qos retain timeout] else []) ∧
  (r = Ok tt → tr_IsConnected w = true ∧ 0 < timeout).
Proof.
  unfold publishWithTimeout. destruct (tr_IsConnected w); cbn [negb andb];
    [|intros [= <- <-]; by rewrite app_nil_r].
  destruct (Z.leb_spec timeout 0); destruct (Z.ltb_spec 0 timeout); try lia;
    [intros [= <- <-]; by rewrite app_nil_r|].
  pose proof (client_publish topic qos retain payload timeout w) as Hc.
  pose proof (trace_publish topic qos retain payload timeout w) as Ht.
  destruct (tr_Publish topic qos retain payload timeout w) as [[|e|] w1]; cbn in Hc, Ht;
    intros [= <- <-]; done.
Qed.

Lemma subscribeWithClient_trace topic h w r w' :
  subscribeWithClient topic h w = (r, w') →
  env_client w' = env_client w ∧
  trace w' = trace w ++ [EvSubscribe topic (MQTTQoS (cl_cfg (env_client w))) h].
Proof.
  unfold subscribeWithClient, cfg_of.
  set (qos := MQTTQoS (cl_cfg (env_client w))).
  pose proof (client_subscribe topic qos h (5 * Second) w) as Hc.
  pose proof (trace_subscribe topic qos h (5 * Second) w) as Ht.
  destruct (tr_Subscribe topic qos h (5 * Second) w) as [[|e|] w1]; cbn in Hc, Ht;
    intros [= <- <-]; done.
Qed.

(** ** Messages *)

(** C34: a message reaches its handler, unaltered and once, exactly when the
    client still accepts work and the payload is at most 4096 bytes; in every
    case the callback is accounted for when it returns. *)
Theorem onMessage_bounded h m w :
  trace (onMessage h m w)
  = trace w ++ (if cl_accepting (env_client w)
                   && (String.length (paho_Payload m) <=? MaxCommandPayload)%nat
                then [EvMessage h (messageFromPaho m)] else []) ∧
  cl_callbacks (env_client (onMessage h m w)) = cl_callbacks (env_client w) ∧
  cl_accepting (env_client (onMessage h m w)) = cl_accepting (env_client w).
Proof.
  unfold onMessage, beginCallback. destruct (cl_accepting (env_client w)) eqn:Ha; cbn [andb];
    [|by rewrite app_nil_r].
  unfold dispatchMessage, with_client.
  destruct (Nat.ltb_spec MaxCommandPayload (String.length (paho_Payload m)));
    destruct (Nat.leb_spec (String.length (paho_Payload m)) MaxCommandPayload); try lia;
    mqtt_simp; cbn; mqtt_simp; cbn; by rewrite ?app_nil_r, ?Ha.
Qed.

(** ** Subscriptions *)

(** A topic has at most one handler, and the first one stays: registering
    is refused for a taken topic and during shutdown, records the handler
    otherwise, and subscribes at once exactly when connected. *)
Theorem RegisterSubscription_exact topic h w r w' :
  RegisterSubscription topic h w = (r, w') →
  let c := env_client w in
  match cl_subscribers c !! topic with
  | Some _ => r = Err (ErrAlreadyRegistered topic) ∧ w' = w
  | None =>
      if cl_accepting c then
        cl_subscribers (env_client w') = <[topic := h]> (cl_subscribers c) ∧
        let w1 := env_set_client (set_subscribers (<[topic := h]> (cl_subscribers c)) c) w in
        (if tr_IsConnected w1
         then trace w' = trace w ++ [EvSubscribe topic (MQTTQoS (cl_cfg c)) h]
         else r = Ok tt ∧ trace w' = trace w)
      else r = Err ErrShuttingDown ∧ w' = w
  end.
Proof.
  unfold RegisterSubscription. cbv zeta. destruct (cl_subscribers (env_client w) !! topic);
    [by intros [= <- <-]|].
  destruct (cl_accepting (env_client w)); cbn [negb]; [|by intros [= <- <-]].
  set (w1 := env_set_client _ w). destruct (tr_IsConnected w1).
  - intros [Hc Ht]%subscribeWithClient_trace. unfold w1 in *. rewrite Hc, Ht.
    by mqtt_simp.
  - intros [= <- <-]. unfold w1. by mqtt_simp.
Qed.

Lemma RegisterSubscription_inert topic h w r w' :
  cl_accepting (env_client w) = false →
  RegisterSubscription topic h w = (r, w') → w' = w ∧ is_ok r = false.
Proof.
  intros Ha. unfold RegisterSubscription. rewrite Ha.
  destruct (cl_subscribers (env_client w) !! topic); by intros [= <- <-].
Qed.

(** ** Connecting *)

(** The closures of a list run one after the other, each to its end. *)
Inductive handlers_run {X} (start stop : X → mqtt_event H SH CH)
    : list X → list (mqtt_event H SH CH) → Prop :=
| handlers_end : handlers_run start stop [] []
| handlers_next h calls l evs :
    Forall handler_call calls → handlers_run start stop l evs →
    handlers_run start stop (h :: l) (start h :: calls ++ stop h :: evs).

Lemma foldl_handlers {X} (start stop : X → mqtt_event H SH CH) (run : X → W → W) l w :
  (∀ h w, same_account (env_client w) (env_client (run h w)) ∧
     ∃ calls, Forall handler_call calls ∧
       trace (run h w) = trace w ++ start h :: calls ++ [stop h]) →
  same_account (env_client w) (env_client (foldl (λ w h, run h w) w l)) ∧
  ∃ evs, handlers_run start stop l evs ∧ trace (foldl (λ w h, run h w) w l) = trace w ++ evs.
Proof.
  intros Hrun. revert w. induction l as [|h l IH]; intros w; cbn.
  - split; [done|]. exists []. split; [constructor|by rewrite app_nil_r].
  - destruct (Hrun h w) as ([Hc1 Hn1] & calls & Hcalls & Ht).
    destruct (IH (run h w)) as ([Hc2 Hn2] & evs & Hevs & Ht2). split; [split; congruence|].
    eexists. split; [by apply handlers_next|]. rewrite Ht2, Ht, <- (assoc_L (++)). cbn.
    by rewrite <- (assoc_L (++)).
Qed.

Lemma foldl_sessions l w :
  same_account (env_client w) (env_client (foldl (λ w h, run_session h w) w l)) ∧
  ∃ evs, handlers_run EvSession EvSessionDone l evs ∧
    trace (foldl (λ w h, run_session h w) w l) = trace w ++ evs.
Proof. apply foldl_handlers. intros h w'. split; [apply account_session|apply trace_session]. Qed.

Lemma foldl_connects l w :
  same_account (env_client w) (env_client (foldl (λ w h, run_connect h w) w l)) ∧
  ∃ evs, handlers_run EvConnect EvConnectDone l evs ∧
    trace (foldl (λ w h, run_connect h w) w l) = trace w ++ evs.
Proof. apply foldl_handlers. intros h w'. split; [apply account_connect|apply trace_connect]. Qed.

Lemma foldl_subscribes (l : list (string * H)) w :
  env_client (foldl (λ w '(topic, h), snd (subscribeWithClient topic h w)) w l) = env_client w ∧
  trace (foldl (λ w '(topic, h), snd (subscribeWithClient topic h w)) w l)
  = trace w ++ map (λ p, EvSubscribe p.1 (MQTTQoS (cl_cfg (env_client w))) p.2) l.
Proof.
  revert w. induction l as [|[topic h] l IH]; intros w; cbn; [by rewrite app_nil_r|].
  destruct (subscribeWithClient topic h w) as [r w1] eqn:Hs.
  apply subscribeWithClient_trace in Hs as [Hc Ht]. cbn [snd].
  destruct (IH w1) as [-> ->]. rewrite Hc, Ht. by rewrite <- (assoc_L (++)).
Qed.

Definition subscriptions (cfg : Config) (order : list (string * H))
    : list (mqtt_event H SH CH) :=
  map (λ p, EvSubscribe p.1 (MQTTQoS cfg) p.2) order.

Definition online (cfg : Config) : mqtt_event H SH CH :=
  EvPublish (StatusTopic cfg) "online" (MQTTQoS cfg) true (5 * Second).

(** C32: on every (re)connection, in this order: the session handlers, each to
    its end, before any message can arrive; one subscription for each registered
    topic, in the arbitrary order of the map; the retained online status, unless
    the connection is down again by then; the connect handlers, which publish
    themselves.  The callback is accounted for, and a client that no longer
    accepts work does nothing. *)
Theorem handleConnect_order order w :
  order ≡ₚ map_to_list (cl_subscribers (env_client w)) →
  let c := env_client w in
  if cl_accepting c then
    cl_callbacks (env_client (handleConnect order w)) = cl_callbacks c ∧
    (∀ topic h, cl_subscribers c !! topic = Some h ↔ (topic, h) ∈ order) ∧
    ∃ sessions connects w3,
      handlers_run EvSession EvSessionDone (cl_onSession c) sessions ∧
      handlers_run EvConnect EvConnectDone (cl_onConnect c) connects ∧
      trace w3 = trace w ++ sessions ++ subscriptions (cl_cfg c) order ∧
      trace (handleConnect order w)
      = trace w3 ++ (if tr_IsConnected w3 then [online (cl_cfg c)] else []) ++ connects
  else handleConnect order w = w.
Proof.
  intros Hperm. cbv zeta. unfold handleConnect, beginCallback.
  destruct (cl_accepting (env_client w)) eqn:Ha; [|done].
  set (c := set_callbacks _ _). cbv zeta. set (w1 := env_set_client c w).
  destruct (foldl_sessions (cl_onSession c) w1) as ([Hc2 Hn2] & sessions & Hs & Ht2).
  set (w2 := foldl _ w1 _) in *.
  destruct (foldl_subscribes order w2) as [Hc3 Ht3]. set (w3 := foldl _ w2 order) in *.
  unfold Publish. destruct (publishWithTimeout _ _ _ _ _ w3) as [r w4] eqn:Hp.
  apply publishWithTimeout_trace in Hp as (Hc4 & Ht4 & _). rewrite andb_true_r in Ht4.
  destruct (foldl_connects (cl_onConnect c) w4) as ([Hc5 Hn5] & connects & Hcs & Ht5).
  set (w5 := foldl _ w4 _) in *.
  assert (env_client w1 = c ∧ trace w1 = trace w) as [Hc1 Ht1] by (unfold w1; by mqtt_simp).
  rewrite Hc1 in Hc2, Hn2. rewrite Hc2 in Ht3. unfold with_client. mqtt_simp. split_and!.
  - change (pred (cl_callbacks (env_client w5)) = cl_callbacks (env_client w)).
    by rewrite Hn5, Hc4, Hc3, Hn2.
  - intros topic h. by rewrite Hperm, elem_of_map_to_list.
  - exists sessions, connects, w3. split_and!; [done..| |].
    + by rewrite Ht3, Ht2, Ht1, <- (assoc_L (++)).
    + rewrite Ht5, Ht4, <- (assoc_L (++)). done.
Qed.

(** ** Closing *)

(** What is left to say of the offline status when its token has been waited
    for. *)
Definition offline_error (cfg : Config) (sent : TokenOutcome) : option MqttError :=
  match sent with
  | TokenDone => None
  | TokenError e => Some (ErrPublish (StatusTopic cfg) e)
  | TokenTimedOut => Some (ErrPublishTimedOut (StatusTopic cfg))
  end.

Definition cut_error (timeout : Z) (e : option MqttError) : MqttError :=
  match e with
  | None => ErrShutdownTimedOut timeout
  | Some e => ErrShutdownTimedOutAfter timeout e
  end.

Definition left_result (e : option MqttError) : result MqttError unit :=
  match e with None => Ok tt | Some e => Err (ErrOffline e) end.

(** How [Close] goes on from the world [w2] in which its wait for the callbacks
    ended, [over] when they were done: its answer and its calls. *)
Inductive closing (cfg : Config) (timeout deadline : Z) (w2 : W)
    : bool → result MqttError unit → list (mqtt_event H SH CH) → Prop :=
| closing_callbacks : closing cfg timeout deadline w2 false (Err (ErrCallbacksTimedOut timeout)) []
| closing_unconnected :
    tr_IsConnected w2 = false → closing cfg timeout deadline w2 true (Ok tt) []
| closing_late :
    deadline ≤ env_now w2 →
    closing cfg timeout deadline w2 true (Err (ErrShutdownTimedOut timeout)) []
| closing_cut d sent w3 :
    tr_Publish (StatusTopic cfg) (MQTTQoS cfg) true "offline" d w2 = (sent, w3) →
    0 < d ≤ 5 * Second → d ≤ deadline - env_now w2 → deadline ≤ env_now w3 →
    closing cfg timeout deadline w2 true (Err (cut_error timeout (offline_error cfg sent)))
      [EvPublish (StatusTopic cfg) "offline" (MQTTQoS cfg) true d]
| closing_left d sent w3 q :
    tr_Publish (StatusTopic cfg) (MQTTQoS cfg) true "offline" d w2 = (sent, w3) →
    0 < d ≤ 5 * Second → d ≤ deadline - env_now w2 →
    0 ≤ q ≤ 500 → q * Millisecond ≤ deadline - env_now w3 →
    closing cfg timeout deadline w2 true (left_result (offline_error cfg sent))
      [EvPublish (StatusTopic cfg) "offline" (MQTTQoS cfg) true d; EvDisconnect q].

Lemma quiesce_range remaining :
  0 < remaining →
  let q := ((500 * Millisecond) `min` remaining) `div` Millisecond in
  0 ≤ q ≤ 500 ∧ q * Millisecond ≤ remaining.
Proof.
  intros Hr q. assert (0 < Millisecond) as Hm by done. split; [split|].
  - apply Z.div_pos; lia.
  - apply (Z.le_trans _ ((500 * Millisecond) `div` Millisecond));
      [apply Z.div_le_mono; lia|by rewrite Z.div_mul by lia].
  - pose proof (Z.mul_div_le ((500 * Millisecond) `min` remaining) Millisecond Hm). unfold q. lia.
Qed.

(** The offline status of a connected client, in the time that is left. *)
Lemma publish_offline cfg d w2 :
  tr_IsConnected w2 = true → 0 < d →
  publishWithTimeout (StatusTopic cfg) "offline" (MQTTQoS cfg) true d w2
  = (let '(sent, w3) := tr_Publish (StatusTopic cfg) (MQTTQoS cfg) true "offline" d w2 in
     (match offline_error cfg sent with None => Ok tt | Some e => Err e end, w3)).
Proof.
  intros Hcon Hd. unfold publishWithTimeout. rewrite Hcon, (proj2 (Z.leb_gt d 0)) by lia. cbn.
  by destruct (tr_Publish _ _ _ _ _ w2) as [[] w3].
Qed.

(** What [Close] does once the callbacks are over. *)
Lemma Close_over timeout w r w' w2 :
  env_wait_callbacks (env_now w + timeout) (with_client StopAccepting w) = (true, w2) →
  Close timeout w = (r, w') →
  env_client w' = env_client w2 ∧
  ∃ evs, trace w' = trace w2 ++ evs ∧
    closing (cl_cfg (env_client w2)) timeout (env_now w + timeout) w2 true r evs.
Proof.
  intros Hwait. unfold Close, cfg_of. rewrite Hwait.
  set (deadline := env_now w + timeout). set (cfg := cl_cfg (env_client w2)).
  destruct (tr_IsConnected w2) eqn:Hcon; cbn [negb]; last first.
  { intros [= <- <-]. split; [done|]. exists []. rewrite app_nil_r. split; [done|by constructor]. }
  destruct (Z.leb_spec (deadline - env_now w2) 0) as [|Hrem].
  { intros [= <- <-]. split; [done|]. exists []. rewrite app_nil_r.
    split; [done|constructor; lia]. }
  set (d := (5 * Second) `min` (deadline - env_now w2)).
  assert (0 < d ≤ 5 * Second ∧ d ≤ deadline - env_now w2) as [Hd Hdt]
    by (assert (0 < Second) by done; unfold d; lia).
  rewrite publish_offline by (done || lia).
  destruct (tr_Publish _ _ _ _ d w2) as [sent w3] eqn:Hp.
  pose proof (client_publish (StatusTopic cfg) (MQTTQoS cfg) true "offline" d w2) as Hc3.
  pose proof (trace_publish (StatusTopic cfg) (MQTTQoS cfg) true "offline" d w2) as Ht3.
  rewrite Hp in Hc3, Ht3. cbn [snd] in Hc3, Ht3.
  destruct (Z.leb_spec (deadline - env_now w3) 0) as [Hlate|Hrem3].
  - assert (deadline ≤ env_now w3) as Hend by lia.
    pose proof (closing_cut cfg timeout deadline w2 d sent w3 Hp Hd Hdt Hend) as Hcut.
    destruct (offline_error cfg sent) as [e|]; intros [= <- <-]; (split; [done|]); by eexists.
  - destruct (quiesce_range _ Hrem3) as [Hq Hqm]. set (q := _ `div` _) in *.
    assert (trace (tr_Disconnect q w3) = trace w2 ++
      [EvPublish (StatusTopic cfg) "offline" (MQTTQoS cfg) true d; EvDisconnect q]) as Ht4.
    { mqtt_simp. rewrite Ht3. by rewrite <- (assoc_L (++)). }
    pose proof (closing_left cfg timeout deadline w2 d sent w3 q Hp Hd Hdt Hq Hqm) as Hleft.
    destruct (offline_error cfg sent) as [e|]; intros [= <- <-];
      (split; [by mqtt_simp|]); by eexists.
Qed.

(** C33: [Close] stops the client for good and leaves in the right order.  Unless
    the callbacks in progress end in time, it does nothing else and says so, at
    its deadline; when they have ended, no callback is left, and then: there is no
    connection, or no time, or the retained offline status is published, within
    five seconds and the time left, and only after it, if time is left, the
    client disconnects, with at most half a second to quiesce.  It answers
    success exactly when there was no connection or both have gone out. *)
Theorem Close_order timeout w r w' :
  Close timeout w = (r, w') →
  let '(over, w2) := env_wait_callbacks (env_now w + timeout) (with_client StopAccepting w) in
  cl_accepting (env_client w') = false ∧
  (if over then cl_callbacks (env_client w') = 0%nat else env_now w + timeout ≤ env_now w') ∧
  ∃ evs, trace w' = trace w2 ++ evs ∧
    closing (cl_cfg (env_client w)) timeout (env_now w + timeout) w2 over r evs.
Proof.
  intros Hclose.
  destruct (env_wait_callbacks _ _) as [over w2] eqn:Hwait.
  destruct (wait_client _ _ _ _ Hwait) as [Ha Hcfg];
    [unfold with_client; by mqtt_simp|].
  assert (cl_cfg (env_client (with_client StopAccepting w)) = cl_cfg (env_client w)) as Hcfg1
    by (unfold with_client; by mqtt_simp).
  destruct over.
  - destruct (Close_over _ _ _ _ _ Hwait Hclose) as (Hc & evs & Ht & Hevs).
    rewrite Hc. split; [done|]. split; [by eapply wait_done|].
    rewrite Hcfg, Hcfg1 in Hevs. eauto.
  - unfold Close in Hclose. rewrite Hwait in Hclose. injection Hclose as <- <-.
    split; [done|]. split; [by eapply wait_expired|].
    exists []. rewrite app_nil_r. split; [done|constructor].
Qed.

(** Shutdown is final: once the client has stopped accepting, neither a
    connection nor a message nor a registration has any effect. *)
Theorem stopped_client_is_inert w :
  cl_accepting (env_client w) = false →
  (∀ order, handleConnect order w = w) ∧ (∀ h m, onMessage h m w = w) ∧
  (∀ topic h r w', RegisterSubscription topic h w = (r, w') → w' = w ∧ is_ok r = false) ∧
  (∀ h, AddConnectHandler h (env_client w) = env_client w) ∧
  (∀ h, AddSessionHandler h (env_client w) = env_client w).
Proof.
  intros Ha. unfold handleConnect, onMessage, beginCallback, AddConnectHandler, AddSessionHandler.
  rewrite Ha. split_and!; try done. intros topic h r w' Hr.
  apply RegisterSubscription_inert in Hr; done.
Qed.
End client.

(** ** A simulated connection *)

Record sim := {
  sim_client : Client string string string;
  sim_trace : list (mqtt_event string string string);
  sim_now : Z;
}.

Definition note (e : mqtt_event string string string) (w : sim) : sim :=
  {| sim_client := sim_client w; sim_trace := sim_trace w ++ [e]; sim_now := sim_now w + Millisecond |}.

(** Connect handlers publish what they are called; callbacks in progress end
    before a deadline that is still to come. *)
#[export] Instance sim_env : MqttEnv string string string sim := {
  env_client := sim_client;
  env_set_client c w := {| sim_client := c; sim_trace := sim_trace w; sim_now := sim_now w |};
  env_now := sim_now;
  tr_IsConnected _ := true;
  tr_Connect w := (TokenDone, w);
  tr_Publish t q r p d w := (TokenDone, note (EvPublish t p q r d) w);
  tr_Subscribe t q h _ w := (TokenDone, note (EvSubscribe t q h) w);
  tr_Disconnect q w := note (EvDisconnect q) w;
  env_wait_callbacks d w :=
    if d <=? sim_now w then (false, w)
    else (true, {| sim_client := set_callbacks 0 (sim_client w); sim_trace := sim_trace w;
                   sim_now := sim_now w |});
  run_message h m w := note (EvMessage h m) w;
  run_session h w := note (EvSessionDone h) (note (EvSession h) w);
  run_connect h w :=
    note (EvConnectDone h) (note (EvPublish h "" 1 true (5 * Second)) (note (EvConnect h) w));
}.

#[export] Instance sim_laws : MqttLaws string string string sim.
Proof.
  refine {| trace := sim_trace |}; try done.
  - intros d w w'. cbn. destruct (d <=? sim_now w); [done|]. by intros [= <-].
  - intros d w w'. cbn. destruct (Z.leb_spec d (sim_now w)); [|done]. by intros [= <-].
  - intros d w over w'. cbn. by destruct (d <=? sim_now w); intros [= <- <-].
  - intros h w. exists []. split; [done|]. cbn. by rewrite <- (assoc_L (++)).
  - intros h w. exists [EvPublish h "" 1 true (5 * Second)]. split; [by repeat constructor|].
    cbn. by rewrite <- !(assoc_L (++)).
Defined.

Definition sim_start : sim :=
  {| sim_client :=
       MkClient sample_config (<["home/pi/lamp/set" := "switch lamp"]> {[ "home/pi/bell/press" := "button bell" ]})
         ["reset"] ["discovery"] true 0 empty_rateLimitedLog;
     sim_trace := []; sim_now := 0 |}.

Definition sim_order : list (string * string) := map_to_list (cl_subscribers (sim_client sim_start)).

Lemma handleConnect_order_witness :
  let c := env_client sim_start in
  ∃ sessions connects w3,
    handlers_run EvSession EvSessionDone (cl_onSession c) sessions ∧
    handlers_run EvConnect EvConnectDone (cl_onConnect c) connects ∧
    trace w3 = trace sim_start ++ sessions ++ subscriptions (cl_cfg c) sim_order ∧
    trace (handleConnect sim_order sim_start)
    = trace w3 ++ (if tr_IsConnected w3 then [online (cl_cfg c)] else []) ++ connects.
Proof.
  assert (sim_order ≡ₚ map_to_list (cl_subscribers (env_client sim_start))) as Hperm by done.
  pose proof (handleConnect_order (W:=sim) sim_order sim_start Hperm) as Hrun.
  cbv zeta in Hrun. change (cl_accepting (env_client sim_start)) with true in Hrun.
  exact (proj2 (proj2 Hrun)).
Defined.

Example sim_connects :
  sim_trace (handleConnect sim_order sim_start)
  = [EvSession "reset"; EvSessionDone "reset"; EvSubscribe "home/pi/bell/press" 1 "button bell";
     EvSubscribe "home/pi/lamp/set" 1 "switch lamp";
     EvPublish "home/pi/status" "online" 1 true (5 * Second); EvConnect "discovery";
     EvPublish "discovery" "" 1 true (5 * Second); EvConnectDone "discovery"].
Proof. vm_compute. reflexivity. Qed.

(** Closed while three callbacks are in progress. *)
Lemma Close_order_witness :
  let w := with_client (set_callbacks 3) sim_start in
  cl_accepting (sim_client (Close (10 * Second) w).2) = false ∧
  cl_callbacks (sim_client (Close (10 * Second) w).2) = 0%nat.
Proof.
  pose proof (Close_order (W := sim) (10 * Second) (with_client (set_callbacks 3) sim_start) _ _
                (surjective_pairing _)) as (Ha & Hc & _).
  exact (conj Ha Hc).
Defined.

Lemma RegisterSubscription_exact_witness :
  RegisterSubscription "home/pi/lamp/set" "again" sim_start
  = (Err (ErrAlreadyRegistered "home/pi/lamp/set"), sim_start).
Proof.
  destruct (RegisterSubscription_exact "home/pi/lamp/set" "again" sim_start _ _ (surjective_pairing _))
    as [Hr Hw].
  rewrite (surjective_pairing (RegisterSubscription _ _ _)). by rewrite Hr, Hw.
Defined.

Lemma stopped_client_is_inert_witness :
  onMessage "switch lamp" {| paho_Topic := "t"; paho_Payload := "ON"; paho_Retained := false;
                             paho_Duplicate := false; paho_Qos := 1; paho_MessageID := 1 |}
    (with_client StopAccepting sim_start) = with_client StopAccepting sim_start.
Proof. apply (stopped_client_is_inert (with_client StopAccepting sim_start)). reflexivity. Defined.
