(* ===== verification/Discovery.v ===== *)
(** * Package controller: Home Assistant discovery

    [src/controller/discovery.go]: publications, the state file on disk and
    [reconcileDiscovery], as a program of system calls and MQTT publications
    ([Effects]).  The kernel and the broker answer by the relation [sem]: every
    call may fail, a failed publication may have reached the broker all the
    same, a failed write may leave part of its data. *)

From S2P Require Import Prelude Effects GoString GoPath GoJson Config Mqtt DiscoveryState.
From Stdlib Require Import Ascii.

Open Scope Z_scope.

(** ** Publications *)

Record discoveryPublication := {
  pub_entityID : string;
  pub_topic : string;
  pub_payload : string;
}.

(** [c.cfg.MQTT.BaseTopic + "/" + entityID + "/" + suffix] *)
Definition entityTopic (cfg : Config) (entityID suffix : string) : string :=
  mq_BaseTopic (cfg_MQTT cfg) +:+ "/" +:+ entityID +:+ "/" +:+ suffix.

Definition device_payload (d : DeviceConfig) : json :=
  json_map (<["identifiers" := JStrings [dev_ID d]]>
           (<["name" := JString (dev_Name d)]>
           (<["manufacturer" := JString (dev_Manufacturer d)]>
           (<["model" := JString (dev_Model d)]> ∅)))).

(** [if s != "" { base[key] = s }] *)
Definition set_nonempty (key s : string) (m : gmap string json) : gmap string json :=
  if decide (s = "") then m else <[key := JString s]> m.

Definition discoveryPayload (cfg : Config) (e : EntityConfig) : gmap string json :=
  let base :=
    <["name" := JString (ent_Name e)]>
    (<["unique_id" := JString (dev_ID (cfg_Device cfg) +:+ "_" +:+ ent_ID e)]>
    (<["availability_topic" := JString (StatusTopic cfg)]>
    (<["payload_available" := JString "online"]>
    (<["payload_not_available" := JString "offline"]>
    (<["device" := device_payload (cfg_Device cfg)]>
    (<["qos" := JNumber (MQTTQoS cfg)]> ∅)))))) in
  let base := set_nonempty "icon" (ent_Icon e) base in
  let base := set_nonempty "device_class" (ent_DeviceClass e) base in
  if decide (ent_Type e = "switch") then
    <["optimistic" := JBool false]>
    (<["payload_off" := JString "OFF"]>
    (<["payload_on" := JString "ON"]>
    (<["state_topic" := JString (entityTopic cfg (ent_ID e) "state")]>
    (<["command_topic" := JString (entityTopic cfg (ent_ID e) "set")]> base))))
  else if decide (ent_Type e = "button") then
    <["payload_press" := JString "PRESS"]>
    (<["command_topic" := JString (entityTopic cfg (ent_ID e) "press")]> base)
  else if decide (ent_Type e = "binary_sensor") then
    <["payload_off" := JString "OFF"]>
    (<["payload_on" := JString "ON"]>
    (<["state_topic" := JString (entityTopic cfg (ent_ID e) "state")]> base))
  else base.

Definition entity_discovery_topic (cfg : Config) (e : EntityConfig) : string :=
  discovery_topic (disc_Prefix (mq_Discovery (cfg_MQTT cfg))) (ent_Type e)
    (dev_ID (cfg_Device cfg)) (ent_ID e).

(** [json.Marshal] cannot fail on texts, booleans, bytes and maps of these. *)
Definition desiredDiscoveryPublications (cfg : Config) : list discoveryPublication :=
  if DiscoveryEnabled cfg then
    map (λ e, {| pub_entityID := ent_ID e;
                 pub_topic := entity_discovery_topic cfg e;
                 pub_payload := Marshal (json_map (discoveryPayload cfg e)) |})
      (cfg_Entities cfg)
  else [].

(** Retained state is only reliable if the broker acknowledges it. *)
Definition discoveryQoS (cfg : Config) : Z :=
  let qos := MQTTQoS cfg in if 0 <? qos then qos else 1.

(** ** Operations *)

Inductive errno : Type := ENOENT | ErrOther (text : string).

#[global] Instance errno_eq_dec : EqDecision errno.
Proof. solve_decision. Defined.

Record Stat := { st_Mode : Z; st_Uid : Z; st_Size : Z }.

Inductive op : Type :=
| MkdirAll (dir : string) (perm : Z)
| EvalSymlinks (path : string)
| Lstat (path : string)
| OpenLock (path : string)                (* O_CREAT|O_RDWR|O_CLOEXEC|O_NOFOLLOW, 0600 *)
| OpenRead (path : string)                (* O_RDONLY|O_CLOEXEC|O_NOFOLLOW|O_NONBLOCK *)
| Fstat (fd : Z)
| Flock (fd : Z) (lock : bool)            (* LOCK_EX|LOCK_NB or LOCK_UN *)
| ReadAll (fd limit : Z)
| CreateTemp (dir pattern : string)
| Chmod (fd mode : Z)
| Copy (fd : Z) (data : string)
| Sync (fd : Z)
| CloseFile (fd : Z)
| Rename (old new : string)
| OpenDir (dir : string)
| Remove (path : string)
| PublishOp (topic payload : string) (qos : Z) (retain : bool).

Definition answer (o : op) : Type :=
  match o with
  | EvalSymlinks _ => string
  | Lstat _ | Fstat _ => Stat
  | OpenLock _ | OpenRead _ | OpenDir _ => Z
  | ReadAll _ _ => string
  | CreateTemp _ _ => Z * string
  | _ => unit
  end.

Definition response (o : op) : Type := result errno (answer o).

Inductive DiscoveryError : Type :=
| ErrCreateDirectory (dir : string) (e : errno)
| ErrResolveDirectory (dir : string) (e : errno)
| ErrSymlinks (dir : string)
| ErrStatDirectory (dir : string) (e : errno)
| ErrDirectoryMode (dir : string)
| ErrOpenLock (path : string) (e : errno)
| ErrStatFile (path : string) (e : errno)
| ErrFileMode (path : string)
| ErrLocked (path : string) (e : errno)
| ErrOpenState (path : string) (e : errno)
| ErrReadState (path : string) (e : errno)
| ErrDecode (path : string)
| ErrValidate (path : string) (e : StateError)
| ErrForeignOwner (path owner : string)
| ErrTooLarge (path : string)
| ErrCreateTemp (dir : string) (e : errno)
| ErrSecureTemp (e : errno)
| ErrWriteTemp (e : errno)
| ErrSyncTemp (e : errno)
| ErrCloseTemp (e : errno)
| ErrReplace (path : string) (e : errno)
| ErrOpenDirectory (dir : string) (e : errno)
| ErrSyncDirectory (dir : string) (e : errno)
| ErrRemoveStale (topic : string) (e : errno)
| ErrPublishDiscovery (entityID topic : string) (e : errno).

Abbreviation dprog A := (eprog response DiscoveryError A).

(** Perform an operation and rewrap its error. *)
Definition sys (o : op) (wrap : errno → DiscoveryError) : dprog (answer o) :=
  emap_err wrap (perform o : eprog response errno (answer o)).

(** Perform an operation whose error is ignored. *)
Definition ignore {A} (o : op) (p : prog response A) : prog response A :=
  Vis o (λ _, p).

(** ** File modes *)

Definition S_IFMT : Z := 61440.
Definition S_IFDIR : Z := 16384.
Definition S_IFREG : Z := 32768.

Section files.
Context (euid : Z).

Definition private_directory (st : Stat) : bool :=
  negb (negb (Z.land (st_Mode st) S_IFMT =? S_IFDIR)
        || negb (Z.land (st_Mode st) 18 =? 0)
        || negb (st_Uid st =? euid)).

Definition private_file (st : Stat) (maxSize : Z) : bool :=
  negb (negb (Z.land (st_Mode st) S_IFMT =? S_IFREG)
        || negb (Z.land (st_Mode st) 511 =? 384)
        || negb (st_Uid st =? euid)
        || ((0 <? maxSize) && (maxSize <? st_Size st))).

Definition validatePrivateDirectory (path : string) : dprog unit :=
  let clean := Clean path in
  let! resolved := sys (EvalSymlinks clean) (ErrResolveDirectory clean) in
  do! elift (reject_if (negb (bool_decide (resolved = clean))) (ErrSymlinks clean)) in
  let! st := sys (Lstat clean) (ErrStatDirectory clean) in
  elift (reject_if (negb (private_directory st)) (ErrDirectoryMode clean)).

Definition validatePrivateFile (fd : Z) (path : string) (maxSize : Z) : dprog unit :=
  let! st := sys (Fstat fd) (ErrStatFile path) in
  elift (reject_if (negb (private_file st maxSize)) (ErrFileMode path)).

(** The lock file is opened and locked; the descriptor is what [unlock] closes. *)
Definition lockDiscoveryState (path : string) : dprog Z :=
  let dir := Dir path in
  do! sys (MkdirAll dir 448) (ErrCreateDirectory dir) in
  do! validatePrivateDirectory dir in
  let lockPath := path +:+ ".lock" in
  let! fd := sys (OpenLock lockPath) (ErrOpenLock lockPath) in
  prog_bind (λ r : result DiscoveryError unit,
      match r with
      | Err e => ignore (CloseFile fd) (Ret (Err e))
      | Ok _ => Ret (Ok fd)
      end)
    (do! validatePrivateFile fd lockPath 0 in sys (Flock fd true) (ErrLocked path)).

Definition unlock (fd : Z) (r : result DiscoveryError unit) : dprog unit :=
  ignore (Flock fd false) (ignore (CloseFile fd) (Ret r)).

Definition read_state (fd : Z) (path : string) : dprog discoveryState :=
  do! validatePrivateFile fd path maxDiscoveryStateSize in
  let! data := sys (ReadAll fd (maxDiscoveryStateSize + 1)) (ErrReadState path) in
  match decode_state data with
  | None => elift (Err (ErrDecode path))
  | Some st => elift (Ok st)
  end.

Definition loadDiscoveryState (path : string) : dprog discoveryState :=
  prog_bind (λ r : response (OpenRead path),
      match r with
      | Err ENOENT => Ret (Ok zero_state)
      | Err e => Ret (Err (ErrOpenState path e))
      | Ok fd => prog_bind (λ r, ignore (CloseFile fd) (Ret r)) (read_state fd path)
      end)
    (perform (OpenRead path)).

(** From [temp.Chmod] to the end of [writeDiscoveryState]; the flag is
    [remove]. *)
Definition write_temp (fd : Z) (tempPath path dir encoded : string)
    : prog response (result DiscoveryError unit * bool) :=
  prog_bind (λ r : result DiscoveryError unit,
      match r with
      | Err e => Ret (Err e, true)
      | Ok _ =>
          prog_bind (λ r, Ret (r, false))
            (let! dfd := sys (OpenDir dir) (ErrOpenDirectory dir) in
             prog_bind (λ r, ignore (CloseFile dfd) (Ret r))
               (sys (Sync dfd) (ErrSyncDirectory dir)))
      end)
    (do! sys (Chmod fd 384) ErrSecureTemp in
     do! sys (Copy fd encoded) ErrWriteTemp in
     do! sys (Sync fd) ErrSyncTemp in
     do! sys (CloseFile fd) ErrCloseTemp in
     sys (Rename tempPath path) (ErrReplace path)).

Definition sorted_state (st : discoveryState) : discoveryState :=
  {| ds_Version := ds_Version st; ds_OwnerID := ds_OwnerID st;
     ds_DeviceID := ds_DeviceID st; ds_Topics := sort_strings (ds_Topics st) |}.

Definition writeDiscoveryState (path : string) (st : discoveryState) : dprog unit :=
  let encoded := encode_state (sorted_state st) in
  if maxDiscoveryStateSize <? Z.of_nat (String.length encoded)
  then elift (Err (ErrTooLarge path))
  else
    let dir := Dir path in
    do! sys (MkdirAll dir 448) (ErrCreateDirectory dir) in
    do! validatePrivateDirectory dir in
    let! temp := sys (CreateTemp dir ".discovery-state-*") (ErrCreateTemp dir) in
    let '(fd, tempPath) := temp in
    prog_bind (λ '(r, remove),
        ignore (CloseFile fd)
          (if (remove : bool) then ignore (Remove tempPath) (Ret r) else Ret r))
      (write_temp fd tempPath path dir encoded).

(** ** Reconciliation *)

Definition publishDiscoveryChanges (cfg : Config) (stale : list string)
    (desired : list discoveryPublication) : dprog unit :=
  do! efor_each (λ topic,
        sys (PublishOp topic "" (discoveryQoS cfg) true) (ErrRemoveStale topic)) stale in
  efor_each (λ p,
    sys (PublishOp (pub_topic p) (pub_payload p) (discoveryQoS cfg) true)
      (ErrPublishDiscovery (pub_entityID p) (pub_topic p))) desired.

(** The state this controller owns, with topics [l]. *)
Definition own_state (cfg : Config) (l : list string) : discoveryState :=
  {| ds_Version := discoveryStateVersion; ds_OwnerID := mq_ClientID (cfg_MQTT cfg);
     ds_DeviceID := dev_ID (cfg_Device cfg); ds_Topics := l |}.

(** The body of [reconcileDiscovery] under the lock. *)
Definition reconcile_locked (cfg : Config) (statePath : string)
    (publications : list discoveryPublication) : dprog unit :=
  let desired := map pub_topic publications in
  let! previous := loadDiscoveryState statePath in
  do! elift (map_err (ErrValidate statePath) (validateDiscoveryState previous)) in
  do! elift (reject_if (negb (bool_decide (ds_OwnerID previous = ""))
              && negb (bool_decide (ds_OwnerID previous = mq_ClientID (cfg_MQTT cfg))))
        (ErrForeignOwner statePath (ds_OwnerID previous))) in
  let! previous :=
    (if negb (bool_decide (ds_DeviceID previous = ""))
        && negb (bool_decide (ds_DeviceID previous = dev_ID (cfg_Device cfg)))
     then
       do! publishDiscoveryChanges cfg (ds_Topics previous) [] in
       do! writeDiscoveryState statePath (own_state cfg []) in
       elift (Ok zero_state)
     else elift (Ok previous)) in
  do! writeDiscoveryState statePath
        (own_state cfg (unionTopics (ds_Topics previous) desired)) in
  do! publishDiscoveryChanges cfg (differenceTopics (ds_Topics previous) desired)
        publications in
  writeDiscoveryState statePath (own_state cfg desired).

Definition reconcileDiscovery (cfg : Config) : dprog unit :=
  let publications := desiredDiscoveryPublications cfg in
  let statePath := disc_StateFile (mq_Discovery (cfg_MQTT cfg)) in
  if decide (statePath = "") then publishDiscoveryChanges cfg [] publications
  else
    let! fd := lockDiscoveryState statePath in
    prog_bind (unlock fd) (reconcile_locked cfg statePath publications).
End files.
