(* ===== verification/DiscoveryProofs.v ===== *)
(** * Discovery: environment semantics and crash safety

    What the kernel and the broker may answer to the operations of
    [Discovery], and the proofs about [reconcileDiscovery] against every such
    answer and every crash point. *)

From S2P Require Import Prelude Effects GoString GoPath GoJson Config DiscoveryState Discovery.
From stdpp Require Import relations.
From Stdlib Require Import Ascii.

Open Scope Z_scope.

(** ** The world *)

Record world := {
  w_files : gmap string string;   (** contents by path *)
  w_fds : gmap Z string;          (** the path behind an open descriptor *)
  w_broker : gmap string string;  (** retained payloads by topic *)
}.

Definition set_files (f : gmap string string → gmap string string) (w : world) : world :=
  {| w_files := f (w_files w); w_fds := w_fds w; w_broker := w_broker w |}.
Definition open_fd (fd : Z) (path : string) (w : world) : world :=
  {| w_files := w_files w; w_fds := <[fd := path]> (w_fds w); w_broker := w_broker w |}.

(** A retained publication replaces the retained message of its topic; an
    empty payload removes it. *)
Definition deliver (topic payload : string) (retain : bool) (w : world) : world :=
  {| w_files := w_files w; w_fds := w_fds w;
     w_broker := if (retain : bool) then
                   if decide (payload = "") then delete topic (w_broker w)
                   else <[topic := payload]> (w_broker w)
                 else w_broker w |}.

(** Append to the file behind a descriptor. *)
Definition append_fd (fd : Z) (data : string) (w : world) : world :=
  match w_fds w !! fd with
  | Some p => set_files (alter (λ c, c +:+ data) p) w
  | None => w
  end.

(** [os.CreateTemp(dir, pattern)] with a pattern that ends in its star, which
    stands for a random suffix. *)
Definition temp_name (dir pattern suffix : string) : string :=
  trim_right_byte "/" dir +:+ "/" +:+ trim_right_byte "*" pattern +:+ suffix.

(** The documented behaviour of each operation: the response and the world
    after it.  Only a rename, a removal, a creation or a write changes files,
    only a publication changes the broker.  An acknowledged publication (QoS 1
    or 2) has been applied; a failed or unacknowledged one may have been. *)
Definition sem (o : op) (w : world) : response o → world → Prop :=
  match o return response o → world → Prop with
  | OpenLock path => λ r w',
      match r with
      | Ok fd => w' = open_fd fd path
                   (set_files (λ m, match m !! path with Some _ => m | None => <[path := ""]> m end) w)
      | Err _ => w' = w
      end
  | OpenRead path => λ r w',
      match r with
      | Ok fd => is_Some (w_files w !! path) ∧ w' = open_fd fd path w
      | Err e => w' = w ∧ (e = ENOENT → w_files w !! path = None)
      end
  | Fstat fd => λ r w',
      w' = w ∧
      match r with
      | Ok st => ∀ p c, w_fds w !! fd = Some p → w_files w !! p = Some c →
                   st_Size st = Z.of_nat (String.length c)
      | Err _ => True
      end
  | ReadAll fd limit => λ r w',
      w' = w ∧
      match r with
      | Ok data => ∀ p c, w_fds w !! fd = Some p → w_files w !! p = Some c →
                     data = str_take (Z.to_nat limit) c
      | Err _ => True
      end
  | CreateTemp dir pattern => λ r w',
      match r with
      | Ok (fd, name) =>
          (∃ suffix, name = temp_name dir pattern suffix) ∧ w_files w !! name = None ∧
          w' = open_fd fd name (set_files <[name := ""]> w)
      | Err _ => w' = w
      end
  | Copy fd data => λ r w',
      match r with
      | Ok _ => w' = append_fd fd data w
      | Err _ => ∃ n, w' = append_fd fd (str_take n data) w
      end
  | Rename old new => λ r w',
      match r with
      | Ok _ => ∃ c, w_files w !! old = Some c ∧
                  w' = set_files (λ m, <[new := c]> (delete old m)) w
      | Err _ => w' = w
      end
  | Remove path => λ r w',
      match r with
      | Ok _ => w' = set_files (delete path) w
      | Err _ => w' = w
      end
  | PublishOp topic payload qos retain => λ r w',
      (w' = w ∨ w' = deliver topic payload retain w) ∧
      match r with
      | Ok _ => 1 ≤ qos → w' = deliver topic payload retain w
      | Err _ => True
      end
  | _ => λ r w', w' = w
  end.

(** ** Rules for the wrappers *)

Abbreviation dwp := (ewp sem).

Lemma ewp_sys {I : world → Prop} {o wrap Q F w} :
  I w →
  (∀ r w', sem o w r w' → I w' ∧ match r with Ok a => Q a w' | Err _ => F w' end) →
  dwp I (sys o wrap) Q F w.
Proof.
  intros HI H. split; [done|]. intros r w' Hr. destruct (H r w' Hr) as [HI' HQ].
  split; [done|]. by destruct r.
Qed.

Lemma wp_ignore {A} {I : world → Prop} {o} {p : prog response A} {Q w} :
  I w → (∀ r w', sem o w r w' → wp sem I p Q w') → wp sem I (ignore o p) Q w.
Proof. intros HI H. by split. Qed.

Lemma ewp_lift {A} {I : world → Prop} {r : result DiscoveryError A} {Q} {F : world → Prop} {w} :
  I w → match r with Ok a => Q a w | Err _ => F w end → dwp I (elift r) Q F w.
Proof. intros HI H. split; [done|]. by destruct r. Qed.

(** ** What the controller cares about: its state file and the broker *)

Definition view : Type := option string * gmap string string.
Definition obs (path : string) (w : world) : view := (w_files w !! path, w_broker w).

Section quiet.
Context (euid : Z) (path : string).

Definition at_view (v : view) (w : world) : Prop := obs path w = v.

(** An operation that leaves the view alone, whatever its outcome. *)
Definition quiet_op (o : op) : Prop :=
  ∀ w r w', sem o w r w' → obs path w' = obs path w.

(** A program that leaves the view alone at every crash point. *)
Definition quiet {A} (p : prog response A) : Prop :=
  ∀ v w, at_view v w → wp sem (at_view v) p (λ _ w', at_view v w') w.

Lemma quiet_ret {A} (a : A) : quiet (Ret a).
Proof. by split. Qed.

Lemma quiet_bind {A B} (f : A → prog response B) p :
  quiet p → (∀ a, quiet (f a)) → quiet (prog_bind f p).
Proof.
  intros Hp Hf v w Hv. apply wp_bind. eapply wp_mono; [|by apply Hp].
  intros a w' _ Hv'. by apply Hf.
Qed.

Lemma quiet_ebind {E A B} (f : A → eprog response E B) (p : eprog response E A) :
  quiet p → (∀ a, quiet (f a)) → quiet (ebind p f).
Proof. intros Hp Hf. apply quiet_bind; [done|]. intros [a|e]; [apply Hf|apply quiet_ret]. Qed.

Lemma quiet_perform o : quiet_op o → quiet (perform o).
Proof.
  intros Ho v w Hv. split; [done|]. intros r w' Hr. apply Ho in Hr.
  assert (at_view v w') by (unfold at_view in *; congruence). by split.
Qed.

Lemma quiet_sys o wrap : quiet_op o → quiet (sys o wrap).
Proof. intros Ho. apply quiet_bind; [by apply quiet_perform|]. intros a. apply quiet_ret. Qed.

Lemma quiet_ignore {A} o (p : prog response A) : quiet_op o → quiet p → quiet (ignore o p).
Proof.
  intros Ho Hp v w Hv. split; [done|]. intros r w' Hr. apply Hp.
  apply Ho in Hr. unfold at_view in *. congruence.
Qed.

Lemma quiet_lift {E A} (r : result E A) : quiet (elift r).
Proof. apply quiet_ret. Qed.

Lemma quiet_lock : path ≠ path +:+ ".lock" → quiet_op (OpenLock (path +:+ ".lock")).
Proof.
  intros Hne w [fd|e] w'; cbn; intros ->; [|done]. unfold obs; cbn.
  f_equal. case_match; [done|]. by rewrite lookup_insert_ne.
Qed.

Lemma quiet_open_read p : quiet_op (OpenRead p).
Proof. intros w [fd|e] w'; cbn; [by intros [_ ->]|by intros [-> _]]. Qed.

(** The operations whose answer does not change the world. *)
Definition pure_op (o : op) : bool :=
  match o with
  | OpenLock _ | OpenRead _ | CreateTemp _ _ | Copy _ _ | Rename _ _ | Remove _
  | PublishOp _ _ _ _ => false
  | _ => true
  end.

Lemma sem_pure o w r w' : pure_op o = true → sem o w r w' → w' = w.
Proof. by destruct o; cbn; naive_solver. Qed.

Lemma quiet_pure o : pure_op o = true → quiet_op o.
Proof. intros Ho w r w' H. by rewrite (sem_pure _ _ _ _ Ho H). Qed.
End quiet.

#[export] Hint Resolve quiet_ret quiet_bind quiet_ebind quiet_sys quiet_ignore quiet_lift
  quiet_open_read quiet_pure quiet_perform : golib.
#[export] Hint Extern 1 (pure_op _ = true) => reflexivity : golib.
#[export] Hint Opaque sys ignore perform : golib.

(** ** The parts of [reconcileDiscovery] *)

Lemma lock_path_ne path : path ≠ path +:+ ".lock".
Proof.
  intros H. apply (f_equal String.length) in H. rewrite str_length_app in H. simpl in H. lia.
Qed.

(** A step whose operation does not change the world. *)
Ltac pure_step :=
  apply ewp_bind, ewp_sys; [done|];
  let r := fresh "r" in let w' := fresh "w'" in let Hw := fresh "Hw" in
  intros r w' Hw; apply sem_pure in Hw; [|done]; subst w'; split; [done|];
  destruct r; [|done].

Section parts.
Context (euid : Z) (path : string).
Implicit Types (v : view) (w : world).

Lemma quiet_private_directory dir : quiet path (validatePrivateDirectory euid dir).
Proof. unfold validatePrivateDirectory. auto 10 with golib. Qed.

Lemma quiet_private_file fd p n : quiet path (validatePrivateFile euid fd p n).
Proof. unfold validatePrivateFile. auto 10 with golib. Qed.

Lemma quiet_lockDiscoveryState : quiet path (lockDiscoveryState euid path).
Proof.
  unfold lockDiscoveryState.
  pose proof (quiet_lock path (lock_path_ne path)).
  repeat first [ solve [auto with golib]
               | apply quiet_private_directory | apply quiet_private_file
               | apply quiet_ebind; [|intros ?]
               | apply quiet_bind; [|intros [?|?]] ].
Qed.

Lemma quiet_unlock fd r : quiet path (unlock fd r).
Proof. unfold unlock. auto with golib. Qed.

(** What reading the state file gives, by its contents. *)
Definition loads (file : option string) (st : discoveryState) : Prop :=
  match file with
  | None => st = zero_state
  | Some c => decode_state c = Some st
  end.

Lemma read_state_spec fd w c :
  w_fds w !! fd = Some path → w_files w !! path = Some c →
  dwp (λ w', w' = w) (read_state euid fd path)
    (λ st w', w' = w ∧ decode_state c = Some st) (λ w', w' = w) w.
Proof.
  intros Hfd Hc. unfold read_state, validatePrivateFile.
  apply ewp_bind, ewp_bind. apply ewp_sys; [done|]. intros [st|e] w' [-> Hst]; [|done].
  split; [done|]. apply ewp_lift; [done|].
  destruct (private_file euid st maxDiscoveryStateSize) eqn:Hp; [|done].
  cbn [negb reject_if].
  specialize (Hst path c Hfd Hc).
  apply ewp_bind, ewp_sys; [done|]. intros [data|e] w' [-> Hd]; [|done]. split; [done|].
  assert (data = c) as ->.
  { rewrite (Hd path c Hfd Hc). unfold private_file in Hp. bool_split.
    apply str_take_all. apply andb_false_iff in H0 as [?|?]; [done|].
    unfold maxDiscoveryStateSize in *. lia. }
  destruct (decode_state c) eqn:Hdec; by apply ewp_lift.
Qed.

Lemma loadDiscoveryState_spec v w :
  at_view path v w →
  dwp (at_view path v) (loadDiscoveryState euid path)
    (λ st w', at_view path v w' ∧ loads v.1 st) (at_view path v) w.
Proof.
  intros Hv. unfold loadDiscoveryState. apply wp_bind. split; [done|].
  intros r w' Hr.
  assert (at_view path v w') as Hv'
    by (unfold at_view in *; rewrite <- Hv; by eapply quiet_open_read).
  destruct r as [fd|e].
  - destruct Hr as [[c Hc] ->]. split; [done|].
    apply wp_bind. eapply wp_weaken; [| |apply read_state_spec with (c := c)].
    + by intros w' ->.
    + intros r w' Hr.
      assert (at_view path v w' ∧ (∀ st, r = Ok st → loads v.1 st)) as [Hw Hl].
      { destruct r as [st|e]; [destruct Hr as [-> Hdec]|subst w']; (split; [done|]).
        - intros ? [= <-]. unfold at_view, obs in Hv'. rewrite <- Hv'. cbn in *. by rewrite Hc.
        - done. }
      split; [done|]. apply wp_ignore; [done|]. intros r' w'' ->. split; [done|].
      destruct r; [|done]. split; [done|]. by apply Hl.
    + cbn. by rewrite lookup_insert_eq.
    + done.
  - destruct Hr as [-> He]. destruct e as [|t]; (split; [done|]); split; try done.
    split; [done|]. unfold at_view, obs in Hv. rewrite <- Hv. cbn. by rewrite He.
Qed.

(** *** Replacing the state file *)

Definition fits (enc : string) : Prop := Z.of_nat (String.length enc) ≤ maxDiscoveryStateSize.

(** The view with the new file. *)
Definition written (v : view) (enc : string) (w : world) : Prop :=
  fits enc ∧ at_view path (Some enc, v.2) w.

(** The old view, or the view with the new file. *)
Definition replaced (v : view) (enc : string) (w : world) : Prop :=
  at_view path v w ∨ written v enc w.

Lemma replaced_old v enc w : at_view path v w → replaced v enc w.
Proof. by left. Qed.
Lemma replaced_new v enc w : written v enc w → replaced v enc w.
Proof. by right. Qed.

Lemma append_other fd name data v w :
  name ≠ path → w_fds w !! fd = Some name → at_view path v w →
  at_view path v (append_fd fd data w).
Proof.
  intros Hne Hfd Hv. unfold append_fd. rewrite Hfd. unfold at_view, obs in *. cbn.
  by rewrite lookup_alter_ne.
Qed.

Lemma append_self fd name data w :
  w_fds w !! fd = Some name → w_files w !! name = Some "" →
  w_files (append_fd fd data w) !! name = Some data.
Proof.
  intros Hfd Hf. unfold append_fd. rewrite Hfd. cbn. by rewrite lookup_alter_eq, Hf.
Qed.

(** Everything up to the rename. *)
Lemma fill_temp_spec fd name enc v w :
  fits enc →
  name ≠ path → w_fds w !! fd = Some name → w_files w !! name = Some "" →
  at_view path v w →
  dwp (replaced v enc)
    (do! sys (Chmod fd 384) ErrSecureTemp in
     do! sys (Copy fd enc) ErrWriteTemp in
     do! sys (Sync fd) ErrSyncTemp in
     do! sys (CloseFile fd) ErrCloseTemp in
     sys (Rename name path) (ErrReplace path))
    (λ _, written v enc) (replaced v enc) w.
Proof.
  intros Hfit Hne Hfd Hf Hv. pose proof (replaced_old v enc w Hv) as Hr.
  pure_step.
  apply ewp_bind, ewp_sys; [done|]. intros [[]|e] w1 Hw1; cbn in Hw1; last first.
  { destruct Hw1 as [n ->]. by split; apply replaced_old, (append_other _ name). }
  subst w1. pose proof (append_other fd name enc v w Hne Hfd Hv) as Hv1.
  pose proof (replaced_old v enc _ Hv1) as Hr1.
  split; [done|].
  pure_step.
  pure_step.
  apply ewp_sys; [done|]. intros [[]|e] w1 Hw1; cbn in Hw1; [|by subst].
  destruct Hw1 as (c & Hc & ->). rewrite (append_self _ _ _ _ Hfd Hf) in Hc.
  injection Hc as <-.
  assert (written v enc
    (set_files (λ m, <[path := enc]> (delete name m)) (append_fd fd enc w))) as Hn.
  { split; [done|]. unfold at_view, obs in *. cbn. rewrite lookup_insert_eq. by rewrite <- Hv1. }
  split; [by apply replaced_new|done].
Qed.

Lemma quiet_remove name : name ≠ path → quiet_op path (Remove name).
Proof.
  intros Hne w [r|e] w'; cbn; intros ->; [|done]. unfold obs. cbn. by rewrite lookup_delete_ne.
Qed.

(** The outcome of a write: the file is the old one or the new one, and it is
    the new one when the write reports success. *)
Definition write_post (v : view) (enc : string) (r : result DiscoveryError unit)
    (w : world) : Prop :=
  match r with Ok _ => written v enc w | Err _ => replaced v enc w end.

Lemma quiet_written {A} (p : prog response A) v enc w :
  quiet path p → written v enc w → wp sem (replaced v enc) p (λ _, written v enc) w.
Proof.
  intros Hp [Hf Hw]. eapply wp_weaken; [| |by apply Hp]; cbn; unfold replaced, written; eauto.
Qed.

Lemma quiet_replaced {A} (p : prog response A) v enc w :
  quiet path p → replaced v enc w → wp sem (replaced v enc) p (λ _, replaced v enc) w.
Proof.
  intros Hp [Hw|Hw].
  - eapply wp_weaken; [| |by apply Hp]; cbn; unfold replaced; eauto.
  - eapply wp_weaken; [| |by apply quiet_written]; cbn; unfold replaced; eauto.
Qed.

Lemma quiet_post {A} (p : prog response A) v enc r w :
  quiet path p → write_post v enc r w →
  wp sem (replaced v enc) p (λ _, write_post v enc r) w.
Proof. intros Hp Hw. destruct r; [by apply quiet_written|by apply quiet_replaced]. Qed.

Lemma written_post v enc r w : written v enc w → write_post v enc r w.
Proof. destruct r; [done|]. by right. Qed.

Lemma write_post_obs v enc r w w' :
  obs path w' = obs path w → write_post v enc r w → write_post v enc r w'.
Proof. destruct r; unfold write_post, replaced, written, at_view; by intros ->. Qed.

Lemma replaced_post v enc r w : write_post v enc r w → replaced v enc w.
Proof. destruct r; [by right|done]. Qed.

Lemma write_temp_spec fd name dir enc v w :
  fits enc → name ≠ path → w_fds w !! fd = Some name → w_files w !! name = Some "" →
  at_view path v w →
  wp sem (replaced v enc) (write_temp fd name path dir enc)
    (λ r, write_post v enc r.1) w.
Proof.
  intros. unfold write_temp. apply wp_bind.
  eapply wp_mono; [|by apply fill_temp_spec]. intros [[]|e] w' _ Hw; cbn beta iota in Hw.
  - apply wp_bind. eapply wp_mono; [|apply quiet_written; [|exact Hw]]; cbn beta.
    + intros r w1 HI Hw1. split; [done|]. by apply written_post.
    + apply quiet_ebind; [auto with golib|]. intros dfd.
      apply quiet_bind; [auto with golib|]. auto with golib.
  - by split.
Qed.
End parts.

(** No name [os.CreateTemp] may pick is the state file itself. *)
Definition never_temporary (path : string) : Prop :=
  ∀ suffix, temp_name (Dir path) ".discovery-state-*" suffix ≠ path.

Lemma writeDiscoveryState_spec euid path st v w :
  let enc := encode_state (sorted_state st) in
  never_temporary path → at_view path v w →
  wp sem (replaced path v enc) (writeDiscoveryState euid path st)
    (write_post path v enc) w.
Proof.
  intros enc Ht Hv. unfold writeDiscoveryState. fold enc.
  pose proof (replaced_old path v enc w Hv) as Hr.
  destruct (Z.ltb_spec maxDiscoveryStateSize (Z.of_nat (String.length enc))) as [|Hfit];
    [by split|].
  pure_step.
  apply ewp_bind. eapply wp_weaken; [| |by apply quiet_private_directory].
  { intros w'. apply replaced_old. }
  intros r w1 Hv1. apply replaced_old with (enc := enc) in Hv1 as Hr1.
  split; [done|]. destruct r as [[]|e]; [|done].
  apply ewp_bind, ewp_sys; [done|]. intros [[fd name]|e] w2 Hw2; cbn in Hw2; [|by subst].
  destruct Hw2 as ([suffix ->] & Hnone & ->).
  set (name := temp_name _ _ suffix) in *. pose proof (Ht suffix) as Hne. fold name in Hne.
  set (w2 := open_fd fd name (set_files <[name := ""]> w1)).
  assert (at_view path v w2) as Hv2.
  { unfold at_view, obs in *. cbn. by rewrite lookup_insert_ne. }
  split; [by apply replaced_old|]. apply wp_bind.
  eapply wp_mono; [|apply (write_temp_spec path fd name (Dir path) enc v w2)]; try done.
  - intros [r remove] w3 _ Hp. cbn in Hp.
    pose proof (replaced_post _ _ _ _ _ Hp).
    apply wp_ignore; [done|]. intros r' w4 ->%sem_pure; [|done].
    destruct remove; [|by split]. apply wp_ignore; [done|]. intros r'' w5 Hw5.
    assert (write_post path v enc r w5) as Hp5
      by (eapply write_post_obs, Hp; by eapply quiet_remove).
    split; [by eapply replaced_post|done].
  - cbn. by rewrite lookup_insert_eq.
  - cbn. by rewrite lookup_insert_eq.
Qed.

(** *** Publishing *)

Section publish.
Context (cfg : Config) (path : string) (stale : list string) (pubs : list discoveryPublication).
Implicit Types (b : gmap string string) (w : world).

(** How far a partial run of [publishDiscoveryChanges] may have changed the
    broker. *)
Definition partly_published b0 b : Prop :=
  ∀ t, b !! t = b0 !! t ∨ (t ∈ stale ∧ b !! t = None) ∨
       (∃ p, p ∈ pubs ∧ pub_topic p = t ∧ b !! t = Some (pub_payload p)).

(** What a complete run has done. *)
Definition all_published b : Prop :=
  (∀ t, t ∈ stale → t ∉ map pub_topic pubs → b !! t = None) ∧
  (∀ p, p ∈ pubs → b !! pub_topic p = Some (pub_payload p)).

Definition partly (v : view) w : Prop :=
  (obs path w).1 = v.1 ∧ partly_published v.2 (w_broker w).

Lemma discoveryQoS_pos : 1 ≤ discoveryQoS cfg.
Proof. unfold discoveryQoS. destruct (Z.ltb_spec 0 (MQTTQoS cfg)); lia. Qed.

Lemma deliver_file t payload w : (obs path (deliver t payload true w)).1 = (obs path w).1.
Proof. done. Qed.

Lemma partly_delete t v w : t ∈ stale → partly v w → partly v (deliver t "" true w).
Proof.
  intros Ht [Hf Hb]. split; [done|]. intros t'. cbn. rewrite decide_True by done.
  destruct (decide (t' = t)) as [->|]; [|by rewrite lookup_delete_ne].
  right; left. by rewrite lookup_delete_eq.
Qed.

Lemma partly_insert p v w :
  p ∈ pubs → pub_payload p ≠ "" → partly v w →
  partly v (deliver (pub_topic p) (pub_payload p) true w).
Proof.
  intros Hp Hne [Hf Hb]. split; [done|]. intros t'. cbn. rewrite decide_False by done.
  destruct (decide (t' = pub_topic p)) as [->|]; [|by rewrite lookup_insert_ne].
  right; right. exists p. by rewrite lookup_insert_eq.
Qed.

(** One publication, whose delivery establishes [J']. *)
Lemma publish_step (t payload : string) (wrap : errno → DiscoveryError) (I J' : world → Prop) w :
  I w → I (deliver t payload true w) → J' (deliver t payload true w) →
  dwp I (sys (PublishOp t payload (discoveryQoS cfg) true) wrap) (λ _, J') I w.
Proof.
  intros HI HI' HJ. apply ewp_sys; [done|]. intros r w' [Hw Hr].
  assert (I w') by (by destruct Hw; subst).
  split; [done|]. destruct r; [|done]. rewrite Hr; [done|apply discoveryQoS_pos].
Qed.

Context (Hinj : ∀ p q, p ∈ pubs → q ∈ pubs → pub_topic p = pub_topic q → p = q)
        (Hne : ∀ p, p ∈ pubs → pub_payload p ≠ "").

Lemma remove_stale_spec v w :
  partly v w →
  dwp (partly v)
    (efor_each (λ topic, sys (PublishOp topic "" (discoveryQoS cfg) true)
                             (ErrRemoveStale topic)) stale)
    (λ _ w', partly v w' ∧ ∀ t, t ∈ stale → w_broker w' !! t = None) (partly v) w.
Proof.
  intros Hp.
  set (J (l : list string) w :=
    partly v w ∧ (∀ t, t ∈ l → t ∈ stale) ∧ (∀ t, t ∈ stale → t ∈ l ∨ w_broker w !! t = None)).
  eapply ewp_mono; [| |apply (ewp_for_each sem _ J)].
  - intros _ w' _ (HJ & _ & Hd). split; [done|]. intros t [Ht|]%Hd; [set_solver|done].
  - done.
  - intros t l w' (Hw & Hl & Hd).
    assert (partly v (deliver t "" true w')) by (apply partly_delete; set_solver).
    apply publish_step; [done..|]. split; [done|]. split; [set_solver|].
    intros t' Ht'. cbn. rewrite decide_True by done. destruct (decide (t' = t)) as [->|].
    + right. by rewrite lookup_delete_eq.
    + rewrite lookup_delete_ne by done. specialize (Hd t' Ht'). set_solver.
  - by intros w' [? _].
  - split; [done|]. split; auto.
Qed.

Lemma publish_desired_spec v w :
  partly v w → (∀ t, t ∈ stale → t ∉ map pub_topic pubs → w_broker w !! t = None) →
  dwp (partly v)
    (efor_each (λ p, sys (PublishOp (pub_topic p) (pub_payload p) (discoveryQoS cfg) true)
                         (ErrPublishDiscovery (pub_entityID p) (pub_topic p))) pubs)
    (λ _ w', partly v w' ∧ all_published (w_broker w')) (partly v) w.
Proof using Hinj Hne.
  intros Hp Hs.
  set (J (l : list discoveryPublication) w :=
    partly v w ∧ (∀ p, p ∈ l → p ∈ pubs) ∧
    (∀ t, t ∈ stale → t ∉ map pub_topic pubs → w_broker w !! t = None) ∧
    (∀ p, p ∈ pubs → p ∈ l ∨ w_broker w !! pub_topic p = Some (pub_payload p))).
  eapply ewp_mono; [| |apply (ewp_for_each sem _ J)].
  - intros _ w' _ (HJ & _ & Hst & Hd). split; [done|]. split; [done|].
    intros p [Hin|]%Hd; [by apply elem_of_nil in Hin|done].
  - done.
  - intros p l w' (Hw & Hl & Hst & Hd).
    assert (p ∈ pubs) as Hin by (apply Hl; left).
    assert (partly v (deliver (pub_topic p) (pub_payload p) true w'))
      by (apply partly_insert; auto).
    apply publish_step; [done..|]. split; [done|]. split; [|split].
    + intros q Hq. apply Hl. by right.
    + intros t Ht Hnt. cbn. rewrite decide_False by auto. rewrite lookup_insert_ne; [auto|].
      intros <-. apply Hnt. apply list_elem_of_fmap. eauto.
    + intros q Hq. cbn. rewrite decide_False by auto.
      destruct (decide (pub_topic q = pub_topic p)) as [Heq|Hnq].
      * right. rewrite Heq, lookup_insert_eq. by rewrite (Hinj q p).
      * rewrite lookup_insert_ne by congruence.
        destruct (Hd q Hq) as [[->|Hl']%elem_of_cons|]; [done|by left|by right].
  - by intros w' [? _].
  - split; [done|]. split; [done|]. auto.
Qed.

Lemma publishDiscoveryChanges_spec v w :
  at_view path v w →
  dwp (partly v) (publishDiscoveryChanges cfg stale pubs)
    (λ _ w', partly v w' ∧ all_published (w_broker w')) (partly v) w.
Proof using Hinj Hne.
  intros Hv. unfold publishDiscoveryChanges. apply ewp_bind.
  assert (partly v w) as Hp.
  { unfold at_view in Hv. subst v. split; [done|]. intros t. by left. }
  eapply ewp_mono; [| |by apply remove_stale_spec]; [|done].
  intros _ w' _ [Hp' Hs]. apply publish_desired_spec; [done|]. intros t Ht _. auto.
Qed.
End publish.

(** ** [reconcileDiscovery] *)

(** What validation guarantees of the settings discovery uses. *)
Record discovery_settings (cfg : Config) : Prop := {
  dc_client : mq_ClientID (cfg_MQTT cfg) ≠ "";
  dc_device : validDiscoveryID (dev_ID (cfg_Device cfg)) = true;
  dc_prefix : DiscoveryEnabled cfg = true →
    disc_Prefix (mq_Discovery (cfg_MQTT cfg)) ≠ "" ∧
    contains_any (disc_Prefix (mq_Discovery (cfg_MQTT cfg))) "+#" = false;
  dc_entities : Forall (λ e, ent_Type e ∈ discovery_types ∧ validDiscoveryID (ent_ID e) = true)
                  (cfg_Entities cfg);
  dc_unique : NoDup (map ent_ID (cfg_Entities cfg));
}.

(** What the state file needs besides: its texts are valid UTF-8, which Go
    strings need not be and validation does not check. *)
Record discovery_config (cfg : Config) : Prop := {
  dc_settings :> discovery_settings cfg;
  dc_client_valid : valid_utf8 (mq_ClientID (cfg_MQTT cfg)) = true;
  dc_prefix_valid : DiscoveryEnabled cfg = true →
    valid_utf8 (disc_Prefix (mq_Discovery (cfg_MQTT cfg))) = true;
}.

(** The topics a state file tracks; none if there is no readable state. *)
Definition tracked (file : option string) : list string :=
  match file with
  | Some c => match decode_state c with Some st => ds_Topics st | None => [] end
  | None => []
  end.

(** A later run of the same controller accepts the file. *)
Definition accepted (cfg : Config) (st : discoveryState) : Prop :=
  validateDiscoveryState st = Ok tt ∧
  (ds_OwnerID st = "" ∨ ds_OwnerID st = mq_ClientID (cfg_MQTT cfg)).

Definition acceptable (cfg : Config) (file : option string) : Prop :=
  match file with
  | Some c => fits c ∧ ∃ st, decode_state c = Some st ∧ accepted cfg st
  | None => True
  end.

Definition wanted (cfg : Config) : list string :=
  map pub_topic (desiredDiscoveryPublications cfg).

Section settings.
Context (cfg : Config) (Hset : discovery_settings cfg).

Lemma desired_entity p :
  p ∈ desiredDiscoveryPublications cfg →
  DiscoveryEnabled cfg = true ∧
  ∃ e, e ∈ cfg_Entities cfg ∧ pub_topic p = entity_discovery_topic cfg e ∧
       pub_payload p = Marshal (json_map (discoveryPayload cfg e)) ∧ pub_entityID p = ent_ID e.
Proof.
  unfold desiredDiscoveryPublications. destruct (DiscoveryEnabled cfg); [|by intros ?%elem_of_nil].
  intros Hp. split; [done|]. revert Hp. intros (e & -> & He)%list_elem_of_fmap. by exists e.
Qed.

Lemma desired_payload p : p ∈ desiredDiscoveryPublications cfg → pub_payload p ≠ "".
Proof. by intros (_ & e & _ & _ & -> & _)%desired_entity. Qed.

Lemma wanted_entity t :
  t ∈ wanted cfg →
  DiscoveryEnabled cfg = true ∧ ∃ e, e ∈ cfg_Entities cfg ∧ t = entity_discovery_topic cfg e.
Proof. intros (p & -> & (? & e & He & Ht & _)%desired_entity)%list_elem_of_fmap. eauto. Qed.

Lemma entity_facts e :
  e ∈ cfg_Entities cfg → ent_Type e ∈ discovery_types ∧ validDiscoveryID (ent_ID e) = true.
Proof using Hset. intros He. pose proof (dc_entities _ Hset) as H. rewrite Forall_forall in H. by apply H. Qed.

Lemma wanted_owned t : t ∈ wanted cfg → ownedDiscoveryTopic t (dev_ID (cfg_Device cfg)) = true.
Proof using Hset.
  intros (Hen & e & [??]%entity_facts & ->)%wanted_entity.
  destruct Hset as [_ ? [??]%(λ f, f Hen) _ _]. by apply discovery_topic_owned.
Qed.

Lemma entity_topic_inj e1 e2 :
  e1 ∈ cfg_Entities cfg → e2 ∈ cfg_Entities cfg →
  entity_discovery_topic cfg e1 = entity_discovery_topic cfg e2 → ent_ID e1 = ent_ID e2.
Proof using Hset.
  intros [_ H1]%entity_facts [_ H2]%entity_facts Heq.
  eapply discovery_topic_id_inj, Heq; by apply id_no_slash.
Qed.

Lemma NoDup_wanted : NoDup (wanted cfg).
Proof using Hset.
  unfold wanted, desiredDiscoveryPublications.
  destruct (DiscoveryEnabled cfg); [|constructor].
  rewrite map_map. cbn. pose proof (dc_unique _ Hset) as Hu.
  assert (∀ l, l ⊆ cfg_Entities cfg → NoDup (map ent_ID l) →
    NoDup (map (entity_discovery_topic cfg) l)) as H; [|by apply H].
  induction l as [|e l IH]; cbn; intros Hl; [constructor|].
  intros [Hn Hnd]%NoDup_cons. apply NoDup_cons. split; [|apply IH; set_solver].
  intros (e' & Heq & He')%list_elem_of_fmap. apply Hn, list_elem_of_fmap. exists e'.
  split; [|done]. apply entity_topic_inj; set_solver.
Qed.

Lemma desired_topic_inj p q :
  p ∈ desiredDiscoveryPublications cfg → q ∈ desiredDiscoveryPublications cfg →
  pub_topic p = pub_topic q → p = q.
Proof using Hset.
  intros [i Hi]%list_elem_of_lookup [j Hj]%list_elem_of_lookup Heq.
  enough (i = j) by congruence. apply (NoDup_lookup _ _ _ (pub_topic p) NoDup_wanted);
    unfold wanted; rewrite list_lookup_fmap.
  - by rewrite Hi.
  - by rewrite Hj, Heq.
Qed.
End settings.

Section config.
Context (cfg : Config) (Hcfg : discovery_config cfg).

Lemma wanted_valid t : t ∈ wanted cfg → valid_utf8 t = true.
Proof using Hcfg.
  intros (Hen & e & [??]%(entity_facts _ Hcfg) & ->)%wanted_entity.
  destruct Hcfg as [[_ ? _ _ _] _ ?%(λ f, f Hen)]. by apply discovery_topic_valid.
Qed.

(** What [writeDiscoveryState] puts on disk for topics [l]. *)
Definition state_file (l : list string) : string := encode_state (sorted_state (own_state cfg l)).

Lemma decode_state_file l :
  Forall (λ t, valid_utf8 t = true) l →
  decode_state (state_file l) = Some (own_state cfg (sort_strings l)).
Proof using Hcfg.
  intros Hl. unfold state_file. rewrite decode_encode_state; [done|].
  split_and!; cbn; [done|apply Hcfg|apply id_valid, Hcfg|].
  by rewrite sort_strings_perm.
Qed.

Lemma tracked_state_file l t :
  Forall (λ t, valid_utf8 t = true) l → t ∈ tracked (Some (state_file l)) ↔ t ∈ l.
Proof using Hcfg.
  intros Hl. unfold tracked. rewrite decode_state_file by done. cbn. apply elem_of_sort_strings.
Qed.

Lemma acceptable_state_file l :
  fits (state_file l) → Forall (λ t, valid_utf8 t = true) l →
  Forall (λ t, ownedDiscoveryTopic t (dev_ID (cfg_Device cfg)) = true) l → NoDup l →
  acceptable cfg (Some (state_file l)).
Proof using Hcfg.
  intros Hf Hv Ho Hn. split; [done|]. exists (own_state cfg (sort_strings l)).
  split; [by apply decode_state_file|]. split; [|by right].
  apply validate_written; [apply Hcfg|apply Hcfg|by rewrite sort_strings_perm|].
  by apply NoDup_sort_strings.
Qed.
End config.

Section reconcile.
Context (cfg : Config) (Hcfg : discovery_config cfg) (euid : Z) (foreign : gset string).

Definition state_path : string := disc_StateFile (mq_Discovery (cfg_MQTT cfg)).

Context (Htemp : never_temporary state_path) (v0 : view).

(** The invariant of every crash point: each retained topic is someone else's
    or tracked by the state file, a later run can read the file, and topics
    that are neither tracked nor wanted are as they were. *)
Definition consistent (v : view) : Prop :=
  (∀ t, is_Some (v.2 !! t) → t ∈ foreign ∨ t ∈ tracked v.1) ∧
  acceptable cfg v.1 ∧
  (∀ t, t ∉ tracked v0.1 → t ∉ wanted cfg → v.2 !! t = v0.2 !! t).

Definition crash_safe (w : world) : Prop := consistent (obs state_path w).

(** What a run that reports success has established. *)
Definition reconciled (w : world) : Prop :=
  w_files w !! state_path = Some (state_file cfg (wanted cfg)) ∧
  (∀ p, p ∈ desiredDiscoveryPublications cfg →
        w_broker w !! pub_topic p = Some (pub_payload p)) ∧
  (∀ t, t ∈ tracked v0.1 → t ∉ wanted cfg → w_broker w !! t = None).

(** The view once topics of [previous] have been dealt with. *)
Definition remaining (previous : list string) (v : view) : Prop :=
  consistent v ∧
  (∀ t, is_Some (v.2 !! t) → t ∈ foreign ∨ t ∈ previous) ∧
  (∀ t, t ∈ tracked v0.1 → t ∈ previous ∨ v.2 !! t = None) ∧
  (∀ t, t ∈ previous → t ∈ tracked v0.1).

Definition own_topics (l : list string) : Prop :=
  Forall (λ t, valid_utf8 t = true) l ∧
  Forall (λ t, ownedDiscoveryTopic t (dev_ID (cfg_Device cfg)) = true) l ∧ NoDup l.

Lemma own_topics_wanted : own_topics (wanted cfg).
Proof using Hcfg.
  pose proof (dc_settings _ Hcfg) as Hset.
  split_and!; try apply Forall_forall; eauto using wanted_valid, wanted_owned, NoDup_wanted.
Qed.

Lemma own_topics_union l : own_topics l → own_topics (unionTopics l (wanted cfg)).
Proof using Hcfg.
  intros (Hv & Ho & _). destruct own_topics_wanted as (Hv' & Ho' & _).
  rewrite Forall_forall in Hv, Ho, Hv', Ho'.
  split_and!; [apply Forall_forall..|apply NoDup_unionTopics];
    intros t [?|?]%elem_of_unionTopics; auto.
Qed.

(** A write of owned topics that cover the broker is consistent. *)
Lemma write_consistent l v w :
  consistent v → own_topics l → (∀ t, is_Some (v.2 !! t) → t ∈ foreign ∨ t ∈ l) →
  at_view state_path v w →
  wp sem crash_safe (writeDiscoveryState euid state_path (own_state cfg l))
    (λ r w', crash_safe w' ∧
       (r = Ok tt → obs state_path w' = (Some (state_file cfg l), v.2))) w.
Proof using Hcfg Htemp.
  intros Hc (Hv & Ho & Hn) Hcov Hw.
  assert (∀ w', written state_path v (state_file cfg l) w' → crash_safe w') as Hnew.
  { intros w' [Hf Hw']. unfold crash_safe, at_view in *. rewrite Hw'.
    unfold consistent. cbn [fst snd]. split; [|split].
    - intros t Ht. rewrite tracked_state_file by done. auto.
    - by apply acceptable_state_file.
    - apply Hc. }
  assert (∀ w', replaced state_path v (state_file cfg l) w' → crash_safe w') as Hrep.
  { intros w' [Hw'|Hw']; [|by apply Hnew]. unfold crash_safe, at_view in *. by rewrite Hw'. }
  eapply wp_weaken; [exact Hrep| |by apply writeDiscoveryState_spec].
  intros [[]|e] w' Hp; cbn in Hp.
  - pose proof (Hnew _ Hp). split; [done|]. split; [done|]. intros _. apply Hp.
  - pose proof (Hrep _ Hp). split; [done|]. by split.
Qed.

(** A partial publication of wanted topics over a file that tracks them. *)
Lemma partly_consistent (l stale : list string) pubs v w :
  consistent v → partly state_path stale pubs v w →
  (∀ t, t ∈ stale → t ∈ tracked v0.1) →
  (∀ p, p ∈ pubs → pub_topic p ∈ wanted cfg) →
  (∀ t, t ∈ wanted cfg → t ∈ l) → (pubs = [] ∨ (∀ t, t ∈ l → t ∈ tracked v.1)) →
  crash_safe w.
Proof.
  intros (Hs & Ha & Hf) [Hfile Hb] Hst Hpubs Hl Htr. unfold crash_safe, consistent.
  rewrite Hfile. cbn [obs fst snd]. split; [|split]; [|done|]; intros t.
  - intros Ht. destruct (Hb t) as [He|[[_ He]|(p & Hp & <- & He)]].
    + apply Hs. by rewrite <- He.
    + rewrite He in Ht. by destruct Ht.
    + right. destruct Htr as [->|Htr]; [by apply elem_of_nil in Hp|]. auto.
  - intros Ht Hw. destruct (Hb t) as [He|[[Hin _]|(p & Hp & <- & _)]].
    + rewrite He. auto.
    + by apply Hst in Hin.
    + by apply Hpubs in Hp.
Qed.

Abbreviation desired := (desiredDiscoveryPublications cfg).

(** From the pending write to the final one. *)
Lemma finish_spec (previous : list string) v w :
  remaining previous v → own_topics previous → at_view state_path v w →
  wp sem crash_safe
    (do! writeDiscoveryState euid state_path (own_state cfg (unionTopics previous (wanted cfg))) in
     do! publishDiscoveryChanges cfg (differenceTopics previous (wanted cfg)) desired in
     writeDiscoveryState euid state_path (own_state cfg (wanted cfg)))
    (λ r w', r = Ok tt → reconciled w') w.
Proof using Hcfg Htemp.
  intros (Hc & Hcov & Hgone & Hprev) Hown Hw.
  set (pending := unionTopics previous (wanted cfg)).
  assert (own_topics pending) as Hpend by (by apply own_topics_union).
  apply wp_bind. eapply wp_mono; [|apply (write_consistent pending v)]; try done; last first.
  { intros t Ht. destruct (Hcov t Ht); [by left|]. right.
    unfold pending. rewrite elem_of_unionTopics. auto. }
  intros [[]|e] w1 HI1 [_ Hw1]; [|by split]. specialize (Hw1 eq_refl).
  set (v1 := obs state_path w1) in *.
  assert (∀ t, t ∈ pending → t ∈ tracked v1.1) as Htr1.
  { intros t Ht. rewrite Hw1. cbn [fst]. apply tracked_state_file; [done|apply Hpend|done]. }
  assert (∀ w', partly state_path (differenceTopics previous (wanted cfg)) desired v1 w' →
                crash_safe w') as Hpart.
  { intros w' Hp'. eapply (partly_consistent pending); [exact HI1|exact Hp'|..].
    - intros t [Ht _]%elem_of_differenceTopics. auto.
    - intros p Hp. apply list_elem_of_fmap. eauto.
    - intros t Ht. unfold pending. rewrite elem_of_unionTopics. auto.
    - by right. }
  apply wp_bind. eapply wp_weaken; [exact Hpart| |apply publishDiscoveryChanges_spec with (v := v1)];
    try done; [|by apply (desired_topic_inj _ Hcfg)|apply desired_payload].
  intros [[]|e] w2 Hw2; cbn in Hw2; [|by split; [apply Hpart|split; [apply Hpart|]]].
  destruct Hw2 as [Hp2 [Hst2 Hd2]]. split; [by apply Hpart|].
  set (v2 := obs state_path w2).
  apply (wp_mono sem _ _ (λ r w', crash_safe w' ∧
    (r = Ok tt → obs state_path w' = (Some (state_file cfg (wanted cfg)), v2.2)))).
  - intros r w3 _ [_ Hw3] Hr. specialize (Hw3 Hr). unfold obs in Hw3. injection Hw3 as Hfile Hb.
    split; [exact Hfile|]. rewrite Hb. split; [exact Hd2|]. intros t Ht Hnt.
    destruct (decide (t ∈ previous)) as [Hin|Hnin].
    + apply Hst2; [|done]. by apply elem_of_differenceTopics.
    + destruct (Hgone t Ht) as [?|Hnone]; [done|].
      destruct (proj2 Hp2 t) as [He|[[_ He]|(p & Hp & <- & _)]]; [|done|].
      * rewrite He. by rewrite Hw1.
      * destruct Hnt. apply list_elem_of_fmap. eauto.
  - apply write_consistent; [by apply Hpart|by apply own_topics_wanted| |done].
    intros t Ht. cbn [v2 obs snd] in Ht.
    destruct (decide (t ∈ wanted cfg)) as [|Hnt]; [by right|]. left.
    destruct (proj2 Hp2 t) as [He|[[_ He]|(p & Hp & <- & _)]].
    + rewrite He, Hw1 in Ht. destruct (Hcov t Ht) as [|Hin]; [done|].
      rewrite Hst2 in He by (done || by apply elem_of_differenceTopics).
      rewrite Hw1 in He. cbn [snd] in He, Ht. rewrite <- He in Ht. by destruct Ht.
    + rewrite He in Ht. by destruct Ht.
    + destruct Hnt. apply list_elem_of_fmap. eauto.
Qed.

(** Taking over the file of the same client under another device name. *)
Lemma change_device_spec st w :
  consistent v0 → loads v0.1 st → at_view state_path v0 w →
  wp sem crash_safe
    (do! publishDiscoveryChanges cfg (ds_Topics st) [] in
     do! writeDiscoveryState euid state_path (own_state cfg []) in
     elift (Ok zero_state))
    (λ r w', ∀ previous, r = Ok previous →
       previous = zero_state ∧ remaining [] (obs state_path w')) w.
Proof using Hcfg Htemp.
  intros Hc Hst Hw.
  assert (∀ t, t ∈ tracked v0.1 ↔ t ∈ ds_Topics st) as Htr.
  { intros t. unfold loads in Hst. unfold tracked. destruct v0.1 as [c|]; [by rewrite Hst|].
    by subst st. }
  assert (∀ w', partly state_path (ds_Topics st) [] v0 w' → crash_safe w') as Hpart.
  { intros w' Hp'. eapply (partly_consistent (wanted cfg)); [exact Hc|exact Hp'|..].
    - intros t. apply Htr.
    - intros p Hp. by apply elem_of_nil in Hp.
    - done.
    - by left. }
  apply wp_bind. eapply wp_weaken;
    [exact Hpart| |apply publishDiscoveryChanges_spec with (v := v0)];
    [|set_solver..|done].
  intros [[]|e] w1 Hw1; cbn beta iota in Hw1; [|by split; [apply Hpart|split; [apply Hpart|]]].
  destruct Hw1 as [Hp1 [Hst1 _]]. split; [by apply Hpart|].
  assert (∀ t, is_Some (w_broker w1 !! t) → t ∈ foreign) as Hcov.
  { intros t Ht. destruct (proj2 Hp1 t) as [He|[[_ He]|(p & Hp & _)]].
    - destruct (proj1 Hc t) as [|Hin]; [by rewrite <- He|done|].
      apply Htr in Hin. rewrite Hst1 in Ht; [by destruct Ht|done|]. by intros ?%elem_of_nil.
    - rewrite He in Ht. by destruct Ht.
    - by apply elem_of_nil in Hp. }
  apply wp_bind. eapply wp_mono; [|apply (write_consistent [] (obs state_path w1))].
  - intros [[]|e] w2 HI2 [_ Hw2]; [|by split]. specialize (Hw2 eq_refl).
    split; [done|]. intros previous [= <-]. split; [done|]. unfold remaining. rewrite Hw2.
    cbn [snd]. split_and!.
    + rewrite <- Hw2. exact HI2.
    + intros t Ht. left. by apply Hcov.
    + intros t Ht%Htr. right. apply Hst1; [done|]. by intros ?%elem_of_nil.
    + intros t Ht. by apply elem_of_nil in Ht.
  - by apply Hpart.
  - repeat split; constructor.
  - intros t Ht. left. by apply Hcov.
  - done.
Qed.

Lemma loaded_topics st :
  loads v0.1 st → acceptable cfg v0.1 →
  ds_DeviceID st = "" ∨ ds_DeviceID st = dev_ID (cfg_Device cfg) → own_topics (ds_Topics st).
Proof.
  intros Hst Ha Hd. unfold loads, acceptable in *. destruct v0.1 as [c|].
  - destruct Ha as (_ & st' & Hst' & Hv & _). rewrite Hst in Hst'. injection Hst' as <-.
    apply decode_state_valid in Hst as (_ & _ & Hutf).
    apply validate_topics_of in Hv as [->|(_ & _ & Hdev & Ho & Hn)]; [repeat split; constructor|].
    destruct Hd as [Hd|Hd]; rewrite Hd in *; done.
  - subst st. repeat split; constructor.
Qed.

Lemma reconcile_locked_spec w :
  consistent v0 → at_view state_path v0 w →
  wp sem crash_safe (reconcile_locked euid cfg state_path desired)
    (λ r w', r = Ok tt → reconciled w') w.
Proof using Hcfg Htemp.
  intros Hc Hw.
  assert (∀ w', at_view state_path v0 w' → crash_safe w') as Hsafe.
  { intros w' Hw'. unfold crash_safe, at_view in *. by rewrite Hw'. }
  unfold reconcile_locked. fold (wanted cfg).
  apply wp_bind. eapply wp_weaken; [exact Hsafe| |by apply loadDiscoveryState_spec].
  intros [st|e] w1 Hw1; cbn in Hw1; [|by split; [apply Hsafe|split; [apply Hsafe|]]].
  destruct Hw1 as [Hw1 Hst]. pose proof (Hsafe _ Hw1). split; [done|].
  apply wp_bind. split; [done|].
  destruct (validateDiscoveryState st) as [[]|e]; [|by split]. cbn [map_err].
  apply wp_bind. split; [done|]. destruct (reject_if _ _) as [[]|e]; [|by split].
  assert (Hown : ds_DeviceID st = "" ∨ ds_DeviceID st = dev_ID (cfg_Device cfg) →
                 remaining (ds_Topics st) v0 ∧ own_topics (ds_Topics st)).
  { intros Hd. split; [|by apply loaded_topics; [|apply Hc|]].
    assert (∀ t, t ∈ tracked v0.1 ↔ t ∈ ds_Topics st) as Htr.
    { intros t. unfold loads in Hst. unfold tracked. destruct v0.1 as [c|]; [by rewrite Hst|].
      by subst st. }
    split_and!; [done|..].
    - intros t Ht. rewrite <- Htr. by apply Hc.
    - intros t Ht. left. by apply Htr.
    - intros t Ht. by apply Htr. }
  apply wp_bind.
  destruct (negb _ && negb _) eqn:Hdev.
  - eapply wp_mono; [|apply change_device_spec; done].
    intros [previous|e] w2 HI2 Hr; [|by split]. destruct (Hr _ eq_refl) as [-> Hrem].
    eapply finish_spec; [exact Hrem|repeat split; constructor|done].
  - split; [done|]. destruct Hown as [Hrem Ho].
    + repeat case_bool_decide; [by left|by left|by right|done].
    + by apply (finish_spec _ v0).
Qed.

Lemma reconcileDiscovery_spec w :
  state_path ≠ "" → consistent v0 → at_view state_path v0 w →
  wp sem crash_safe (reconcileDiscovery euid cfg) (λ r w', r = Ok tt → reconciled w') w.
Proof using Hcfg Htemp.
  intros Hpath Hc Hw. unfold reconcileDiscovery. fold state_path.
  rewrite decide_False by done.
  assert (∀ w', at_view state_path v0 w' → crash_safe w') as Hsafe.
  { intros w' Hw'. unfold crash_safe, at_view in *. by rewrite Hw'. }
  apply wp_bind. eapply wp_weaken; [exact Hsafe| |by apply quiet_lockDiscoveryState].
  intros [fd|e] w1 Hw1; [|by split; [apply Hsafe|split; [apply Hsafe|]]].
  split; [by apply Hsafe|]. apply wp_bind.
  eapply wp_mono; [|by apply reconcile_locked_spec].
  intros r w2 HI Hr. unfold unlock.
  apply wp_ignore; [done|]. intros r1 w3 ->%sem_pure; [|done].
  apply wp_ignore; [done|]. intros r2 w4 ->%sem_pure; [|done]. by split.
Qed.
End reconcile.
