(* ===== verification/DiscoverySafety.v ===== *)
(** * Discovery: the guarantees of [reconcileDiscovery]

    The theorems about [Discovery] and [DiscoveryState] that a user relies on:
    the state file survives crashes, retained discovery topics are never lost
    track of, other controllers' topics are left alone.  A state a run reaches
    is a state some sequence of steps reaches, every step with any outcome the
    environment allows; the process may be killed after any of them. *)

From S2P Require Import Prelude Effects GoString GoPath GoJson Config DiscoveryState Discovery.
From S2P Require Import DiscoveryProofs.
From stdpp Require Import relations.

Open Scope Z_scope.

(** ** A well-behaved kernel and broker, to run the program on *)

Section kernel.
Context (euid : Z).

Definition private_dir_stat : Stat := {| st_Mode := S_IFDIR + 448; st_Uid := euid; st_Size := 0 |}.

Definition file_stat (fd : Z) (w : world) : Stat :=
  {| st_Mode := S_IFREG + 384; st_Uid := euid;
     st_Size := match w_fds w !! fd with
                | Some p => match w_files w !! p with
                            | Some c => Z.of_nat (String.length c)
                            | None => 0
                            end
                | None => 0
                end |}.

Definition content (fd : Z) (w : world) : string :=
  match w_fds w !! fd with
  | Some p => default "" (w_files w !! p)
  | None => ""
  end.

(** Every call succeeds that can. *)
Definition kernel (o : op) (w : world) : response o * world :=
  match o return response o * world with
  | EvalSymlinks path => (Ok path, w)
  | Lstat _ => (Ok private_dir_stat, w)
  | OpenLock path =>
      (Ok 3, open_fd 3 path
               (set_files (λ m, match m !! path with Some _ => m | None => <[path := ""]> m end) w))
  | OpenRead path =>
      match w_files w !! path with
      | Some _ => (Ok 4, open_fd 4 path w)
      | None => (Err ENOENT, w)
      end
  | Fstat fd => (Ok (file_stat fd w), w)
  | ReadAll fd limit => (Ok (str_take (Z.to_nat limit) (content fd w)), w)
  | CreateTemp dir pattern =>
      let name := temp_name dir pattern "0" in
      match w_files w !! name with
      | Some _ => (Err (ErrOther "file exists"), w)
      | None => (Ok (5, name), open_fd 5 name (set_files <[name := ""]> w))
      end
  | Copy fd data => (Ok tt, append_fd fd data w)
  | Rename old new =>
      match w_files w !! old with
      | Some c => (Ok tt, set_files (λ m, <[new := c]> (delete old m)) w)
      | None => (Err ENOENT, w)
      end
  | OpenDir _ => (Ok 6, w)
  | Remove path => (Ok tt, set_files (delete path) w)
  | PublishOp topic payload _ retain => (Ok tt, deliver topic payload retain w)
  | MkdirAll _ _ | Flock _ _ | Chmod _ _ | Sync _ | CloseFile _ => (Ok tt, w)
  end.

Lemma kernel_sem o w r w' : kernel o w = (r, w') → sem o w r w'.
Proof.
  destruct o; cbn; try (intros [= <- <-]; done).
  - destruct (w_files w !! path) eqn:Hf; intros [= <- <-]; cbn; rewrite ?Hf; eauto.
  - intros [= <- <-]. split; [done|]. intros p c Hp Hc. cbn. by rewrite Hp, Hc.
  - intros [= <- <-]. split; [done|]. intros p c Hp Hc. unfold content. by rewrite Hp, Hc.
  - case_match eqn:Hf; intros [= <- <-]; cbn; eauto 10.
  - case_match eqn:Hf; intros [= <- <-]; cbn; eauto 10.
  - intros [= <- <-]. cbn. eauto.
Qed.
End kernel.

(** ** Reachable states *)

Definition reaches {A} (p : prog response A) (w : world) (p' : prog response A) (w' : world) : Prop :=
  rtc (pstep sem) (p, w) (p', w').

(** The file at [path] in [w]. *)
Definition file_at (path : string) (w : world) : option string := w_files w !! path.

Definition empty_world : world := {| w_files := ∅; w_fds := ∅; w_broker := ∅ |}.

Lemma sample_discovery : discovery_config sample_config.
Proof.
  split; [|done..]. split; try done.
  - repeat constructor.
  - cbn. apply (bool_decide_unpack _). vm_compute. exact I.
Qed.

Lemma sample_never_temporary : never_temporary (state_path sample_config).
Proof. intros suffix H. vm_compute in H. discriminate. Qed.

Lemma obs_inv path w f b :
  obs path w = (f, b) → w_files w !! path = f ∧ w_broker w = b.
Proof. apply pair_eq. Qed.

(** ** Crash safety *)

Section guarantees.
Context (cfg : Config) (euid : Z) (Hcfg : discovery_config cfg)
        (Htemp : never_temporary (state_path cfg)) (Hpath : state_path cfg ≠ "").

Abbreviation file w := (file_at (state_path cfg) w).

(** Retained topics are other parties' or tracked. *)
Definition all_tracked (foreign : gset string) (w : world) : Prop :=
  ∀ t, is_Some (w_broker w !! t) → t ∈ foreign ∨ t ∈ tracked (file w).

Lemma consistent_start foreign w :
  all_tracked foreign w → acceptable cfg (file w) →
  consistent cfg foreign (obs (state_path cfg) w) (obs (state_path cfg) w).
Proof. intros Ht Ha. split; [exact Ht|by split]. Qed.

Lemma tracks_own_dom w : all_tracked (dom (w_broker w)) w.
Proof. intros t Ht. left. by apply elem_of_dom. Qed.

Lemma reaches_spec {foreign w p' w'} :
  all_tracked foreign w → acceptable cfg (file w) →
  reaches (reconcileDiscovery euid cfg) w p' w' →
  crash_safe cfg foreign (obs (state_path cfg) w) w' ∧
  (∀ r, p' = Ret r → r = Ok tt → reconciled cfg (obs (state_path cfg) w) w').
Proof using Hcfg Htemp Hpath.
  intros Ht Ha Hr.
  apply (wp_sound sem _ (reconcileDiscovery euid cfg) _ (λ r w', r = Ok tt → reconciled cfg (obs (state_path cfg) w) w')
           w w'); [|exact Hr].
  apply reconcileDiscovery_spec; [done..|by apply consistent_start|done].
Qed.

(** C1: no retained discovery topic is ever lost track of.  If every retained
    topic of the broker is someone else's or listed in the state file, then so
    it is wherever the process is killed in [reconcileDiscovery], whatever the
    outcome of each system call and publication, acknowledged or not. *)
Theorem reconcile_tracks_topics foreign w p' w' :
  all_tracked foreign w → acceptable cfg (file w) →
  reaches (reconcileDiscovery euid cfg) w p' w' →
  all_tracked foreign w'.
Proof using Hcfg Htemp Hpath.
  intros Ht Ha Hr. destruct (reaches_spec Ht Ha Hr) as [(Hs & _ & _) _]. exact Hs.
Qed.

(** C3: wherever the process is killed, the state file is absent or one that
    the next run of this controller reads, validates and accepts as its own. *)
Theorem reconcile_recoverable w p' w' :
  acceptable cfg (file w) →
  reaches (reconcileDiscovery euid cfg) w p' w' →
  acceptable cfg (file w').
Proof using Hcfg Htemp Hpath.
  intros Ha Hr. by destruct (reaches_spec (tracks_own_dom w) Ha Hr) as [(_ & Hs & _) _].
Qed.

(** C40: topics that are neither in the state file nor configured are not
    touched, at any point of a run. *)
Theorem reconcile_leaves_others w p' w' t :
  acceptable cfg (file w) → t ∉ tracked (file w) → t ∉ wanted cfg →
  reaches (reconcileDiscovery euid cfg) w p' w' →
  w_broker w' !! t = w_broker w !! t.
Proof using Hcfg Htemp Hpath.
  intros Ha Ht Hw Hr. destruct (reaches_spec (tracks_own_dom w) Ha Hr) as [(_ & _ & Hs) _].
  by apply Hs.
Qed.

(** C2: a run that reports success has retained exactly the configuration's
    payloads, removed every topic that was tracked and is not wanted any more,
    and recorded the wanted topics. *)
Theorem reconcile_success w w' :
  acceptable cfg (file w) →
  reaches (reconcileDiscovery euid cfg) w (Ret (Ok tt)) w' →
  (∀ e, DiscoveryEnabled cfg = true → e ∈ cfg_Entities cfg →
    w_broker w' !! entity_discovery_topic cfg e
    = Some (Marshal (json_map (discoveryPayload cfg e)))) ∧
  (∀ t, t ∈ tracked (file w) → t ∉ wanted cfg → w_broker w' !! t = None) ∧
  file w' = Some (state_file cfg (wanted cfg)).
Proof using Hcfg Htemp Hpath.
  intros Ha Hr. destruct (reaches_spec (tracks_own_dom w) Ha Hr) as [_ Hs].
  destruct (Hs _ eq_refl eq_refl) as (Hfile & Hpub & Hgone).
  split_and!; [|done|done]. intros e Hen He.
  apply (Hpub {| pub_entityID := ent_ID e; pub_topic := entity_discovery_topic cfg e;
                 pub_payload := Marshal (json_map (discoveryPayload cfg e)) |}).
  unfold desiredDiscoveryPublications. rewrite Hen. apply list_elem_of_fmap. eauto.
Qed.
End guarantees.

(** ** Foreign state *)

(** A state file this controller must not act on. *)
Definition refused (cfg : Config) (c : string) : Prop :=
  ∀ st, decode_state c = Some st →
    validateDiscoveryState st ≠ Ok tt ∨
    (ds_OwnerID st ≠ "" ∧ ds_OwnerID st ≠ mq_ClientID (cfg_MQTT cfg)).

(** C39: when the state file is malformed or belongs to another client, nothing
    is published, the file is left alone, and the run does not succeed. *)
Theorem reconcile_refuses_foreign cfg euid c w p' w' :
  state_path cfg ≠ "" → w_files w !! state_path cfg = Some c → refused cfg c →
  reaches (reconcileDiscovery euid cfg) w p' w' →
  w_broker w' = w_broker w ∧ w_files w' !! state_path cfg = Some c ∧ p' ≠ Ret (Ok tt).
Proof.
  intros Hpath Hc Hno Hr. set (path := state_path cfg) in *.
  enough (wp sem (at_view path (obs path w)) (reconcileDiscovery euid cfg)
            (λ r _, r ≠ Ok tt) w) as Hwp.
  { destruct (wp_sound _ _ _ _ _ _ _ Hwp Hr) as [Hv Hq]. unfold at_view, obs in Hv.
    injection Hv as Hf Hb. split_and!; [done|by rewrite Hf|]. intros ->. by apply (Hq (Ok tt)). }
  unfold reconcileDiscovery. fold (state_path cfg). fold path. rewrite decide_False by done.
  apply wp_bind. eapply wp_mono; [|by apply quiet_lockDiscoveryState].
  intros [fd|e] w1 _ Hw1; [|by split]. apply wp_bind.
  apply (wp_mono sem _ _ (λ r _, r ≠ Ok tt)).
  { intros r w2 Hw2 Hr2. apply wp_ignore; [done|]. intros r' w3 ->%sem_pure; [|done].
    apply wp_ignore; [done|]. intros r'' w4 ->%sem_pure; [|done]. by split. }
  apply wp_bind. eapply wp_mono; [|by apply loadDiscoveryState_spec].
  intros [st|e] w2 Hv Hw2; cbn beta iota in Hw2; [|by split].
  destruct Hw2 as [_ Hst]. unfold obs, loads in Hst. cbn [fst] in Hst. rewrite Hc in Hst.
  apply wp_bind. split; [done|].
  destruct (validateDiscoveryState st) as [[]|e] eqn:Hval; [|by split]. cbn [map_err].
  destruct (Hno st Hst) as [?|[Ho1 Ho2]]; [done|].
  apply wp_bind. split; [done|]. rewrite !bool_decide_eq_false_2 by done. by split.
Qed.

(** ** The state file on disk *)

(** C19: the state file is replaced atomically.  At every crash point of
    [writeDiscoveryState] the path holds its old contents or the whole new
    encoding, and it holds the new one when the write reports success. *)
Theorem write_atomic euid path st w p' w' :
  never_temporary path →
  reaches (writeDiscoveryState euid path st) w p' w' →
  (w_files w' !! path = w_files w !! path ∨
   w_files w' !! path = Some (encode_state (sorted_state st))) ∧
  w_broker w' = w_broker w ∧
  (p' = Ret (Ok tt) → w_files w' !! path = Some (encode_state (sorted_state st))).
Proof.
  intros Ht Hr.
  pose proof (writeDiscoveryState_spec euid path st (obs path w) w Ht eq_refl) as Hwp.
  cbv zeta in Hwp. revert Hwp.
  generalize (encode_state (sorted_state st)) as enc. intros enc Hwp.
  destruct (wp_sound _ _ _ _ _ _ _ Hwp Hr) as [HI HQ].
  assert ((w_files w' !! path = w_files w !! path ∨ w_files w' !! path = Some enc) ∧
          w_broker w' = w_broker w).
  { destruct HI as [Hv|[_ Hv]].
    - apply obs_inv in Hv as [-> ->]. split; [by left|reflexivity].
    - apply obs_inv in Hv as [-> ->]. split; [by right|reflexivity]. }
  split_and!; [tauto..|]. intros ->. destruct (HQ (Ok tt) eq_refl) as [_ Hv].
  apply (obs_inv _ _ _ _ Hv).
Qed.

(** C20: what is written is what is read: every state the controller writes is
    decoded to the same state. *)
Theorem state_file_roundtrip st :
  valid_state st → decode_state (encode_state st) = Some st.
Proof. apply decode_encode_state. Qed.

(** ** Concrete runs *)

Definition answers (o : op) (w : world) : option (response o * world) := Some (kernel 1000 o w).

Lemma answers_sem o w r w' : answers o w = Some (r, w') → sem o w r w'.
Proof. intros [= H]. by eapply kernel_sem. Qed.

Definition stale_topic : string := "homeassistant/switch/pi/old/config".
Definition other_topic : string := "homeassistant/switch/other/x/config".

(** A removed switch is still retained; so is another device's. *)
Definition start_state : discoveryState :=
  {| ds_Version := 1; ds_OwnerID := "pi"; ds_DeviceID := "pi"; ds_Topics := [stale_topic] |}.

Definition start_world (st : discoveryState) : world :=
  {| w_files := {[ "/var/lib/pi/discovery.json" := encode_state st ]};
     w_fds := ∅;
     w_broker := <[stale_topic := "{}"]> {[ other_topic := "{}" ]} |}.

Lemma start_tracked : all_tracked sample_config {[ other_topic ]} (start_world start_state).
Proof.
  intros t [x Hx]. cbn [w_broker start_world] in Hx.
  apply lookup_insert_Some in Hx as [[<- _]|[_ [<- _]%lookup_singleton_Some]].
  - right. apply (bool_decide_unpack _). vm_compute. exact I.
  - left. set_solver.
Qed.

Lemma start_acceptable :
  acceptable sample_config (file_at (state_path sample_config) (start_world start_state)).
Proof.
  split; [by vm_compute|]. exists start_state. split; [by vm_compute|].
  split; [by vm_compute|by right].
Qed.

(** A run killed after [n] operations. *)
Definition killed (n : nat) : prog response (result DiscoveryError unit) * world :=
  run_for n answers (reconcileDiscovery 1000 sample_config) (start_world start_state).

Lemma killed_reaches n :
  reaches (reconcileDiscovery 1000 sample_config) (start_world start_state)
    (killed n).1 (killed n).2.
Proof.
  unfold reaches. rewrite <- surjective_pairing. apply run_for_steps, answers_sem.
Qed.

Example whole_run : (killed 60).1 = Ret (Ok tt).
Proof. vm_compute. reflexivity. Qed.

Lemma path_nonempty : state_path sample_config ≠ "".
Proof. done. Qed.

Lemma reconcile_tracks_topics_witness :
  all_tracked sample_config {[ other_topic ]} (killed 30).2.
Proof.
  exact (reconcile_tracks_topics sample_config 1000 sample_discovery sample_never_temporary
           path_nonempty _ _ _ _ start_tracked start_acceptable (killed_reaches 30)).
Defined.

Lemma reconcile_recoverable_witness :
  acceptable sample_config (file_at (state_path sample_config) (killed 30).2).
Proof.
  exact (reconcile_recoverable sample_config 1000 sample_discovery sample_never_temporary
           path_nonempty _ _ _ start_acceptable (killed_reaches 30)).
Defined.

Lemma reconcile_leaves_others_witness :
  w_broker (killed 30).2 !! other_topic = w_broker (start_world start_state) !! other_topic.
Proof.
  apply (reconcile_leaves_others sample_config 1000 sample_discovery sample_never_temporary
           path_nonempty _ (killed 30).1 _ _ start_acceptable).
  - apply (bool_decide_unpack _). vm_compute. exact I.
  - apply (bool_decide_unpack _). vm_compute. exact I.
  - apply killed_reaches.
Defined.

Lemma whole_run_reaches :
  reaches (reconcileDiscovery 1000 sample_config) (start_world start_state)
    (Ret (Ok tt)) (killed 60).2.
Proof. rewrite <- whole_run. apply killed_reaches. Qed.

Lemma reconcile_success_witness :
  w_broker (killed 60).2 !! stale_topic = None.
Proof.
  apply (reconcile_success sample_config 1000 sample_discovery sample_never_temporary
           path_nonempty _ _ start_acceptable whole_run_reaches).
  - apply (bool_decide_unpack _). vm_compute. exact I.
  - apply (bool_decide_unpack _). vm_compute. exact I.
Defined.

Definition foreign_state : discoveryState :=
  {| ds_Version := 1; ds_OwnerID := "someone"; ds_DeviceID := "pi"; ds_Topics := [] |}.

Definition foreign_run : prog response (result DiscoveryError unit) * world :=
  run_for 60 answers (reconcileDiscovery 1000 sample_config) (start_world foreign_state).

Lemma reconcile_refuses_foreign_witness :
  w_broker foreign_run.2 = w_broker (start_world foreign_state).
Proof.
  apply (reconcile_refuses_foreign sample_config 1000 (encode_state foreign_state)
           (start_world foreign_state) foreign_run.1 foreign_run.2 path_nonempty).
  - by vm_compute.
  - intros st Hst. vm_compute in Hst. injection Hst as <-. right. split; by vm_compute.
  - unfold reaches. rewrite <- surjective_pairing. apply run_for_steps, answers_sem.
Defined.

Definition write_run (n : nat) : prog response (result DiscoveryError unit) * world :=
  run_for n answers
    (writeDiscoveryState 1000 (state_path sample_config) foreign_state) (start_world start_state).

(** Killed just before the rename. *)
Lemma write_atomic_witness :
  w_broker (write_run 7).2 = w_broker (start_world start_state).
Proof.
  apply (write_atomic 1000 (state_path sample_config) foreign_state (start_world start_state)
           (write_run 7).1 (write_run 7).2 sample_never_temporary).
  unfold reaches. rewrite <- surjective_pairing. apply run_for_steps, answers_sem.
Defined.

Lemma state_file_roundtrip_witness :
  decode_state (encode_state start_state) = Some start_state.
Proof. apply state_file_roundtrip. repeat split; by repeat constructor. Defined.
