(* ===== verification/Dedupe.v ===== *)
(** * Package controller: the duplicate cache and the rejection logs

    The bounded duplicate cache of [acceptMessage] in
    [src/controller/controller.go] (fields [dedupe], [dedupeOrder] and
    [dedupeSeq]) and [overflowLog].  The cache is refined to its
    specification: a window of the last 256 recorded packets. *)

From S2P Require Import Prelude GoString GoTime Config Mqtt.

Open Scope Z_scope.

(** ** Rejection logs *)

Record overflowLog := { dropped : Z; ol_last : option Z }.
Definition empty_overflowLog : overflowLog := {| dropped := 0; ol_last := None |}.

(** [record]: the new log and, when a line is printed, its
    [dropped_since_last_log]. *)
Definition record (o : overflowLog) (now : Z) : overflowLog * option Z :=
  let d := wrap64 (dropped o + 1) in
  if within_second (ol_last o) now
  then ({| dropped := d; ol_last := ol_last o |}, None)
  else ({| dropped := 0; ol_last := Some now |}, Some d).

(** [recordRejection]: the line carries [suppressed_since_last_log] only when
    more than one message was dropped. *)
Definition recordRejection (o : overflowLog) (now : Z) : overflowLog * option (option Z) :=
  let d := wrap64 (dropped o + 1) in
  if within_second (ol_last o) now
  then ({| dropped := d; ol_last := ol_last o |}, None)
  else ({| dropped := 0; ol_last := Some now |},
        Some (if 1 <? d then Some (wrap64 (d - 1)) else None)).

(** ** The duplicate cache *)

Definition DuplicateCacheSize : nat := 256.

Record dedupeEntry := { de_key : string; de_generation : Z }.

Record dedupeCache := {
  dedupe : gmap string Z;
  dedupeOrder : list dedupeEntry;
  dedupeSeq : Z;
}.

(** [make(map[string]uint64)], a nil order and sequence number 0: the fields
    as [New] leaves them, and the body of [resetDedupe]. *)
Definition resetDedupe : dedupeCache :=
  {| dedupe := ∅; dedupeOrder := []; dedupeSeq := 0 |}.

(** [fmt.Sprintf("%s:%d", message.Topic, message.MessageID)] *)
Definition dedupe_key (m : Message) : string :=
  msg_Topic m +:+ ":" +:+ fmt_d (msg_MessageID m).

(** [for len(c.dedupeOrder) > DuplicateCacheSize { ... }]; reading an absent
    key of a Go map gives 0. *)
Fixpoint evict (order : list dedupeEntry) (m : gmap string Z)
    : list dedupeEntry * gmap string Z :=
  match order with
  | [] => ([], m)
  | oldest :: rest =>
      if (DuplicateCacheSize <? length order)%nat then
        evict rest
          (if default 0 (m !! de_key oldest) =? de_generation oldest
           then delete (de_key oldest) m else m)
      else (order, m)
  end.

(** The body of [if !message.Duplicate || !seen { ... }]. *)
Definition remember (key : string) (c : dedupeCache) : dedupeCache :=
  let generation := wrap64 (dedupeSeq c + 1) in
  let '(order, m) :=
    evict (dedupeOrder c ++ [{| de_key := key; de_generation := generation |}])
      (<[key := generation]> (dedupe c)) in
  {| dedupe := m; dedupeOrder := order; dedupeSeq := generation |}.

(** What the cache sees of a packet: its key and its DUP flag. *)
Definition packet (m : Message) : string * bool := (dedupe_key m, msg_Duplicate m).

(** The critical section under [dedupeMu], for a packet with key [key] and DUP
    flag [dup]: true when the packet is a duplicate to reject. *)
Definition check_duplicate (key : string) (dup : bool) (c : dedupeCache)
    : bool * dedupeCache :=
  let seen := bool_decide (is_Some (dedupe c !! key)) in
  let c' := if negb dup || negb seen then remember key c else c in
  (dup && seen, c').

(** ** Specification: a sliding window *)

(** The last [n] elements of a list. *)
Definition last_n {A} (n : nat) (l : list A) : list A := drop (length l - n) l.

(** The window holds the keys of the last 256 recorded packets, oldest first. *)
Definition window_check (key : string) (dup : bool) (w : list string)
    : bool * list string :=
  if dup && bool_decide (key ∈ w) then (true, w)
  else (false, last_n DuplicateCacheSize (w ++ [key])).

(** Runs over a sequence of packets, collecting the verdicts. *)
Fixpoint run_cache (l : list (string * bool)) (c : dedupeCache)
    : list bool * dedupeCache :=
  match l with
  | [] => ([], c)
  | (key, dup) :: l =>
      let '(b, c1) := check_duplicate key dup c in
      let '(bs, c2) := run_cache l c1 in (b :: bs, c2)
  end.

Fixpoint run_window (l : list (string * bool)) (w : list string)
    : list bool * list string :=
  match l with
  | [] => ([], w)
  | (key, dup) :: l =>
      let '(b, w1) := window_check key dup w in
      let '(bs, w2) := run_window l w1 in (b :: bs, w2)
  end.

(** ** Representation invariant *)

(** The [n] generations that precede and include [seq], oldest first. *)
Fixpoint generations (seq : Z) (n : nat) : list Z :=
  match n with
  | O => []
  | S n => wrap64 (seq - Z.of_nat n) :: generations seq n
  end.

(** The map a scan of the order list builds: the last entry of a key wins. *)
Definition index (order : list dedupeEntry) : gmap string Z :=
  foldl (λ m e, <[de_key e := de_generation e]> m) ∅ order.

Record cache_inv (c : dedupeCache) : Prop := {
  inv_bound : (length (dedupeOrder c) ≤ DuplicateCacheSize)%nat;
  inv_seq : wrap64 (dedupeSeq c) = dedupeSeq c;
  inv_generations :
    de_generation <$> dedupeOrder c = generations (dedupeSeq c) (length (dedupeOrder c));
  inv_index : dedupe c = index (dedupeOrder c);
}.

(** The cache stands for a window of keys. *)
Definition cache_window (c : dedupeCache) : list string := de_key <$> dedupeOrder c.

(** ** Lemmas: generations *)

Lemma length_generations seq n : length (generations seq n) = n.
Proof. induction n; simpl; congruence. Qed.

Lemma generations_snoc seq n :
  generations (wrap64 (seq + 1)) (S n) = generations seq n ++ [wrap64 (seq + 1)].
Proof.
  induction n as [|n IH].
  - simpl. f_equal. unfold wrap64. by rewrite Z.sub_0_r, Z.mod_mod.
  - change (generations seq (S n)) with (wrap64 (seq - Z.of_nat n) :: generations seq n).
    rewrite <- app_comm_cons, <- IH.
    change (generations (wrap64 (seq + 1)) (S (S n))) with
      (wrap64 (wrap64 (seq + 1) - Z.of_nat (S n)) :: generations (wrap64 (seq + 1)) (S n)).
    f_equal. unfold wrap64. rewrite Zminus_mod_idemp_l. f_equal. lia.
Qed.

(** Generations of a window shorter than 2^64 are distinct, wrap or no wrap. *)
Lemma generations_ne seq n i :
  (i < n)%nat → Z.of_nat n < 2 ^ 64 → wrap64 (seq - Z.of_nat i) ≠ wrap64 (seq - Z.of_nat n).
Proof.
  unfold wrap64. intros Hi Hn Heq.
  assert (((seq - Z.of_nat i) - (seq - Z.of_nat n)) mod 2 ^ 64 = 0) as Hz.
  { rewrite Zminus_mod, Heq, Z.sub_diag. done. }
  rewrite Z.mod_small in Hz; lia.
Qed.

Lemma elem_of_generations seq n g :
  g ∈ generations seq n → ∃ i, (i < n)%nat ∧ g = wrap64 (seq - Z.of_nat i).
Proof.
  induction n as [|n IH]; simpl; [by intros ?%elem_of_nil|].
  intros [->|Hg]%elem_of_cons; [by eauto with lia|].
  destruct (IH Hg) as (i & ? & ->). eauto with lia.
Qed.

Lemma generations_hd_fresh seq n :
  Z.of_nat n < 2 ^ 64 → wrap64 (seq - Z.of_nat n) ∉ generations seq n.
Proof.
  intros Hn (i & Hi & Heq)%elem_of_generations. by eapply generations_ne.
Qed.

(** ** Lemmas: the index *)

Lemma index_snoc order e :
  index (order ++ [e]) = <[de_key e := de_generation e]> (index order).
Proof. unfold index. by rewrite foldl_app. Qed.

Lemma lookup_foldl_index (m : gmap string Z) order k :
  foldl (λ (m : gmap string Z) e, <[de_key e := de_generation e]> m) m order !! k
  = match index order !! k with Some g => Some g | None => m !! k end.
Proof.
  induction order as [|e order IH] using rev_ind; [done|].
  rewrite index_snoc, foldl_app. simpl.
  destruct (decide (de_key e = k)) as [->|Hne].
  - by rewrite !lookup_insert_eq.
  - by rewrite !lookup_insert_ne, IH.
Qed.

Lemma lookup_index_cons e order k :
  index (e :: order) !! k
  = match index order !! k with
    | Some g => Some g
    | None => ({[de_key e := de_generation e]} : gmap string Z) !! k
    end.
Proof.
  unfold index at 1. simpl. rewrite lookup_foldl_index.
  by rewrite insert_empty.
Qed.

Lemma index_elem order k g :
  index order !! k = Some g → k ∈ de_key <$> order ∧ g ∈ de_generation <$> order.
Proof.
  induction order as [|e order IH]; [done|].
  rewrite lookup_index_cons, !fmap_cons, !elem_of_cons.
  destruct (index order !! k) as [g'|].
  - intros [= ->]. destruct (IH eq_refl). auto.
  - intros [-> ->]%lookup_singleton_Some. auto.
Qed.

Lemma index_is_Some order k : is_Some (index order !! k) ↔ k ∈ de_key <$> order.
Proof.
  split; [intros [g Hg]; by eapply index_elem|].
  induction order as [|e order IH]; [by intros ?%elem_of_nil|].
  rewrite lookup_index_cons, fmap_cons, elem_of_cons.
  intros [->|Hk]; destruct (index order !! _) eqn:?; eauto.
  - by rewrite lookup_singleton_eq.
  - destruct (IH Hk) as [??]. congruence.
Qed.

(** ** Lemmas: eviction *)

Lemma last_n_cons_long {A} n (x : A) l : (n < length (x :: l))%nat → last_n n (x :: l) = last_n n l.
Proof.
  unfold last_n. intros H. simpl length in *.
  replace (S (length l) - n)%nat with (S (length l - n)) by lia. done.
Qed.

Lemma last_n_short {A} n (l : list A) : (length l ≤ n)%nat → last_n n l = l.
Proof. unfold last_n. intros H. by replace (length l - n)%nat with 0%nat by lia. Qed.

Lemma length_last_n {A} n (l : list A) : length (last_n n l) = (length l `min` n)%nat.
Proof. unfold last_n. rewrite length_drop. lia. Qed.

Lemma fmap_last_n {A B} (f : A → B) n l : f <$> last_n n l = last_n n (f <$> l).
Proof. unfold last_n. by rewrite fmap_drop, length_fmap. Qed.

(** Forgetting the oldest entry keeps the map equal to the index. *)
Lemma evict_one e order :
  de_generation e ∉ de_generation <$> order →
  (if default 0 (index (e :: order) !! de_key e) =? de_generation e
   then delete (de_key e) (index (e :: order)) else index (e :: order)) = index order.
Proof.
  intros Hfresh. destruct (index order !! de_key e) as [g|] eqn:Hg.
  - rewrite lookup_index_cons, Hg. simpl.
    apply index_elem in Hg as Hin. destruct Hin as [_ Hin].
    destruct (Z.eqb_spec g (de_generation e)); [congruence|].
    apply map_eq. intros k. rewrite lookup_index_cons.
    destruct (index order !! k) eqn:?; [done|].
    apply lookup_singleton_ne. congruence.
  - rewrite lookup_index_cons, Hg, lookup_singleton_eq. simpl. rewrite Z.eqb_refl.
    apply map_eq. intros k. destruct (decide (de_key e = k)) as [<-|Hne].
    + by rewrite lookup_delete_eq.
    + rewrite lookup_delete_ne, lookup_index_cons, lookup_singleton_ne by done.
      by destruct (index order !! k).
Qed.

Lemma evict_spec order :
  NoDup (de_generation <$> order) →
  evict order (index order)
  = (last_n DuplicateCacheSize order, index (last_n DuplicateCacheSize order)).
Proof.
  induction order as [|e order IH]; intros Hnd; [done|].
  apply NoDup_cons in Hnd as [Hfresh Hnd]. simpl evict.
  destruct (Nat.ltb_spec DuplicateCacheSize (S (length order))).
  - rewrite evict_one by done. rewrite IH by done. by rewrite last_n_cons_long.
  - by rewrite !last_n_short by (simpl; lia).
Qed.

Lemma NoDup_generations seq n : Z.of_nat n < 2 ^ 64 → NoDup (generations seq n).
Proof.
  induction n as [|n IH]; intros Hn; [constructor|].
  simpl. constructor; [apply generations_hd_fresh; lia | apply IH; lia].
Qed.

Lemma drop_generations seq n k :
  drop k (generations seq n) = generations seq (n - k).
Proof.
  revert k. induction n as [|n IH]; intros [|k]; try done. simpl. by rewrite IH.
Qed.

(** Recording a packet slides the window. *)
Lemma remember_spec key c :
  cache_inv c →
  let order := dedupeOrder c ++
    [{| de_key := key; de_generation := wrap64 (dedupeSeq c + 1) |}] in
  remember key c =
    {| dedupe := index (last_n DuplicateCacheSize order);
       dedupeOrder := last_n DuplicateCacheSize order;
       dedupeSeq := wrap64 (dedupeSeq c + 1) |}.
Proof.
  intros [Hb _ Hg Hi] order. unfold remember. rewrite Hi. fold order.
  pose proof (index_snoc (dedupeOrder c)
    {| de_key := key; de_generation := wrap64 (dedupeSeq c + 1) |}) as Hs.
  simpl in Hs. rewrite <- Hs. fold order.
  rewrite evict_spec; [done|].
  unfold order. rewrite fmap_app, Hg. simpl.
  rewrite <- generations_snoc. apply NoDup_generations.
  unfold DuplicateCacheSize in Hb. lia.
Qed.

Lemma remember_inv key c : cache_inv c → cache_inv (remember key c).
Proof.
  intros H. rewrite remember_spec by done. destruct H as [Hb Hq Hg Hi].
  constructor; simpl.
  - rewrite length_last_n. lia.
  - unfold wrap64. by rewrite Z.mod_mod.
  - rewrite fmap_last_n, fmap_app, Hg. simpl. rewrite <- generations_snoc.
    unfold last_n at 1. rewrite drop_generations, length_generations.
    f_equal. rewrite length_last_n, length_app. cbn [length]. unfold DuplicateCacheSize. lia.
  - done.
Qed.

Lemma remember_window key c :
  cache_inv c →
  cache_window (remember key c) = last_n DuplicateCacheSize (cache_window c ++ [key]).
Proof.
  intros H. rewrite remember_spec by done. unfold cache_window. simpl.
  by rewrite fmap_last_n, fmap_app.
Qed.

Lemma resetDedupe_inv : cache_inv resetDedupe.
Proof. constructor; simpl; [lia|done..]. Qed.
#[export] Hint Resolve resetDedupe_inv remember_inv : golib.

Lemma seen_iff_window key c :
  cache_inv c → is_Some (dedupe c !! key) ↔ key ∈ cache_window c.
Proof. intros H. rewrite (inv_index _ H). apply index_is_Some. Qed.

Lemma check_duplicate_inv key dup c :
  cache_inv c → cache_inv (snd (check_duplicate key dup c)).
Proof. intros H. unfold check_duplicate. simpl. case_match; auto with golib. Qed.

(** One step of the cache simulates one step of the window. *)
Lemma check_duplicate_refines key dup c :
  cache_inv c →
  window_check key dup (cache_window c)
  = (fst (check_duplicate key dup c), cache_window (snd (check_duplicate key dup c))).
Proof.
  intros H. unfold window_check, check_duplicate. simpl.
  rewrite (bool_decide_ext (is_Some (dedupe c !! key)) (key ∈ cache_window c))
    by (by apply seen_iff_window).
  rewrite <- negb_andb.
  destruct (dup && bool_decide (key ∈ cache_window c)); simpl; [done|].
  by rewrite remember_window.
Qed.

Lemma run_cache_refines l c :
  cache_inv c →
  cache_inv (snd (run_cache l c)) ∧
  run_window l (cache_window c)
  = (fst (run_cache l c), cache_window (snd (run_cache l c))).
Proof.
  revert c. induction l as [|[key dup] l IH]; intros c H; [done|].
  cbn [run_cache run_window]. rewrite (check_duplicate_refines key dup c H).
  pose proof (check_duplicate_inv key dup c H) as H1.
  destruct (check_duplicate key dup c) as [b c1]. cbn [fst snd] in *.
  destruct (IH c1 H1) as [H2 Hw]. rewrite Hw. revert H2.
  by destruct (run_cache l c1) as [bs c2].
Qed.

Lemma index_size order : (size (index order) ≤ length order)%nat.
Proof.
  induction order as [|e order IH] using rev_ind; [done|].
  rewrite index_snoc, length_app. cbn [length].
  destruct (index order !! de_key e) as [g|] eqn:He.
  - rewrite map_size_insert_Some by (by eexists). lia.
  - rewrite map_size_insert_None by done. lia.
Qed.

(** ** Lemmas: how long a key stays in the window *)

Lemma last_n_snoc {A} k (w : list A) x : last_n (S k) (w ++ [x]) = last_n k w ++ [x].
Proof.
  unfold last_n. rewrite length_app. cbn [length].
  replace (length w + 1 - S k)%nat with (length w - k)%nat by lia.
  rewrite drop_app_le by lia. done.
Qed.

Lemma last_n_last_n {A} k n (w : list A) :
  (k ≤ n)%nat → last_n k (last_n n w) = last_n k w.
Proof.
  intros Hkn. unfold last_n. rewrite drop_drop, length_drop. f_equal. lia.
Qed.

Lemma elem_of_last_n {A} n (x : A) w : x ∈ last_n n w → x ∈ w.
Proof. unfold last_n. intros Hx. rewrite <- (take_drop (length w - n) w). apply elem_of_app. by right. Qed.

Lemma last_n_mono {A} k n (x : A) w : (k ≤ n)%nat → x ∈ last_n k w → x ∈ last_n n w.
Proof. intros Hkn Hx. apply (elem_of_last_n k). by rewrite last_n_last_n. Qed.

Lemma run_window_keeps l key k w :
  (k + length l ≤ DuplicateCacheSize)%nat →
  key ∈ last_n k w → key ∈ snd (run_window l w).
Proof.
  revert k w. induction l as [|[key' dup] l IH]; intros k w Hk Hin.
  { by eapply elem_of_last_n. }
  cbn [run_window]. unfold window_check. cbn [length] in Hk.
  destruct (dup && _).
  - pose proof (IH k w ltac:(lia) Hin) as Hend. revert Hend.
    by destruct (run_window l w).
  - assert (key ∈ last_n (S k) (last_n DuplicateCacheSize (w ++ [key']))) as Hin'.
    { rewrite last_n_last_n, last_n_snoc by lia. apply elem_of_app. by left. }
    assert (S k + length l ≤ DuplicateCacheSize)%nat as Hk' by lia.
    pose proof (IH _ _ Hk' Hin') as Hend. revert Hend.
    by destruct (run_window l _).
Qed.

Lemma dedupe_key_inj m1 m2 :
  0 ≤ msg_MessageID m1 → 0 ≤ msg_MessageID m2 →
  dedupe_key m1 = dedupe_key m2 →
  msg_Topic m1 = msg_Topic m2 ∧ msg_MessageID m1 = msg_MessageID m2.
Proof. apply sprintf_colon_inj. Qed.

(** ** Properties *)

(** C12: the duplicate cache refines its specification.  Over any sequence of
    QoS 1/2 packets received after a session starts, the map, the order list
    and the sequence counter of the controller reject exactly the packets that
    a sliding window of the last 256 recorded packet keys rejects, whatever
    the number of packets (the [uint64] counter may wrap). *)
Theorem dedupe_refines_window (l : list (string * bool)) :
  run_window l [] = (fst (run_cache l resetDedupe),
                     cache_window (snd (run_cache l resetDedupe))).
Proof. apply (run_cache_refines l resetDedupe). auto with golib. Qed.

(** The cache is bounded: after any sequence of packets the order list has
    at most 256 entries and the map at most as many keys as the list. *)
Theorem dedupe_bounded (l : list (string * bool)) :
  let c := snd (run_cache l resetDedupe) in
  (size (dedupe c) ≤ length (dedupeOrder c) ≤ DuplicateCacheSize)%nat.
Proof.
  intros c. destruct (run_cache_refines l resetDedupe) as [[Hb _ _ Hi] _];
    [auto with golib|].
  fold c in Hb, Hi. rewrite Hi. split; [apply index_size|exact Hb].
Qed.

(** C22: at most once.  Whatever the packets [before], with DUP set or not: a
    packet [m] without the DUP flag is let through, and once [m] has been let
    through, a redelivery [m'] (DUP set, same topic and packet identifier) is
    rejected, whatever fewer than 256 packets [l] came in between. *)
Theorem accepted_then_duplicate_rejected (before l : list Message) (m m' : Message) :
  (length l < DuplicateCacheSize)%nat →
  msg_Topic m' = msg_Topic m → msg_MessageID m' = msg_MessageID m →
  let c := snd (run_cache (packet <$> before) resetDedupe) in
  let '(rejected, c1) := check_duplicate (dedupe_key m) (msg_Duplicate m) c in
  let '(_, c2) := run_cache (packet <$> l) c1 in
  (msg_Duplicate m = false → rejected = false) ∧
  (rejected = false → fst (check_duplicate (dedupe_key m') true c2) = true).
Proof.
  intros Hl Htopic Hid c.
  assert (cache_inv c) as Hc by (apply run_cache_refines; auto with golib).
  assert (dedupe_key m' = dedupe_key m) as -> by (unfold dedupe_key; congruence).
  pose proof (check_duplicate_refines (dedupe_key m) (msg_Duplicate m) c Hc) as Hw1.
  pose proof (check_duplicate_inv (dedupe_key m) (msg_Duplicate m) c Hc) as H1.
  destruct (check_duplicate _ _ c) as [rejected c1]. cbn [fst snd] in *.
  destruct (run_cache_refines (packet <$> l) c1 H1) as [H2 Hw2].
  destruct (run_cache _ c1) as [bs c2]. cbn [fst snd] in *.
  unfold window_check in Hw1.
  destruct (msg_Duplicate m && _) eqn:Hrej; injection Hw1 as <- Hw1.
  { apply andb_true_iff in Hrej as [-> _]. done. }
  split; [done|]. intros _. unfold check_duplicate. cbn [fst andb].
  apply bool_decide_eq_true_2, (seen_iff_window _ _ H2).
  pose proof (run_window_keeps (packet <$> l) (dedupe_key m) 1 (cache_window c1)) as Hk.
  rewrite Hw2 in Hk. apply Hk; [rewrite length_fmap; lia|].
  rewrite <- Hw1, last_n_last_n, last_n_snoc by (unfold DuplicateCacheSize; lia).
  apply elem_of_app. right. by apply list_elem_of_singleton.
Qed.

(** Distinct packets do not share a cache key: the key [topic:id] of
    [acceptMessage] determines the topic and the packet identifier, although a
    topic may itself contain colons and digits. *)
Theorem dedupe_key_injective (m1 m2 : Message) :
  0 ≤ msg_MessageID m1 → 0 ≤ msg_MessageID m2 →
  dedupe_key m1 = dedupe_key m2 ↔
  msg_Topic m1 = msg_Topic m2 ∧ msg_MessageID m1 = msg_MessageID m2.
Proof.
  intros H1 H2. split; [by apply dedupe_key_inj|].
  unfold dedupe_key. by intros [-> ->].
Qed.

(** ** Witnesses *)

Definition press_msg (id : Z) (dup : bool) : Message :=
  {| msg_Topic := "home/relay/set"; msg_Payload := "ON"; msg_Retained := false;
     msg_Duplicate := dup; msg_QoS := 1; msg_MessageID := id |}.

(** The first packet is a redelivery whose original was not seen. *)
Lemma accepted_then_duplicate_rejected_witness :
  let '(rejected, c1) := check_duplicate (dedupe_key (press_msg 7 true)) true resetDedupe in
  let '(_, c2) := run_cache (packet <$> [press_msg 8 false]) c1 in
  (true = false → rejected = false) ∧
  (rejected = false → fst (check_duplicate (dedupe_key (press_msg 7 true)) true c2) = true).
Proof.
  apply (accepted_then_duplicate_rejected [] [press_msg 8 false] (press_msg 7 true)
           (press_msg 7 true));
    [cbn; unfold DuplicateCacheSize; lia | reflexivity..].
Defined.

Lemma dedupe_key_injective_witness :
  dedupe_key (press_msg 7 false) = dedupe_key (press_msg 7 true) ↔
  "home/relay/set" = "home/relay/set" ∧ 7 = 7.
Proof.
  apply (dedupe_key_injective (press_msg 7 false) (press_msg 7 true)); cbn; lia.
Defined.
