(* ===== verification/Action.v ===== *)
(** * Package action: the executor

    [src/action/executor.go] and [src/action/process_linux.go]: running the
    actions of an entity, and one external command from the executable check to
    the reaped process.  The executor is a program of [Effects]: the GPIO and
    MQTT clients, the context, timers and processes answer its operations. *)

From S2P Require Import Prelude Effects GoString GoPath GoTime Config.
From Stdlib Require Import Ascii.

Open Scope Z_scope.

(** ** Captured output *)

Definition commandOutputLimit : nat := 64 * 1024.
Definition commandTerminateGrace : Z := 250 * Millisecond.
Definition commandWaitDelay : Z := 250 * Millisecond.

Record outputStats := { os_Total : Z; os_Captured : Z; os_Truncated : bool }.

Record boundedOutput := { bo_total : Z; bo_data : string; bo_truncated : bool }.
Definition empty_output : boundedOutput :=
  {| bo_total := 0; bo_data := ""; bo_truncated := false |}.

(** [Write]: the new buffer and the count it returns. *)
Definition Write (p : string) (b : boundedOutput) : Z * boundedOutput :=
  let amount := Z.of_nat (String.length p) in
  let '(total, truncated) :=
    if max_uint64 - bo_total b <? amount then (max_uint64, true)
    else (bo_total b + amount, bo_truncated b) in
  let remaining := (Z.of_nat commandOutputLimit - Z.of_nat (String.length (bo_data b))) in
  let captured := Z.of_nat (String.length p) in
  let '(captured, truncated) :=
    if remaining <? captured then (remaining, true) else (captured, truncated) in
  (amount, {| bo_total := total; bo_data := bo_data b +:+ str_take (Z.to_nat captured) p;
              bo_truncated := truncated |}).

Definition snapshot (b : boundedOutput) : outputStats :=
  {| os_Total := bo_total b; os_Captured := Z.of_nat (String.length (bo_data b));
     os_Truncated := bo_truncated b |}.

Definition no_output : outputStats := {| os_Total := 0; os_Captured := 0; os_Truncated := false |}.

(** ** Environment of the command *)

Definition sortedEnvironment (values : gmap string string) : list string :=
  map (λ key, key +:+ "=" +:+ default "" (values !! key)) (sorted_map_keys values).

Definition default_environment : gmap string string :=
  <["LANG" := "C"]> (<["LC_ALL" := "C"]>
  {[ "PATH" := "/usr/local/sbin:/usr/local/bin:/usr/sbin:/usr/bin:/sbin:/bin" ]}).

Definition minimalEnvironment (values : gmap string string) : list string :=
  sortedEnvironment (values ∪ default_environment).

(** ** Operations and errors *)

Inductive ContextError : Type := Canceled | DeadlineExceeded.

#[global] Instance ContextError_eq_dec : EqDecision ContextError.
Proof. solve_decision. Defined.

(** What [sanitizeStartError] tells apart: [*os.PathError], [*exec.Error] and
    the rest. *)
Inductive StartError : Type :=
| StartPathError (cause : string)
| StartExecError (cause : string)
| StartOther.

Inductive ActionError : Type :=
| ErrContext (e : ContextError)
| ErrIndexed (i : nat) (typ : string) (cause : ActionError)
| ErrGpio (cause : string)
| ErrMqtt (cause : string)
| ErrUnsupported (typ : string)
| ErrParseDelay (raw : string)
| ErrNotAbsolute
| ErrStart (cause : string)
| ErrStartUnavailable
| ErrTimedOut (timeout : Z) (stats : outputStats)
| ErrCommandCanceled (stats : outputStats)
| ErrCommandFailed (stats : outputStats) (cause : string)
| ErrTerminate (cause : string) (context : ActionError).

Inductive errno : Type := ESRCH | EOther (text : string).

Record CommandSpec := {
  cs_path : string;
  cs_args : list string;
  cs_dir : string;
  cs_env : list string;
  cs_fd : Z;              (* the descriptor passed as ExtraFiles *)
  cs_waitDelay : Z;
  cs_setpgid : bool;      (* the child leads a process group of its own *)
}.

Definition configureCommand (s : CommandSpec) : CommandSpec :=
  {| cs_path := cs_path s; cs_args := cs_args s; cs_dir := cs_dir s; cs_env := cs_env s;
     cs_fd := cs_fd s; cs_waitDelay := cs_waitDelay s; cs_setpgid := true |}.

(** What [file.Stat] says of the executable. *)
Record ExecInfo := { ei_regular : bool; ei_perm : Z }.

Inductive aop : Type :=
| OpSetOutput (name : string) (value : bool)
| OpPublish (topic payload : string) (qos : Z) (retain : bool)
| OpContextErr                       (* ctx.Err() of the caller's context *)
| OpDelay (d : Z)                    (* select on ctx.Done() and a timer *)
| OpWithTimeout (d : Z)              (* context.WithTimeout *)
| OpCommandErr                       (* ctx.Err() of the command's context *)
| OpOpenPath (path : string)         (* unix.Open with O_PATH *)
| OpStat (fd : Z)
| OpCloseFd (fd : Z)
| OpStart (spec : CommandSpec)
| OpSelect (pid : Z)                 (* true: exit observed; false: ctx.Done() *)
| OpWaitExit (pid : Z)               (* <-done: waitid(WNOWAIT) has returned *)
| OpReap (pid : Z)                   (* cmd.Wait() *)
| OpOutput                           (* what the child wrote, as the writes came *)
| OpKill (pid : Z) (force : bool)    (* kill(-pid, SIGTERM or SIGKILL) *)
| OpSleep (d : Z)
| OpPanic.                           (* a nil pointer dereference *)

Definition aresp (o : aop) : Type :=
  match o with
  | OpSetOutput _ _ | OpPublish _ _ _ _ => result string unit
  | OpContextErr | OpDelay _ | OpCommandErr => option ContextError
  | OpOpenPath _ => result string Z
  | OpStat _ => result string ExecInfo
  | OpStart _ => result StartError Z
  | OpSelect _ => bool
  | OpWaitExit _ => option string
  | OpReap _ => result string unit
  | OpOutput => list string
  | OpKill _ _ => result errno unit
  | OpPanic => Empty_set
  | OpWithTimeout _ | OpCloseFd _ | OpSleep _ => unit
  end.

Abbreviation aprog A := (eprog aresp ActionError A).

(** Perform an operation and go on with its answer. *)
Definition do_op {A} (o : aop) (k : aresp o → prog aresp A) : prog aresp A := Vis o k.

(** ** Commands *)

Definition commandContextError (e : ContextError) (timeout : Z) (stats : outputStats) : ActionError :=
  match e with
  | DeadlineExceeded => ErrTimedOut timeout stats
  | Canceled => ErrCommandCanceled stats
  end.

Definition sanitizeStartError (e : StartError) : ActionError :=
  match e with
  | StartPathError c | StartExecError c => ErrStart c
  | StartOther => ErrStartUnavailable
  end.

(** The descriptor the child inherits and the deferred close, or the error. *)
Definition bindCommandExecutable (path : string) : eprog aresp StartError Z :=
  do_op (OpOpenPath path) (λ r,
    match r with
    | Err _ => Ret (Err StartOther)       (* a wrapped errno *)
    | Ok fd =>
        do_op (OpStat fd) (λ r,
          match r with
          | Err c => do_op (OpCloseFd fd) (λ _, Ret (Err (StartPathError c)))
          | Ok info =>
              if negb (ei_regular info) || (Z.land (ei_perm info) 73 =? 0)
              then do_op (OpCloseFd fd) (λ _, Ret (Err StartOther))
              else Ret (Ok fd)
          end)
    end).

Definition signalCommandGroup (pid : Z) (force : bool) : eprog aresp string unit :=
  do_op (OpKill pid force) (λ r,
    Ret (match r with
         | Ok _ | Err ESRCH => Ok tt
         | Err (EOther t) => Err t
         end)).

Definition terminateCommandGroup (pid : Z) (grace : Z) : eprog aresp string unit :=
  do! signalCommandGroup pid false in
  do_op (OpSleep grace) (λ _, signalCommandGroup pid true).

(** [waiter.wait()]: wait for the observer, then reap. *)
Definition waiter_wait (pid : Z) : eprog aresp string unit :=
  do_op (OpWaitExit pid) (λ observed,
    do_op (OpReap pid) (λ r,
      Ret (match observed with
           | Some e => Err e
           | None => r
           end))).

(** [output.snapshot()] once the child's writes have been copied. *)
Definition output_stats {A} (k : outputStats → prog aresp A) : prog aresp A :=
  do_op OpOutput (λ chunks, k (snapshot (foldl (λ b p, (Write p b).2) empty_output chunks))).

(** The select of [runCommand], from a started process on. *)
Definition await_command (pid timeout : Z) : aprog outputStats :=
  do_op (OpSelect pid) (λ exited,
    if (exited : bool) then
      prog_bind (λ err,
        output_stats (λ stats,
          do_op OpCommandErr (λ ctxErr,
            Ret (match ctxErr with
                 | Some e => Err (commandContextError e timeout stats)
                 | None => match err with
                           | Err c => Err (ErrCommandFailed stats c)
                           | Ok _ => Ok stats
                           end
                 end)))) (waiter_wait pid)
    else
      prog_bind (λ terminationErr,
        prog_bind (λ _,
          output_stats (λ stats,
            do_op OpCommandErr (λ ctxErr,
              let contextErr := commandContextError (default Canceled ctxErr) timeout stats in
              Ret (Err (match terminationErr with
                        | Err c => ErrTerminate c contextErr
                        | Ok _ => contextErr
                        end))))) (waiter_wait pid))
        (terminateCommandGroup pid commandTerminateGrace)).

Definition command_spec (a : Action) (fd : Z) : CommandSpec :=
  configureCommand
    {| cs_path := "/proc/self/fd/3"; cs_args := act_Command a :: act_Args a;
       cs_dir := act_WorkingDir a; cs_env := minimalEnvironment (act_Env a); cs_fd := fd;
       cs_waitDelay := commandWaitDelay; cs_setpgid := false |}.

Definition runCommand (a : Action) : aprog outputStats :=
  if negb (IsAbs (act_Command a)) then Ret (Err ErrNotAbsolute) else
  let timeout := CommandTimeout a in
  do_op (OpWithTimeout timeout) (λ _,
  do_op OpCommandErr (λ ctxErr,
  match ctxErr with
  | Some e => Ret (Err (commandContextError e timeout no_output))
  | None =>
      prog_bind (λ bound,
        match bound with
        | Err e => Ret (Err (sanitizeStartError e))
        | Ok fd =>
            do_op (OpStart (command_spec a fd)) (λ r,
              prog_bind (λ res, do_op (OpCloseFd fd) (λ _, Ret res))
                (match r with
                 | Err e => Ret (Err (sanitizeStartError e))
                 | Ok pid => await_command pid timeout
                 end))
        end) (bindCommandExecutable (act_Command a))
  end)).

(** The statistics of a command that succeeded are only logged. *)
Definition executeCommand (a : Action) : aprog unit :=
  let! stats := runCommand a in elift (Ok tt).

Definition executeDelay (raw : string) : aprog unit :=
  match ParseDuration raw with
  | Err _ => Ret (Err (ErrParseDelay raw))
  | Ok d => do_op (OpDelay d) (λ r, Ret (match r with Some e => Err (ErrContext e) | None => Ok tt end))
  end.

(** ** Actions *)

Section executor.
Context (cfg : Config).

Definition action_qos (a : Action) : Z := default (MQTTQoS cfg) (act_QoS a).

Definition executeOne (a : Action) : aprog unit :=
  if decide (act_Type a = "gpio") then
    match act_Value a with
    | Some v => do_op (OpSetOutput (act_GPIO a) v) (λ r, Ret (map_err ErrGpio r))
    | None => do_op OpPanic (λ r, match r with end)
    end
  else if decide (act_Type a = "command") then executeCommand a
  else if decide (act_Type a = "delay") then executeDelay (act_Duration a)
  else if decide (act_Type a = "mqtt") then
    do_op (OpPublish (act_Topic a) (act_Payload a) (action_qos a) (act_Retain a))
      (λ r, Ret (map_err ErrMqtt r))
  else Ret (Err (ErrUnsupported (act_Type a))).

(** The loop of [Execute], from index [i] on. *)
Fixpoint execute_from (i : nat) (actions : list Action) : aprog unit :=
  match actions with
  | [] => Ret (Ok tt)
  | a :: rest =>
      do_op OpContextErr (λ ctxErr,
        match ctxErr with
        | Some e => Ret (Err (ErrContext e))
        | None =>
            prog_bind (λ r,
              match r with
              | Err e => if act_IgnoreError a then execute_from (S i) rest
                         else Ret (Err (ErrIndexed i (act_Type a) e))
              | Ok _ => execute_from (S i) rest
              end) (executeOne a)
        end)
  end.

Definition Execute (actions : list Action) : aprog unit := execute_from 0 actions.
End executor.
