(* ===== verification/ActionProofs.v ===== *)
(** * Package action: proofs

    The bounded output buffer, the environment of a command, the life cycle of
    the external process under every behaviour of the kernel, and the order in
    which [Execute] runs the actions of an entity. *)

From S2P Require Import Prelude Effects GoString GoPath GoTime Config Action.
From stdpp Require Import relations.
From Stdlib Require Import Ascii.

Open Scope Z_scope.

(** ** The output buffer *)

Definition concat_all (l : list string) : string := foldr String.append "" l.

Definition write_all (chunks : list string) : boundedOutput :=
  foldl (λ b p, (Write p b).2) empty_output chunks.

Lemma concat_all_snoc l p : concat_all (l ++ [p]) = concat_all l +:+ p.
Proof.
  induction l as [|q l IH]; simpl; [by rewrite str_app_nil_r|]. by rewrite IH, str_app_assoc.
Qed.

Lemma str_take_length n s : String.length (str_take n s) = (n `min` String.length s)%nat.
Proof. revert n. induction s as [|c s IH]; intros [|n]; simpl; auto. Qed.

Lemma str_take_append n s1 s2 :
  str_take n (s1 +:+ s2) = str_take n s1 +:+ str_take (n - String.length s1) s2.
Proof.
  revert n. induction s1 as [|c s IH]; intros [|n]; try done.
  cbn [str_take String.length]. rewrite str_cons_app. cbn [str_take].
  rewrite IH. by rewrite <- str_cons_app.
Qed.

(** One write, the buffer described by the length of what went before. *)
Lemma Write_step p b (n : nat) :
  String.length (bo_data b) = (commandOutputLimit `min` n)%nat →
  bo_total b = Z.of_nat n `min` max_uint64 →
  bo_truncated b = (commandOutputLimit <? n)%nat →
  let b' := (Write p b).2 in
  bo_data b' = bo_data b +:+ str_take (commandOutputLimit - n) p ∧
  bo_total b' = Z.of_nat (n + String.length p) `min` max_uint64 ∧
  bo_truncated b' = (commandOutputLimit <? n + String.length p)%nat.
Proof.
  assert (Hmax : Z.of_nat commandOutputLimit < max_uint64) by (vm_compute; done).
  unfold Write. revert Hmax. generalize commandOutputLimit. intros lim Hmax Hlen Htot Htr.
  rewrite Hlen, Htot, Htr.
  destruct (Z.ltb_spec (max_uint64 - Z.of_nat n `min` max_uint64) (Z.of_nat (String.length p)));
    destruct (Z.ltb_spec (Z.of_nat lim - Z.of_nat (lim `min` n)) (Z.of_nat (String.length p)));
    cbn [snd bo_data bo_total bo_truncated]; split_and!; try lia.
  all: try (f_equal; first [ f_equal; lia | by rewrite !str_take_all by lia ]).
  all: destruct (Nat.ltb_spec lim n); destruct (Nat.ltb_spec lim (n + String.length p));
    (done || lia).
Qed.

(** C36: the buffer keeps the first 64 KiB of a command's output, counts all of
    it up to the [uint64] limit, and says truncated exactly when bytes were
    dropped; every write reports full success to the child's pipe. *)
Theorem write_all_spec chunks :
  let out := concat_all chunks in
  bo_data (write_all chunks) = str_take commandOutputLimit out ∧
  bo_total (write_all chunks) = Z.of_nat (String.length out) `min` max_uint64 ∧
  bo_truncated (write_all chunks) = (commandOutputLimit <? String.length out)%nat ∧
  ∀ p, (Write p (write_all chunks)).1 = Z.of_nat (String.length p).
Proof.
  cbv zeta.
  enough (bo_data (write_all chunks) = str_take commandOutputLimit (concat_all chunks) ∧
    bo_total (write_all chunks) = Z.of_nat (String.length (concat_all chunks)) `min` max_uint64 ∧
    bo_truncated (write_all chunks)
    = (commandOutputLimit <? String.length (concat_all chunks))%nat) as (Hd & Ht & Htr).
  { split_and!; [done..|]. intros p. unfold Write. by repeat case_match. }
  induction chunks as [|p chunks (Hd & Ht & Htr)] using rev_ind; [done|].
  unfold write_all in *. rewrite foldl_app. cbn [foldl].
  rewrite concat_all_snoc, str_length_app, str_take_append, <- Hd.
  apply Write_step; [|done..]. by rewrite Hd, str_take_length.
Qed.

(** ** The environment of a command *)

Lemma first_sep_inj c s1 t1 s2 t2 :
  has_byte s1 c = false → has_byte s2 c = false →
  s1 +:+ String c t1 = s2 +:+ String c t2 → s1 = s2 ∧ t1 = t2.
Proof.
  revert s2. induction s1 as [|a s1 IH]; intros [|b s2]; rewrite ?has_byte_cons;
    intros H1 H2 Heq; bool_split.
  - by injection Heq as ->.
  - injection Heq as <- _. by rewrite Ascii.eqb_refl in *.
  - injection Heq as -> _. by rewrite Ascii.eqb_refl in *.
  - injection Heq as -> Heq. apply IH in Heq as [-> ->]; done.
Qed.

(** A command gets exactly the configured variables over the three fixed
    ones: nothing is inherited from the service's own environment. *)
Theorem minimalEnvironment_exact values name v :
  has_byte name "=" = false → (∀ k, is_Some (values !! k) → has_byte k "=" = false) →
  name +:+ "=" +:+ v ∈ minimalEnvironment values ↔
  values !! name = Some v ∨ (values !! name = None ∧ default_environment !! name = Some v).
Proof.
  intros Hn Hvals. unfold minimalEnvironment, sortedEnvironment.
  assert (∀ k, is_Some ((values ∪ default_environment) !! k) → has_byte k "=" = false) as Hk.
  { intros k [x Hx]. apply lookup_union_Some_raw in Hx as [Hx|[_ Hx]]; [by eauto|].
    unfold default_environment in Hx.
    repeat (apply lookup_insert_Some in Hx as [[<- _]|[_ Hx]]; [done|]).
    by apply lookup_singleton_Some in Hx as [<- _]. }
  rewrite list_elem_of_fmap, <- lookup_union_Some_raw. split.
  - intros (k & Heq & Hin%elem_of_sorted_map_keys).
    apply (first_sep_inj "=") in Heq as [<- ->]; [|done|by apply Hk].
    by destruct Hin as [x ->].
  - intros Hv. exists name. rewrite Hv. split; [done|]. apply elem_of_sorted_map_keys. eauto.
Qed.

Lemma minimalEnvironment_exact_witness :
  "PATH=/opt/bin" ∈ minimalEnvironment {[ "PATH" := "/opt/bin" ]}.
Proof.
  apply (minimalEnvironment_exact {[ "PATH" := "/opt/bin" ]} "PATH" "/opt/bin").
  - reflexivity.
  - intros k [x [<- _]%lookup_singleton_Some]. reflexivity.
  - left. reflexivity.
Defined.

(** ** The life of a process *)

Inductive event : Type :=
| EvStart (pid : Z)
| EvKill (pid : Z) (force : bool)
| EvSleep (d : Z)
| EvReap (pid : Z)
| EvGpio (name : string) (value : bool)
| EvPublish (topic payload : string).

#[global] Instance event_eq_dec : EqDecision event.
Proof. solve_decision. Defined.

Record pworld := { p_fds : gset Z; p_log : list event }.

Definition log (e : event) (w : pworld) : pworld := {| p_fds := p_fds w; p_log := p_log w ++ [e] |}.

(** The kernel opens descriptors that are not in use and may answer anything
    else as it likes; what it is asked to do is recorded. *)
Definition psem (o : aop) (w : pworld) : aresp o → pworld → Prop :=
  match o return aresp o → pworld → Prop with
  | OpOpenPath _ => λ r w',
      match r with
      | Ok fd => (fd ∉ p_fds w) ∧ w' = {| p_fds := {[ fd ]} ∪ p_fds w; p_log := p_log w |}
      | Err _ => w' = w
      end
  | OpCloseFd fd => λ _ w', w' = {| p_fds := p_fds w ∖ {[ fd ]}; p_log := p_log w |}
  | OpStart _ => λ r w', w' = match r with Ok pid => log (EvStart pid) w | Err _ => w end
  | OpReap pid => λ _ w', w' = log (EvReap pid) w
  | OpKill pid force => λ _ w', w' = log (EvKill pid force) w
  | OpSleep d => λ _ w', w' = log (EvSleep d) w
  | OpSetOutput name v => λ _ w', w' = log (EvGpio name v) w
  | OpPublish topic payload _ _ => λ _ w', w' = log (EvPublish topic payload) w
  | _ => λ _ w', w' = w
  end.

(** The complete histories of one command. *)
Definition ran (pid : Z) : list event := [EvStart pid; EvReap pid].
Definition stopped (pid : Z) : list event :=
  [EvStart pid; EvKill pid false; EvSleep commandTerminateGrace; EvKill pid true; EvReap pid].
Definition stop_failed (pid : Z) : list event := [EvStart pid; EvKill pid false; EvReap pid].

Inductive history : list event → Prop :=
| history_none : history []
| history_ran pid : history (ran pid)
| history_stopped pid : history (stopped pid)
| history_stop_failed pid : history (stop_failed pid).

Section command.
Context (w0 : pworld).

Definition on_the_way (w : pworld) : Prop :=
  ∃ h done, history h ∧ done `prefix_of` h ∧ p_log w = p_log w0 ++ done.

(** How a command ends: only a command that ran to its own end succeeds. *)
Definition command_done (r : result ActionError outputStats) (w : pworld) : Prop :=
  p_fds w = p_fds w0 ∧
  ∃ h, history h ∧ p_log w = p_log w0 ++ h ∧
       (is_ok r = true → ∃ pid, h = ran pid).

Lemma on_the_way_at h n w :
  history h → p_log w = p_log w0 ++ take n h → on_the_way w.
Proof.
  intros Hh Hw. exists h, (take n h). split_and!; [done| |done]. apply prefix_take.
Qed.

Lemma on_the_way_start w : p_log w = p_log w0 → on_the_way w.
Proof. intros Hw. apply (on_the_way_at [] 0); [constructor|]. by rewrite app_nil_r. Qed.

Lemma do_op_wp {A} (I : pworld → Prop) o (k : aresp o → prog aresp A) Q w :
  I w → (∀ r w', psem o w r w' → wp psem I (k r) Q w') → wp psem I (do_op o k) Q w.
Proof. intros HI H. by split. Qed.

Lemma app_log w e l : p_log w = p_log w0 ++ l → p_log (log e w) = p_log w0 ++ (l ++ [e]).
Proof. intros Hw. cbn. by rewrite Hw, (assoc_L (++)). Qed.
End command.

Section lifecycle.
Context (w0 : pworld).
Abbreviation way := (on_the_way w0).

Lemma way_part h l l' w :
  history h → h = l ++ l' → p_log w = p_log w0 ++ l → way w.
Proof. intros Hh -> Hl. exists (l ++ l'), l. split_and!; [done|by exists l'|done]. Qed.

Lemma way_end h w : history h → p_log w = p_log w0 ++ h → way w.
Proof. intros Hh. apply (way_part h h []); [done|]. by rewrite app_nil_r. Qed.

Lemma waiter_wait_spec pid l w :
  history (l ++ [EvReap pid]) → p_log w = p_log w0 ++ l →
  wp psem way (waiter_wait pid)
    (λ _ w', p_fds w' = p_fds w ∧ p_log w' = p_log w0 ++ (l ++ [EvReap pid])) w.
Proof.
  intros Hh Hl. pose proof (way_part _ l [EvReap pid] w Hh eq_refl Hl) as Hw.
  apply do_op_wp; [done|]. intros obs w1 ->. apply do_op_wp; [done|]. intros r w2 ->.
  apply (app_log w0 _ (EvReap pid)) in Hl. split; [by eapply way_end|done].
Qed.

(** What [terminateCommandGroup] has sent when it returns. *)
Definition terminated (pid : Z) (r : result string unit) (fds : gset Z) (w : pworld) : Prop :=
  p_fds w = fds ∧
  (p_log w = p_log w0 ++ take 4 (stopped pid) ∨ p_log w = p_log w0 ++ take 2 (stop_failed pid)).

Lemma terminateCommandGroup_spec pid w :
  p_log w = p_log w0 ++ [EvStart pid] →
  wp psem way (terminateCommandGroup pid commandTerminateGrace)
    (λ r w', terminated pid r (p_fds w) w') w.
Proof.
  intros Hl.
  assert (∀ l l' w, stopped pid = l ++ l' → p_log w = p_log w0 ++ l → way w) as Hway.
  { intros l l' w'. apply way_part. constructor. }
  unfold terminateCommandGroup. apply wp_bind.
  apply do_op_wp; [exact (Hway [EvStart pid] _ _ eq_refl Hl)|]. intros r1 w1 ->.
  apply (app_log w0 _ (EvKill pid false)) in Hl.
  pose proof (Hway [EvStart pid; EvKill pid false] _ _ eq_refl Hl) as Hw1.
  split; [done|]. set (w1 := log _ w) in *.
  destruct (match r1 with Ok _ | Err ESRCH => Ok tt | Err (EOther t) => Err t end) as [[]|e];
    [|by split; [|split; [|right]]].
  apply do_op_wp; [done|]. intros r2 w2 ->.
  apply (app_log w0 _ (EvSleep commandTerminateGrace)) in Hl.
  apply do_op_wp; [exact (Hway (take 3 (stopped pid)) _ _ eq_refl Hl)|]. intros r3 w3 ->.
  apply (app_log w0 _ (EvKill pid true)) in Hl.
  split; [exact (Hway (take 4 (stopped pid)) _ _ eq_refl Hl)|]. split; [done|]. by left.
Qed.

Lemma stats_spec (k : outputStats → option ContextError → result ActionError outputStats) Q w :
  way w → (∀ stats e, Q (k stats e) w) →
  wp psem way (output_stats (λ stats, do_op OpCommandErr (λ e, Ret (k stats e)))) Q w.
Proof.
  intros Hw HQ. apply do_op_wp; [done|]. intros chunks w1 ->.
  apply do_op_wp; [done|]. intros e w2 ->. by split.
Qed.

Definition settled (fds : gset Z) (r : result ActionError outputStats) (w : pworld) : Prop :=
  p_fds w = fds ∧
  ∃ h, history h ∧ p_log w = p_log w0 ++ h ∧ (is_ok r = true → ∃ pid, h = ran pid).

Lemma settled_err fds e h w :
  p_fds w = fds → history h → p_log w = p_log w0 ++ h → settled fds (Err e) w.
Proof. intros Hf Hh Hl. split; [done|]. by exists h. Qed.

Lemma await_command_spec pid timeout w :
  p_log w = p_log w0 ++ [EvStart pid] →
  wp psem way (await_command pid timeout) (settled (p_fds w)) w.
Proof.
  intros Hl. unfold await_command.
  apply do_op_wp; [by eapply (way_part (ran pid) [EvStart pid]); [constructor|done|]|].
  intros [] w1 ->.
  - apply wp_bind. eapply wp_mono; [|apply (waiter_wait_spec pid [EvStart pid]); [constructor|done]].
    intros err w2 _ [Hf Hl2]. apply (stats_spec (λ stats ctxErr, match ctxErr with
      | Some e => Err (commandContextError e timeout stats)
      | None => match err with Err c => Err (ErrCommandFailed stats c) | Ok _ => Ok stats end
      end)); [by apply (way_end (ran pid)); [constructor|]|].
    intros stats e. split; [done|]. exists (ran pid). split; [constructor|]. eauto.
  - apply wp_bind. eapply wp_mono; [|by apply terminateCommandGroup_spec].
    intros terr w2 _ [Hf Hl2]. apply wp_bind.
    assert (∃ l, p_log w2 = p_log w0 ++ l ∧ history (l ++ [EvReap pid])) as (l & Hl' & Hh).
    { destruct Hl2 as [H|H]; eexists; (split; [exact H|]); [apply history_stopped|apply history_stop_failed]. }
    eapply wp_mono; [|by apply (waiter_wait_spec pid l)].
    intros _ w3 _ [Hf3 Hl3].
    apply (stats_spec (λ stats ctxErr,
      let contextErr := commandContextError (default Canceled ctxErr) timeout stats in
      Err (match terr with Err c => ErrTerminate c contextErr | Ok _ => contextErr end)));
      [by eapply way_end|].
    intros stats e. cbn zeta. eapply settled_err; [by rewrite Hf3, Hf|exact Hh|exact Hl3].
Qed.

Lemma bind_spec path :
  wp psem way (bindCommandExecutable path)
    (λ r w, p_log w = p_log w0 ∧
       match r with
       | Ok fd => (fd ∉ p_fds w0) ∧ p_fds w = {[ fd ]} ∪ p_fds w0
       | Err _ => p_fds w = p_fds w0
       end) w0.
Proof.
  pose proof (λ w, on_the_way_start w0 w) as Hway.
  unfold bindCommandExecutable. apply do_op_wp; [by apply Hway|]. intros [fd|e] w1 H1; [|cbn in H1; subst w1; split; [by apply Hway|done]].
  destruct H1 as [Hfd ->].
  apply do_op_wp; [by apply Hway|]. intros [info|e] w2 ->.
  - case_match.
    + apply do_op_wp; [by apply Hway|]. intros _ w3 ->. split; [by apply Hway|].
      split; [done|]. cbn. set_solver.
    + split; [by apply Hway|]. by split_and!.
  - apply do_op_wp; [by apply Hway|]. intros _ w3 ->. split; [by apply Hway|].
    split; [done|]. cbn. set_solver.
Qed.

Lemma settled_nothing e w :
  p_fds w = p_fds w0 → p_log w = p_log w0 → settled (p_fds w0) (Err e) w.
Proof. intros Hf Hl. apply (settled_err _ _ []); [done|constructor|by rewrite app_nil_r]. Qed.

Lemma runCommand_spec a : wp psem way (runCommand a) (settled (p_fds w0)) w0.
Proof.
  pose proof (λ w, on_the_way_start w0 w) as Hway.
  unfold runCommand. case_match; [split; [by apply Hway|by apply settled_nothing]|].
  apply do_op_wp; [by apply Hway|]. intros _ w1 ->.
  apply do_op_wp; [by apply Hway|]. intros [e|] w1 ->;
    [split; [by apply Hway|by apply settled_nothing]|].
  apply wp_bind. eapply wp_mono; [|apply bind_spec].
  intros [fd|e] w1 _ [Hl Hf]; [|split; [by apply Hway|by apply settled_nothing]].
  destruct Hf as [Hfd Hf]. apply do_op_wp; [by apply Hway|]. intros [pid|e] w2 ->.
  - apply wp_bind. eapply wp_mono; [|apply await_command_spec; cbn; by rewrite Hl].
    intros res w3 HI (Hf3 & h & Hh & Hl3 & Hok). apply do_op_wp; [done|]. intros _ w4 ->.
    split; [by eapply way_end|]. split; [|by exists h].
    cbn in *. rewrite Hf3, Hf. set_solver.
  - cbn [prog_bind]. apply do_op_wp; [by apply Hway|]. intros _ w3 ->.
    split; [by apply Hway|]. apply settled_nothing; [|done]. cbn. rewrite Hf. set_solver.
Qed.
End lifecycle.

(** C8: whatever the kernel answers and whenever the context ends, a command
    goes through one of four histories: not started; started and reaped;
    SIGTERM, 250 ms, SIGKILL to its process group, then reaped; SIGTERM failed,
    then reaped.  So no signal is sent to a process group whose leader has been
    reaped, no child is left unreaped, no descriptor leaks, and success means
    the command ran to its own end. *)
Theorem runCommand_lifecycle a w p' w' :
  rtc (pstep psem) (runCommand a, w) (p', w') →
  (∃ h done, history h ∧ done `prefix_of` h ∧ p_log w' = p_log w ++ done) ∧
  ∀ r, p' = Ret r →
    p_fds w' = p_fds w ∧
    ∃ h, history h ∧ p_log w' = p_log w ++ h ∧ (is_ok r = true → ∃ pid, h = ran pid).
Proof.
  intros Hr. apply (wp_sound psem _ _ _ (settled w (p_fds w)) w w' (runCommand_spec w a) Hr).
Qed.

Definition sleep_action : Action :=
  {| act_Type := "command"; act_GPIO := ""; act_Value := None; act_Command := "/bin/sleep";
     act_Args := ["60"]; act_WorkingDir := ""; act_Env := ∅; act_Timeout := "1s";
     act_Duration := ""; act_Topic := ""; act_Payload := ""; act_QoS := None;
     act_Retain := false; act_IgnoreError := false |}.

(** A kernel on which the command outlives its timeout. *)
Definition slow_kernel (o : aop) (w : pworld) : option (aresp o * pworld) :=
  match o return option (aresp o * pworld) with
  | OpSetOutput name v => Some (Ok tt, log (EvGpio name v) w)
  | OpPublish topic payload _ _ => Some (Ok tt, log (EvPublish topic payload) w)
  | OpContextErr => Some (None, w)
  | OpDelay _ => Some (None, w)
  | OpWithTimeout _ => Some (tt, w)
  | OpCommandErr => Some (if decide (p_log w = []) then None else Some DeadlineExceeded, w)
  | OpOpenPath _ => if decide (7 ∈ p_fds w) then None
                    else Some (Ok 7, {| p_fds := {[ 7 ]} ∪ p_fds w; p_log := p_log w |})
  | OpStat _ => Some (Ok {| ei_regular := true; ei_perm := 493 |}, w)
  | OpCloseFd fd => Some (tt, {| p_fds := p_fds w ∖ {[ fd ]}; p_log := p_log w |})
  | OpStart _ => Some (Ok 4242, log (EvStart 4242) w)
  | OpSelect _ => Some (false, w)
  | OpWaitExit _ => Some (None, w)
  | OpReap pid => Some (Err "signal: killed", log (EvReap pid) w)
  | OpOutput => Some ([], w)
  | OpKill pid force => Some (Ok tt, log (EvKill pid force) w)
  | OpSleep d => Some (tt, log (EvSleep d) w)
  | OpPanic => None
  end.

Lemma slow_kernel_sem o w r w' : slow_kernel o w = Some (r, w') → psem o w r w'.
Proof. destruct o; cbn; try case_decide; try done; by intros [= <- <-]. Qed.

Definition quiet_world : pworld := {| p_fds := ∅; p_log := [] |}.

Definition slow_run : prog aresp (result ActionError outputStats) * pworld :=
  run_for 20 slow_kernel (runCommand sleep_action) quiet_world.

Example slow_run_result : slow_run.1 = Ret (Err (ErrTimedOut Second no_output)).
Proof. vm_compute. reflexivity. Qed.

Lemma runCommand_lifecycle_witness :
  p_fds slow_run.2 = ∅ ∧
  ∃ h, history h ∧ p_log slow_run.2 = [] ++ h ∧ (false = true → ∃ pid, h = ran pid).
Proof.
  refine (proj2 (runCommand_lifecycle sleep_action quiet_world slow_run.1 slow_run.2 _)
            _ slow_run_result).
  rewrite <- surjective_pairing. apply run_for_steps, slow_kernel_sem.
Defined.

(** ** The order of the actions *)

Section execute.
Context (cfg : Config) {W : Type} (sem : ∀ o : aop, W → aresp o → W → Prop).

(** The actions of the list have all been dealt with: the context was alive
    before each of them, and it succeeded or its error is to be ignored. *)
Inductive handled : list Action → W → W → Prop :=
| handled_nil w : handled [] w w
| handled_cons a rest w w1 r w2 w' :
    sem OpContextErr w None w1 → exec sem (executeOne cfg a) w1 r w2 →
    (is_ok r = true ∨ act_IgnoreError a = true) →
    handled rest w2 w' → handled (a :: rest) w w'.

(** How [Execute] stopped early: the context was over, or an action whose
    error counts failed. *)
Definition stopped_at (i : nat) (a : Action) (e : ActionError) (w w' : W) : Prop :=
  (∃ c, sem OpContextErr w (Some c) w' ∧ e = ErrContext c) ∨
  (∃ w1 cause, sem OpContextErr w None w1 ∧ exec sem (executeOne cfg a) w1 (Err cause) w' ∧
     act_IgnoreError a = false ∧ e = ErrIndexed i (act_Type a) cause).

(** One iteration of the loop. *)
Lemma execute_from_cons i a rest w r w' :
  exec sem (execute_from cfg i (a :: rest)) w r w' ↔
  (∃ w1 r1 w2, sem OpContextErr w None w1 ∧ exec sem (executeOne cfg a) w1 r1 w2 ∧
     (is_ok r1 = true ∨ act_IgnoreError a = true) ∧
     exec sem (execute_from cfg (S i) rest) w2 r w') ∨
  (∃ e, r = Err e ∧ stopped_at i a e w w').
Proof.
  cbn [execute_from]. unfold do_op. rewrite exec_vis. split.
  - intros ([c|] & w1 & Hc & Hrun).
    { apply exec_ret in Hrun as [<- <-]. right. exists (ErrContext c). split; [done|]. left. eauto. }
    apply exec_bind in Hrun as (r1 & w2 & H1 & Hrest).
    destruct r1 as [[]|cause]; [left; exists w1, (Ok tt), w2; auto|].
    destruct (act_IgnoreError a) eqn:Hig; [left; exists w1, (Err cause), w2; auto|].
    apply exec_ret in Hrest as [<- <-]. right. eexists. split; [done|]. right. eauto 10.
  - intros [(w1 & r1 & w2 & Hc & H1 & Hok & Hrest)|(e & -> & Hst)].
    + exists None, w1. split; [done|]. apply exec_bind. exists r1, w2. split; [done|].
      destruct r1 as [[]|cause]; [done|]. by destruct Hok as [?| ->].
    + destruct Hst as [(c & Hc & ->)|(w1 & cause & Hc & H1 & Hig & ->)].
      * exists (Some c), w'. split; [done|]. by apply exec_ret.
      * exists None, w1. split; [done|]. apply exec_bind. exists (Err cause), w'.
        split; [done|]. rewrite Hig. by apply exec_ret.
Qed.

Lemma execute_from_spec i actions w r w' :
  exec sem (execute_from cfg i actions) w r w' ↔
  match r with
  | Ok _ => handled actions w w'
  | Err e => ∃ before a after w1, actions = before ++ a :: after ∧
               handled before w w1 ∧ stopped_at (i + length before) a e w1 w'
  end.
Proof.
  revert i w. induction actions as [|a rest IH]; intros i w.
  - cbn [execute_from]. rewrite exec_ret. destruct r as [[]|e].
    + split; [intros [_ ->]; constructor|]. by inversion 1.
    + split; [by intros [? _]|]. intros (before & a & after & w1 & Heq & _). by destruct before.
  - rewrite execute_from_cons. setoid_rewrite IH. destruct r as [[]|e]; split.
    + intros [(w1 & r1 & w2 & ? & ? & ? & ?)|(e & ? & _)]; [by econstructor|done].
    + inversion 1; subst. left. eauto 10.
    + intros [(w1 & r1 & w2 & Hc & H1 & Hok & before & b & after & w3 & -> & Hh & Hst)
             |(e' & [= <-] & Hst)].
      * exists (a :: before), b, after, w3. split_and!; [done|by econstructor|].
        cbn [length]. by rewrite Nat.add_succ_r.
      * exists [], a, rest, w. split_and!; [done|constructor|]. by rewrite Nat.add_0_r.
    + intros ([|x before] & b & after & w1 & Heq & Hh & Hst); simplify_eq/=; inversion Hh; subst.
      * right. rewrite Nat.add_0_r in Hst. eauto.
      * left. rewrite Nat.add_succ_r in Hst. eauto 20.
Qed.

(** C18: [Execute] runs the actions in order and stops at the first one that
    finds the context over or fails without [ignore_error], whose index the
    error names; it succeeds exactly when there is no such action. *)
Theorem Execute_first_failure actions w r w' :
  exec sem (Execute cfg actions) w r w' ↔
  match r with
  | Ok _ => handled actions w w'
  | Err e => ∃ before a after w1, actions = before ++ a :: after ∧
               handled before w w1 ∧ stopped_at (length before) a e w1 w'
  end.
Proof. apply (execute_from_spec 0). Qed.
End execute.

(** ** Operations the executor does not perform

    [bad] are the operations to avoid; none of those a command needs once it has
    a process is. *)

Definition plain_op (o : aop) : bool :=
  match o with
  | OpSetOutput _ _ | OpPublish _ _ _ _ | OpDelay _ | OpWithTimeout _ | OpOpenPath _
  | OpStart _ | OpPanic => false
  | _ => true
  end.

Section avoiding.
Context (bad : aop → Prop) (Hplain : ∀ o, plain_op o = true → ¬ bad o).

Abbreviation safe p := (avoids (resp := aresp) bad p).

Lemma safe_do_op {A} o (k : aresp o → prog aresp A) :
  ¬ bad o → (∀ r, safe (k r)) → safe (do_op o k).
Proof. done. Qed.

Lemma safe_ret {A} (a : A) : safe (Ret a).
Proof. done. Qed.

Ltac safe :=
  repeat first
    [ apply safe_ret
    | apply safe_do_op; [try (by apply Hplain)|intros ?]
    | apply avoids_bind; [|intros ?]
    | apply avoids_ebind; [|intros ?]
    | match goal with |- safe (match ?x with _ => _ end) => destruct x end ].

Lemma avoids_waiter_wait pid : safe (waiter_wait pid).
Proof using Hplain. unfold waiter_wait. safe. Qed.

Lemma avoids_signal pid force : safe (signalCommandGroup pid force).
Proof using Hplain. unfold signalCommandGroup. safe. Qed.

Lemma avoids_terminate pid grace : safe (terminateCommandGroup pid grace).
Proof using Hplain. unfold terminateCommandGroup. safe; apply avoids_signal. Qed.

Lemma avoids_await_command pid timeout : safe (await_command pid timeout).
Proof using Hplain.
  unfold await_command, output_stats. safe; auto using avoids_waiter_wait, avoids_terminate.
Qed.

Lemma avoids_runCommand a :
  ¬ bad (OpWithTimeout (CommandTimeout a)) →
  (IsAbs (act_Command a) = true → ¬ bad (OpOpenPath (act_Command a))) →
  (∀ fd, ¬ bad (OpStart (command_spec a fd))) → safe (runCommand a).
Proof using Hplain.
  intros Ht Ho Hs. unfold runCommand, bindCommandExecutable.
  destruct (IsAbs (act_Command a)); [|done]. change (negb true) with false. cbv iota.
  safe; auto using avoids_await_command.
Qed.

Context (cfg : Config).

Lemma avoids_executeOne a :
  (act_Type a = "gpio" → ∀ v, act_Value a = Some v → ¬ bad (OpSetOutput (act_GPIO a) v)) →
  (act_Type a = "gpio" → act_Value a = None → ¬ bad OpPanic) →
  (act_Type a = "command" → safe (runCommand a)) →
  (act_Type a = "delay" → ∀ d, ParseDuration (act_Duration a) = Ok d → ¬ bad (OpDelay d)) →
  (act_Type a = "mqtt" → ¬ bad (OpPublish (act_Topic a) (act_Payload a) (action_qos cfg a) (act_Retain a))) →
  safe (executeOne cfg a).
Proof.
  intros Hg Hn Hc Hd Hm. unfold executeOne.
  case_decide; [destruct (act_Value a) as [v|] eqn:Hv; [split; [by apply Hg|done]|split; [by apply Hn|done]]|].
  case_decide; [unfold executeCommand; apply avoids_ebind; [by apply Hc|done]|].
  case_decide; [unfold executeDelay; destruct (ParseDuration _) as [d|]; [split; [by apply Hd|done]|done]|].
  case_decide; [split; [by apply Hm|done]|done].
Qed.

Lemma avoids_execute_from i actions :
  Forall (λ a, safe (executeOne cfg a)) actions → safe (execute_from cfg i actions).
Proof using Hplain.
  intros H. revert i. induction H as [|a l Ha Hl IH]; intros i; cbn [execute_from]; [done|].
  safe; auto.
Qed.
End avoiding.
