(* ===== verification/Controller.v ===== *)
(** * Package controller: entities, commands and states

    [src/controller/controller.go]: the runtime of the entities, accepting and
    queueing commands, handling a command, publishing states, and the callback
    accounting of shutdown.

    The interfaces the controller is built on are classes named after the Go
    interfaces; their state is the world [W].  A method that dereferences the
    runtime of an entity returns [None] when the runtime is missing: the Go code
    panics there. *)

From S2P Require Import Prelude GoString GoTime Config Mqtt Dedupe Discovery.

Open Scope Z_scope.

(** ** The interfaces *)

Class GpioManager (W : Type) := {
  gpio_OutputState : string → W → result string bool * W;
  gpio_InputState : string → W → result string bool * W;
}.

Class MqttPublisher (W : Type) := {
  mqtt_Publish : string → string → Z → bool → W → result string unit * W;
}.

Class ActionExecutor (W : Type) := {
  executor_Execute : list Action → W → result string unit * W;
}.

(** [PublishDiscovery]: [Discovery.reconcileDiscovery] under [discoveryMu]. *)
Class DiscoveryPublisher (W : Type) := { PublishDiscovery : W → result string unit * W }.

Class Clock (W : Type) := { time_Now : W → Z }.

(** ** Runtime state *)

Definition EntityQueueCapacity : nat := 32.

Record entityCommand := { ec_entity : EntityConfig; ec_message : Message }.

Record switchRuntime := {
  sr_state : bool;
  sr_queue : list entityCommand;
  sr_overflow : overflowLog;
}.

Record buttonRuntime := {
  br_queue : list entityCommand;
  br_overflow : overflowLog;
}.

Record Controller := MkController {
  c_cfg : Config;
  c_cancelled : bool;             (* [ctx.Err() != nil] *)
  c_wg : nat;
  c_accepting : bool;
  c_dedupe : dedupeCache;
  c_rejectedLog : overflowLog;
  c_switches : gmap string switchRuntime;
  c_buttons : gmap string buttonRuntime;
  c_binaryByInput : gmap string (list EntityConfig);
}.

Definition set_wg (f : nat → nat) (c : Controller) : Controller :=
  MkController (c_cfg c) (c_cancelled c) (f (c_wg c)) (c_accepting c) (c_dedupe c)
    (c_rejectedLog c) (c_switches c) (c_buttons c) (c_binaryByInput c).
Definition set_cancelled (c : Controller) : Controller :=
  MkController (c_cfg c) true (c_wg c) (c_accepting c) (c_dedupe c)
    (c_rejectedLog c) (c_switches c) (c_buttons c) (c_binaryByInput c).
Definition stop_accepting (c : Controller) : Controller :=
  MkController (c_cfg c) (c_cancelled c) (c_wg c) false (c_dedupe c)
    (c_rejectedLog c) (c_switches c) (c_buttons c) (c_binaryByInput c).
Definition set_dedupe (d : dedupeCache) (c : Controller) : Controller :=
  MkController (c_cfg c) (c_cancelled c) (c_wg c) (c_accepting c) d
    (c_rejectedLog c) (c_switches c) (c_buttons c) (c_binaryByInput c).
Definition set_rejectedLog (l : overflowLog) (c : Controller) : Controller :=
  MkController (c_cfg c) (c_cancelled c) (c_wg c) (c_accepting c) (c_dedupe c)
    l (c_switches c) (c_buttons c) (c_binaryByInput c).
Definition set_switch (id : string) (r : switchRuntime) (c : Controller) : Controller :=
  MkController (c_cfg c) (c_cancelled c) (c_wg c) (c_accepting c) (c_dedupe c)
    (c_rejectedLog c) (<[id := r]> (c_switches c)) (c_buttons c) (c_binaryByInput c).
Definition set_button (id : string) (r : buttonRuntime) (c : Controller) : Controller :=
  MkController (c_cfg c) (c_cancelled c) (c_wg c) (c_accepting c) (c_dedupe c)
    (c_rejectedLog c) (c_switches c) (<[id := r]> (c_buttons c)) (c_binaryByInput c).
Definition add_binary (gpio : string) (e : EntityConfig) (c : Controller) : Controller :=
  MkController (c_cfg c) (c_cancelled c) (c_wg c) (c_accepting c) (c_dedupe c)
    (c_rejectedLog c) (c_switches c) (c_buttons c)
    (<[gpio := default [] (c_binaryByInput c !! gpio) ++ [e]]> (c_binaryByInput c)).

(** ** [New] *)

(** One entity; the goroutine of a worker is accounted by [wg.Add(1)]. *)
Definition add_entity (c : Controller) (e : EntityConfig) : Controller :=
  if decide (ent_Type e = "switch") then
    set_wg S (set_switch (ent_ID e)
      {| sr_state := default false (ent_InitialState e); sr_queue := [];
         sr_overflow := empty_overflowLog |} c)
  else if decide (ent_Type e = "button") then
    set_wg S (set_button (ent_ID e) {| br_queue := []; br_overflow := empty_overflowLog |} c)
  else if decide (ent_Type e = "binary_sensor") then
    add_binary (source_GPIO (ent_Source e)) e c
  else c.

Definition New (cfg : Config) : Controller :=
  foldl add_entity
    (MkController cfg false 0 true resetDedupe empty_overflowLog ∅ ∅ ∅) (cfg_Entities cfg).

(** ** Payloads *)

Definition parseSwitchPayload (payload : string) : option bool :=
  let p := to_upper (trim_space payload) in
  if decide (p ∈ ["ON"; "1"; "TRUE"]) then Some true
  else if decide (p ∈ ["OFF"; "0"; "FALSE"]) then Some false
  else None.

(** The guard of [handleButton]. *)
Definition valid_press (payload : string) : bool :=
  bool_decide (trim_space (to_upper payload) = "PRESS").

Definition statePayload (state : bool) : string := if state then "ON" else "OFF".

Definition boundedPayload (payload : string) : string :=
  if (String.length payload <=? 128)%nat then payload else str_take 128 payload +:+ "...".

(** ** Accepting commands *)

Definition beginCallback (c : Controller) : bool * Controller :=
  if negb (c_accepting c) || c_cancelled c then (false, c) else (true, set_wg S c).

(** [c.wg.Done()] *)
Definition wg_Done : Controller → Controller := set_wg pred.

(** A line of [rejectedLog] at instant [now]. *)
Definition reject (now : Z) (c : Controller) : Controller :=
  set_rejectedLog (recordRejection (c_rejectedLog c) now).1 c.

(** [acceptMessage] at instant [now]; the entity is only named in the logs. *)
Definition acceptMessage (now : Z) (m : Message) (c : Controller) : bool * Controller :=
  if negb (c_accepting c) || c_cancelled c then (false, c)
  else if msg_Retained m then (false, reject now c)
  else if 0 <? msg_QoS m then
    let '(dup, d) := check_duplicate (dedupe_key m) (msg_Duplicate m) (c_dedupe c) in
    let c := set_dedupe d c in
    if (dup : bool) then (false, reject now c) else (true, c)
  else (true, c).

(** A non-blocking send on the entity's channel. *)
Definition offer_switch (now : Z) (cmd : entityCommand) (c : Controller) : option Controller :=
  let id := ent_ID (ec_entity cmd) in
  rt ← c_switches c !! id;
  Some (set_switch id
    (if (length (sr_queue rt) <? EntityQueueCapacity)%nat
     then {| sr_state := sr_state rt; sr_queue := sr_queue rt ++ [cmd];
             sr_overflow := sr_overflow rt |}
     else {| sr_state := sr_state rt; sr_queue := sr_queue rt;
             sr_overflow := (record (sr_overflow rt) now).1 |}) c).

Definition offer_button (now : Z) (cmd : entityCommand) (c : Controller) : option Controller :=
  let id := ent_ID (ec_entity cmd) in
  rt ← c_buttons c !! id;
  Some (set_button id
    (if (length (br_queue rt) <? EntityQueueCapacity)%nat
     then {| br_queue := br_queue rt ++ [cmd]; br_overflow := br_overflow rt |}
     else {| br_queue := br_queue rt; br_overflow := (record (br_overflow rt) now).1 |}) c).

Definition enqueueSwitch (now : Z) (e : EntityConfig) (m : Message) (c : Controller)
    : option Controller :=
  let '(ok, c') := acceptMessage now m c in
  if ok then offer_switch now {| ec_entity := e; ec_message := m |} c' else Some c'.

Definition enqueueButton (now : Z) (e : EntityConfig) (m : Message) (c : Controller)
    : option Controller :=
  let '(ok, c') := acceptMessage now m c in
  if ok then offer_button now {| ec_entity := e; ec_message := m |} c' else Some c'.

(** ** Handling commands *)

Section handlers.
Context {W : Type} `{!GpioManager W, !MqttPublisher W, !ActionExecutor W, !Clock W}.
Implicit Types (w : W).

Definition publishState (cfg : Config) (e : EntityConfig) (state : bool) (w : W)
    : result string unit * W :=
  mqtt_Publish (entityTopic cfg (ent_ID e) "state") (statePayload state) (MQTTQoS cfg) true w.

Definition switchStateLocked (e : EntityConfig) (rt : switchRuntime) (w : W)
    : result string bool * W :=
  if decide (state_Type (ent_State e) = "memory") then (Ok (sr_state rt), w)
  else if decide (state_Type (ent_State e) = "gpio")
  then gpio_OutputState (state_GPIO (ent_State e)) w
  else (Err "unsupported state type", w).

(** Read the state and publish it; both errors are only logged. *)
Definition report_switch (cfg : Config) (e : EntityConfig) (rt : switchRuntime) (w : W) : W :=
  match switchStateLocked e rt w with
  | (Err _, w') => w'
  | (Ok current, w') => (publishState cfg e current w').2
  end.

(** [runtime.state = desired] *)
Definition with_state (desired : bool) (rt : switchRuntime) : switchRuntime :=
  {| sr_state := desired; sr_queue := sr_queue rt; sr_overflow := sr_overflow rt |}.

Definition handleSwitch (e : EntityConfig) (payload : string) (s : Controller * W)
    : option (Controller * W) :=
  let '(c, w) := s in
  match parseSwitchPayload payload with
  | None => Some (reject (time_Now w) c, w)
  | Some desired =>
      rt ← c_switches c !! ent_ID e;
      Some match executor_Execute (if desired then ent_On e else ent_Off e) w with
           | (Err _, w1) => (c, report_switch (c_cfg c) e rt w1)
           | (Ok _, w1) =>
               let rt := if decide (state_Type (ent_State e) = "memory")
                         then with_state desired rt else rt in
               (set_switch (ent_ID e) rt c, report_switch (c_cfg c) e rt w1)
           end
  end.

Definition handleButton (e : EntityConfig) (payload : string) (s : Controller * W)
    : option (Controller * W) :=
  let '(c, w) := s in
  if negb (valid_press payload) then Some (reject (time_Now w) c, w)
  else
    rt ← c_buttons c !! ent_ID e;
    Some (c, (executor_Execute (ent_Press e) w).2).

(** ** Publishing states *)

Definition switchState (e : EntityConfig) (c : Controller) (w : W)
    : option (result string bool * W) :=
  rt ← c_switches c !! ent_ID e; Some (switchStateLocked e rt w).

(** One iteration of [PublishAllStates]. *)
Definition publish_entity (c : Controller) (e : EntityConfig) (w : W) : option W :=
  if decide (ent_Type e = "switch") then
    '(r, w1) ← switchState e c w;
    Some match r with
         | Err _ => w1
         | Ok state => (publishState (c_cfg c) e state w1).2
         end
  else if decide (ent_Type e = "binary_sensor") then
    Some match gpio_InputState (source_GPIO (ent_Source e)) w with
         | (Err _, w1) => w1
         | (Ok state, w1) => (publishState (c_cfg c) e state w1).2
         end
  else Some w.

Definition PublishAllStates (c : Controller) (w : W) : option W :=
  foldl (λ acc e, acc ≫= publish_entity c e) (Some w) (cfg_Entities (c_cfg c)).

(** The loop of [HandleGPIOInput] over the sensors of an input. *)
Definition publish_sensors (c : Controller) (name : string) (state : bool) (w : W) : W :=
  foldl (λ w e, (publishState (c_cfg c) e state w).2) w
    (default [] (c_binaryByInput c !! name)).

Definition HandleGPIOInput (name : string) (state : bool) (s : Controller * W) : Controller * W :=
  let '(c, w) := s in
  match beginCallback c with
  | (false, _) => s
  | (true, c1) => (wg_Done c1, publish_sensors c1 name state w)
  end.

(** The closure [Register] gives to [AddConnectHandler]; a discovery error is
    only logged. *)
Definition connect_handler `{!DiscoveryPublisher W} (s : Controller * W)
    : option (Controller * W) :=
  let '(c, w) := s in
  match beginCallback c with
  | (false, _) => Some s
  | (true, c1) =>
      let '(_, w1) := PublishDiscovery w in
      w2 ← PublishAllStates c1 w1;
      Some (wg_Done c1, w2)
  end.
End handlers.

(** ** [Register] *)

(** The closures [Register] hands to the MQTT client, by what they run. *)
Inductive command_handler : Type :=
| EnqueueSwitch (e : EntityConfig)
| EnqueueButton (e : EntityConfig).

Class Registry (W : Type) := {
  reg_RegisterSubscription : string → command_handler → W → result string unit * W;
  reg_AddSessionHandler : W → W;     (* resetDedupe *)
  reg_AddConnectHandler : W → W;     (* discovery, then states *)
}.

Definition registration (cfg : Config) (e : EntityConfig) : option (string * command_handler) :=
  if decide (ent_Type e = "switch") then Some (entityTopic cfg (ent_ID e) "set", EnqueueSwitch e)
  else if decide (ent_Type e = "button")
  then Some (entityTopic cfg (ent_ID e) "press", EnqueueButton e)
  else None.

Definition register_entity {W} `{!Registry W} (cfg : Config) (e : EntityConfig)
    : ME W string unit := λ w,
  match registration cfg e with
  | Some (topic, h) => reg_RegisterSubscription topic h w
  | None => (Ok tt, w)
  end.

Definition Register {W} `{!Registry W} (cfg : Config) : ME W string unit := λ w,
  match me_for_each (register_entity cfg) (cfg_Entities cfg) w with
  | (Err e, w1) => (Err e, w1)
  | (Ok _, w1) => (Ok tt, reg_AddConnectHandler (reg_AddSessionHandler w1))
  end.

(** What a registered closure does with a message. *)
Definition run_handler (now : Z) (h : command_handler) (m : Message) (c : Controller)
    : option Controller :=
  match h with
  | EnqueueSwitch e => enqueueSwitch now e m c
  | EnqueueButton e => enqueueButton now e m c
  end.
