(* ===== verification/ControllerProofs.v ===== *)
(** * Package controller: what commands and events do

    The behaviour of the handlers of [Controller] on every branch: which
    messages are accepted, what a switch command changes and reports, what an
    edge on an input publishes. *)

From S2P Require Import Prelude GoString GoTime Config Mqtt Dedupe Discovery Controller.

Open Scope Z_scope.

(** ** Accepting messages *)

(** Why a message is turned away. *)
Definition turned_away (m : Message) (c : Controller) : Prop :=
  c_accepting c = false ∨ c_cancelled c = true ∨ msg_Retained m = true ∨
  (0 < msg_QoS m ∧ msg_Duplicate m = true ∧ is_Some (dedupe (c_dedupe c) !! dedupe_key m)).

(** A command is accepted exactly when the controller is running, the
    message is not retained and it is not a redelivery of a packet in the cache;
    QoS 0 messages bypass the cache. *)
Theorem acceptMessage_exact now m c :
  (acceptMessage now m c).1 = false ↔ turned_away m c.
Proof.
  unfold acceptMessage, turned_away, check_duplicate.
  destruct (c_accepting c), (c_cancelled c), (msg_Retained m); cbn;
    try (split; [intros _; tauto|done]).
  destruct (Z.ltb_spec 0 (msg_QoS m)); cbn.
  - destruct (msg_Duplicate m); cbn; [|split; [done|intros [?|[?|[?|(? & ? & ?)]]]; done]].
    case_bool_decide; cbn; split; try done.
    + intros _. right; right; right. done.
    + intros [?|[?|[?|(? & ? & ?)]]]; done.
  - split; [done|]. intros [?|[?|[?|(? & ? & ?)]]]; done || lia.
Qed.

(** ** Switch commands *)

Section switch.
Context {W : Type} `{!GpioManager W, !MqttPublisher W, !ActionExecutor W, !Clock W}.
Implicit Types (c : Controller) (w : W).

(** The actions a payload asks for. *)
Definition requested (e : EntityConfig) (desired : bool) : list Action :=
  if desired then ent_On e else ent_Off e.

(** C11: a switch with a memory state takes the requested state exactly when its
    actions succeed, and what it publishes, retained, is the state it then
    remembers: the new one, or after a failure the old one, so that the other
    side rolls back. *)
Theorem handleSwitch_memory e payload desired rt c w r w1 :
  parseSwitchPayload payload = Some desired → state_Type (ent_State e) = "memory" →
  c_switches c !! ent_ID e = Some rt → executor_Execute (requested e desired) w = (r, w1) →
  let state := if is_ok r then desired else sr_state rt in
  ∃ c', handleSwitch e payload (c, w)
        = Some (c', (mqtt_Publish (entityTopic (c_cfg c) (ent_ID e) "state") (statePayload state)
                       (MQTTQoS (c_cfg c)) true w1).2) ∧
    sr_state <$> c_switches c' !! ent_ID e = Some state ∧
    ∀ id, id ≠ ent_ID e → c_switches c' !! id = c_switches c !! id.
Proof.
  intros Hp Hm Hrt Hx. unfold handleSwitch. rewrite Hp, Hrt. cbn [mbind option_bind].
  fold (requested e desired). rewrite Hx.
  destruct r as [[]|err]; cbn [is_ok]; eexists; (split; [|split]).
  - unfold report_switch, switchStateLocked. rewrite Hm, decide_True by done. reflexivity.
  - cbn [set_switch c_switches]. by rewrite lookup_insert_eq.
  - intros id Hid. cbn. by rewrite lookup_insert_ne.
  - unfold report_switch, switchStateLocked. rewrite Hm, decide_True by done. reflexivity.
  - by rewrite Hrt.
  - done.
Qed.

Lemma handleSwitch_gpio_spec e payload desired rt c w r w1 :
  parseSwitchPayload payload = Some desired → state_Type (ent_State e) = "gpio" →
  c_switches c !! ent_ID e = Some rt → executor_Execute (requested e desired) w = (r, w1) →
  ∃ c', handleSwitch e payload (c, w)
        = Some (c', match gpio_OutputState (state_GPIO (ent_State e)) w1 with
                    | (Ok actual, w2) =>
                        (mqtt_Publish (entityTopic (c_cfg c) (ent_ID e) "state")
                           (statePayload actual) (MQTTQoS (c_cfg c)) true w2).2
                    | (Err _, w2) => w2
                    end) ∧
    c_switches c' = c_switches c.
Proof.
  intros Hp Hm Hrt Hx. unfold handleSwitch. rewrite Hp, Hrt. cbn [mbind option_bind].
  fold (requested e desired). rewrite Hx.
  assert (report_switch (c_cfg c) e rt w1
    = match gpio_OutputState (state_GPIO (ent_State e)) w1 with
      | (Ok actual, w2) => (mqtt_Publish (entityTopic (c_cfg c) (ent_ID e) "state")
                              (statePayload actual) (MQTTQoS (c_cfg c)) true w2).2
      | (Err _, w2) => w2
      end) as Hrep.
  { unfold report_switch, switchStateLocked. rewrite Hm.
    rewrite decide_False, decide_True by done. by destruct (gpio_OutputState _ w1) as [[]]. }
  destruct r as [[]|err]; eexists; (split; [|]).
  - rewrite Hm, decide_False by done. by rewrite Hrep.
  - cbn. by rewrite insert_id.
  - by rewrite Hrep.
  - done.
Qed.

(** C21: a switch backed by a GPIO output publishes what the output reads after
    the actions, whether they succeeded or not, and publishes nothing when the
    output cannot be read. *)
Theorem handleSwitch_gpio e payload desired rt c w r w1 :
  parseSwitchPayload payload = Some desired → state_Type (ent_State e) = "gpio" →
  c_switches c !! ent_ID e = Some rt → executor_Execute (requested e desired) w = (r, w1) →
  ∃ c', handleSwitch e payload (c, w)
        = Some (c', match gpio_OutputState (state_GPIO (ent_State e)) w1 with
                    | (Ok actual, w2) =>
                        (mqtt_Publish (entityTopic (c_cfg c) (ent_ID e) "state")
                           (statePayload actual) (MQTTQoS (c_cfg c)) true w2).2
                    | (Err _, w2) => w2
                    end) ∧
    c_switches c' = c_switches c.
Proof. apply handleSwitch_gpio_spec. Qed.

(** A payload that is neither on nor off runs nothing and publishes nothing. *)
Lemma handleSwitch_invalid e payload c w :
  parseSwitchPayload payload = None →
  handleSwitch e payload (c, w) = Some (reject (time_Now w) c, w).
Proof. intros Hp. unfold handleSwitch. by rewrite Hp. Qed.
End switch.

(** ** What is published *)

Section published.
Context {W : Type} `{!GpioManager W, !MqttPublisher W, !ActionExecutor W, !Clock W}.
Context (sent : W → list (string * string)).

(** Publishing is what adds to [sent]; reading lines does not. *)
Context (Hpublish : ∀ topic payload qos retain w,
           sent (mqtt_Publish topic payload qos retain w).2 = sent w ++ [(topic, payload)])
        (Hinput : ∀ name w, sent (gpio_InputState name w).2 = sent w)
        (Houtput : ∀ name w, sent (gpio_OutputState name w).2 = sent w).

Definition state_message (cfg : Config) (e : EntityConfig) (state : bool) : string * string :=
  (entityTopic cfg (ent_ID e) "state", statePayload state).

Definition sensors (cfg : Config) (input : string) : list EntityConfig :=
  filter (λ e, ent_Type e = "binary_sensor" ∧ source_GPIO (ent_Source e) = input)
    (cfg_Entities cfg).

Lemma binaryByInput_foldl l c name :
  default [] (c_binaryByInput (foldl add_entity c l) !! name)
  = default [] (c_binaryByInput c !! name)
    ++ filter (λ e, ent_Type e = "binary_sensor" ∧ source_GPIO (ent_Source e) = name) l.
Proof.
  revert c. induction l as [|e l IH]; intros c; cbn [foldl]; [by rewrite app_nil_r|].
  rewrite IH, filter_cons. unfold add_entity.
  destruct (decide (ent_Type e = "switch")) as [Hs|Hs].
  { rewrite decide_False; [done|]. intros [? _]. congruence. }
  destruct (decide (ent_Type e = "button")) as [Hb|Hb].
  { rewrite decide_False; [done|]. intros [? _]. congruence. }
  destruct (decide (ent_Type e = "binary_sensor")) as [Ht|Ht].
  - cbn. destruct (decide (source_GPIO (ent_Source e) = name)) as [<-|Hn].
    + rewrite lookup_insert_eq. cbn. rewrite decide_True by done. by rewrite <- (assoc_L (++)).
    + rewrite lookup_insert_ne by done. rewrite decide_False; [done|]. by intros [_ ?].
  - rewrite decide_False; [done|]. by intros [? _].
Qed.

Lemma publish_list_sent cfg l state w :
  sent (foldl (λ w e, (publishState cfg e state w).2) w l)
  = sent w ++ map (λ e, state_message cfg e state) l.
Proof using Hpublish.
  revert w. induction l as [|e l IH]; intros w; cbn; [by rewrite app_nil_r|].
  rewrite IH. unfold publishState at 1. rewrite Hpublish. by rewrite <- (assoc_L (++)).
Qed.

(** C37: an edge on an input publishes the new level on the state topic of every
    sensor the configuration binds to that input, once each, in the order of the
    configuration, and nothing else; after shutdown has begun it publishes
    nothing. *)
Theorem HandleGPIOInput_publishes cfg c name state w :
  c_cfg c = cfg → c_binaryByInput c = c_binaryByInput (New cfg) →
  sent (HandleGPIOInput name state (c, w)).2
  = sent w ++ (if c_accepting c && negb (c_cancelled c)
               then map (λ e, state_message cfg e state) (sensors cfg name) else []).
Proof using Hpublish.
  intros <- Hb. unfold HandleGPIOInput, beginCallback.
  destruct (c_accepting c), (c_cancelled c); cbn; try by rewrite app_nil_r.
  unfold publish_sensors. cbn. rewrite publish_list_sent, Hb. unfold New.
  rewrite binaryByInput_foldl. done.
Qed.

(** The state an entity has to report, if it can be read. *)
Definition readable (c : Controller) (e : EntityConfig) (w : W) : option bool :=
  if decide (ent_Type e = "switch") then
    rt ← c_switches c !! ent_ID e;
    match (switchStateLocked e rt w).1 with Ok b => Some b | Err _ => None end
  else if decide (ent_Type e = "binary_sensor") then
    match (gpio_InputState (source_GPIO (ent_Source e)) w).1 with Ok b => Some b | Err _ => None end
  else None.

Lemma publish_entity_sent c e w w' :
  publish_entity c e w = Some w' →
  sent w' = sent w ++ match readable c e w with
                      | Some b => [state_message (c_cfg c) e b]
                      | None => []
                      end.
Proof using Hpublish Hinput Houtput.
  unfold publish_entity, readable, switchState.
  destruct (decide (ent_Type e = "switch")) as [Hs|Hs].
  - destruct (c_switches c !! ent_ID e) as [rt|]; cbn; [|done].
    assert (sent (switchStateLocked e rt w).2 = sent w) as Hst.
    { unfold switchStateLocked. repeat case_decide; [done|apply Houtput|done]. }
    destruct (switchStateLocked e rt w) as [[b|err] w1]; cbn in *; intros [= <-].
    + unfold publishState. rewrite Hpublish. by rewrite Hst.
    + by rewrite app_nil_r.
  - destruct (decide (ent_Type e = "binary_sensor")) as [Hb|Hb].
    + pose proof (Hinput (source_GPIO (ent_Source e)) w) as Hin.
      destruct (gpio_InputState _ w) as [[b|err] w1]; cbn in *; intros [= <-].
      * unfold publishState. rewrite Hpublish. by rewrite Hin.
      * by rewrite app_nil_r.
    + intros [= <-]. by rewrite app_nil_r.
Qed.

(** What an entity says when its turn comes in world [w]. *)
Definition report (c : Controller) (e : EntityConfig) (w : W) : list (string * string) :=
  match readable c e w with Some b => [state_message (c_cfg c) e b] | None => [] end.

(** From [w], the entities report one after the other, each what it reads in the
    world the reports before it have led to; the last world is [w']. *)
Inductive reports (c : Controller) : list EntityConfig → W → W → list (string * string) → Prop :=
| reports_end w : reports c [] w w []
| reports_next e l w w1 w' msgs :
    sent w1 = sent w ++ report c e w → reports c l w1 w' msgs →
    reports c (e :: l) w w' (report c e w ++ msgs).

(** The runtime of every switch exists. *)
Definition switches_ready (c : Controller) (l : list EntityConfig) : Prop :=
  ∀ e, e ∈ l → ent_Type e = "switch" → is_Some (c_switches c !! ent_ID e).

Lemma publish_entity_total c e l w :
  switches_ready c (e :: l) → is_Some (publish_entity c e w).
Proof.
  intros Hs. unfold publish_entity, switchState. case_decide as Ht.
  - destruct (Hs e ltac:(left) Ht) as [rt ->]. cbn. destruct (switchStateLocked e rt w); eauto.
  - case_decide; eauto.
Qed.

Lemma publish_all_reports c l w :
  switches_ready c l →
  ∃ w' msgs, foldl (λ acc e, acc ≫= publish_entity c e) (Some w) l = Some w' ∧
    reports c l w w' msgs ∧ sent w' = sent w ++ msgs.
Proof using Hpublish Hinput Houtput.
  revert w. induction l as [|e l IH]; intros w Hs.
  - exists w, []. rewrite app_nil_r. split; [done|]. split; [constructor|done].
  - destruct (publish_entity_total c e l w Hs) as [w1 H1].
    destruct (IH w1) as (w' & msgs & Hf & Hr & Hsent); [intros e' He'; apply Hs; by right|].
    pose proof (publish_entity_sent _ _ _ _ H1) as Ht. fold (report c e w) in Ht.
    exists w', (report c e w ++ msgs). cbn [foldl mbind option_bind]. rewrite H1.
    split; [done|]. split; [by eapply reports_next|].
    by rewrite Hsent, Ht, (assoc_L (++)).
Qed.

(** The switches of the configuration have their runtime after [New]. *)
Lemma add_entity_switch c e id :
  is_Some (c_switches c !! id) ∨ ent_Type e = "switch" ∧ ent_ID e = id →
  is_Some (c_switches (add_entity c e) !! id).
Proof.
  intros Hc. unfold add_entity. repeat case_decide; cbn; try (destruct Hc as [?|[? _]]; done).
  destruct (decide (ent_ID e = id)) as [->|Hne]; [rewrite lookup_insert_eq; eauto|].
  rewrite lookup_insert_ne by done. by destruct Hc as [?|[_ ?]].
Qed.

Lemma foldl_switches l c id :
  is_Some (c_switches c !! id) ∨ (∃ e, e ∈ l ∧ ent_Type e = "switch" ∧ ent_ID e = id) →
  is_Some (c_switches (foldl add_entity c l) !! id).
Proof.
  revert c. induction l as [|e l IH]; intros c; cbn.
  - intros [?|(e & He & _)]; [done|]. by apply elem_of_nil in He.
  - intros Hc. apply IH. destruct Hc as [?|(e' & [->|He']%elem_of_cons & Hty & Hid)].
    + left. apply add_entity_switch. by left.
    + left. apply add_entity_switch. by right.
    + right. eauto.
Qed.

(** C38: for a controller with the switches [New] creates, [PublishAllStates]
    returns, whatever the lines read, and has published, in the order of the
    configuration, the state that every switch and sensor that can be read has
    when its turn comes, once each, and nothing of any other entity. *)
Theorem PublishAllStates_publishes c w :
  dom (c_switches c) = dom (c_switches (New (c_cfg c))) →
  ∃ w' msgs, PublishAllStates c w = Some w' ∧
    reports c (cfg_Entities (c_cfg c)) w w' msgs ∧ sent w' = sent w ++ msgs.
Proof using Hpublish Hinput Houtput.
  intros Hdom. apply publish_all_reports. intros e He Ht.
  apply elem_of_dom. rewrite Hdom. apply elem_of_dom. unfold New. apply foldl_switches. eauto.
Qed.
End published.

(** ** A concrete world *)

(** A world that records what is published; outputs read low, inputs high. *)
Record tape := { t_published : list (string * string); t_time : Z }.

#[export] Instance tape_gpio : GpioManager tape :=
  { gpio_OutputState _ w := (Ok false, w); gpio_InputState _ w := (Ok true, w) }.
#[export] Instance tape_mqtt : MqttPublisher tape :=
  { mqtt_Publish topic payload _ _ w :=
      (Ok tt, {| t_published := t_published w ++ [(topic, payload)]; t_time := t_time w |}) }.
#[export] Instance tape_executor : ActionExecutor tape := { executor_Execute _ w := (Ok tt, w) }.
#[export] Instance tape_clock : Clock tape := { time_Now := t_time }.

Definition blank : tape := {| t_published := []; t_time := 0 |}.


Lemma tape_publish topic payload qos retain (w : tape) :
  t_published (mqtt_Publish topic payload qos retain w).2 = t_published w ++ [(topic, payload)].
Proof. done. Qed.
Lemma tape_input name (w : tape) : t_published (gpio_InputState name w).2 = t_published w.
Proof. done. Qed.
Lemma tape_output name (w : tape) : t_published (gpio_OutputState name w).2 = t_published w.
Proof. done. Qed.

Definition sample : Controller := New sample_config.

(** A switch that keeps its state in memory. *)
Definition memory_lamp : EntityConfig :=
  {| ent_ID := "lamp"; ent_Type := "switch"; ent_Name := "Lamp"; ent_Icon := "";
     ent_DeviceClass := ""; ent_InitialState := None;
     ent_State := {| state_Type := "memory"; state_GPIO := "" |};
     ent_Source := no_source; ent_On := [set_output "relay" true];
     ent_Off := [set_output "relay" false]; ent_Press := [] |}.

Definition lamp_runtime : switchRuntime :=
  {| sr_state := true; sr_queue := []; sr_overflow := empty_overflowLog |}.

Lemma handleSwitch_memory_witness :
  ∃ c', handleSwitch memory_lamp " off " (sample, blank)
        = Some (c', {| t_published := [("home/pi/lamp/state", "OFF")]; t_time := 0 |}) ∧
    sr_state <$> c_switches c' !! "lamp" = Some false ∧
    ∀ id, id ≠ "lamp" → c_switches c' !! id = c_switches sample !! id.
Proof.
  refine (handleSwitch_memory memory_lamp " off " false lamp_runtime sample blank (Ok tt) blank
            _ _ _ _); vm_compute; reflexivity.
Defined.

Lemma handleSwitch_gpio_witness :
  ∃ c', handleSwitch sample_lamp "ON" (sample, blank)
        = Some (c', {| t_published := [("home/pi/lamp/state", "OFF")]; t_time := 0 |}) ∧
    c_switches c' = c_switches sample.
Proof.
  refine (handleSwitch_gpio sample_lamp "ON" true lamp_runtime sample blank (Ok tt) blank
            _ _ _ _); vm_compute; reflexivity.
Defined.

Lemma HandleGPIOInput_publishes_witness :
  t_published (HandleGPIOInput "contact" true (sample, blank)).2 = [("home/pi/door/state", "ON")].
Proof.
  rewrite (HandleGPIOInput_publishes t_published tape_publish sample_config sample
             "contact" true blank eq_refl eq_refl).
  vm_compute. reflexivity.
Defined.

Lemma PublishAllStates_publishes_witness :
  ∃ w' msgs, PublishAllStates sample blank = Some w' ∧
    reports t_published sample (cfg_Entities (c_cfg sample)) blank w' msgs ∧
    t_published w' = t_published blank ++ msgs.
Proof.
  exact (PublishAllStates_publishes t_published tape_publish tape_input tape_output
           sample blank eq_refl).
Defined.

Example sample_publishes :
  t_published <$> PublishAllStates sample blank
  = Some [("home/pi/lamp/state", "OFF"); ("home/pi/door/state", "ON")].
Proof. vm_compute. reflexivity. Qed.
