(* ===== verification/Workers.v ===== *)
(** * Package controller: workers, queues and shutdown as a transition system

    The goroutines of [src/controller/controller.go]: one worker per switch and
    button ([runSwitchWorker], [runButtonWorker]), the callbacks that deliver
    MQTT messages and GPIO edges, and [Shutdown].  A step is one atomic action
    of one goroutine; the scheduler is free. *)

From S2P Require Import Prelude GoString GoTime Config Mqtt Dedupe Discovery Controller.
From stdpp Require Import relations.

Open Scope Z_scope.

(** ** Workers *)

Inductive kind : Type := Switch | Button.

#[global] Instance kind_eq_dec : EqDecision kind.
Proof. solve_decision. Defined.
#[global] Program Instance kind_countable : Countable kind :=
  inj_countable' (λ k, match k with Switch => true | Button => false end)
    (λ b, if b then Switch else Button) _.
Next Obligation. by intros []. Qed.

Definition worker : Type := kind * string.

(** Where a worker's goroutine is in its loop. *)
Inductive phase : Type :=
| AtTop                          (* before the first [c.ctx.Err()] *)
| AtSelect                       (* in the select *)
| Got (cmd : entityCommand)      (* received, before the second [c.ctx.Err()] *)
| Busy (cmd : entityCommand)     (* in [handleSwitch] or [handleButton] *)
| Exited.

Definition handler_worker (h : command_handler) : worker :=
  match h with
  | EnqueueSwitch e => (Switch, ent_ID e)
  | EnqueueButton e => (Button, ent_ID e)
  end.

Definition handler_entity (h : command_handler) : EntityConfig :=
  match h with EnqueueSwitch e | EnqueueButton e => e end.

Definition queue_of (c : Controller) (k : worker) : option (list entityCommand) :=
  match k.1 with
  | Switch => sr_queue <$> c_switches c !! k.2
  | Button => br_queue <$> c_buttons c !! k.2
  end.

(** The receive from the worker's channel. *)
Definition set_queue (k : worker) (q : list entityCommand) (c : Controller) : Controller :=
  match k.1 with
  | Switch => match c_switches c !! k.2 with
              | Some rt => set_switch k.2 {| sr_state := sr_state rt; sr_queue := q;
                                             sr_overflow := sr_overflow rt |} c
              | None => c
              end
  | Button => match c_buttons c !! k.2 with
              | Some rt => set_button k.2 {| br_queue := q; br_overflow := br_overflow rt |} c
              | None => c
              end
  end.

(** ** States *)

Section system.
Context {W : Type} `{!GpioManager W, !MqttPublisher W, !ActionExecutor W, !Clock W}.

(** [s_pending]: commands past [acceptMessage] whose send is still to come;
    [s_enqueued] and [s_handled] record what went into and out of each queue. *)
Record system := MkSystem {
  s_ctl : Controller;
  s_world : W;
  s_phase : gmap worker phase;
  s_pending : list (command_handler * Message);
  s_callbacks : nat;
  s_stopping : bool;                 (* Shutdown has set accepting to false *)
  s_waiting : bool;                  (* Shutdown waits on [c.wg] *)
  s_done : bool;                     (* [shutdownDone] is closed *)
  s_enqueued : gmap worker (list entityCommand);
  s_handled : gmap worker (list entityCommand);
}.

Definition enqueued (s : system) (k : worker) : list entityCommand := default [] (s_enqueued s !! k).
Definition handled (s : system) (k : worker) : list entityCommand := default [] (s_handled s !! k).

Definition with_ctl (c : Controller) (s : system) : system :=
  MkSystem c (s_world s) (s_phase s) (s_pending s) (s_callbacks s) (s_stopping s)
    (s_waiting s) (s_done s) (s_enqueued s) (s_handled s).
Definition with_world (w : W) (s : system) : system :=
  MkSystem (s_ctl s) w (s_phase s) (s_pending s) (s_callbacks s) (s_stopping s)
    (s_waiting s) (s_done s) (s_enqueued s) (s_handled s).
Definition with_phase (k : worker) (p : phase) (s : system) : system :=
  MkSystem (s_ctl s) (s_world s) (<[k := p]> (s_phase s)) (s_pending s) (s_callbacks s)
    (s_stopping s) (s_waiting s) (s_done s) (s_enqueued s) (s_handled s).
Definition with_pending (l : list (command_handler * Message)) (s : system) : system :=
  MkSystem (s_ctl s) (s_world s) (s_phase s) l (s_callbacks s) (s_stopping s)
    (s_waiting s) (s_done s) (s_enqueued s) (s_handled s).
Definition with_callbacks (n : nat) (s : system) : system :=
  MkSystem (s_ctl s) (s_world s) (s_phase s) (s_pending s) n (s_stopping s)
    (s_waiting s) (s_done s) (s_enqueued s) (s_handled s).
Definition with_shutdown (stopping waiting done : bool) (s : system) : system :=
  MkSystem (s_ctl s) (s_world s) (s_phase s) (s_pending s) (s_callbacks s) stopping
    waiting done (s_enqueued s) (s_handled s).
Definition log_enqueued (k : worker) (cmd : entityCommand) (s : system) : system :=
  MkSystem (s_ctl s) (s_world s) (s_phase s) (s_pending s) (s_callbacks s) (s_stopping s)
    (s_waiting s) (s_done s) (<[k := enqueued s k ++ [cmd]]> (s_enqueued s)) (s_handled s).
Definition log_handled (k : worker) (cmd : entityCommand) (s : system) : system :=
  MkSystem (s_ctl s) (s_world s) (s_phase s) (s_pending s) (s_callbacks s) (s_stopping s)
    (s_waiting s) (s_done s) (s_enqueued s) (<[k := handled s k ++ [cmd]]> (s_handled s)).

(** The state after [New]: every worker is at the top of its loop. *)
Definition workers (cfg : Config) : gmap worker phase :=
  foldl (λ m e,
    if decide (ent_Type e = "switch") then <[(Switch, ent_ID e) := AtTop]> m
    else if decide (ent_Type e = "button") then <[(Button, ent_ID e) := AtTop]> m
    else m) ∅ (cfg_Entities cfg).

Definition start (cfg : Config) (w : W) : system :=
  MkSystem (New cfg) w (workers cfg) [] 0 false false false ∅ ∅.

(** The handler of a worker's command. *)
Definition handle (k : worker) (cmd : entityCommand) (cw : Controller * W)
    : option (Controller * W) :=
  match k.1 with
  | Switch => handleSwitch (ec_entity cmd) (msg_Payload (ec_message cmd)) cw
  | Button => handleButton (ec_entity cmd) (msg_Payload (ec_message cmd)) cw
  end.

Definition offer (now : Z) (h : command_handler) (m : Message) (c : Controller)
    : option Controller :=
  match h with
  | EnqueueSwitch e => offer_switch now {| ec_entity := e; ec_message := m |} c
  | EnqueueButton e => offer_button now {| ec_entity := e; ec_message := m |} c
  end.

(** There is room in the channel. *)
Definition has_room (c : Controller) (k : worker) : bool :=
  match queue_of c k with
  | Some q => (length q <? EntityQueueCapacity)%nat
  | None => false
  end.

(** ** Steps *)

(** The steps of the worker [k]. *)
Inductive worker_step (k : worker) (s : system) : system → Prop :=
| top_exit :
    s_phase s !! k = Some AtTop → c_cancelled (s_ctl s) = true →
    worker_step k s (with_phase k Exited (with_ctl (wg_Done (s_ctl s)) s))
| top_go :
    s_phase s !! k = Some AtTop → c_cancelled (s_ctl s) = false →
    worker_step k s (with_phase k AtSelect s)
| select_done :
    s_phase s !! k = Some AtSelect → c_cancelled (s_ctl s) = true →
    worker_step k s (with_phase k Exited (with_ctl (wg_Done (s_ctl s)) s))
| select_receive cmd q :
    s_phase s !! k = Some AtSelect → queue_of (s_ctl s) k = Some (cmd :: q) →
    worker_step k s (with_phase k (Got cmd) (with_ctl (set_queue k q (s_ctl s)) s))
| got_exit cmd :
    s_phase s !! k = Some (Got cmd) → c_cancelled (s_ctl s) = true →
    worker_step k s (with_phase k Exited (with_ctl (wg_Done (s_ctl s)) s))
| got_go cmd :
    s_phase s !! k = Some (Got cmd) → c_cancelled (s_ctl s) = false →
    worker_step k s (with_phase k (Busy cmd) s)
| busy_done cmd c' w' :
    s_phase s !! k = Some (Busy cmd) → handle k cmd (s_ctl s, s_world s) = Some (c', w') →
    worker_step k s (with_phase k AtTop (log_handled k cmd (with_world w' (with_ctl c' s)))).

Context (cfg : Config).

(** The closures [Register] has handed out. *)
Definition registered (h : command_handler) : Prop :=
  ∃ e topic, e ∈ cfg_Entities cfg ∧ registration cfg e = Some (topic, h).

(** The other goroutines. *)
Inductive other_step (s : system) : system → Prop :=
| message_arrives now h m c' :
    registered h → acceptMessage now m (s_ctl s) = (true, c') →
    other_step s (with_pending (s_pending s ++ [(h, m)]) (with_ctl c' s))
| message_rejected now m c' :
    acceptMessage now m (s_ctl s) = (false, c') → other_step s (with_ctl c' s)
| message_queued now l1 h m l2 c' :
    s_pending s = l1 ++ (h, m) :: l2 → offer now h m (s_ctl s) = Some c' →
    has_room (s_ctl s) (handler_worker h) = true →
    other_step s
      (log_enqueued (handler_worker h) {| ec_entity := handler_entity h; ec_message := m |}
        (with_pending (l1 ++ l2) (with_ctl c' s)))
| message_dropped now l1 h m l2 c' :
    s_pending s = l1 ++ (h, m) :: l2 → offer now h m (s_ctl s) = Some c' →
    has_room (s_ctl s) (handler_worker h) = false →
    other_step s (with_pending (l1 ++ l2) (with_ctl c' s))
| session_reset : other_step s (with_ctl (set_dedupe resetDedupe (s_ctl s)) s)
| callback_begins c' :
    beginCallback (s_ctl s) = (true, c') →
    other_step s (with_callbacks (S (s_callbacks s)) (with_ctl c' s))
| environment_moves w' : other_step s (with_world w' s)
| parent_cancelled : other_step s (with_ctl (set_cancelled (s_ctl s)) s)
| shutdown_stops :
    other_step s (with_shutdown true (s_waiting s) (s_done s)
                    (with_ctl (stop_accepting (s_ctl s)) s))
| shutdown_cancels :
    s_stopping s = true →
    other_step s (with_shutdown true true (s_done s) (with_ctl (set_cancelled (s_ctl s)) s))
| shutdown_waited :
    s_waiting s = true → c_wg (s_ctl s) = 0%nat →
    other_step s (with_shutdown (s_stopping s) true true s).

(** [defer c.wg.Done()] of a callback. *)
Inductive callback_step (s : system) : system → Prop :=
| callback_ends n :
    s_callbacks s = S n →
    callback_step s (with_callbacks n (with_ctl (wg_Done (s_ctl s)) s)).

Inductive step (s s' : system) : Prop :=
| step_worker k : worker_step k s s' → step s s'
| step_callback : callback_step s s' → step s s'
| step_other : other_step s s' → step s s'.

Definition reachable (w : W) (s : system) : Prop := rtc step (start cfg w) s.
End system.
