(* ===== verification/WorkersProofs.v ===== *)
(** * Package controller: proofs about queues, workers and shutdown

    The invariant of the transition system of [Workers], by induction on its
    steps, and the guarantees it gives: bounded FIFO queues, no lost worker
    count, a shutdown that waits for everything and that ends. *)

From S2P Require Import Prelude GoString GoTime Config Mqtt Dedupe Discovery Controller.
From S2P Require Import ControllerProofs Workers.
From stdpp Require Import relations.

Open Scope Z_scope.

(** ** What the controller's operations leave alone *)

Record same_frame (c c' : Controller) : Prop := {
  sf_cfg : c_cfg c' = c_cfg c;
  sf_cancelled : c_cancelled c' = c_cancelled c;
  sf_wg : c_wg c' = c_wg c;
  sf_accepting : c_accepting c' = c_accepting c;
}.

Definition same_queues (c c' : Controller) : Prop := ∀ k, queue_of c' k = queue_of c k.

#[global] Instance same_frame_preorder : PreOrder same_frame.
Proof. split; [by intros c; split|]. intros c1 c2 c3 [] []. split; congruence. Qed.

Lemma acceptMessage_frame now m c b c' :
  acceptMessage now m c = (b, c') → same_frame c c' ∧ same_queues c c'.
Proof.
  unfold acceptMessage. intros H. repeat case_match; simplify_eq; by split.
Qed.

Lemma beginCallback_true c c' :
  beginCallback c = (true, c') → c_accepting c = true ∧ c_cancelled c = false ∧ c' = set_wg S c.
Proof.
  unfold beginCallback. destruct (negb (c_accepting c) || c_cancelled c) eqn:Hb; [done|].
  intros [= <-]. bool_split. done.
Qed.

Lemma set_switch_queues id rt rt' c :
  c_switches c !! id = Some rt → sr_queue rt' = sr_queue rt →
  same_frame c (set_switch id rt' c) ∧ same_queues c (set_switch id rt' c).
Proof.
  intros Hrt Hq. split; [done|]. intros [[] id']; unfold queue_of; cbn; [|done].
  destruct (decide (id' = id)) as [->|].
  - rewrite lookup_insert_eq, Hrt. cbn. by rewrite Hq.
  - by rewrite lookup_insert_ne.
Qed.

Section handlers.
Context {W : Type} `{!GpioManager W, !MqttPublisher W, !ActionExecutor W, !Clock W}.

Lemma handle_frame k cmd c (w : W) c' w' :
  handle k cmd (c, w) = Some (c', w') → same_frame c c' ∧ same_queues c c'.
Proof.
  destruct k as [[] id]; cbn [handle fst].
  - unfold handleSwitch. destruct (parseSwitchPayload _); [|intros [= <- <-]; done].
    destruct (c_switches c !! _) as [rt|] eqn:Hrt; cbn; [|done].
    destruct (executor_Execute _ w) as [[[]|e] w1]; intros [= <- <-]; [|done].
    apply (set_switch_queues _ rt); [done|]. by case_decide.
  - unfold handleButton. case_match; [by intros [= <- <-]|].
    destruct (c_buttons c !! _); cbn; [|done]. by intros [= <- <-].
Qed.
End handlers.

(** ** Queues *)

Lemma set_queue_frame k q c : same_frame c (set_queue k q c).
Proof. unfold set_queue. destruct k as [[] id]; cbn; by case_match. Qed.

Lemma queue_of_set_queue k q c k' :
  queue_of (set_queue k q c) k' = if decide (k' = k) then (λ _, q) <$> queue_of c k else queue_of c k'.
Proof.
  unfold set_queue, queue_of. destruct k as [[] id], k' as [[] id']; cbn;
    destruct (c_switches c !! id) eqn:Hs, (c_buttons c !! id) eqn:Hb; cbn;
    case_decide as Hd; simplify_eq/=;
    rewrite ?lookup_insert_eq, ?Hs, ?Hb; try done;
    rewrite lookup_insert_ne by congruence; done.
Qed.

Lemma offer_frame now h m c c' :
  offer now h m c = Some c' → same_frame c c'.
Proof.
  destruct h as [e|e]; cbn; unfold offer_switch, offer_button; intros H;
    (apply bind_Some in H as (rt & _ & [= <-])); done.
Qed.

(** A send appends to its own queue if there is room, and to no other. *)
Lemma offer_queue now h m c c' k :
  offer now h m c = Some c' →
  queue_of c' k =
    if decide (k = handler_worker h) then
      (λ q, if has_room c k then q ++ [{| ec_entity := handler_entity h; ec_message := m |}]
            else q) <$> queue_of c k
    else queue_of c k.
Proof.
  destruct h as [e|e]; cbn; unfold offer_switch, offer_button; intros H;
    apply bind_Some in H as (rt & Hrt & [= <-]); cbn in Hrt;
    destruct k as [[] id]; unfold queue_of, has_room, queue_of; cbn;
    case_decide as Hd; simplify_eq/=; try done;
    rewrite ?lookup_insert_eq, ?Hrt; cbn; try (by case_match);
    rewrite lookup_insert_ne by congruence; done.
Qed.

(** ** The invariant *)

Definition is_live (p : phase) : bool := match p with Exited => false | _ => true end.

(** A sum over the workers. *)
Definition total (f : phase → nat) (m : gmap worker phase) : nat :=
  sum_list_with (λ kp, f kp.2) (map_to_list m).

(** The number of worker goroutines that have not returned. *)
Definition live (m : gmap worker phase) : nat := total (λ p, Nat.b2n (is_live p)) m.

(** The command a worker holds. *)
Definition in_hand (p : phase) : list entityCommand :=
  match p with Got cmd | Busy cmd => [cmd] | _ => [] end.

Lemma total_insert f m k p : m !! k = None → total f (<[k := p]> m) = (f p + total f m)%nat.
Proof. intros Hk. unfold total. by rewrite map_to_list_insert. Qed.

Lemma total_change f m k p p' :
  m !! k = Some p → (total f (<[k := p']> m) + f p = total f m + f p')%nat.
Proof.
  intros Hk. rewrite <- (insert_delete_id m k p Hk) at 2. rewrite <- (insert_delete_eq m k p').
  rewrite !total_insert by apply lookup_delete_eq. lia.
Qed.

Lemma total_ge f m k p : m !! k = Some p → (f p ≤ total f m)%nat.
Proof.
  intros Hk. apply (sum_list_with_in (k, p) (λ kp, f kp.2)). by apply elem_of_map_to_list.
Qed.

Lemma live_change m k p p' :
  m !! k = Some p →
  (live (<[k := p']> m) + Nat.b2n (is_live p) = live m + Nat.b2n (is_live p'))%nat.
Proof. apply (total_change (λ p, Nat.b2n (is_live p))). Qed.

Section invariant.
Context {W : Type} `{!GpioManager W, !MqttPublisher W, !ActionExecutor W, !Clock W}.
Context (cfg : Config).
Implicit Types (s : system (W := W)).

(** The command of a worker's queue concerns this worker's entity. *)
Definition owned_by (k : worker) (cmd : entityCommand) : Prop :=
  ∃ h, registered cfg h ∧ handler_worker h = k ∧ handler_entity h = ec_entity cmd.

(** Everything sent to a worker, in order: handled, at most one command
    dropped when the worker left, in hand, queued. *)
Definition worker_inv s (k : worker) (p : phase) (q : list entityCommand) : Prop :=
  (length q ≤ EntityQueueCapacity)%nat ∧
  (∃ lost, enqueued s k = handled s k ++ lost ++ in_hand p ++ q ∧
           (length lost ≤ 1)%nat ∧ (is_live p = true → lost = [])) ∧
  Forall (owned_by k) (in_hand p ++ q).

Record sys_inv s : Prop := {
  si_cfg : c_cfg (s_ctl s) = cfg;
  si_workers : ∀ k, match s_phase s !! k, queue_of (s_ctl s) k with
                    | Some p, Some q => worker_inv s k p q
                    | None, None => enqueued s k = [] ∧ handled s k = []
                    | _, _ => False
                    end;
  si_registered : ∀ h, registered cfg h → is_Some (s_phase s !! handler_worker h);
  si_pending : ∀ h m, (h, m) ∈ s_pending s → registered cfg h;
  si_wg : c_wg (s_ctl s) = (s_callbacks s + live (s_phase s))%nat;
  si_stopping : s_stopping s = true → c_accepting (s_ctl s) = false;
  si_waiting : s_waiting s = true → s_stopping s = true ∧ c_cancelled (s_ctl s) = true;
  si_done : s_done s = true → s_waiting s = true ∧ c_wg (s_ctl s) = 0%nat;
}.

(** Only the controller changed, within its frame. *)
Lemma inv_with_ctl s c :
  sys_inv s → same_frame (s_ctl s) c → same_queues (s_ctl s) c → sys_inv (with_ctl c s).
Proof.
  intros [] [] Hq. split; cbn; try congruence; try done.
  - intros k. rewrite Hq. apply si_workers0.
  - rewrite sf_accepting0. done.
  - rewrite sf_cancelled0. done.
  - rewrite sf_wg0. done.
Qed.

Lemma inv_worker_at s k p :
  sys_inv s → s_phase s !! k = Some p →
  ∃ q, queue_of (s_ctl s) k = Some q ∧ worker_inv s k p q.
Proof.
  intros Hi Hp. pose proof (si_workers s Hi k) as H. rewrite Hp in H.
  destruct (queue_of (s_ctl s) k) as [q|]; [|done]. by exists q.
Qed.

(** A worker moves from a live phase with what it holds and its queue
    unchanged. *)
Lemma inv_with_phase s k p p' :
  sys_inv s → s_phase s !! k = Some p → is_live p = is_live p' →
  in_hand p' = in_hand p → sys_inv (with_phase k p' s).
Proof.
  intros Hi Hp Hlive Hh. pose proof (live_change _ _ _ p' Hp) as Hl.
  destruct (inv_worker_at _ _ _ Hi Hp) as (q & Hq & Hw).
  destruct Hi. split; cbn; try done.
  - intros k'. destruct (decide (k' = k)) as [->|Hne].
    + rewrite lookup_insert_eq, Hq. unfold worker_inv in *. cbn. by rewrite Hh, <- Hlive.
    + rewrite lookup_insert_ne by done. apply si_workers0.
  - intros h Hr. rewrite lookup_insert_is_Some'. right. auto.
  - rewrite Hlive in Hl. lia.
Qed.

(** A worker returns, dropping what it holds. *)
Lemma inv_exit s k p :
  sys_inv s → s_phase s !! k = Some p → is_live p = true →
  sys_inv (with_phase k Exited (with_ctl (wg_Done (s_ctl s)) s)).
Proof.
  intros Hi Hp Hlive. pose proof (live_change _ _ _ Exited Hp) as Hl.
  destruct (inv_worker_at _ _ _ Hi Hp) as (q & Hq & Hlen & (lost & He & Hlost & Hnone) & Hown).
  destruct Hi. split; cbn; try done.
  - intros k'. change (queue_of (wg_Done (s_ctl s)) k') with (queue_of (s_ctl s) k').
    destruct (decide (k' = k)) as [->|Hne].
    + rewrite lookup_insert_eq, Hq. split; [done|]. split.
      * exists (in_hand p). rewrite Hnone in He by done. split; [done|].
        split; [|done]. destruct p; cbn; lia.
      * by apply Forall_app in Hown as [_ Hown].
    + rewrite lookup_insert_ne by done. apply si_workers0.
  - intros h Hr. rewrite lookup_insert_is_Some'. right. auto.
  - rewrite Hlive in Hl. cbn in Hl. lia.
  - intros Hd. destruct (si_done0 Hd). split; [done|lia].
Qed.

(** The receive from the channel. *)
Lemma inv_receive s k cmd q :
  sys_inv s → s_phase s !! k = Some AtSelect → queue_of (s_ctl s) k = Some (cmd :: q) →
  sys_inv (with_phase k (Got cmd) (with_ctl (set_queue k q (s_ctl s)) s)).
Proof.
  intros Hi Hp Hq. pose proof (live_change _ _ _ (Got cmd) Hp) as Hl.
  destruct (inv_worker_at _ _ _ Hi Hp) as (q' & Hq' & Hlen & (lost & He & Hlost & Hnone) & Hown).
  rewrite Hq in Hq'. injection Hq' as <-. pose proof (set_queue_frame k q (s_ctl s)) as [].
  destruct Hi. split; cbn; try congruence; try done.
  - intros k'. rewrite queue_of_set_queue. destruct (decide (k' = k)) as [->|Hne].
    + rewrite lookup_insert_eq, Hq. cbn. split; [cbn in Hlen; lia|]. split.
      * exists lost. split; [exact He|]. split; [done|]. intros _. by apply Hnone.
      * exact Hown.
    + rewrite lookup_insert_ne by done. apply si_workers0.
  - intros h Hr. rewrite lookup_insert_is_Some'. right. auto.
  - rewrite sf_wg0. cbn in Hl. lia.
  - rewrite sf_accepting0. done.
  - rewrite sf_cancelled0. done.
  - rewrite sf_wg0. done.
Qed.

(** A handler has returned. *)
Lemma inv_handled s k cmd c' w' :
  sys_inv s → s_phase s !! k = Some (Busy cmd) →
  handle k cmd (s_ctl s, s_world s) = Some (c', w') →
  sys_inv (with_phase k AtTop (log_handled k cmd (with_world w' (with_ctl c' s)))).
Proof.
  intros Hi Hp Hh. apply handle_frame in Hh as [[] Hqs].
  pose proof (live_change _ _ _ AtTop Hp) as Hl.
  destruct (inv_worker_at _ _ _ Hi Hp) as (q & Hq & Hlen & (lost & He & Hlost & Hnone) & Hown).
  rewrite Hnone in He by done.
  destruct Hi. split; cbn; try congruence; try done.
  - intros k'. rewrite Hqs. unfold worker_inv, enqueued, handled. cbn.
    destruct (decide (k' = k)) as [->|Hne].
    + rewrite !lookup_insert_eq, Hq. cbn. split; [done|]. split.
      * exists []. fold (enqueued s k) (handled s k). rewrite He. cbn.
        split; [by rewrite <- (assoc_L (++))|]. split; [lia|done].
      * by apply Forall_app in Hown as [_ Hown].
    + rewrite !lookup_insert_ne by done. apply si_workers0.
  - intros h Hr. rewrite lookup_insert_is_Some'. right. auto.
  - rewrite sf_wg0. cbn in Hl. lia.
  - rewrite sf_accepting0. done.
  - rewrite sf_cancelled0. done.
  - rewrite sf_wg0. done.
Qed.

Lemma inv_worker_step k s s' : sys_inv s → worker_step k s s' → sys_inv s'.
Proof.
  intros Hi [].
  - by apply (inv_exit s k AtTop).
  - by apply (inv_with_phase s k AtTop).
  - by apply (inv_exit s k AtSelect).
  - by apply inv_receive.
  - by apply (inv_exit s k (Got cmd)).
  - by apply (inv_with_phase s k (Got cmd)).
  - by apply inv_handled.
Qed.

(** *** The other goroutines *)

Lemma enqueued_log k cmd s k' :
  enqueued (log_enqueued k cmd s) k'
  = if decide (k' = k) then enqueued s k ++ [cmd] else enqueued s k'.
Proof.
  unfold enqueued at 1. cbn. case_decide as Hk; [subst; by rewrite lookup_insert_eq|].
  by rewrite lookup_insert_ne.
Qed.

Lemma inv_callback_step s s' : sys_inv s → callback_step s s' → sys_inv s'.
Proof.
  intros [] [n Hn]. split; cbn; try done.
  - lia.
  - intros Hd. destruct (si_done0 Hd). lia.
Qed.

Lemma inv_send s s1 now l1 h m l2 c' :
  sys_inv s → s_pending s = l1 ++ (h, m) :: l2 → offer now h m (s_ctl s) = Some c' →
  s1 = with_pending (l1 ++ l2) (with_ctl c' s) →
  sys_inv (if has_room (s_ctl s) (handler_worker h)
           then log_enqueued (handler_worker h)
                  {| ec_entity := handler_entity h; ec_message := m |} s1
           else s1).
Proof.
  intros Hi Hp Ho ->. set (k := handler_worker h). set (cmd := {| ec_message := m |}).
  pose proof (offer_frame _ _ _ _ _ Ho) as [].
  pose proof (λ k', offer_queue _ _ _ _ _ k' Ho) as Hq. fold k cmd in Hq.
  assert (registered cfg h) as Hreg.
  { apply (si_pending _ Hi h m). rewrite Hp. set_solver. }
  destruct (si_registered _ Hi h Hreg) as [p Hphase]. fold k in Hphase.
  destruct (inv_worker_at _ _ _ Hi Hphase) as (q & Hqk & Hlen & (lost & He & Hl) & Hown).
  assert (Hroom : has_room (s_ctl s) k = true → (length q < EntityQueueCapacity)%nat).
  { unfold has_room. rewrite Hqk. apply Nat.ltb_lt. }
  destruct Hi. destruct (has_room (s_ctl s) k) eqn:Hr.
  - split; cbn; rewrite ?sf_cfg0, ?sf_wg0, ?sf_accepting0, ?sf_cancelled0; try done.
    + intros k'. rewrite Hq. destruct (decide (k' = k)) as [->|Hne].
      * rewrite Hphase, Hqk, Hr. cbn [fmap option_fmap option_map].
        split; [rewrite length_app; cbn; specialize (Hroom eq_refl); lia|]. split.
        -- exists lost. rewrite enqueued_log, decide_True by done.
           change (enqueued s k ++ [cmd] = handled s k ++ lost ++ in_hand p ++ q ++ [cmd] ∧
                   (length lost <= 1)%nat ∧ (is_live p = true → lost = [])).
           rewrite He. split; [|done]. by rewrite <- !(assoc_L (++)).
        -- rewrite (assoc_L (++)). apply Forall_app. split; [done|]. repeat constructor.
           by exists h.
      * unfold worker_inv. rewrite enqueued_log, decide_False by done. apply si_workers0.
    + intros h' m' Hin. apply (si_pending0 h' m'). rewrite Hp. set_solver.
  - split; cbn; rewrite ?sf_cfg0, ?sf_wg0, ?sf_accepting0, ?sf_cancelled0; try done.
    + intros k'. rewrite Hq. destruct (decide (k' = k)) as [->|Hne]; [|apply si_workers0].
      rewrite Hr, Hqk. cbn. specialize (si_workers0 k). by rewrite Hqk in si_workers0.
    + intros h' m' Hin. apply (si_pending0 h' m'). rewrite Hp. set_solver.
Qed.

Lemma inv_other_step s s' : sys_inv s → other_step cfg s s' → sys_inv s'.
Proof.
  intros Hi [].
  - apply acceptMessage_frame in H0 as [Hf Hq]. apply (inv_with_ctl _ _ Hi Hf) in Hq as [].
    split; try done. cbn. intros h' m'. rewrite elem_of_app, list_elem_of_singleton.
    intros [Hin|[= -> ->]]; [by eapply si_pending0|done].
  - apply acceptMessage_frame in H as [Hf Hq]. by apply inv_with_ctl.
  - pose proof (inv_send _ _ _ _ _ _ _ _ Hi H H0 eq_refl) as Hs. by rewrite H1 in Hs.
  - pose proof (inv_send _ _ _ _ _ _ _ _ Hi H H0 eq_refl) as Hs. by rewrite H1 in Hs.
  - by apply inv_with_ctl.
  - apply beginCallback_true in H as (Hacc & Hcan & ->). destruct Hi. split; cbn; try done.
    + lia.
    + intros Hd. destruct (si_done0 Hd) as [Hw _].
      destruct (si_waiting0 Hw) as [Hst _]. rewrite si_stopping0 in Hacc; done.
  - destruct Hi. by split.
  - destruct Hi. split; cbn; try done. intros Hw. by destruct (si_waiting0 Hw).
  - destruct Hi. split; cbn; try done. intros Hw. by destruct (si_waiting0 Hw).
  - destruct Hi. split; cbn; try done; auto. intros Hd. by destruct (si_done0 Hd).
  - destruct Hi. split; cbn; try done; auto.
Qed.

Lemma inv_step s s' : sys_inv s → step cfg s s' → sys_inv s'.
Proof.
  intros Hi [k Hs|Hs|Hs]; eauto using inv_worker_step, inv_callback_step, inv_other_step.
Qed.
End invariant.

(** *** The initial state *)

Definition add_worker (m : gmap worker phase) (e : EntityConfig) : gmap worker phase :=
  if decide (ent_Type e = "switch") then <[(Switch, ent_ID e) := AtTop]> m
  else if decide (ent_Type e = "button") then <[(Button, ent_ID e) := AtTop]> m
  else m.

Lemma live_insert m k : m !! k = None → live (<[k := AtTop]> m) = S (live m).
Proof. apply (total_insert (λ p, Nat.b2n (is_live p))). Qed.

(** A controller whose queues are empty, one worker per queue. *)
Record fresh_workers (cfg : Config) (c : Controller) (m : gmap worker phase) : Prop := {
  fw_cfg : c_cfg c = cfg;
  fw_pairs : ∀ k, match m !! k, queue_of c k with
                  | Some p, Some q => p = AtTop ∧ q = []
                  | None, None => True
                  | _, _ => False
                  end;
  fw_wg : c_wg c = live m;
}.

Lemma fresh_add cfg c m k c' :
  fresh_workers cfg c m → m !! k = None → c_cfg c' = c_cfg c → c_wg c' = S (c_wg c) →
  queue_of c' k = Some [] → (∀ k', k' ≠ k → queue_of c' k' = queue_of c k') →
  fresh_workers cfg c' (<[k := AtTop]> m).
Proof.
  intros [Hc Hp Hw] Hk Hcfg Hwg Hqk Hq. split.
  - congruence.
  - intros k'. destruct (decide (k' = k)) as [->|Hne].
    + by rewrite lookup_insert_eq, Hqk.
    + rewrite lookup_insert_ne, Hq by done. apply Hp.
  - rewrite live_insert by done. congruence.
Qed.

Lemma queue_of_new_switch id rt c k :
  queue_of (set_wg S (set_switch id rt c)) k
  = if decide (k = (Switch, id)) then Some (sr_queue rt) else queue_of c k.
Proof.
  destruct k as [[] id']; unfold queue_of; cbn; case_decide as Hd; simplify_eq; try done.
  - by rewrite lookup_insert_eq.
  - by rewrite lookup_insert_ne by congruence.
Qed.

Lemma queue_of_new_button id rt c k :
  queue_of (set_wg S (set_button id rt c)) k
  = if decide (k = (Button, id)) then Some (br_queue rt) else queue_of c k.
Proof.
  destruct k as [[] id']; unfold queue_of; cbn; case_decide as Hd; simplify_eq; try done.
  - by rewrite lookup_insert_eq.
  - by rewrite lookup_insert_ne by congruence.
Qed.

Lemma fresh_add_entity cfg c m e :
  fresh_workers cfg c m → m !! (Switch, ent_ID e) = None → m !! (Button, ent_ID e) = None →
  fresh_workers cfg (add_entity c e) (add_worker m e).
Proof.
  intros Hf Hs Hb. unfold add_entity, add_worker. repeat case_decide.
  - apply (fresh_add _ c); [done..| |]; intros; rewrite queue_of_new_switch;
      [by rewrite decide_True|by rewrite decide_False].
  - apply (fresh_add _ c); [done..| |]; intros; rewrite queue_of_new_button;
      [by rewrite decide_True|by rewrite decide_False].
  - by destruct Hf.
  - done.
Qed.

Lemma add_worker_other m e k : k.2 ≠ ent_ID e → add_worker m e !! k = m !! k.
Proof.
  intros Hk. unfold add_worker. repeat case_decide; [..|done];
    (rewrite lookup_insert_ne; [done|]); intros <-; by destruct Hk.
Qed.

Lemma fresh_foldl cfg l c m :
  fresh_workers cfg c m → NoDup (map ent_ID l) →
  (∀ k, k.2 ∈ map ent_ID l → m !! k = None) →
  fresh_workers cfg (foldl add_entity c l) (foldl add_worker m l).
Proof.
  revert c m. induction l as [|e l IH]; intros c m Hf Hn Hm; [done|]. cbn in *.
  apply NoDup_cons in Hn as [He Hn].
  apply IH; [|done|].
  - apply fresh_add_entity; [done|..]; apply Hm; left.
  - intros k Hk. rewrite add_worker_other; [|intros Heq; apply He; by rewrite <- Heq]. apply Hm. by right.
Qed.

Lemma add_worker_mono l m k :
  is_Some (m !! k) → is_Some (foldl add_worker m l !! k).
Proof.
  revert m. induction l as [|e l IH]; intros m Hk; [done|]. apply IH.
  unfold add_worker. repeat case_decide; rewrite ?lookup_insert_is_Some'; auto.
Qed.

(** Every registered closure has its worker. *)
Lemma workers_registered cfg h :
  registered cfg h → is_Some (workers cfg !! handler_worker h).
Proof.
  intros (e & topic & He & Hr). apply list_elem_of_split in He as (l1 & l2 & Hl).
  unfold workers. rewrite Hl, foldl_app. cbn [foldl]. apply add_worker_mono.
  unfold registration in Hr. unfold add_worker.
  repeat case_decide; simplify_eq/=; apply lookup_insert_is_Some'; by left.
Qed.

Section guarantees.
Context {W : Type} `{!GpioManager W, !MqttPublisher W, !ActionExecutor W, !Clock W}.
Context (cfg : Config) (Hids : NoDup (map ent_ID (cfg_Entities cfg))).
Implicit Types (s : system (W := W)) (w : W).

Lemma inv_start w : sys_inv cfg (start cfg w).
Proof using Hids.
  assert (fresh_workers cfg (New cfg) (workers cfg)) as [Hc Hp Hw].
  { unfold New, workers. apply (fresh_foldl cfg); [|done|intros; apply lookup_empty].
    split; [done| |done].
    intros [[] id]; unfold queue_of; cbn; by rewrite !lookup_empty. }
  split; cbn; try done.
  - intros k. specialize (Hp k).
    destruct (workers cfg !! k), (queue_of (New cfg) k); try done.
    destruct Hp as [-> ->]. split; [cbn; lia|]. split; [|constructor].
    exists []. split; [done|]. split; [cbn; lia|done].
  - intros h Hr. by apply workers_registered.
  - intros h m Hin. by apply elem_of_nil in Hin.
Qed.

(** Every property of a reachable state comes from the invariant. *)
Lemma reachable_inv w s : reachable cfg w s → sys_inv cfg s.
Proof using Hids.
  intros Hr. assert (sys_inv cfg (start cfg w)) as Hi by apply inv_start.
  revert Hi. unfold reachable in Hr. induction Hr; eauto using inv_step.
Qed.

(** C7: a command queue never holds more than 32 commands, and commands are
    handled in the order they were queued: what a worker has handled is a prefix
    of what was queued for it, and while the worker runs nothing in between is
    lost. *)
Theorem queues_bounded_fifo w s k p q :
  reachable cfg w s → s_phase s !! k = Some p → queue_of (s_ctl s) k = Some q →
  (length q ≤ EntityQueueCapacity)%nat ∧ handled s k `prefix_of` enqueued s k ∧
  (p ≠ Exited → enqueued s k = handled s k ++ in_hand p ++ q).
Proof using Hids.
  intros Hr%reachable_inv Hp Hq. destruct (inv_worker_at _ _ _ _ Hr Hp) as (q' & Hq' & Hw).
  rewrite Hq in Hq'. injection Hq' as <-. destruct Hw as (Hlen & (lost & He & _ & Hl) & _).
  split_and!; [done| |].
  - rewrite He. by eexists.
  - intros Hne. rewrite He, Hl; [done|]. by destruct p.
Qed.

(** C5: [Shutdown] returns nil only after everything has stopped: once
    [shutdownDone] is closed every worker has returned, no callback is running,
    and none of them ever moves again. *)
Theorem shutdown_waits_for_all w s s' :
  reachable cfg w s → s_done s = true → rtc (step cfg) s s' →
  (∀ k p, s_phase s' !! k = Some p → p = Exited) ∧ s_callbacks s' = 0%nat ∧
  (∀ k, handled s' k = handled s k).
Proof using Hids.
  intros Hr Hd Hs.
  assert (∀ s, reachable cfg w s → s_done s = true →
    (∀ k p, s_phase s !! k = Some p → p = Exited) ∧ s_callbacks s = 0%nat) as Hstop.
  { intros s1 Hr1%reachable_inv Hd1. destruct Hr1. destruct (si_done0 Hd1) as [_ Hz].
    split; [|lia]. intros k p Hp.
    pose proof (total_ge (λ p, Nat.b2n (is_live p)) _ _ _ Hp) as Hge.
    unfold live in si_wg0. destruct p; cbn in Hge; (done || lia). }
  revert Hr Hd. induction Hs as [s|s s1 s2 Hst Hs IH]; intros Hr Hd.
  { destruct (Hstop s Hr Hd). auto. }
  assert (reachable cfg w s1) as Hr1 by (by eapply rtc_r).
  destruct (Hstop s Hr Hd) as [Hph Hcb].
  assert (s_done s1 = true ∧ ∀ k, handled s1 k = handled s k) as [Hd1 Hh1].
  { destruct Hst as [k Hw|Hc|Ho].
    - destruct Hw; match goal with H : s_phase _ !! _ = Some _ |- _ => by apply Hph in H end.
    - destruct Hc. congruence.
    - by destruct Ho. }
  destruct (IH Hr1 Hd1) as (? & ? & Hh). split_and!; [done..|]. intros k. by rewrite Hh.
Qed.

(** *** Cancellation *)

Lemma cancelled_step s s' :
  c_cancelled (s_ctl s) = true → step cfg s s' → c_cancelled (s_ctl s') = true.
Proof.
  intros Hc [k Hs|Hs|Hs]; destruct Hs; cbn; try done.
  - by rewrite (sf_cancelled _ _ (set_queue_frame k q (s_ctl s))).
  - apply handle_frame in H0 as [[] _]. congruence.
  - apply acceptMessage_frame in H0 as [[] _]. congruence.
  - apply acceptMessage_frame in H as [[] _]. congruence.
  - apply offer_frame in H0 as []. congruence.
  - apply offer_frame in H0 as []. congruence.
  - apply beginCallback_true in H as (_ & ? & _). congruence.
Qed.

Lemma cancelled_steps s s' :
  c_cancelled (s_ctl s) = true → rtc (step cfg) s s' → c_cancelled (s_ctl s') = true.
Proof. intros Hc Hs. revert Hc. induction Hs; eauto using cancelled_step. Qed.

(** What a worker may still do once the context is cancelled: finish the
    handler it is in. *)
Definition winding_down s (k : worker) s' : Prop :=
  (handled s' k = handled s k ∧
   ∀ cmd, s_phase s' !! k = Some (Busy cmd) → s_phase s !! k = Some (Busy cmd)) ∨
  (∃ cmd, s_phase s !! k = Some (Busy cmd) ∧ handled s' k = handled s k ++ [cmd] ∧
   ∀ cmd', s_phase s' !! k ≠ Some (Busy cmd')).

Lemma winding_other s k k' p s1 s2 :
  k' ≠ k → s_phase s2 = <[k := p]> (s_phase s1) → handled s2 k' = handled s1 k' →
  winding_down s k' s1 → winding_down s k' s2.
Proof.
  intros Hne Hp Hh. unfold winding_down. rewrite Hp, Hh, lookup_insert_ne by done. done.
Qed.

(** A move of [k] that is neither the start nor the end of a handler. *)
Lemma winding_move s k p s1 s2 :
  (∀ cmd, p ≠ Busy cmd) → s_phase s2 = <[k := p]> (s_phase s1) →
  (∀ k', handled s2 k' = handled s1 k') →
  (∀ k', winding_down s k' s1) → ∀ k', winding_down s k' s2.
Proof.
  intros Hp Hph Hh Hw k'. destruct (decide (k' = k)) as [->|Hne]; [|by eapply winding_other].
  unfold winding_down. rewrite Hph, Hh, lookup_insert_eq.
  destruct (Hw k) as [[H1 H2]|(cmd & H1 & H2 & H3)].
  - left. split; [done|]. intros cmd [= ->]. by destruct (Hp cmd).
  - right. exists cmd. split_and!; [done..|]. intros cmd' [= ->]. by destruct (Hp cmd').
Qed.

Lemma handled_log k cmd s k' :
  handled (log_handled k cmd s) k'
  = if decide (k' = k) then handled s k ++ [cmd] else handled s k'.
Proof.
  unfold handled at 1. cbn. case_decide as Hk; [subst; by rewrite lookup_insert_eq|].
  by rewrite lookup_insert_ne.
Qed.

Lemma winding_worker_step s k0 s1 s2 :
  c_cancelled (s_ctl s1) = true → worker_step k0 s1 s2 →
  (∀ k, winding_down s k s1) → ∀ k, winding_down s k s2.
Proof.
  intros Hc Hs Hw. destruct Hs; try congruence;
    try (eapply winding_move; [|reflexivity|done|exact Hw]; done).
  intros k. destruct (decide (k = k0)) as [->|Hne].
  - right. exists cmd. destruct (Hw k0) as [[H1 H2]|(cmd' & H1 & H2 & H3)].
    + split; [by apply H2|]. rewrite <- H1. split.
      * exact (eq_trans (handled_log k0 cmd _ k0) (decide_True _ _ eq_refl)).
      * intros cmd'. cbn. by rewrite lookup_insert_eq.
    + by destruct (H3 cmd).
  - apply (winding_other s k0 k AtTop s1); [done|done| |apply Hw].
    exact (eq_trans (handled_log k0 cmd _ k) (decide_False _ _ Hne)).
Qed.

(** C23: once the context is cancelled no command is started: every worker
    finishes at most the one handler it is in. *)
Theorem no_new_work_after_cancel s s' k :
  c_cancelled (s_ctl s) = true → rtc (step cfg) s s' →
  handled s' k = handled s k ∨
  ∃ cmd, s_phase s !! k = Some (Busy cmd) ∧ handled s' k = handled s k ++ [cmd].
Proof using.
  intros Hc Hs.
  enough (c_cancelled (s_ctl s') = true ∧ ∀ k, winding_down s k s') as [_ Hw].
  { destruct (Hw k) as [[? _]|(cmd & ? & ? & _)]; eauto. }
  revert s' Hs. apply (rtc_ind_r (λ s', c_cancelled (s_ctl s') = true ∧ ∀ k, winding_down s k s')).
  - split; [done|]. intros k'. left. auto.
  - intros s1 s2 _ Hst [Hc1 Hw1]. split; [by eapply cancelled_step|].
    destruct Hst as [k0 Hs|Hs|Hs].
    + by eapply winding_worker_step.
    + destruct Hs. exact Hw1.
    + destruct Hs; exact Hw1.
Qed.

(** *** Progress *)

(** What is left to do before everything has returned. *)
Definition weight (p : phase) : nat :=
  match p with AtSelect | Busy _ => 2 | AtTop | Got _ => 1 | Exited => 0 end.

Definition remaining_work s : nat := (s_callbacks s + total weight (s_phase s))%nat.

(** A step of a worker or the end of a callback. *)
Definition internal_step s s' : Prop := (∃ k, worker_step k s s') ∨ callback_step s s'.

Lemma internal_decreases s s' :
  c_cancelled (s_ctl s) = true → internal_step s s' →
  (remaining_work s' < remaining_work s)%nat.
Proof.
  intros Hc [[k Hs]|Hs].
  - destruct Hs; try congruence; unfold remaining_work; cbn;
      match goal with H : s_phase ?s !! ?k = Some _ |- context [<[_ := ?p']> _] =>
        pose proof (total_change weight _ _ _ p' H) as Ht end; cbn in Ht; lia.
  - destruct Hs. unfold remaining_work. cbn. lia.
Qed.

Lemma handle_total k cmd q (c : Controller) w :
  owned_by cfg k cmd → queue_of c k = Some q → ∃ c' w', handle k cmd (c, w) = Some (c', w').
Proof.
  intros (h & _ & <- & Hent) Hq. destruct h as [e|e]; cbn in Hent, Hq |- *; subst e;
    unfold queue_of in Hq; cbn in Hq.
  - unfold handleSwitch. destruct (parseSwitchPayload _); [|by eauto].
    destruct (c_switches c !! _); [|done]. cbn. repeat case_match; eauto.
  - unfold handleButton. case_match; [by eauto|].
    destruct (c_buttons c !! _); [|done]. cbn. eauto.
Qed.

(** C4: no handler dereferences a missing runtime: in every reachable state a
    worker that is in its handler has a handler that runs to its end, and a
    command that was accepted has a queue to go to. *)
Theorem handlers_never_panic w s :
  reachable cfg w s →
  (∀ k cmd, s_phase s !! k = Some (Busy cmd) →
     ∃ c' w', handle k cmd (s_ctl s, s_world s) = Some (c', w')) ∧
  (∀ now h m, (h, m) ∈ s_pending s → is_Some (offer now h m (s_ctl s))).
Proof using Hids.
  intros Hr%reachable_inv. split.
  - intros k cmd Hp. destruct (inv_worker_at _ _ _ _ Hr Hp) as (q & Hq & _ & _ & Hown).
    eapply handle_total; [|exact Hq]. by apply Forall_cons in Hown as [Hown _].
  - intros now h m Hin. apply (si_pending _ _ Hr) in Hin.
    apply (si_registered _ _ Hr) in Hin as [p Hp].
    destruct (inv_worker_at _ _ _ _ Hr Hp) as (q & Hq & _). unfold queue_of in Hq.
    destruct h as [e|e]; cbn in *; unfold offer_switch, offer_button; cbn.
    + destruct (c_switches (s_ctl s) !! ent_ID e); cbn; [eauto|done].
    + destruct (c_buttons (s_ctl s) !! ent_ID e); cbn; [eauto|done].
Qed.

Lemma internal_step_step s s' : internal_step s s' → step cfg s s'.
Proof. intros [[k Hs]|Hs]; [by eapply step_worker|by apply step_callback]. Qed.

Lemma total_pos f m : (0 < total f m)%nat → ∃ k p, m !! k = Some p ∧ (0 < f p)%nat.
Proof.
  unfold total. intros Hpos.
  assert (∀ l, (0 < sum_list_with (λ kp : worker * phase, f kp.2) l)%nat →
            ∃ kp, kp ∈ l ∧ (0 < f kp.2)%nat) as H.
  { induction l as [|kp l IH]; cbn; [lia|]. intros Hl.
    destruct (decide (0 < f kp.2)%nat); [exists kp; split; [left|done]|].
    destruct IH as (kp' & ? & ?); [lia|]. exists kp'. split; [by right|done]. }
  apply H in Hpos as ([k p] & Hin%elem_of_map_to_list & Hp). eauto.
Qed.

Lemma internal_progress w s :
  reachable cfg w s → c_cancelled (s_ctl s) = true → c_wg (s_ctl s) ≠ 0%nat →
  ∃ s', internal_step s s'.
Proof using Hids.
  intros Hr Hc Hwg. destruct (handlers_never_panic w s Hr) as [Hbusy _].
  apply reachable_inv in Hr. destruct Hr.
  destruct (s_callbacks s) as [|n] eqn:Hcb; [|eexists; right; by constructor].
  destruct (total_pos (λ p, Nat.b2n (is_live p)) (s_phase s)) as (k & p & Hp & Hl).
  { unfold live in si_wg0. lia. }
  destruct p as [| |cmd|cmd|]; cbn in Hl; [..|lia].
  - eexists. left. exists k. by apply top_exit.
  - eexists. left. exists k. by apply select_done.
  - eexists. left. exists k. by eapply got_exit.
  - destruct (Hbusy k cmd Hp) as (c' & w' & Hh). eexists. left. exists k. by eapply busy_done.
Qed.

Lemma internal_bounded n s s' :
  c_cancelled (s_ctl s) = true → nsteps internal_step n s s' →
  (n + remaining_work s' ≤ remaining_work s)%nat.
Proof.
  intros Hc Hs. induction Hs as [|n s s1 s2 Hst Hs IH]; [lia|].
  pose proof (internal_decreases _ _ Hc Hst).
  assert (c_cancelled (s_ctl s1) = true) as Hc1
    by (eapply cancelled_step; [exact Hc|by apply internal_step_step]).
  specialize (IH Hc1). lia.
Qed.

Lemma drains n w s :
  (remaining_work s < n)%nat → reachable cfg w s → s_waiting s = true →
  ∃ s', rtc (step cfg) s s' ∧ s_done s' = true.
Proof using Hids.
  revert s. induction n as [|n IH]; intros s Hn Hr Hw; [lia|].
  assert (c_cancelled (s_ctl s) = true) as Hc
    by (apply reachable_inv in Hr; destruct Hr; by apply si_waiting0).
  destruct (decide (c_wg (s_ctl s) = 0%nat)) as [Hz|Hnz].
  { eexists. split; [apply rtc_once, step_other; by apply shutdown_waited|done]. }
  destruct (internal_progress w s Hr Hc Hnz) as [s1 Hs1].
  pose proof (internal_decreases _ _ Hc Hs1) as Hdec.
  apply internal_step_step in Hs1 as Hst.
  destruct (IH s1) as (s2 & Hs2 & Hd); [lia|by eapply rtc_r| |].
  - destruct Hs1 as [[k Hs1]|Hs1]; by destruct Hs1.
  - exists s2. split; [by eapply rtc_l|done].
Qed.

(** C6: [Shutdown] ends.  Once it waits, workers and callbacks can make at most
    [remaining_work] more steps (two per worker, one per callback), none of them
    is ever stuck, and [shutdownDone] is closed after the last one. *)
Theorem shutdown_terminates w s :
  reachable cfg w s → s_waiting s = true →
  (∀ n s', nsteps internal_step n s s' → (n ≤ remaining_work s)%nat) ∧
  (∀ s', rtc (step cfg) s s' → c_wg (s_ctl s') ≠ 0%nat → ∃ s'', internal_step s' s'') ∧
  (∃ s', rtc (step cfg) s s' ∧ s_done s' = true).
Proof using Hids.
  intros Hr Hw.
  assert (c_cancelled (s_ctl s) = true) as Hc
    by (apply reachable_inv in Hr; destruct Hr; by apply si_waiting0).
  split_and!.
  - intros n s' Hs. pose proof (internal_bounded _ _ _ Hc Hs). lia.
  - intros s' Hs Hwg. apply (internal_progress w); [by unfold reachable in *; etrans| |done].
    by eapply cancelled_steps.
  - by eapply drains; [apply Nat.lt_succ_diag_r|..].
Qed.
End guarantees.

(** ** A concrete run *)

Definition on_message : Message :=
  {| msg_Topic := "home/pi/lamp/set"; msg_Payload := "on"; msg_Retained := false;
     msg_Duplicate := false; msg_QoS := 1; msg_MessageID := 7 |}.

Definition lamp : worker := (Switch, "lamp").
Definition bell : worker := (Button, "bell").
Definition lamp_command : entityCommand := {| ec_entity := sample_lamp; ec_message := on_message |}.

Lemma sample_ids : NoDup (map ent_ID (cfg_Entities sample_config)).
Proof. apply (bool_decide_unpack _). vm_compute. exact I. Qed.

Lemma lamp_registered : registered sample_config (EnqueueSwitch sample_lamp).
Proof. exists sample_lamp, "home/pi/lamp/set". split; [by left|reflexivity]. Qed.

Definition run0 : system := start sample_config blank.

Definition run1 : system :=
  with_pending [(EnqueueSwitch sample_lamp, on_message)]
    (with_ctl (acceptMessage 0 on_message (s_ctl run0)).2 run0).

Definition run2 : system :=
  log_enqueued lamp lamp_command
    (with_pending [] (with_ctl (default (s_ctl run1)
      (offer 0 (EnqueueSwitch sample_lamp) on_message (s_ctl run1))) run1)).

Definition run3 : system := with_phase lamp AtSelect run2.
Definition run4 : system :=
  with_phase lamp (Got lamp_command) (with_ctl (set_queue lamp [] (s_ctl run3)) run3).
Definition run5 : system := with_phase lamp (Busy lamp_command) run4.
Definition run6 : system :=
  with_shutdown true false false (with_ctl (stop_accepting (s_ctl run5)) run5).
Definition run7 : system :=
  with_shutdown true true false (with_ctl (set_cancelled (s_ctl run6)) run6).

Lemma run5_reachable : reachable sample_config blank run5.
Proof.
  unfold reachable. fold run0.
  apply rtc_l with run1.
  { apply step_other.
    refine (message_arrives _ run0 0 _ on_message
              (acceptMessage 0 on_message (s_ctl run0)).2 lamp_registered _).
    vm_compute. reflexivity. }
  apply rtc_l with run2.
  { apply step_other.
    refine (message_queued _ run1 0 [] (EnqueueSwitch sample_lamp) on_message []
      (default (s_ctl run1) (offer 0 (EnqueueSwitch sample_lamp) on_message (s_ctl run1)))
      eq_refl _ _); vm_compute; reflexivity. }
  apply rtc_l with run3.
  { apply (step_worker _ _ _ lamp), top_go; vm_compute; reflexivity. }
  apply rtc_l with run4.
  { apply (step_worker _ _ _ lamp), select_receive; vm_compute; reflexivity. }
  apply rtc_once.
  apply (step_worker _ _ _ lamp), got_go; vm_compute; reflexivity.
Qed.

Lemma run7_reachable : reachable sample_config blank run7.
Proof.
  apply rtc_r with run6; [apply rtc_r with run5; [apply run5_reachable|]|].
  - exact (step_other _ _ _ (shutdown_stops _ run5)).
  - exact (step_other _ _ _ (shutdown_cancels _ run6 eq_refl)).
Qed.

(** The end of the run: both workers leave and [Shutdown] returns. *)
Definition lamp_done : Controller * tape :=
  default (s_ctl run7, s_world run7) (handle lamp lamp_command (s_ctl run7, s_world run7)).
Definition run8 : system :=
  with_phase lamp AtTop
    (log_handled lamp lamp_command (with_world lamp_done.2 (with_ctl lamp_done.1 run7))).
Definition run9 : system := with_phase lamp Exited (with_ctl (wg_Done (s_ctl run8)) run8).
Definition run10 : system := with_phase bell Exited (with_ctl (wg_Done (s_ctl run9)) run9).
Definition run11 : system := with_shutdown true true true run10.

Lemma run7_steps : rtc (step sample_config) run7 run11.
Proof.
  apply rtc_l with run8.
  { refine (step_worker _ _ _ lamp (busy_done lamp run7 lamp_command lamp_done.1 lamp_done.2 _ _));
      vm_compute; reflexivity. }
  apply rtc_l with run9.
  { refine (step_worker _ _ _ lamp (top_exit lamp run8 _ _)); vm_compute; reflexivity. }
  apply rtc_l with run10.
  { refine (step_worker _ _ _ bell (top_exit bell run9 _ _)); vm_compute; reflexivity. }
  apply rtc_once. refine (step_other _ _ _ (shutdown_waited _ run10 _ _)); vm_compute; reflexivity.
Qed.

(** The command in progress at shutdown still reports its state. *)
Example run11_published : t_published (s_world run11) = [("home/pi/lamp/state", "OFF")].
Proof. vm_compute. reflexivity. Qed.

Lemma queues_bounded_fifo_witness : enqueued run5 lamp = handled run5 lamp ++ [lamp_command] ++ [].
Proof.
  apply (queues_bounded_fifo sample_config sample_ids blank run5 lamp (Busy lamp_command) []).
  - apply run5_reachable.
  - vm_compute. reflexivity.
  - vm_compute. reflexivity.
  - discriminate.
Defined.

Lemma shutdown_waits_for_all_witness : s_callbacks run11 = 0%nat.
Proof.
  apply (shutdown_waits_for_all sample_config sample_ids blank run11 run11).
  - unfold reachable. etrans; [apply run7_reachable|apply run7_steps].
  - reflexivity.
  - apply rtc_refl.
Defined.

Lemma no_new_work_after_cancel_witness :
  handled run11 bell = handled run7 bell ∨
  ∃ cmd, s_phase run7 !! bell = Some (Busy cmd) ∧ handled run11 bell = handled run7 bell ++ [cmd].
Proof.
  apply (no_new_work_after_cancel sample_config run7 run11 bell); [reflexivity|apply run7_steps].
Defined.

Lemma handlers_never_panic_witness :
  ∃ c' w', handle lamp lamp_command (s_ctl run5, s_world run5) = Some (c', w').
Proof.
  apply (handlers_never_panic sample_config sample_ids blank run5 run5_reachable).
  vm_compute. reflexivity.
Defined.

Lemma shutdown_terminates_witness :
  ∃ s', rtc (step sample_config) run7 s' ∧ s_done s' = true.
Proof.
  apply (shutdown_terminates sample_config sample_ids blank run7 run7_reachable). reflexivity.
Defined.
