(* ===== verification/Validation.v ===== *)
(** * Package config: validation

    [src/config/validation.go] from the device settings on: topics, durations,
    GPIO lines, entities and actions.  The file system is asked through
    [os_Stat]; the two orders in which Go ranges over the GPIO maps are
    arguments of [validateGPIO]. *)

From S2P Require Import Prelude GoString GoPath GoTime Config Expansion.
From Stdlib Require Import Ascii.

Open Scope Z_scope.

(** ** Errors *)

(** What is wrong with a command action. *)
Inductive CommandDefect : Type :=
| CommandRequired | CommandNul | CommandNotAbsolute | CommandStat | CommandNotExecutable
| ArgumentNul
| WorkingDirNul | WorkingDirNotAbsolute | WorkingDirStat | WorkingDirNotDirectory
| EnvName | EnvNul.

Inductive ConfigError : Type :=
| ErrDeviceID (id : string)
| ErrDeviceName
| ErrClientID
| ErrTopicEmpty (name : string)
| ErrTopicWildcard (name : string)
| ErrTopicRequired (name : string)
| ErrStateFile
| ErrQoS (context : string)
| ErrDuration (name raw : string)
| ErrDurationNotPositive (name : string)
| ErrGpioName (name : string)
| ErrGpioLine (name : string)
| ErrGpioBias (name : string)
| ErrGpioTwice (key previous name : string)
| ErrNoEntities
| ErrEntityID (i : nat) (id : string)
| ErrDuplicateEntity (id : string)
| ErrEntityName (id : string)
| ErrEntityType (id typ : string)
| ErrStateType (id : string)
| ErrStateGPIO (id : string)
| ErrUnknownOutput (context gpio : string)
| ErrUnknownInput (context gpio : string)
| ErrNoActions (context : string)
| ErrSourceType (id : string)
| ErrActionValue (context : string)
| ErrActionDuration (context : string)
| ErrActionType (context typ : string)
| ErrCommand (context : string) (what : CommandDefect).

Definition idPattern (s : string) : bool :=
  match s with
  | EmptyString => false
  | String c s =>
      (is_lower c || is_digit c)
      && str_forall (λ c, is_lower c || is_digit c || Ascii.eqb c "_" || Ascii.eqb c "-") s
  end.

(** [^[A-Za-z_][A-Za-z0-9_]*$] *)
Definition envNamePattern : string → bool := validEnvironmentName.

Definition has_nul (s : string) : bool := has_byte s (byte_of 0).

(** ** Small checks *)

Definition validatePositiveDuration (name raw : string) : result ConfigError unit :=
  match ParseDuration raw with
  | Err _ => Err (ErrDuration name raw)
  | Ok d => reject_if (d <=? 0) (ErrDurationNotPositive name)
  end.

(** [if raw != "" { validatePositiveDuration(...) }] *)
Definition optional_duration (name raw : string) : result ConfigError unit :=
  if decide (raw = "") then Ok tt else validatePositiveDuration name raw.

Definition validateTopicPrefix (name topic : string) : result ConfigError unit :=
  reject_if (bool_decide (topic = "")) (ErrTopicEmpty name) ;;
  reject_if (contains_any topic "+#") (ErrTopicWildcard name).

Definition validatePublishTopic (name topic : string) : result ConfigError unit :=
  reject_if (bool_decide (trim_space topic = "")) (ErrTopicRequired name) ;;
  validateTopicPrefix name topic.

(** ** GPIO lines *)

(** [fmt.Sprintf("%s:%d", chip, line)] *)
Definition line_key (chip : string) (line : Z) : string := chip +:+ ":" +:+ fmt_d line.

Definition check_output (used : gmap string string) (name : string) (o : GPIOOutputConfig)
    : result ConfigError (gmap string string) :=
  reject_if (negb (idPattern name)) (ErrGpioName name) ;;
  reject_if (out_Line o <? 0) (ErrGpioLine name) ;;
  let key := line_key (out_Chip o) (out_Line o) in
  match used !! key with
  | Some previous => Err (ErrGpioTwice key previous ("output " +:+ name))
  | None => Ok (<[key := "output " +:+ name]> used)
  end.

Definition check_input (used : gmap string string) (name : string) (i : GPIOInputConfig)
    : result ConfigError (gmap string string) :=
  reject_if (negb (idPattern name)) (ErrGpioName name) ;;
  reject_if (in_Line i <? 0) (ErrGpioLine name) ;;
  reject_if (negb (bool_decide (in_Bias i ∈ ["disabled"; "pull_up"; "pull_down"]))) (ErrGpioBias name) ;;
  optional_duration ("gpio.inputs." +:+ name +:+ ".debounce") (in_Debounce i) ;;
  let key := line_key (in_Chip i) (in_Line i) in
  match used !! key with
  | Some previous => Err (ErrGpioTwice key previous ("input " +:+ name))
  | None => Ok (<[key := "input " +:+ name]> used)
  end.

(** A loop that threads the map of used lines. *)
Fixpoint check_lines {A} (f : gmap string string → string → A → result ConfigError (gmap string string))
    (used : gmap string string) (l : list (string * A)) : result ConfigError (gmap string string) :=
  match l with
  | [] => Ok used
  | (name, a) :: l => f used name a ≫= λ used', check_lines f used' l
  end.

Definition validateGPIO (outputs : list (string * GPIOOutputConfig))
    (inputs : list (string * GPIOInputConfig)) : result ConfigError unit :=
  used ← check_lines check_output ∅ outputs;
  _ ← check_lines check_input used inputs;
  mret tt.

(** ** Actions *)

Record FileInfo := { fi_regular : bool; fi_dir : bool; fi_perm : Z }.

Section validation.
Context (os_Stat : string → result string FileInfo).
Context (outputs : gmap string GPIOOutputConfig) (inputs : gmap string GPIOInputConfig).

Definition check_working_dir (prefix dir : string) : result ConfigError unit :=
  if decide (dir = "") then Ok tt else
  reject_if (has_nul dir) (ErrCommand prefix WorkingDirNul) ;;
  reject_if (negb (IsAbs dir)) (ErrCommand prefix WorkingDirNotAbsolute) ;;
  match os_Stat dir with
  | Err _ => Err (ErrCommand prefix WorkingDirStat)
  | Ok info => reject_if (negb (fi_dir info)) (ErrCommand prefix WorkingDirNotDirectory)
  end.

Definition check_env (prefix : string) (env : gmap string string) (name : string)
    : result ConfigError unit :=
  reject_if (negb (envNamePattern name)) (ErrCommand prefix EnvName) ;;
  reject_if (has_nul (default "" (env !! name))) (ErrCommand prefix EnvNul).

Definition validateCommandAction (prefix : string) (a : Action) : result ConfigError unit :=
  reject_if (bool_decide (trim_space (act_Command a) = "")) (ErrCommand prefix CommandRequired) ;;
  reject_if (has_nul (act_Command a)) (ErrCommand prefix CommandNul) ;;
  reject_if (negb (IsAbs (act_Command a))) (ErrCommand prefix CommandNotAbsolute) ;;
  match os_Stat (act_Command a) with
  | Err _ => Err (ErrCommand prefix CommandStat)
  | Ok info =>
      reject_if (negb (fi_regular info) || (Z.land (fi_perm info) 73 =? 0))
        (ErrCommand prefix CommandNotExecutable)
  end ;;
  for_each (λ arg, reject_if (has_nul arg) (ErrCommand prefix ArgumentNul))
    (act_Args a) ;;
  check_working_dir prefix (act_WorkingDir a) ;;
  for_each (check_env prefix (act_Env a)) (sorted_map_keys (act_Env a)).

Definition validateAction (prefix : string) (a : Action) : result ConfigError unit :=
  if decide (act_Type a = "gpio") then
    reject_if (bool_decide (outputs !! act_GPIO a = None)) (ErrUnknownOutput prefix (act_GPIO a)) ;;
    reject_if (bool_decide (act_Value a = None)) (ErrActionValue prefix)
  else if decide (act_Type a = "command") then
    validateCommandAction prefix a ;;
    optional_duration (prefix +:+ ".timeout") (act_Timeout a)
  else if decide (act_Type a = "delay") then
    reject_if (bool_decide (act_Duration a = "")) (ErrActionDuration prefix) ;;
    validatePositiveDuration (prefix +:+ ".duration") (act_Duration a)
  else if decide (act_Type a = "mqtt") then
    validatePublishTopic (prefix +:+ ".topic") (act_Topic a) ;;
    reject_if (match act_QoS a with Some q => 2 <? q | None => false end) (ErrQoS prefix)
  else Err (ErrActionType prefix (act_Type a)).

(** [fmt.Sprintf("entity %s action[%d]", context, i)] *)
Definition action_prefix (context : string) (i : nat) : string :=
  "entity " +:+ context +:+ " action[" +:+ fmt_d (Z.of_nat i) +:+ "]".

Definition validateActions (context : string) (actions : list Action) : result ConfigError unit :=
  for_each_from (λ i a, validateAction (action_prefix context i) a) 0 actions.

(** ** Entities *)

Definition validateSwitch (e : EntityConfig) : result ConfigError unit :=
  let id := ent_ID e in
  reject_if (bool_decide (state_Type (ent_State e) = "")) (ErrStateType id) ;;
  (if decide (state_Type (ent_State e) = "memory") then
     reject_if (negb (bool_decide (state_GPIO (ent_State e) = ""))) (ErrStateGPIO id)
   else if decide (state_Type (ent_State e) = "gpio") then
     reject_if (bool_decide (outputs !! state_GPIO (ent_State e) = None))
       (ErrUnknownOutput id (state_GPIO (ent_State e)))
   else Err (ErrStateType id)) ;;
  reject_if (bool_decide (ent_On e = [])) (ErrNoActions (id +:+ ".on")) ;;
  reject_if (bool_decide (ent_Off e = [])) (ErrNoActions (id +:+ ".off")) ;;
  validateActions (id +:+ ".on") (ent_On e) ;;
  validateActions (id +:+ ".off") (ent_Off e).

Definition validateButton (e : EntityConfig) : result ConfigError unit :=
  reject_if (bool_decide (ent_Press e = [])) (ErrNoActions (ent_ID e +:+ ".press")) ;;
  validateActions (ent_ID e +:+ ".press") (ent_Press e).

Definition validateBinarySensor (e : EntityConfig) : result ConfigError unit :=
  reject_if (negb (bool_decide (source_Type (ent_Source e) = "gpio"))) (ErrSourceType (ent_ID e)) ;;
  reject_if (bool_decide (inputs !! source_GPIO (ent_Source e) = None))
    (ErrUnknownInput (ent_ID e) (source_GPIO (ent_Source e))).

(** The loop over the entities from index [i] on, with its [seenEntities]. *)
Fixpoint validate_entities (i : nat) (seen : gset string) (l : list EntityConfig)
    : result ConfigError unit :=
  match l with
  | [] => Ok tt
  | e :: l =>
      reject_if (negb (idPattern (ent_ID e))) (ErrEntityID i (ent_ID e)) ;;
      reject_if (bool_decide (ent_ID e ∈ seen)) (ErrDuplicateEntity (ent_ID e)) ;;
      reject_if (bool_decide (trim_space (ent_Name e) = "")) (ErrEntityName (ent_ID e)) ;;
      (if decide (ent_Type e = "switch") then validateSwitch e
       else if decide (ent_Type e = "button") then validateButton e
       else if decide (ent_Type e = "binary_sensor") then validateBinarySensor e
       else Err (ErrEntityType (ent_ID e) (ent_Type e))) ;;
      validate_entities (S i) ({[ ent_ID e ]} ∪ seen) l
  end.
End validation.

(** ** The settings *)

Definition check_state_file (path : string) : result ConfigError unit :=
  if decide (path = "") then Ok tt
  else reject_if (has_nul path || negb (IsAbs path) || negb (bool_decide (Clean path = path)))
         ErrStateFile.

(** [Validate] after the checks of the broker URL and of the TLS files. *)
Definition validateSettings (os_Stat : string → result string FileInfo)
    (outputs : list (string * GPIOOutputConfig)) (inputs : list (string * GPIOInputConfig))
    (c : Config) : result ConfigError unit :=
  let m := cfg_MQTT c in
  reject_if (negb (idPattern (dev_ID (cfg_Device c)))) (ErrDeviceID (dev_ID (cfg_Device c))) ;;
  reject_if (bool_decide (trim_space (dev_Name (cfg_Device c)) = "")) ErrDeviceName ;;
  reject_if (bool_decide (mq_ClientID m = "")) ErrClientID ;;
  validateTopicPrefix "mqtt.base_topic" (mq_BaseTopic m) ;;
  (if DiscoveryEnabled c
   then validateTopicPrefix "mqtt.discovery.prefix" (disc_Prefix (mq_Discovery m)) else Ok tt) ;;
  check_state_file (disc_StateFile (mq_Discovery m)) ;;
  reject_if (2 <? MQTTQoS c) (ErrQoS "mqtt.qos") ;;
  optional_duration "mqtt.keep_alive" (mq_KeepAlive m) ;;
  optional_duration "mqtt.connect_timeout" (mq_ConnectTimeout m) ;;
  validateGPIO outputs inputs ;;
  reject_if (bool_decide (cfg_Entities c = [])) ErrNoEntities ;;
  validate_entities os_Stat (gpio_Outputs (cfg_GPIO c)) (gpio_Inputs (cfg_GPIO c)) 0 ∅
    (cfg_Entities c).
