(* ===== verification/ValidationProofs.v ===== *)
(** * Package config: proofs about validation

    What [validateGPIO] accepts, whatever order Go ranges over its maps in, and
    what a validated configuration guarantees to the other packages: the
    hypotheses under which discovery, the workers and the executor were proved. *)

From S2P Require Import Prelude Effects GoString GoPath GoJson GoTime Config Expansion.
From S2P Require Import DiscoveryState Discovery DiscoveryProofs Action ActionProofs Validation.
From Stdlib Require Import Ascii.

Open Scope Z_scope.

Lemma bind_err_ok {E A B} (m : result E A) (k : A → result E B) :
  is_ok (m ≫= k) = true ↔ ∃ a, m = Ok a ∧ is_ok (k a) = true.
Proof.
  destruct m as [a|e]; cbn; split; [by eauto|by intros (? & [= <-] & ?)|done|].
  by intros (? & ? & _).
Qed.

(** ** GPIO lines *)

(** What a line declares: its owner and the physical line. *)
Definition output_line (o : string * GPIOOutputConfig) : string * Z := (out_Chip o.2, out_Line o.2).
Definition input_line (i : string * GPIOInputConfig) : string * Z := (in_Chip i.2, in_Line i.2).

Definition output_ok (o : string * GPIOOutputConfig) : Prop :=
  idPattern o.1 = true ∧ 0 ≤ out_Line o.2.

Definition debounce_ok (raw : string) : Prop :=
  raw = "" ∨ ∃ d, ParseDuration raw = Ok d ∧ 0 < d.

Definition input_ok (i : string * GPIOInputConfig) : Prop :=
  idPattern i.1 = true ∧ 0 ≤ in_Line i.2 ∧
  in_Bias i.2 ∈ ["disabled"; "pull_up"; "pull_down"] ∧ debounce_ok (in_Debounce i.2).

Lemma validatePositiveDuration_ok name raw :
  validatePositiveDuration name raw = Ok tt ↔ ∃ d, ParseDuration raw = Ok d ∧ 0 < d.
Proof.
  unfold validatePositiveDuration. destruct (ParseDuration raw) as [d|e].
  - rewrite reject_if_ok. destruct (Z.leb_spec d 0); split; try done.
    + intros (? & [= <-] & ?). lia.
    + eauto.
  - split; [done|]. by intros (? & ? & _).
Qed.

Lemma optional_duration_ok name raw : optional_duration name raw = Ok tt ↔ debounce_ok raw.
Proof.
  unfold optional_duration, debounce_ok. destruct (decide (raw = "")) as [->|Hne].
  - split; auto.
  - rewrite validatePositiveDuration_ok. split; [auto|]. by intros [?|?].
Qed.

(** A duration that passed validation, or its positive default. *)
Lemma duration_or_positive raw d : debounce_ok raw → 0 < duration_or raw (Z.pos d).
Proof.
  unfold debounce_ok, duration_or. intros [->|(v & Hv & ?)]; [done|].
  rewrite Hv. by case_decide.
Qed.

(** The map of used lines stands for a set of physical lines. *)
Definition uses (used : gmap string string) (lines : list (string * Z)) : Prop :=
  ∀ key, is_Some (used !! key) ↔ ∃ p, p ∈ lines ∧ key = line_key p.1 p.2.

Lemma line_key_inj (p q : string * Z) :
  0 ≤ p.2 → 0 ≤ q.2 → line_key p.1 p.2 = line_key q.1 q.2 → p = q.
Proof.
  destruct p, q. cbn. intros Hp Hq Heq. apply sprintf_colon_inj in Heq as [-> ->]; done.
Qed.

Section check_lines.
Context {A : Type} (f : gmap string string → string → A → result ConfigError (gmap string string)).
Context (ok : string * A → Prop) (line : string * A → string * Z) (tag : string).
Context (Hline : ∀ x, ok x → 0 ≤ (line x).2).

(** One declaration is accepted when it is well formed and its line is free. *)
Context (Hf : ∀ used name a used',
  f used name a = Ok used' ↔
  ok (name, a) ∧ used !! line_key (line (name, a)).1 (line (name, a)).2 = None ∧
  used' = <[line_key (line (name, a)).1 (line (name, a)).2 := tag +:+ name]> used).

Lemma check_lines_spec used lines l :
  uses used lines → Forall (λ p, 0 ≤ p.2) lines → NoDup lines →
  match check_lines f used l with
  | Ok used' => Forall ok l ∧ NoDup (lines ++ map line l) ∧ uses used' (lines ++ map line l)
  | Err _ => ¬ (Forall ok l ∧ NoDup (lines ++ map line l))
  end.
Proof using Hf Hline.
  revert used lines. induction l as [|[name a] l IH]; intros used lines Hu Hp Hn; cbn.
  { rewrite app_nil_r. by split_and!. }
  set (p := line (name, a)).
  destruct (f used name a) as [used'|e] eqn:Hfa; cbn.
  - apply Hf in Hfa as (Hok & Hfree & ->). fold p in Hfree |- *.
    pose proof (Hline _ Hok) as Hp0. fold p in Hp0.
    assert (p ∉ lines) as Hnew.
    { intros Hin. assert (is_Some (used !! line_key p.1 p.2)) as [? Hs]
        by (apply Hu; eauto). congruence. }
    assert (uses (<[line_key p.1 p.2 := tag +:+ name]> used) (lines ++ [p])) as Hu'.
    { intros key. rewrite lookup_insert_is_Some', (Hu key). set_solver. }
    specialize (IH _ _ Hu').
    assert (map line ((name, a) :: l) = p :: map line l) as Hm by done.
    rewrite cons_middle, (assoc_L (++)).
    destruct (check_lines f _ l).
    + destruct IH as (? & ? & ?); [by apply Forall_app; auto| |].
      { apply NoDup_app. split_and!; [done| |apply NoDup_singleton]. set_solver. }
      split_and!; [by constructor|done|done].
    + intros [Hall Hnd]. apply IH; [by apply Forall_app; auto| |].
      { apply NoDup_app. split_and!; [done| |apply NoDup_singleton]. set_solver. }
      by apply Forall_cons in Hall as [_ Hall].
  - intros [Hall Hnd]. apply Forall_cons in Hall as [Hok _].
    assert (used !! line_key p.1 p.2 = None) as Hfree.
    { destruct (used !! line_key p.1 p.2) eqn:Hs; [|done].
      assert (is_Some (used !! line_key p.1 p.2)) as (q & Hq & Hkey)%Hu by eauto.
      apply line_key_inj in Hkey; [|by apply Hline|by rewrite Forall_forall in Hp; apply Hp].
      subst q. apply NoDup_app in Hnd as (_ & Hd & _). destruct (Hd p Hq). by left. }
    assert (∃ u, f used name a = Ok u) as [u Hu'] by (eexists; by apply Hf).
    congruence.
Qed.
End check_lines.

Lemma check_output_ok used name o used' :
  check_output used name o = Ok used' ↔
  output_ok (name, o) ∧ used !! line_key (out_Chip o) (out_Line o) = None ∧
  used' = <[line_key (out_Chip o) (out_Line o) := "output " +:+ name]> used.
Proof.
  unfold check_output, output_ok. cbn [fst snd].
  destruct (idPattern name); cbn; [|naive_solver].
  destruct (Z.ltb_spec (out_Line o) 0); cbn; [naive_solver lia|].
  destruct (used !! line_key _ _); naive_solver.
Qed.

Lemma check_input_ok used name i used' :
  check_input used name i = Ok used' ↔
  input_ok (name, i) ∧ used !! line_key (in_Chip i) (in_Line i) = None ∧
  used' = <[line_key (in_Chip i) (in_Line i) := "input " +:+ name]> used.
Proof.
  unfold check_input, input_ok. cbn [fst snd].
  rewrite <- (optional_duration_ok ("gpio.inputs." +:+ name +:+ ".debounce")).
  destruct (idPattern name); cbn; [|naive_solver].
  destruct (Z.ltb_spec (in_Line i) 0); cbn; [naive_solver lia|].
  case_bool_decide; cbn; [|naive_solver].
  destruct (optional_duration _ _) as [[]|]; cbn; [|naive_solver].
  destruct (used !! line_key _ _); naive_solver.
Qed.

Lemma uses_empty : uses ∅ [].
Proof. intros key. rewrite lookup_empty. split; [by intros []|]. by intros (? & ?%not_elem_of_nil & _). Qed.

Lemma lookups_Forall {A} (P : string * A → Prop) (m : gmap string A) l :
  l ≡ₚ map_to_list m → (∀ name a, m !! name = Some a → P (name, a)) ↔ Forall P l.
Proof.
  intros Hl. rewrite Hl, Forall_forall. split.
  - intros H [name a] Hin. by apply H, elem_of_map_to_list.
  - intros H name a Hin. by apply H, elem_of_map_to_list.
Qed.

(** C25: [validateGPIO] accepts exactly the declarations with valid names, lines,
    biases and debounce times in which no physical line is declared twice, as an
    output or an input; the order in which the maps are walked does not
    matter, and neither do colons in chip names. *)
Theorem validateGPIO_exact (c : GPIOConfig) outs ins :
  outs ≡ₚ map_to_list (gpio_Outputs c) → ins ≡ₚ map_to_list (gpio_Inputs c) →
  validateGPIO outs ins = Ok tt ↔
  (∀ name o, gpio_Outputs c !! name = Some o → output_ok (name, o)) ∧
  (∀ name i, gpio_Inputs c !! name = Some i → input_ok (name, i)) ∧
  NoDup (map output_line (map_to_list (gpio_Outputs c))
         ++ map input_line (map_to_list (gpio_Inputs c))).
Proof.
  intros Ho Hi. rewrite <- Ho, <- Hi.
  rewrite (lookups_Forall _ _ _ Ho), (lookups_Forall _ _ _ Hi).
  unfold validateGPIO.
  pose proof (check_lines_spec check_output output_ok output_line "output "
    (λ _ H, proj2 H) check_output_ok ∅ [] outs uses_empty (Forall_nil_2 _) (NoDup_nil_2)) as H1.
  destruct (check_lines check_output ∅ outs) as [used|e]; cbn in *.
  - destruct H1 as (Houts & Hnd & Hu).
    assert (Forall (λ p, 0 ≤ p.2) (map output_line outs)) as Hpos.
    { apply Forall_map. eapply Forall_impl; [done|]. by intros ? []. }
    pose proof (check_lines_spec check_input input_ok input_line "input "
      (λ _ H, proj1 (proj2 H)) check_input_ok used _ ins Hu Hpos Hnd) as H2.
    destruct (check_lines check_input used ins); cbn.
    + destruct H2 as (? & ? & _). done.
    + split; [done|]. intros (_ & ? & ?). by destruct H2.
  - split; [done|]. intros (? & _ & Hnd). destruct H1. split; [done|].
    by apply NoDup_app in Hnd as [? _].
Qed.

Lemma validateGPIO_exact_witness :
  validateGPIO (map_to_list (gpio_Outputs (cfg_GPIO sample_config)))
    (map_to_list (gpio_Inputs (cfg_GPIO sample_config))) = Ok tt ∧
  NoDup (map output_line (map_to_list (gpio_Outputs (cfg_GPIO sample_config)))
         ++ map input_line (map_to_list (gpio_Inputs (cfg_GPIO sample_config)))).
Proof.
  split; [vm_compute; reflexivity|].
  refine (proj2 (proj2 (proj1 (validateGPIO_exact (cfg_GPIO sample_config) _ _
    (reflexivity _) (reflexivity _)) _))).
  vm_compute. reflexivity.
Defined.

(** ** Actions *)

Lemma bind_unit {E} (m k : result E unit) : (m ;; k) = Ok tt ↔ m = Ok tt ∧ k = Ok tt.
Proof. rewrite bind_ok. split; [by intros ([] & ? & ?)|]. intros [? ?]. by exists tt. Qed.

(** What the executor may be asked to do under a configuration. *)
Definition string_ok (s : string) : Prop := has_nul s = false.

Definition legal (outputs : gmap string GPIOOutputConfig) (o : aop) : Prop :=
  match o with
  | OpPanic => False
  | OpSetOutput name _ => is_Some (outputs !! name)
  | OpPublish topic _ qos _ => topic ≠ "" ∧ contains_any topic "+#" = false ∧ qos ≤ 2
  | OpDelay d | OpWithTimeout d => 0 < d
  | OpOpenPath path => IsAbs path = true ∧ string_ok path
  | OpStart spec =>
      Forall string_ok (cs_args spec) ∧ Forall string_ok (cs_env spec) ∧ string_ok (cs_dir spec)
  | _ => True
  end.

Definition illegal (outputs : gmap string GPIOOutputConfig) (o : aop) : Prop := ¬ legal outputs o.

Record command_ok (a : Action) : Prop := {
  cmd_path : string_ok (act_Command a);
  cmd_abs : IsAbs (act_Command a) = true;
  cmd_args : Forall string_ok (act_Args a);
  cmd_dir : string_ok (act_WorkingDir a);
  cmd_env : ∀ name v, act_Env a !! name = Some v → envNamePattern name = true ∧ string_ok v;
  cmd_timeout : debounce_ok (act_Timeout a);
}.

Lemma validateCommandAction_ok os_Stat prefix a :
  validateCommandAction os_Stat prefix a = Ok tt → debounce_ok (act_Timeout a) → command_ok a.
Proof.
  unfold validateCommandAction. rewrite !bind_unit, !reject_if_ok, !for_each_ok.
  intros (_ & Hnul & Habs & _ & Hargs & Hdir & Henv) Ht.
  apply negb_false_iff in Habs. split; try done.
  - eapply Forall_impl; [done|]. intros arg. by rewrite reject_if_ok.
  - revert Hdir. unfold check_working_dir. case_decide as Hd; [by rewrite Hd|].
    by rewrite bind_unit, reject_if_ok; intros [? _].
  - intros name v Hv. rewrite Forall_forall in Henv.
    specialize (Henv name). rewrite elem_of_sorted_map_keys in Henv.
    specialize (Henv (mk_is_Some _ _ Hv)). unfold check_env in Henv.
    rewrite bind_unit, !reject_if_ok, negb_false_iff, Hv in Henv. done.
Qed.

Lemma string_ok_app s1 s2 : string_ok (s1 +:+ s2) ↔ string_ok s1 ∧ string_ok s2.
Proof. unfold string_ok, has_nul. by rewrite has_byte_app, orb_false_iff. Qed.

Lemma env_name_ok name : envNamePattern name = true → string_ok name.
Proof.
  unfold envNamePattern, string_ok, has_nul. destruct name as [|c s]; [done|]. cbn.
  intros [Hc Hs]%andb_true_iff. rewrite has_byte_cons, orb_false_iff. split.
  - apply not_true_iff_false. intros ->%Ascii.eqb_eq. done.
  - unfold has_byte. rewrite negb_false_iff. revert Hs. clear. induction s as [|c s IH]; [done|].
    cbn. intros [Hc Hs]%andb_true_iff. rewrite IH, andb_true_r by done.
    apply negb_true_iff, not_true_iff_false. intros ->%Ascii.eqb_eq. done.
Qed.

Lemma environment_ok env :
  (∀ name v, env !! name = Some v → envNamePattern name = true ∧ string_ok v) →
  Forall string_ok (minimalEnvironment env).
Proof.
  intros Henv. unfold minimalEnvironment, sortedEnvironment.
  apply Forall_map, Forall_forall. intros k [v Hv]%elem_of_sorted_map_keys. rewrite Hv. cbn.
  assert (string_ok k ∧ string_ok v) as [Hk Hs].
  { apply lookup_union_Some_raw in Hv as [Hv|[_ Hv]].
    - apply Henv in Hv as [? ?]. eauto using env_name_ok.
    - unfold default_environment in Hv.
      repeat (apply lookup_insert_Some in Hv as [[<- <-]|[_ Hv]]; [done|]).
      by apply lookup_singleton_Some in Hv as [<- <-]. }
  by rewrite !string_ok_app.
Qed.

Definition qos_ok (q : option Z) : Prop := match q with Some q => q ≤ 2 | None => True end.

(** An action the executor can run under the declared outputs. *)
Definition action_ok (outputs : gmap string GPIOOutputConfig) (a : Action) : Prop :=
  (act_Type a = "gpio" ∧ is_Some (outputs !! act_GPIO a) ∧ act_Value a ≠ None) ∨
  (act_Type a = "command" ∧ command_ok a) ∨
  (act_Type a = "delay" ∧ ∃ d, ParseDuration (act_Duration a) = Ok d ∧ 0 < d) ∨
  (act_Type a = "mqtt" ∧ act_Topic a ≠ "" ∧ contains_any (act_Topic a) "+#" = false ∧
   qos_ok (act_QoS a)).

Lemma validateTopicPrefix_ok name topic :
  validateTopicPrefix name topic = Ok tt ↔ topic ≠ "" ∧ contains_any topic "+#" = false.
Proof. unfold validateTopicPrefix. by rewrite bind_unit, !reject_if_ok, bool_decide_eq_false. Qed.

Lemma validateAction_ok os_Stat outputs prefix a :
  validateAction os_Stat outputs prefix a = Ok tt → action_ok outputs a.
Proof.
  unfold validateAction, action_ok. case_decide.
  { rewrite bind_unit, !reject_if_ok, !bool_decide_eq_false, not_eq_None_Some. auto. }
  case_decide.
  { rewrite bind_unit, optional_duration_ok. intros [? ?]. right. left.
    eauto using validateCommandAction_ok. }
  case_decide.
  { rewrite bind_unit, validatePositiveDuration_ok. intros [_ ?]. auto. }
  case_decide; [|done].
  unfold validatePublishTopic. rewrite !bind_unit, validateTopicPrefix_ok, !reject_if_ok.
  intros [(_ & ? & ?) Hq]. do 3 right. split_and!; try done.
  destruct (act_QoS a) as [q|]; [|done]. cbn. by apply Z.ltb_ge in Hq.
Qed.

Lemma validateActions_ok os_Stat outputs context actions :
  validateActions os_Stat outputs context actions = Ok tt → Forall (action_ok outputs) actions.
Proof.
  unfold validateActions. rewrite for_each_from_ok, Forall_lookup. intros H i a Ha.
  eapply validateAction_ok, H, Ha.
Qed.

(** ** What a valid action makes the executor do *)

Section executor.
Context (cfg : Config) (Hqos : MQTTQoS cfg ≤ 2).

Abbreviation bad := (illegal (gpio_Outputs (cfg_GPIO cfg))).

Lemma legal_not_bad o : legal (gpio_Outputs (cfg_GPIO cfg)) o → ¬ bad o.
Proof. intros Ho Hb. by apply Hb. Qed.

Lemma plain_not_bad o : plain_op o = true → ¬ bad o.
Proof. intros Ho. apply legal_not_bad. by destruct o. Qed.

Lemma safe_runCommand a : command_ok a → avoids bad (runCommand a).
Proof.
  intros [Hp Habs Hargs Hdir Henv Ht].
  apply avoids_runCommand; [exact plain_not_bad|..]; intros; apply legal_not_bad; cbn.
  - by apply duration_or_positive.
  - done.
  - split_and!; [by constructor|by apply environment_ok|done].
Qed.

Lemma safe_executeOne a :
  action_ok (gpio_Outputs (cfg_GPIO cfg)) a → avoids bad (executeOne cfg a).
Proof.
  intros Ha. apply avoids_executeOne.
  - intros Ht v Hv. apply legal_not_bad.
    destruct Ha as [(_ & Ho & _)|[[? _]|[[? _]|[? _]]]]; [done|by rewrite Ht in *..].
  - intros Ht Hn. destruct Ha as [(_ & _ & Hv)|[[? _]|[[? _]|[? _]]]]; [done|by rewrite Ht in *..].
  - intros Ht. destruct Ha as [[? _]|[(_ & Hc)|[[? _]|[? _]]]];
      [by rewrite Ht in *|by apply safe_runCommand|by rewrite Ht in *..].
  - intros Ht d Hd. apply legal_not_bad. cbn.
    destruct Ha as [[? _]|[[? _]|[(_ & d' & Hd' & ?)|[? _]]]]; [by rewrite Ht in *..| |by rewrite Ht in *].
    congruence.
  - intros Ht. apply legal_not_bad. cbn.
    destruct Ha as [[? _]|[[? _]|[[? _]|(_ & Htopic & Hw & Hq)]]]; [by rewrite Ht in *..|].
    split_and!; [done|done|]. unfold action_qos. by destruct (act_QoS a).
Qed.

Lemma safe_execute_from i actions :
  Forall (action_ok (gpio_Outputs (cfg_GPIO cfg))) actions → avoids bad (execute_from cfg i actions).
Proof.
  intros H. apply avoids_execute_from; [exact plain_not_bad|].
  eapply Forall_impl; [exact H|]. apply safe_executeOne.
Qed.
End executor.

(** ** Entities *)

(** The action lists the controller hands to the executor. *)
Definition programs (e : EntityConfig) : list (list Action) :=
  if decide (ent_Type e = "switch") then [ent_On e; ent_Off e]
  else if decide (ent_Type e = "button") then [ent_Press e] else [].

Record entity_ok (outputs : gmap string GPIOOutputConfig) (inputs : gmap string GPIOInputConfig)
    (e : EntityConfig) : Prop := {
  eo_id : idPattern (ent_ID e) = true;
  eo_type : ent_Type e ∈ discovery_types;
  eo_programs : Forall (Forall (action_ok outputs)) (programs e);
  eo_state : ent_Type e = "switch" → state_Type (ent_State e) = "gpio" →
    is_Some (outputs !! state_GPIO (ent_State e));
  eo_source : ent_Type e = "binary_sensor" → is_Some (inputs !! source_GPIO (ent_Source e));
}.

Lemma validateSwitch_ok os_Stat outputs e :
  validateSwitch os_Stat outputs e = Ok tt →
  Forall (action_ok outputs) (ent_On e) ∧ Forall (action_ok outputs) (ent_Off e) ∧
  (state_Type (ent_State e) = "gpio" → is_Some (outputs !! state_GPIO (ent_State e))).
Proof.
  unfold validateSwitch. rewrite !bind_unit.
  intros (_ & Hs & _ & _ & ?%validateActions_ok & ?%validateActions_ok). split_and!; try done.
  intros Hg. rewrite Hg in Hs. rewrite decide_False, decide_True in Hs by done.
  by rewrite reject_if_ok, bool_decide_eq_false, not_eq_None_Some in Hs.
Qed.

Lemma validate_entities_ok os_Stat outputs inputs l i seen :
  validate_entities os_Stat outputs inputs i seen l = Ok tt →
  Forall (entity_ok outputs inputs) l ∧ NoDup (map ent_ID l) ∧
  Forall (λ e, ent_ID e ∉ seen) l.
Proof.
  revert i seen. induction l as [|e l IH]; intros i seen; cbn [validate_entities map].
  { intros _. split_and!; constructor. }
  rewrite !bind_unit, !reject_if_ok, negb_false_iff, bool_decide_eq_false.
  intros (Hid & Hseen & _ & Hent & (Hall & Hnd & Hns)%IH). rewrite Forall_forall in Hns.
  split_and!.
  - constructor; [|done]. unfold programs in *.
    destruct (decide (ent_Type e = "switch")) as [Hs|Hs].
    { apply validateSwitch_ok in Hent as (? & ? & ?). split; try done.
      - rewrite Hs. by left.
      - unfold programs. rewrite Hs. cbn. by repeat apply Forall_cons_2.
      - by rewrite Hs. }
    destruct (decide (ent_Type e = "button")) as [Hb|Hb].
    { unfold validateButton in Hent. apply bind_unit in Hent as [_ Ha%validateActions_ok].
      split; try done.
      - rewrite Hb. right. by left.
      - unfold programs. rewrite Hb. cbn. by repeat apply Forall_cons_2.
      - by rewrite Hb. }
    destruct (decide (ent_Type e = "binary_sensor")) as [Hd|Hd]; [|done].
    unfold validateBinarySensor in Hent. apply bind_unit in Hent as [_ Hin].
    rewrite reject_if_ok, bool_decide_eq_false, not_eq_None_Some in Hin. split; try done.
    + rewrite Hd. do 2 right. by left.
    + unfold programs. rewrite Hd. cbn. constructor.
  - constructor; [|done]. rewrite list_elem_of_fmap. intros (e' & Heq & Hin).
    apply (Hns e') in Hin. set_solver.
  - constructor; [done|]. apply Forall_forall. intros e' Hin%Hns. set_solver.
Qed.

(** ** What the rest of the program may rely on *)

Section validated.
Context (os_Stat : string → result string FileInfo)
  (outs : list (string * GPIOOutputConfig)) (ins : list (string * GPIOInputConfig)) (cfg : Config).
Context (Hvalid : validateSettings os_Stat outs ins cfg = Ok tt).

Abbreviation outputs := (gpio_Outputs (cfg_GPIO cfg)).
Abbreviation inputs := (gpio_Inputs (cfg_GPIO cfg)).

Lemma validated_parts :
  idPattern (dev_ID (cfg_Device cfg)) = true ∧ mq_ClientID (cfg_MQTT cfg) ≠ "" ∧
  (DiscoveryEnabled cfg = true → disc_Prefix (mq_Discovery (cfg_MQTT cfg)) ≠ "" ∧
     contains_any (disc_Prefix (mq_Discovery (cfg_MQTT cfg))) "+#" = false) ∧
  MQTTQoS cfg ≤ 2 ∧
  Forall (entity_ok outputs inputs) (cfg_Entities cfg) ∧ NoDup (map ent_ID (cfg_Entities cfg)).
Proof using Hvalid.
  revert Hvalid. unfold validateSettings.
  rewrite !bind_unit, !reject_if_ok, negb_false_iff, !bool_decide_eq_false.
  intros (Hid & _ & Hc & _ & Hp & _ & Hq%Z.ltb_ge & _ & _ & _ & _ & (He & Hn & _)%validate_entities_ok).
  split_and!; try done. intros Hen. rewrite Hen in Hp. by apply validateTopicPrefix_ok in Hp.
Qed.

Lemma validated_entity e : e ∈ cfg_Entities cfg → entity_ok outputs inputs e.
Proof using Hvalid.
  destruct validated_parts as (_ & _ & _ & _ & He & _). rewrite Forall_forall in He. apply He.
Qed.

Lemma validated_settings : discovery_settings cfg.
Proof using Hvalid.
  destruct validated_parts as (Hid & Hc & Hp & _ & He & Hn). split; try done.
  eapply Forall_impl; [done|]. by intros e [].
Qed.

(** C24: a validated configuration meets the settings discovery relies on, and
    its discovery topics are distinct and each its own: a non-empty prefix without
    wildcards, a type of Home Assistant, the device, a valid entity. *)
Theorem validated_discovery :
  discovery_settings cfg ∧ NoDup (wanted cfg) ∧
  ∀ t, t ∈ wanted cfg → ownedDiscoveryTopic t (dev_ID (cfg_Device cfg)) = true.
Proof using Hvalid.
  pose proof validated_settings as Hset. split; [done|].
  split; [by apply NoDup_wanted|]. intros t. by apply wanted_owned.
Qed.

(** With texts that are valid UTF-8 it is what reconciliation is proved for. *)
Lemma validated_discovery_config :
  valid_utf8 (mq_ClientID (cfg_MQTT cfg)) = true →
  (DiscoveryEnabled cfg = true → valid_utf8 (disc_Prefix (mq_Discovery (cfg_MQTT cfg))) = true) →
  discovery_config cfg.
Proof using Hvalid. split; [apply validated_settings|done..]. Qed.

(** C17: whatever the devices, the broker and the commands answer, the action
    lists of a validated configuration never make the executor dereference a
    missing value, set an output that is not configured, publish on an empty or
    wildcard topic or with an invalid QoS, wait or time out after a time that is
    not positive, or start a command by a relative path or with a NUL byte in
    its arguments, environment or directory. *)
Theorem validated_actions_are_legal e actions :
  e ∈ cfg_Entities cfg → actions ∈ programs e →
  avoids (illegal outputs) (Execute cfg actions).
Proof using Hvalid.
  intros He Ha. destruct validated_parts as (_ & _ & _ & Hq & _).
  apply validated_entity in He as [_ _ Hprog _ _]. rewrite Forall_forall in Hprog.
  apply safe_execute_from; [done|]. by apply Hprog.
Qed.
End validated.

Lemma sample_valid :
  validateSettings (λ _, Err "") (map_to_list (gpio_Outputs (cfg_GPIO sample_config)))
    (map_to_list (gpio_Inputs (cfg_GPIO sample_config))) sample_config = Ok tt.
Proof. vm_compute. reflexivity. Qed.

Lemma validated_discovery_witness :
  NoDup (wanted sample_config) ∧
  ownedDiscoveryTopic "homeassistant/switch/pi/lamp/config" "pi" = true.
Proof.
  destruct (validated_discovery _ _ _ _ sample_valid) as (_ & Hn & Ho). split; [exact Hn|].
  apply Ho. apply (bool_decide_unpack _). vm_compute. exact I.
Defined.

Lemma validated_actions_are_legal_witness :
  avoids (illegal (gpio_Outputs (cfg_GPIO sample_config)))
    (Execute sample_config (ent_Press sample_bell)).
Proof.
  refine (validated_actions_are_legal _ _ _ _ sample_valid sample_bell _ _ _).
  - right. left.
  - left.
Defined.
