(* ===== verification/Service.v ===== *)
(** * Command mqtt-raspberry-controller: start and stop

    [src/cmd/mqtt-raspberry-controller/main.go]: [run] and [shutdownService]
    as programs over the operations of the components they drive.  The
    components answer as they like here; [ServiceProofs] states what holds
    whatever they answer and plugs in the GPIO manager. *)

From S2P Require Import Prelude Effects GoTime Config Gpio.

Open Scope Z_scope.

Definition shutdownTimeout : Z := 10 * Second.

(** ** Operations *)

Inductive sop : Type :=
| OpPrintVersion
| OpLoad (path : string)                   (* config.Load *)
| OpNewClient (cfg : Config)               (* mqttclient.New *)
| OpNewManager (cfg : GPIOConfig)          (* gpio.New *)
| OpOpenOutputs
| OpNewController (cfg : Config)           (* controller.New: the workers start *)
| OpRegister
| OpConnect
| OpOpenInputs
| OpPublishAllStates
| OpWaitSignal                             (* <-ctx.Done() *)
| OpNow                                    (* time.Now *)
| OpStopAccepting
| OpShutdown (timeout : Z)                 (* Controller.Shutdown *)
| OpMqttClose (timeout : Z)
| OpGpioClose.

Definition sresp (o : sop) : Type :=
  match o with
  | OpLoad _ => result string Config
  | OpNewClient _ | OpRegister | OpConnect | OpShutdown _ | OpMqttClose _ => result string unit
  | OpOpenOutputs | OpOpenInputs | OpGpioClose => result GpioError unit
  | OpNow => Z
  | _ => unit
  end.

Inductive ServiceError : Type :=
| ErrConfiguration (cause : string)
| ErrInitClient (cause : string)
| ErrInitOutputs (cause : GpioError)
| ErrRegister (cause : string)
| ErrConnectMqtt (cause : string)
| ErrInitInputs (cause : GpioError)
| ErrShutdown (cause : string)             (* of Controller.Shutdown, as it is *)
| ErrMqttClose (cause : string)            (* of Client.Close, as it is *)
| ErrCloseGpio (cause : GpioError)
| ErrJoin (first : ServiceError) (second : option ServiceError).

Abbreviation sprog := (eprog sresp ServiceError unit).

(** Perform an operation and go on with its answer. *)
Definition call {A} (o : sop) (k : sresp o → prog sresp A) : prog sresp A := Vis o k.

(** [if err := f(); err != nil { return wrap(err) }] *)
Definition or_return {E} (wrap : E → ServiceError) (k : sprog) (r : result E unit) : sprog :=
  match r with Ok _ => k | Err e => Ret (Err (wrap e)) end.

(** ** [shutdownService] *)

Definition shutdownService : sprog :=
  call OpNow (λ now,
    let deadline := now + shutdownTimeout in
    call OpStopAccepting (λ _,
    call OpNow (λ t1,
    call (OpShutdown (deadline - t1)) (or_return ErrShutdown (
    call OpNow (λ t2,
    call (OpMqttClose (deadline - t2)) (or_return ErrMqttClose (
    call OpGpioClose (or_return ErrCloseGpio (Ret (Ok tt))))))))))).

(** [errors.Join(err, shutdownService(...))] *)
Definition roll_back (e : ServiceError) : sprog :=
  prog_bind (λ r, Ret (Err (ErrJoin e (match r with Ok _ => None | Err e' => Some e' end))))
    shutdownService.

(** [if err := f(); err != nil { return errors.Join(wrap(err), shutdownService(...)) }] *)
Definition or_roll_back {E} (wrap : E → ServiceError) (k : sprog) (r : result E unit) : sprog :=
  match r with Ok _ => k | Err e => roll_back (wrap e) end.

(** ** [run] *)

Record Flags := { fl_config : string; fl_check : bool; fl_version : bool }.

(** From [gpio.New] on. *)
Definition serve (cfg : Config) : sprog :=
  call (OpNewManager (cfg_GPIO cfg)) (λ _,
  call OpOpenOutputs (or_return ErrInitOutputs (
  call (OpNewController cfg) (λ _,
  call OpRegister (or_roll_back ErrRegister (
  call OpConnect (or_roll_back ErrConnectMqtt (
  call OpOpenInputs (or_roll_back ErrInitInputs (
  call OpPublishAllStates (λ _,
  call OpWaitSignal (λ _, shutdownService)))))))))))).

Definition run (flags : Flags) : sprog :=
  if fl_version flags then call OpPrintVersion (λ _, Ret (Ok tt)) else
  call (OpLoad (fl_config flags)) (λ r,
    match r with
    | Err e => Ret (Err (ErrConfiguration e))
    | Ok cfg =>
        call (OpNewClient cfg) (or_return ErrInitClient (
          if fl_check flags then Ret (Ok tt) else serve cfg))
    end).
