(* ===== verification/ServiceProofs.v ===== *)
(** * Command mqtt-raspberry-controller: proofs about start and stop

    What every conversation of [run] with its components looks like, and the
    composition with the GPIO manager: no line outlives a clean stop. *)

From S2P Require Import Prelude Effects GoTime Config Gpio Service.
From stdpp Require Import relations.

Open Scope Z_scope.

(** ** Conversations *)

Abbreviation event := {o : sop & sresp o}.
Definition ev (o : sop) (r : sresp o) : event := existT o r.

Definition stops (o : sop) : bool :=
  match o with
  | OpStopAccepting | OpShutdown _ | OpMqttClose _ | OpGpioClose => true
  | _ => false
  end.

(** No component is stopped in [l]. *)
Definition running (l : list event) : Prop := Forall (λ e, stops (projT1 e) = false) l.

Lemma path_call {A} o (k : sresp o → prog sresp A) l a :
  path (call o k) l a ↔ ∃ r l', l = ev o r :: l' ∧ path (k r) l' a.
Proof. done. Qed.

Lemma path_or_return {E} (wrap : E → ServiceError) k r l a :
  path (or_return wrap k r) l a →
  (∃ e, r = Err e ∧ l = [] ∧ a = Err (wrap e)) ∨ (r = Ok tt ∧ path k l a).
Proof. destruct r as [[]|e]; cbn; [by auto|]. intros [-> ->]. left. by exists e. Qed.

Lemma path_roll_back e l a :
  path (roll_back e) l a →
  ∃ rs e', path shutdownService l rs ∧ a = Err (ErrJoin e e') ∧ (e' = None ↔ rs = Ok tt).
Proof.
  unfold roll_back. rewrite path_bind. intros (l1 & rs & l2 & -> & Hs & -> & ->).
  rewrite app_nil_r. exists rs. eexists. split_and!; [done|done|].
  by destruct rs as [[]|e'].
Qed.

Lemma path_or_roll_back {E} (wrap : E → ServiceError) k r l a :
  path (or_roll_back wrap k r) l a →
  (∃ e e' rs, r = Err e ∧ path shutdownService l rs ∧ a = Err (ErrJoin (wrap e) e') ∧
              (e' = None ↔ rs = Ok tt)) ∨
  (r = Ok tt ∧ path k l a).
Proof.
  destruct r as [[]|e]; cbn [or_roll_back]; [by auto|].
  intros (rs & e' & ? & ? & ?)%path_roll_back. left. by exists e, e', rs.
Qed.

(** One operation of the program at the head of a conversation. *)
Ltac next_op H :=
  let r := fresh "r" in let l := fresh "l" in
  apply path_call in H as (r & l & -> & H).

(** What a conversation in which the components were started ends with. *)
Definition stopped (cfg : Config) (start l : list event) (r : result ServiceError unit) : Prop :=
  running start ∧ ev OpOpenOutputs (Ok tt) ∈ start ∧
  ∃ rs, path shutdownService l rs ∧ (rs ≠ Ok tt → r ≠ Ok tt) ∧
        (r = Ok tt → start = [ev (OpNewManager (cfg_GPIO cfg)) tt; ev OpOpenOutputs (Ok tt);
                              ev (OpNewController cfg) tt; ev OpRegister (Ok tt);
                              ev OpConnect (Ok tt); ev OpOpenInputs (Ok tt);
                              ev OpPublishAllStates tt; ev OpWaitSignal tt]).

Lemma serve_shape cfg l r :
  path (serve cfg) l r →
  (∃ e, l = [ev (OpNewManager (cfg_GPIO cfg)) tt; ev OpOpenOutputs (Err e)] ∧
        r = Err (ErrInitOutputs e)) ∨
  (∃ start l', l = start ++ l' ∧ stopped cfg start l' r).
Proof.
  unfold serve. intros H. next_op H. destruct r0. next_op H.
  apply path_or_return in H as [(e & -> & -> & ->)|[-> H]]; [left; by eauto|right].
  next_op H. destruct r0. next_op H. rename l into la.
  assert (∀ start l', running start → ev OpOpenOutputs (Ok tt) ∈ start →
    ∀ rs e e', path shutdownService l' rs → r = Err (ErrJoin e e') → stopped cfg start l' r) as Hback.
  { intros start l' Hrun Hin rs e e' Hp ->. split_and!; [done|done|]. by exists rs. }
  apply path_or_roll_back in H as [(e & e' & rs & -> & H & Hr & _)|[-> H]].
  { eexists [_; _; _; _], la. split; [done|].
    eapply Hback; [by repeat constructor|right; left|done|done]. }
  next_op H. rename l into lb.
  apply path_or_roll_back in H as [(e & e' & rs & -> & H & Hr & _)|[-> H]].
  { eexists [_; _; _; _; _], lb. split; [done|].
    eapply Hback; [by repeat constructor|right; left|done|done]. }
  next_op H. rename l into lc.
  apply path_or_roll_back in H as [(e & e' & rs & -> & H & Hr & _)|[-> H]].
  { eexists [_; _; _; _; _; _], lc. split; [done|].
    eapply Hback; [by repeat constructor|right; left|done|done]. }
  next_op H. destruct r0. next_op H. destruct r0.
  eexists [_; _; _; _; _; _; _; _], _. split; [done|].
  split_and!; [by repeat constructor|right; left|]. by exists r.
Qed.

Lemma run_shape flags l r :
  path (run flags) l r →
  (fl_version flags = true ∧ l = [ev OpPrintVersion tt] ∧ r = Ok tt) ∨
  (∃ e, l = [ev (OpLoad (fl_config flags)) (Err e)] ∧ r = Err (ErrConfiguration e)) ∨
  (∃ cfg e, l = [ev (OpLoad (fl_config flags)) (Ok cfg); ev (OpNewClient cfg) (Err e)] ∧
            r = Err (ErrInitClient e)) ∨
  (∃ cfg, fl_check flags = true ∧ r = Ok tt ∧
          l = [ev (OpLoad (fl_config flags)) (Ok cfg); ev (OpNewClient cfg) (Ok tt)]) ∨
  (∃ cfg l', fl_version flags = false ∧ fl_check flags = false ∧
             l = [ev (OpLoad (fl_config flags)) (Ok cfg); ev (OpNewClient cfg) (Ok tt)] ++ l' ∧
             path (serve cfg) l' r).
Proof.
  unfold run. destruct (fl_version flags); intros H; next_op H.
  { destruct r0, H as [-> ->]. auto. }
  destruct r0 as [cfg|e]; [|destruct H as [-> ->]; eauto 10].
  next_op H. apply path_or_return in H as [(e & -> & -> & ->)|[-> H]]; [eauto 10|].
  destruct (fl_check flags); [destruct H as [-> ->]; eauto 10|]. eauto 10.
Qed.

Lemma shutdown_shape l r :
  path shutdownService l r →
  ∃ t0 t1, let deadline := t0 + shutdownTimeout in
    let asked := [ev OpNow t0; ev OpStopAccepting tt; ev OpNow t1] in
    (∃ e, l = asked ++ [ev (OpShutdown (deadline - t1)) (Err e)] ∧ r = Err (ErrShutdown e)) ∨
    (∃ t2,
      let quiet := asked ++ [ev (OpShutdown (deadline - t1)) (Ok tt); ev OpNow t2] in
      (∃ e, l = quiet ++ [ev (OpMqttClose (deadline - t2)) (Err e)] ∧ r = Err (ErrMqttClose e)) ∨
      (∃ g, l = quiet ++ [ev (OpMqttClose (deadline - t2)) (Ok tt); ev OpGpioClose g] ∧
            r = map_err ErrCloseGpio g)).
Proof.
  unfold shutdownService. intros H. next_op H. next_op H. next_op H. next_op H. destruct r1.
  exists r0, r2. apply path_or_return in H as [(e & -> & -> & ->)|[-> H]]; [left; by exists e|right].
  next_op H. next_op H. exists r1.
  apply path_or_return in H as [(e & -> & -> & ->)|[-> H]]; [left; by exists e|right].
  next_op H. exists r3.
  apply path_or_return in H as [(e & -> & -> & ->)|[-> H]]; [done|]. by destruct H as [-> ->].
Qed.

Lemma running_not_stop start o r l1 l2 l' :
  running start → stops o = true → start ++ l' = l1 ++ ev o r :: l2 →
  ∃ k, l1 = start ++ k ∧ l' = k ++ ev o r :: l2.
Proof.
  intros Hrun Ho [(k & -> & Hk)|(k & -> & ->)]%app_eq_inv; [|by exists k].
  destruct k as [|e k]; cbn in Hk.
  - exists []. by rewrite !app_nil_r.
  - injection Hk as <- ->. apply Forall_app in Hrun as [_ [He _]%Forall_cons]. cbn in He. congruence.
Qed.

(** A conversation stops the components at its end or not at all. *)
Lemma run_parts flags l r :
  path (run flags) l r →
  running l ∨ ∃ start l' rs, l = start ++ l' ∧ running start ∧ path shutdownService l' rs.
Proof.
  intros [(_ & -> & _)|[(e & -> & _)|[(cfg & e & -> & _)|[(cfg & _ & _ & ->)|
    (cfg & l' & _ & _ & -> & H)]]]]%run_shape; try (left; by repeat constructor).
  apply serve_shape in H as [(e & -> & _)|(start & l2 & -> & Hrun & _ & rs & Hp & _)].
  - left. by repeat constructor.
  - right. eexists (_ ++ start), l2, rs. rewrite (assoc_L (++)). split_and!; [done| |done].
    apply Forall_app. split; [by repeat constructor|done].
Qed.

(** ** Properties *)

(** C14: the GPIO lines are closed last and at most once, and only after the
    workers and then the MQTT callbacks are known to be over: no action and no
    callback meets a closed line.  The clients were told to stop before, and the
    controller and the client share one budget of ten seconds. *)
Theorem gpio_closed_last flags l1 l2 g r :
  path (run flags) (l1 ++ ev OpGpioClose g :: l2) r →
  l2 = [] ∧ ∃ start t0 t1 t2, running start ∧
    l1 = start ++ [ev OpNow t0; ev OpStopAccepting tt;
                   ev OpNow t1; ev (OpShutdown (t0 + shutdownTimeout - t1)) (Ok tt);
                   ev OpNow t2; ev (OpMqttClose (t0 + shutdownTimeout - t2)) (Ok tt)].
Proof.
  intros [Hrun|(start & l' & rs & Heq & Hrun & Hp)]%run_parts.
  { by apply Forall_app in Hrun as [_ [? _]%Forall_cons]. }
  symmetry in Heq. apply running_not_stop in Heq as (k & -> & Hk); [|done|done].
  apply shutdown_shape in Hp as (t0 & t1 & [(e & Hl & _)|(t2 & [(e & Hl & _)|(g' & Hl & _)])]);
    rewrite Hl in Hk; clear Hl; cbn in Hk;
    repeat (destruct k as [|? k]; [discriminate Hk|]; injection Hk as <- Hk);
    try (by destruct k).
  destruct k as [|? k]; [|injection Hk as _ Hk; by destruct k].
  injection Hk as _ <-. split; [done|]. exists start, t0, t1, t2. done.
Qed.

Definition opens (e : event) : bool :=
  match e with existT OpOpenOutputs r => is_ok r | _ => false end.

Lemma not_opened l : forallb (λ e, negb (opens e)) l = true → ev OpOpenOutputs (Ok tt) ∉ l.
Proof. rewrite forallb_forall. intros H Hin%list_elem_of_In%H. done. Qed.

(** C15: what was started is stopped.  Once the outputs are open, however far the
    start gets, the run ends with one [shutdownService]; a failure of it is never
    swallowed; and the process reports success only if every component started
    and it stopped after a signal. *)
Theorem started_is_stopped flags l r :
  path (run flags) l r → ev OpOpenOutputs (Ok tt) ∈ l →
  ∃ start l' rs, l = start ++ l' ∧ running start ∧ path shutdownService l' rs ∧
    (rs ≠ Ok tt → r ≠ Ok tt) ∧
    (r = Ok tt → ev OpRegister (Ok tt) ∈ start ∧ ev OpConnect (Ok tt) ∈ start ∧
                 ev OpOpenInputs (Ok tt) ∈ start ∧ ev OpWaitSignal tt ∈ start).
Proof.
  intros [(_ & -> & _)|[(e & -> & _)|[(cfg & e & -> & _)|[(cfg & _ & _ & ->)|
    (cfg & l' & _ & _ & -> & H)]]]]%run_shape Hin.
  1-4: by apply not_opened in Hin.
  apply serve_shape in H as [(e & -> & _)|(start & l2 & -> & Hrun & _ & rs & Hp & Hrs & Hok)].
  - by apply not_opened in Hin.
  - eexists (_ ++ start), l2, rs. rewrite (assoc_L (++)). split_and!; [done| |done|done|].
    + apply Forall_app. split; [by repeat constructor|done].
    + intros Hr. rewrite (Hok Hr). split_and!; cbn; repeat (first [left|right]).
Qed.

(** ** With the GPIO manager

    The manager answers its operations by its own definitions; every other
    component may do to the board what it likes, except requesting or releasing
    lines, which only the manager does. *)

Section with_gpio.
Context {L W : Type} `{LineLaws L W}.
Implicit Types (s : Manager L * W).

Definition ssem (o : sop) s : sresp o → Manager L * W → Prop :=
  match o with
  | OpNewManager cfg => λ _ s', s' = (new_manager cfg, s.2)
  | OpOpenOutputs => λ r s', OpenOutputs s = (r, s')
  | OpOpenInputs => λ r s', OpenInputs s = (r, s')
  | OpGpioClose => λ r s', Close s = (r, s')
  | _ => λ _ s', s'.1 = s.1 ∧ held s'.2 = held s.2
  end.

(** The process ends without closing its lines: something may still use them,
    and the kernel releases them. *)
Fixpoint gives_up (e : ServiceError) : Prop :=
  match e with
  | ErrShutdown _ | ErrMqttClose _ => True
  | ErrJoin _ (Some e) => gives_up e
  | _ => False
  end.

Definition gave_up (r : result ServiceError unit) : Prop :=
  match r with Ok _ => False | Err e => gives_up e end.

(** The manager is sound and [mine] are the lines of everybody else. *)
Definition sound (mine : gset L) s : Prop := manager_inv s.1 s.2 ∧ others s.1 s.2 = mine.
Definition all_closed s : Prop := gm_outputs s.1 = ∅ ∧ gm_inputs s.1 = ∅.
Definition clean (mine : gset L) (r : result ServiceError unit) s : Prop :=
  sound mine s ∧ (gave_up r ∨ all_closed s).

Section run.
Context (mine : gset L).
Abbreviation always := (λ _ : Manager L * W, True).

Lemma sound_frame s s' : sound mine s → s'.1 = s.1 → held s'.2 = held s.2 → sound mine s'.
Proof.
  destruct s as [m w], s' as [m' w']. cbn. intros [Hi Ho] -> Hh. unfold sound, others in *. cbn in *.
  rewrite Hh. split; [|done]. destruct Hi. split; try done. by rewrite Hh.
Qed.

Lemma sound_opened s r s' : sound mine s → OpenOutputs s = (r, s') →
  sound mine s' ∧ (r = Ok tt ∨ is_ok r = false ∧ all_closed s').
Proof.
  destruct s as [m w], s' as [m' w']. intros [Hi Ho] Hop.
  apply open_outputs_loop in Hop as (Hi' & _ & Hoth & Hr); [| done |].
  - split; [by split; [|cbn; rewrite Hoth]|]. destruct r as [[]|e]; [by left|]. by right.
  - intros n. unfold sortedOutputNames. by rewrite elem_of_sorted_map_keys.
Qed.

Lemma sound_inputs s r s' : sound mine s → OpenInputs s = (r, s') → sound mine s'.
Proof.
  destruct s as [m w], s' as [m' w']. intros [Hi Ho] Hop.
  apply open_inputs_loop in Hop as (Hi' & _ & Hoth & _); [| done |].
  - by split; [|cbn; rewrite Hoth].
  - intros n. unfold sortedInputNames. by rewrite elem_of_sorted_map_keys.
Qed.

Lemma sound_closed s r s' : sound mine s → Close s = (r, s') → sound mine s' ∧ all_closed s'.
Proof.
  destruct s as [m w]. intros [Hi Ho]. unfold Close.
  destruct (closeLocked (m, w)) as [e [m1 w1]] eqn:Hc.
  apply closeLocked_spec in Hc as [-> Hh]. intros [= _ <-].
  destruct (manager_inv_closed m w w1) as [? Hoth]; [done..|].
  split; [|done]. split; [done|]. cbn. by rewrite Hoth.
Qed.

(** One step that leaves the manager alone. *)
Lemma wp_frame o k Q s :
  (∀ r s', ssem o s r s' → s'.1 = s.1 ∧ held s'.2 = held s.2) →
  sound mine s → (∀ r s', sound mine s' → wp ssem always (k r) Q s') →
  wp ssem always (call o k : sprog) Q s.
Proof.
  intros Hf Hs Hk. split; [done|]. intros r s' Hr. apply Hk.
  destruct (Hf _ _ Hr). by eapply sound_frame.
Qed.

Lemma wp_or_return {E} (wrap : E → ServiceError) k r Q s :
  (∀ e, r = Err e → Q (Err (wrap e)) s) → (r = Ok tt → wp ssem always k Q s) →
  wp ssem always (or_return wrap k r) Q s.
Proof. destruct r as [[]|e]; cbn; auto. Qed.

Lemma wp_shutdown s : sound mine s → wp ssem always shutdownService (clean mine) s.
Proof.
  intros Hs. unfold shutdownService.
  apply wp_frame; [done|done|]. clear s Hs. intros t0 s Hs.
  apply wp_frame; [done|done|]. clear s Hs. intros _ s Hs.
  apply wp_frame; [done|done|]. clear s Hs. intros t1 s Hs.
  apply wp_frame; [done|done|]. clear s Hs. intros r s Hs.
  apply wp_or_return; [by intros e ->; split; [|left]|intros _].
  apply wp_frame; [done|done|]. clear s Hs r. intros t2 s Hs.
  apply wp_frame; [done|done|]. clear s Hs. intros r s Hs.
  apply wp_or_return; [by intros e ->; split; [|left]|intros _].
  split; [done|]. intros g s' [Hs' Hc]%sound_closed; [|done].
  apply wp_or_return; [by intros e ->; split; [|right]|]. intros _. split; [done|]. split; auto.
Qed.

Lemma wp_roll_back {E} (wrap : E → ServiceError) k r s :
  sound mine s → (∀ s, sound mine s → wp ssem always k (clean mine) s) →
  wp ssem always (or_roll_back wrap k r) (clean mine) s.
Proof.
  intros Hs Hk. destruct r as [[]|e]; cbn [or_roll_back]; [by apply Hk|].
  apply wp_bind. eapply wp_mono; [|by apply wp_shutdown].
  intros r s' _ [Hs' Hr]. split; [done|]. split; [done|].
  destruct Hr as [Hr|Hr]; [left|by right]. by destruct r as [[]|e'].
Qed.

Lemma wp_serve cfg s : held s.2 = mine →
  wp ssem always (serve cfg) (clean mine) s.
Proof.
  intros Hh. unfold serve. split; [done|]. intros _ s1 ->.
  split; [done|]. intros r s2 Hop.
  apply sound_opened in Hop as [Hs2 Hr].
  2: { split; [apply manager_inv_new|]. unfold others, owned. cbn.
       rewrite lines_of_empty. rewrite Hh. set_solver. }
  apply wp_or_return; [|intros _].
  { intros e ->. split; [done|]. right. by destruct Hr as [?|[_ ?]]. }
  apply wp_frame; [done|done|]. clear. intros _ s Hs.
  apply wp_frame; [done|done|]. clear. intros r s Hs. apply wp_roll_back; [done|]. clear. intros s Hs.
  apply wp_frame; [done|done|]. clear. intros r s Hs. apply wp_roll_back; [done|]. clear. intros s Hs.
  split; [done|]. intros r s' Hs'%sound_inputs; [|done].
  apply wp_roll_back; [done|]. clear. intros s Hs.
  apply wp_frame; [done|done|]. clear. intros _ s Hs.
  apply wp_frame; [done|done|]. clear. intros _ s Hs. by apply wp_shutdown.
Qed.

(** Before the outputs are opened. *)
Definition idle s : Prop := all_closed s ∧ held s.2 = mine.

Lemma idle_clean r s : idle s → clean mine r s.
Proof.
  destruct s as [[c o i] w]. intros [[Ho Hi] Hh]. cbn in *. subst o i.
  split; [|by right]. split; [apply (manager_inv_new c)|].
  unfold others, owned. cbn. rewrite lines_of_empty, Hh. set_solver.
Qed.

Lemma wp_idle o k Q s :
  (∀ r s', ssem o s r s' → s'.1 = s.1 ∧ held s'.2 = held s.2) →
  idle s → (∀ r s', idle s' → wp ssem always (k r) Q s') →
  wp ssem always (call o k : sprog) Q s.
Proof.
  intros Hf [Hc Hh] Hk. split; [done|]. intros r s' Hr. apply Hk.
  destruct (Hf _ _ Hr) as [Hm Hheld]. unfold idle, all_closed. by rewrite Hm, Hheld.
Qed.

Lemma wp_run flags s : idle s → wp ssem always (run flags) (clean mine) s.
Proof.
  intros Hs. unfold run. destruct (fl_version flags).
  { apply wp_idle; [done|done|]. intros _ s' Hs'. split; [done|]. by apply idle_clean. }
  apply wp_idle; [done|done|]. clear s Hs. intros [cfg|e] s Hs; [|split; [done|by apply idle_clean]].
  apply wp_idle; [done|done|]. clear s Hs. intros r s Hs.
  apply wp_or_return; intros; [by apply idle_clean|].
  destruct (fl_check flags); [split; [done|by apply idle_clean]|]. apply wp_serve, Hs.
Qed.
End run.

(** C13: whatever happens between start and stop, and whatever the broker and the
    devices answer, the program never releases a line it did not request; and
    when it ends it holds exactly the lines it held before it started, unless the
    stop of the controller or of the client failed, which the result says. *)
Theorem run_leaks_no_line flags m w r m' w' :
  exec ssem (run flags) (m, w) r (m', w') → gm_outputs m = ∅ → gm_inputs m = ∅ →
  held w ⊆ held w' ∧ (held w' = held w ∨ gave_up r).
Proof.
  intros Hex Ho Hi.
  destruct (wp_sound ssem (λ _, True) _ _ (clean (held w)) _ _
    (wp_run (held w) flags (m, w) (conj (conj Ho Hi) eq_refl)) Hex) as [_ Hq].
  destruct (Hq r eq_refl) as [[Hinv Hoth] Hend]. cbn in *. unfold others in Hoth.
  split; [rewrite <- Hoth; set_solver|].
  destruct Hend as [?|[Ho' Hi']]; [by right|left].
  rewrite <- Hoth. unfold owned. cbn in Ho', Hi'. rewrite Ho', Hi', lines_of_empty. set_solver.
Qed.
End with_gpio.

(** ** A complete run *)

Definition sample_flags : Flags :=
  {| fl_config := "/etc/config.yaml"; fl_check := false; fl_version := false |}.

(** Every component answers well, and the clock stands still. *)
Definition obliging (o : sop) (s : Manager Z * board) : sresp o * (Manager Z * board) :=
  match o return sresp o * (Manager Z * board) with
  | OpLoad _ => (Ok sample_config, s)
  | OpNewClient _ | OpRegister | OpConnect | OpShutdown _ | OpMqttClose _ => (Ok tt, s)
  | OpNewManager cfg => (tt, (new_manager cfg, s.2))
  | OpOpenOutputs => OpenOutputs s
  | OpOpenInputs => OpenInputs s
  | OpGpioClose => Close s
  | OpNow => (0, s)
  | _ => (tt, s)
  end.

Definition no_manager : Manager Z := new_manager {| gpio_Outputs := ∅; gpio_Inputs := ∅ |}.

Definition sample_end : result ServiceError unit * (Manager Z * board) :=
  Effects.run obliging (Service.run sample_flags) (no_manager, board0).

Example sample_ends : sample_end.1 = Ok tt.
Proof. vm_compute. reflexivity. Qed.

Lemma run_leaks_no_line_witness :
  held board0 ⊆ held sample_end.2.2 ∧
  (held sample_end.2.2 = held board0 ∨ gave_up sample_end.1).
Proof.
  refine (run_leaks_no_line sample_flags no_manager board0 sample_end.1 sample_end.2.1
            sample_end.2.2 _ eq_refl eq_refl).
  refine (run_steps ssem obliging _ _ _ _ _ (triple_eta sample_end)).
  intros [] s r s'; cbn; try (intros [= <- <-]); done.
Defined.

(** The same run as a conversation. *)
Definition sample_start : list event :=
  [ev (OpLoad "/etc/config.yaml") (Ok sample_config); ev (OpNewClient sample_config) (Ok tt);
   ev (OpNewManager (cfg_GPIO sample_config)) tt; ev OpOpenOutputs (Ok tt);
   ev (OpNewController sample_config) tt; ev OpRegister (Ok tt); ev OpConnect (Ok tt);
   ev OpOpenInputs (Ok tt); ev OpPublishAllStates tt; ev OpWaitSignal tt].

Definition sample_stop : list event :=
  [ev OpNow 0; ev OpStopAccepting tt; ev OpNow 5; ev (OpShutdown (shutdownTimeout - 5)) (Ok tt);
   ev OpNow 9; ev (OpMqttClose (shutdownTimeout - 9)) (Ok tt)].

Lemma sample_path :
  path (Service.run sample_flags) ((sample_start ++ sample_stop) ++ ev OpGpioClose (Ok tt) :: []) (Ok tt).
Proof. repeat (eexists _, _; split; [reflexivity|]). by split. Qed.

Lemma gpio_closed_last_witness :
  ∃ start t0 t1 t2, running start ∧
    sample_start ++ sample_stop
    = start ++ [ev OpNow t0; ev OpStopAccepting tt;
                ev OpNow t1; ev (OpShutdown (t0 + shutdownTimeout - t1)) (Ok tt);
                ev OpNow t2; ev (OpMqttClose (t0 + shutdownTimeout - t2)) (Ok tt)].
Proof.
  exact (proj2 (gpio_closed_last sample_flags (sample_start ++ sample_stop) [] (Ok tt) (Ok tt)
                  sample_path)).
Defined.

Lemma started_is_stopped_witness :
  ∃ start l' rs, (sample_start ++ sample_stop) ++ [ev OpGpioClose (Ok tt)] = start ++ l' ∧
    running start ∧ path shutdownService l' rs.
Proof.
  assert (ev OpOpenOutputs (Ok tt) ∈ (sample_start ++ sample_stop) ++ [ev OpGpioClose (Ok tt)]) as Hin.
  { cbn. do 3 right. left. }
  destruct (started_is_stopped sample_flags _ _ sample_path Hin)
    as (start & l' & rs & Heq & Hrun & Hp & _).
  exact (ex_intro _ start (ex_intro _ l' (ex_intro _ rs (conj Heq (conj Hrun Hp))))).
Defined.
