(* ===== verification/GoNet.v ===== *)
(** * Go network names

    What the program uses of [net], [net/url], [strconv] and
    [strings.EqualFold]: the host and port of a URL, decimal integers and
    literal IP addresses. *)

From S2P Require Import Prelude GoString.
From Stdlib Require Import Ascii.

Open Scope Z_scope.

(** ** [strings.ToLower] and [strings.EqualFold]

    For comparison with a lower-case ASCII text.  Outside ASCII only U+0130
    and U+212A have an ASCII lower case ([i], [k]); only U+017F and U+212A fold
    to ASCII letters ([s], [k]). *)

Definition lower_ascii (c : ascii) : ascii :=
  if is_upper c then byte_of (code c + 32) else c.

Fixpoint to_lower (s : string) : string :=
  match s with
  | EmptyString => EmptyString
  | String a s1 =>
      match s1 with
      | String b s2 =>
          if (code a =? 196)%N && (code b =? 176)%N then String "i" (to_lower s2)
          else match s2 with
               | String c s3 =>
                   if (code a =? 226)%N && (code b =? 132)%N && (code c =? 170)%N
                   then String "k" (to_lower s3)
                   else String (lower_ascii a) (to_lower s1)
               | EmptyString => String (lower_ascii a) (to_lower s1)
               end
      | EmptyString => String (lower_ascii a) EmptyString
      end
  end.

Fixpoint equal_fold (s lower : string) : bool :=
  match s, lower with
  | EmptyString, EmptyString => true
  | String a s1, String l lower =>
      (Ascii.eqb (lower_ascii a) l && equal_fold s1 lower)
      || match s1 with
         | String b s2 =>
             ((code a =? 197)%N && (code b =? 191)%N && Ascii.eqb l "s" && equal_fold s2 lower)
             || match s2 with
                | String c s3 =>
                    (code a =? 226)%N && (code b =? 132)%N && (code c =? 170)%N
                    && Ascii.eqb l "k" && equal_fold s3 lower
                | EmptyString => false
                end
         | EmptyString => false
         end
  | _, _ => false
  end.

(** ** [net/url]: the parts of a parsed URL the program reads *)

Record URL := {
  url_Scheme : string;
  url_User : bool;                 (* [u.User != nil] *)
  url_Host : string;
  url_Path : string;
  url_RawPath : string;
  url_ForceQuery : bool;
  url_RawQuery : string;
  url_Fragment : string;
}.

(** [validOptionalPort]: empty, or a colon and digits. *)
Definition validOptionalPort (port : string) : bool :=
  match port with
  | EmptyString => true
  | String c s => Ascii.eqb c ":" && str_forall is_digit s
  end.

(** [strings.LastIndexByte]: the text before the last [c], and after it. *)
Fixpoint cut_last (c : ascii) (s : string) : option (string * string) :=
  match s with
  | EmptyString => None
  | String a s =>
      match cut_last c s with
      | Some (before, after) => Some (String a before, after)
      | None => if Ascii.eqb a c then Some (EmptyString, s) else None
      end
  end.

Definition has_suffix (s p : string) : bool := has_prefix (String.rev s) (String.rev p).

(** [splitHostPort] *)
Definition splitHostPort (hostPort : string) : string * string :=
  let '(host, port) :=
    match cut_last ":" hostPort with
    | Some (host, port) => if str_forall is_digit port then (host, port) else (hostPort, "")
    | None => (hostPort, "")
    end in
  if has_prefix host "[" && has_suffix host "]"
  then (str_take (String.length host - 2) (str_drop 1 host), port)
  else (host, port).

Definition Hostname (u : URL) : string := (splitHostPort (url_Host u)).1.
Definition Port (u : URL) : string := (splitHostPort (url_Host u)).2.

(** [net.JoinHostPort] *)
Definition JoinHostPort (host port : string) : string :=
  if has_byte host ":" || has_byte host "%" then "[" +:+ host +:+ "]:" +:+ port
  else host +:+ ":" +:+ port.

(** ** [strconv.Atoi] *)

Definition digit_value (c : ascii) : Z := Z.of_N (code c) - 48.

Fixpoint decimal (acc : Z) (s : string) : option Z :=
  match s with
  | EmptyString => Some acc
  | String c s => if is_digit c then decimal (acc * 10 + digit_value c) s else None
  end.

(** [None] is any error, out of the range of [int] included. *)
Definition Atoi (s : string) : option Z :=
  let '(sign, body) :=
    match s with
    | String c s' => if Ascii.eqb c "-" then (-1, s') else if Ascii.eqb c "+" then (1, s') else (1, s)
    | EmptyString => (1, s)
    end in
  if decide (body = "") then None
  else
    n ← decimal 0 body;
    let v := sign * n in
    if (- 2 ^ 63 <=? v) && (v <? 2 ^ 63) then Some v else None.

(** ** [net.ParseIP] *)

(** One field of a dotted quad: no leading zero, at most 255. *)
Definition ipv4_field (s : string) : option Z :=
  if decide (s = "") then None
  else
    v ← decimal 0 s;
    if (1 <? String.length s)%nat && has_prefix s "0" then None
    else if 255 <? v then None else Some v.

Definition parseIPv4 (s : string) : option (list Z) :=
  match split_on "." s with
  | [a; b; c; d] =>
      a ← ipv4_field a; b ← ipv4_field b; c ← ipv4_field c; d ← ipv4_field d;
      Some [a; b; c; d]
  | _ => None
  end.

Definition hex_digit_value (c : ascii) : option Z :=
  if is_digit c then Some (digit_value c)
  else if in_range "a" "f" c then Some (Z.of_N (code c) - 87)
  else if in_range "A" "F" c then Some (Z.of_N (code c) - 55)
  else None.

(** The hexadecimal digits at the start of [s]: their value, their number (at
    most four) and the rest. *)
Fixpoint hex_group (n : nat) (acc : Z) (s : string) : option (Z * nat * string) :=
  match s with
  | String c s' =>
      match hex_digit_value c with
      | Some v => if (3 <? n)%nat then None else hex_group (S n) (acc * 16 + v) s'
      | None => Some (acc, n, s)
      end
  | EmptyString => Some (acc, n, s)
  end.

(** The groups of [parseIPv6] from [s] on; [ip] are the bytes read so far and
    [ellipsis] the place of [::].  A round consumes a group, so [fuel] bounds
    the eight rounds. *)
Fixpoint ipv6_groups (fuel : nat) (s : string) (ip : list Z) (ellipsis : option nat)
    : option (list Z * option nat) :=
  match fuel with
  | O => if decide (s = "") then Some (ip, ellipsis) else None
  | S fuel =>
      if (16 <=? length ip)%nat then
        if decide (s = "") then Some (ip, ellipsis) else None
      else
        '(acc, n, rest) ← hex_group 0 0 s;
        if (n =? 0)%nat then None
        else match rest with
        | EmptyString => Some (ip ++ [acc / 256; acc mod 256], ellipsis)
        | String c rest' =>
            if Ascii.eqb c "." then
              if (bool_decide (ellipsis = None) && negb (length ip =? 12)%nat)
                 || (12 <? length ip)%nat then None
              else quad ← parseIPv4 s; Some (ip ++ quad, ellipsis)
            else if negb (Ascii.eqb c ":") || bool_decide (rest' = "") then None
            else
              let ip := ip ++ [acc / 256; acc mod 256] in
              match rest' with
              | String c' rest'' =>
                  if Ascii.eqb c' ":" then
                    if ellipsis is Some _ then None
                    else if decide (rest'' = "") then Some (ip, Some (length ip))
                    else ipv6_groups fuel rest'' ip (Some (length ip))
                  else ipv6_groups fuel rest' ip ellipsis
              | EmptyString => None
              end
        end
  end.

(** An address with a zone is no [net.IP]. *)
Definition parseIPv6 (s : string) : option (list Z) :=
  '(ip, ellipsis) ←
    (if has_byte s "%" then None
     else if decide (s = "::") then Some ([], Some 0%nat)
     else if has_prefix s "::" then ipv6_groups 9 (str_drop 2 s) [] (Some 0%nat)
     else ipv6_groups 9 s [] None);
  if (length ip <? 16)%nat then
    e ← ellipsis; Some (take e ip ++ replicate (16 - length ip) 0 ++ drop e ip)
  else if ellipsis is Some _ then None else Some ip.

(** The first dot or colon decides, as in [netip.ParseAddr]; the result has
    sixteen bytes. *)
Fixpoint first_separator (s : string) : option ascii :=
  match s with
  | EmptyString => None
  | String c s =>
      if Ascii.eqb c "." || Ascii.eqb c ":" || Ascii.eqb c "%" then Some c else first_separator s
  end.

Definition v4_prefix : list Z := replicate 10 0 ++ [255; 255].

Definition ParseIP (s : string) : option (list Z) :=
  match first_separator s with
  | Some c =>
      if Ascii.eqb c "." then quad ← parseIPv4 s; Some (v4_prefix ++ quad)
      else if Ascii.eqb c ":" then parseIPv6 s else None
  | None => None
  end.

(** [IP.IsLoopback] *)
Definition IsLoopback (ip : list Z) : bool :=
  if decide (take 12 ip = v4_prefix) then bool_decide (ip !! 12%nat = Some 127)
  else bool_decide (ip = replicate 15 0 ++ [1]).

Example ParseIP_examples :
  map (λ s, IsLoopback <$> ParseIP s)
    ["127.0.0.1"; "127.9.9.9"; "::1"; "0:0:0:0:0:0:0:1"; "::ffff:127.0.0.1"; "10.0.0.1"; "::";
     "127.0.0.01"; "127.1"; "1::2::3"; "localhost"; "127.0.0.1%lo"; "::1%lo"; "2001:db8::1";
     "1:2:3:4:5:6:7::"; "1:2:3:4:5:6:7:8:9"; "12345::"]
  = [Some true; Some true; Some true; Some true; Some true; Some false; Some false;
     None; None; None; None; None; None; Some false; Some false; None; None].
Proof. vm_compute. reflexivity. Qed.

Example splitHostPort_examples :
  map splitHostPort ["pi:1883"; "[::1]:8883"; "pi"; "pi:"; "a:b:9"; "pi:x"]
  = [("pi", "1883"); ("::1", "8883"); ("pi", ""); ("pi", ""); ("a:b", "9"); ("pi:x", "")].
Proof. vm_compute. reflexivity. Qed.
