(* ===== verification/Broker.v ===== *)
(** * Package config: the broker, credentials and TLS files

    [src/config/validation.go], the part of [Validate] before the device and
    lines 124 to 367: the broker URL,
    the authentication policy, the password and certificate files.  Files are
    read by a program of system calls; [url.Parse], whose grammar depends on the
    Go release, and the certificate functions of [crypto/x509] and [crypto/tls]
    are arguments of the definitions that call them. *)

From S2P Require Import Prelude Effects GoString GoPath GoNet Config Expansion Validation.
From Stdlib Require Import Ascii.

Open Scope Z_scope.

Definition maxCredentialFileSize : Z := 64 * 1024.

(** The limit of the certificate files. *)
Definition maxCertificateFileSize : Z := 4 * 1024 * 1024.

Definition secure_schemes : list string := ["ssl"; "tls"; "mqtts"; "mqtt+ssl"; "tcps"; "wss"].

(** [secureMQTTSchemes[scheme]] *)
Definition secureMQTTSchemes (scheme : string) : bool := bool_decide (scheme ∈ secure_schemes).

(** ** Errors *)

Inductive FileError : Type :=
| FileOpen (cause : string)
| FileStat (cause : string)
| FileNotRegular
| FilePermissions
| FileTooLarge (limit : Z)
| FileRead (cause : string).

Inductive BrokerError : Type :=
| ErrBrokerRequired
| ErrBrokerURL
| ErrBrokerUser
| ErrBrokerQuery
| ErrBrokerUnix
| ErrBrokerHostPort
| ErrBrokerPort
| ErrBrokerWebsocketPath
| ErrBrokerPath
| ErrBrokerPlaintext
| ErrBrokerScheme
| ErrTwoPasswords
| ErrUsernamePassword
| ErrCertKey
| ErrCertInsecure
| ErrTLSInsecure
| ErrUnauthenticatedWithAuth
| ErrNoAuthentication
| ErrPasswordFile (cause : FileError)
| ErrPasswordEmpty
| ErrPasswordNul
| ErrMinVersion
| ErrServerName
| ErrCAFile (cause : FileError)
| ErrCAInvalid
| ErrCertFile (cause : FileError)
| ErrKeyFile (cause : FileError)
| ErrCertificate
| ErrSettings (cause : ConfigError).

(** ** Files *)

(** [os.FileInfo] of an open file; [oi_special]: setuid, setgid or sticky. *)
Record OpenInfo := { oi_regular : bool; oi_perm : Z; oi_special : bool; oi_size : Z }.

Inductive fop : Type :=
| OpOpen (path : string)
| OpStatOpen (fd : Z)
| OpRead (fd limit : Z)                  (* io.ReadAll(io.LimitReader(f, limit)) *)
| OpCloseFile (fd : Z)
| OpReadFile (path : string).            (* os.ReadFile *)

Definition fresp (o : fop) : Type :=
  match o with
  | OpOpen _ => result string Z
  | OpStatOpen _ => result string OpenInfo
  | OpRead _ _ | OpReadFile _ => result string string
  | OpCloseFile _ => unit
  end.

Abbreviation fprog E A := (eprog fresp E A).

Definition on_file {A} (o : fop) (k : fresp o → prog fresp A) : prog fresp A := Vis o k.

(** Modes 0400, 0600 and 0640. *)
Definition credential_modes : list Z := [256; 384; 416].

Definition loose (info : OpenInfo) : bool :=
  negb (bool_decide (oi_perm info ∈ credential_modes)) || oi_special info.

(** The body of [readBoundedRegularFile] between the open and the deferred
    close. *)
Definition read_open_file (fd limit : Z) (restrictive : bool) : fprog FileError string :=
  on_file (OpStatOpen fd) (λ r,
    match r with
    | Err e => Ret (Err (FileStat e))
    | Ok info =>
        if negb (oi_regular info) then Ret (Err FileNotRegular)
        else if restrictive && loose info then Ret (Err FilePermissions)
        else if limit <? oi_size info then Ret (Err (FileTooLarge limit))
        else
          on_file (OpRead fd (limit + 1)) (λ r,
            match r with
            | Err e => Ret (Err (FileRead e))
            | Ok b => if limit <? Z.of_nat (String.length b)
                      then Ret (Err (FileTooLarge limit)) else Ret (Ok b)
            end)
    end).

Definition readBoundedRegularFile (path : string) (limit : Z) (restrictive : bool)
    : fprog FileError string :=
  on_file (OpOpen path) (λ r,
    match r with
    | Err e => Ret (Err (FileOpen e))
    | Ok fd => prog_bind (λ r, on_file (OpCloseFile fd) (λ _, Ret r))
                 (read_open_file fd limit restrictive)
    end).

(** ** Passwords *)

(** [s[:len(s)-1]] when [len(s) > 0 && s[len(s)-1] == c]. *)
Fixpoint cut_suffix (c : ascii) (s : string) : option string :=
  match s with
  | EmptyString => None
  | String a s' =>
      if bool_decide (s' = "") then (if Ascii.eqb a c then Some "" else None)
      else String a <$> cut_suffix c s'
  end.

Definition cr : ascii := byte_of 13.
Definition lf : ascii := byte_of 10.

(** At most one final newline is removed. *)
Definition strip_newline (b : string) : string :=
  match cut_suffix lf b with
  | Some b' => default b' (cut_suffix cr b')
  | None => b
  end.

Definition password_of (b : string) : result BrokerError string :=
  let b := strip_newline b in
  reject_if (bool_decide (b = "")) ErrPasswordEmpty ;;
  reject_if (has_nul b) ErrPasswordNul ;;
  Ok b.

Definition MQTTPassword (m : MQTTConfig) : fprog BrokerError string :=
  if decide (mq_PasswordFile m = "") then Ret (Ok (mq_Password m))
  else
    let! b := emap_err ErrPasswordFile
      (readBoundedRegularFile (mq_PasswordFile m) maxCredentialFileSize true) in
    elift (password_of b).

(** ** The broker *)

Definition isLiteralLoopback (host : string) : bool :=
  if equal_fold host "localhost" then true
  else match ParseIP host with Some ip => IsLoopback ip | None => false end.

Definition plain_schemes : list string := ["mqtt"; "tcp"; "ws"].

(** The websocket paths that are refused. *)
Definition unsafe_path (u : URL) : bool :=
  negb (bool_decide (url_Path u = ""))
  && (negb (has_prefix (url_Path u) "/") || negb (bool_decide (Clean (url_Path u) = url_Path u))
      || negb (bool_decide (url_RawPath u = ""))).

(** The switch of [validateMQTT] on the scheme. *)
Definition check_transport (m : MQTTConfig) (u : URL) : result BrokerError unit :=
  let scheme := to_lower (url_Scheme u) in
  let secure := secureMQTTSchemes scheme in
  if decide (scheme = "unix") then
    reject_if (negb (bool_decide (url_Host u = "")) || negb (IsAbs (url_Path u))
               || negb (bool_decide (Clean (url_Path u) = url_Path u))
               || negb (bool_decide (url_RawPath u = ""))) ErrBrokerUnix
  else if decide (scheme ∈ plain_schemes ++ secure_schemes) then
    reject_if (bool_decide (Hostname u = "") || bool_decide (Port u = "")) ErrBrokerHostPort ;;
    reject_if (match Atoi (Port u) with
               | Some port => (port <? 1) || (65535 <? port)
               | None => true
               end) ErrBrokerPort ;;
    (if decide (scheme ∈ ["ws"; "wss"]) then reject_if (unsafe_path u) ErrBrokerWebsocketPath
     else reject_if (negb (bool_decide (url_Path u = ""))) ErrBrokerPath) ;;
    reject_if (negb secure && negb (mq_AllowInsecureTransport m)
               && negb (isLiteralLoopback (Hostname u))) ErrBrokerPlaintext
  else Err ErrBrokerScheme.

Definition is_set (s : string) : bool := negb (bool_decide (s = "")).

(** From [hasPassword] on, the password file excepted. *)
Definition check_authentication (m : MQTTConfig) (secure : bool) : result BrokerError unit :=
  let tls := mq_TLS m in
  let hasPassword := is_set (mq_Password m) || is_set (mq_PasswordFile m) in
  reject_if (is_set (mq_Password m) && is_set (mq_PasswordFile m)) ErrTwoPasswords ;;
  reject_if (negb (Bool.eqb (negb (is_set (mq_Username m))) (negb hasPassword)))
    ErrUsernamePassword ;;
  let hasCert := is_set (CertFile tls) || is_set (KeyFile tls) in
  reject_if (negb (Bool.eqb (negb (is_set (CertFile tls))) (negb (is_set (KeyFile tls))))) ErrCertKey ;;
  reject_if (hasCert && negb secure) ErrCertInsecure ;;
  let hasTLSOption := is_set (CAFile tls) || hasCert || is_set (ServerName tls)
                      || is_set (MinVersion tls) in
  reject_if (hasTLSOption && negb secure) ErrTLSInsecure ;;
  reject_if (mq_AllowUnauthenticated m && (hasPassword || hasCert)) ErrUnauthenticatedWithAuth ;;
  reject_if (negb hasPassword && negb hasCert && negb (mq_AllowUnauthenticated m))
    ErrNoAuthentication.

Section parser.
Context (url_Parse : string → option URL).

Definition BrokerURL (m : MQTTConfig) : result BrokerError URL :=
  match url_Parse (mq_Broker m) with Some u => Ok u | None => Err ErrBrokerURL end.

Definition BrokerLogAddress (m : MQTTConfig) : result BrokerError string :=
  u ← BrokerURL m;
  if equal_fold (url_Scheme u) "unix" then Ok "unix://local"
  else
    reject_if (bool_decide (Hostname u = "") || bool_decide (Port u = "")) ErrBrokerHostPort ;;
    Ok (to_lower (url_Scheme u) +:+ "://" +:+ JoinHostPort (Hostname u) (Port u)).

(** [validateMQTT] up to its last check. *)
Definition check_mqtt (m : MQTTConfig) : result BrokerError bool :=
  reject_if (bool_decide (trim_space (mq_Broker m) = "")) ErrBrokerRequired ;;
  u ← BrokerURL m;
  reject_if (url_User u) ErrBrokerUser ;;
  reject_if (is_set (url_RawQuery u) || url_ForceQuery u || is_set (url_Fragment u))
    ErrBrokerQuery ;;
  let secure := secureMQTTSchemes (to_lower (url_Scheme u)) in
  check_transport m u ;;
  check_authentication m secure ;;
  Ok secure.

Definition validateMQTT (m : MQTTConfig) : fprog BrokerError bool :=
  let! secure := elift (check_mqtt m) in
  if decide (mq_PasswordFile m = "") then elift (Ok secure)
  else do! MQTTPassword m in elift (Ok secure).

(** ** TLS *)

Definition label_char (c : ascii) : bool :=
  is_lower c || is_upper c || is_digit c || Ascii.eqb c "-".

Definition valid_label (label : string) : bool :=
  negb (String.length label =? 0)%nat && (String.length label <=? 63)%nat
  && negb (has_prefix label "-") && negb (has_suffix label "-") && str_forall label_char label.

Definition validTLSServerName (name : string) : bool :=
  if bool_decide (name = "") || negb (bool_decide (trim_space name = name))
     || contains_any name "/@?#[]" then false
  else if ParseIP name is Some _ then true
  else if (253 <? String.length name)%nat || has_prefix name "." || has_suffix name "." then false
  else forallb valid_label (split_on "." name).

Definition VersionTLS12 : Z := 771.
Definition VersionTLS13 : Z := 772.

(** What is set of a [tls.Config]: the pool is the system's and the
    certificates of a file, the certificate a pair of files. *)
Record TLSConfig := {
  tls_MinVersion : Z;
  tls_ServerName : string;
  tls_RootCAs : option string;
  tls_Certificate : option (string * string);
}.

Context (AppendCertsFromPEM : string → bool) (X509KeyPair : string → string → bool).

Definition load_ca (file : string) : fprog BrokerError (option string) :=
  if decide (file = "") then elift (Ok None)
  else
    let! pem := emap_err ErrCAFile (readBoundedRegularFile file maxCertificateFileSize false) in
    elift (if AppendCertsFromPEM pem then Ok (Some pem) else Err ErrCAInvalid).

Definition load_certificate (cert key : string) : fprog BrokerError (option (string * string)) :=
  if decide (cert = "") then elift (Ok None)
  else
    let! certPEM := emap_err ErrCertFile
                      (readBoundedRegularFile cert maxCertificateFileSize false) in
    let! keyPEM := emap_err ErrKeyFile
                     (readBoundedRegularFile key maxCertificateFileSize true) in
    elift (if X509KeyPair certPEM keyPEM then Ok (Some (certPEM, keyPEM)) else Err ErrCertificate).

Definition min_version (v : string) : result BrokerError Z :=
  if decide (v ∈ [""; "1.2"]) then Ok VersionTLS12
  else if decide (v = "1.3") then Ok VersionTLS13 else Err ErrMinVersion.

Definition server_name (configured : string) (u : URL) : result BrokerError string :=
  if decide (configured = "") then Ok (Hostname u)
  else reject_if (negb (validTLSServerName configured)) ErrServerName ;; Ok configured.

Definition tls_config (m : MQTTConfig) : fprog BrokerError TLSConfig :=
  let tls := mq_TLS m in
  let! minVersion := elift (min_version (MinVersion tls)) in
  let! u := elift (BrokerURL m) in
  let! serverName := elift (server_name (ServerName tls) u) in
  let! pool := load_ca (CAFile tls) in
  let! certificate := load_certificate (CertFile tls) (KeyFile tls) in
  elift (Ok {| tls_MinVersion := minVersion; tls_ServerName := serverName;
               tls_RootCAs := pool; tls_Certificate := certificate |}).

(** ** [Validate] *)

(** The answers of [os.Stat] and the orders of the GPIO maps are arguments, as
    in [validateSettings]. *)
Definition Validate (os_Stat : string → result string FileInfo)
    (outputs : list (string * GPIOOutputConfig)) (inputs : list (string * GPIOInputConfig))
    (c : Config) : fprog BrokerError unit :=
  let! secure := validateMQTT (cfg_MQTT c) in
  do! (if (secure : bool) then do! tls_config (cfg_MQTT c) in elift (Ok tt) else elift (Ok tt)) in
  elift (map_err ErrSettings (validateSettings os_Stat outputs inputs c)).
End parser.
