(* ===== verification/BrokerProofs.v ===== *)
(** * Package config: proofs about the broker and the credentials

    The authentication and transport policy [validateMQTT] enforces, what a
    password or certificate file that is used looks like, and what a validated
    TLS configuration is. *)

From S2P Require Import Prelude Effects GoString GoPath GoNet Config Expansion Validation Broker.
From Stdlib Require Import Ascii.

Open Scope Z_scope.

(** ** Conversations of fallible programs *)

Section paths.
Context {Op : Type} {resp : Op → Type}.

Lemma path_ebind_ok {E A B} (f : A → eprog resp E B) p l b :
  path (ebind p f) l (Ok b) ↔
  ∃ l1 a l2, l = l1 ++ l2 ∧ path p l1 (Ok a) ∧ path (f a) l2 (Ok b).
Proof.
  unfold ebind. rewrite path_bind. split.
  - intros (l1 & [a|e] & l2 & -> & Hp & Hf); [by eauto 10|]. by destruct Hf.
  - intros (l1 & a & l2 & -> & Hp & Hf). by exists l1, (Ok a), l2.
Qed.

Lemma path_elift {E A} (r r' : result E A) l : path (elift r : eprog resp E A) l r' ↔ l = [] ∧ r' = r.
Proof. done. Qed.

Lemma path_emap_ok {E E' A} (g : E → E') (p : eprog resp E A) l a :
  path (emap_err g p) l (Ok a) ↔ path p l (Ok a).
Proof.
  unfold emap_err. rewrite path_bind. split.
  - intros (l1 & r & l2 & -> & Hp & [-> Hr]). rewrite app_nil_r.
    destruct r as [b|e]; cbn in Hr; [|done]. by injection Hr as ->.
  - intros Hp. exists l, (Ok a), []. rewrite app_nil_r. done.
Qed.
End paths.

Lemma map_err_ok {E E' A} (g : E → E') (r : result E A) a : map_err g r = Ok a ↔ r = Ok a.
Proof. destruct r; cbn; split; congruence. Qed.

(** Invert a successful conversation. *)
Ltac path_inv H :=
  repeat match type of H with
  | path (ebind _ _) _ (Ok _) =>
      let l1 := fresh "l" in let a := fresh "a" in let l2 := fresh "l" in let H1 := fresh "Hp" in
      apply path_ebind_ok in H as (l1 & a & l2 & -> & H1 & H)
  end.

(** ** The policy *)

Lemma bind_unit_ok {E A} (m : result E unit) (k : result E A) a :
  (m ;; k) = Ok a ↔ m = Ok tt ∧ k = Ok a.
Proof. rewrite bind_ok. split; [by intros ([] & ? & ?)|]. intros [? ?]. by exists tt. Qed.

Lemma is_set_true s : is_set s = true ↔ s ≠ "".
Proof. unfold is_set. by rewrite negb_true_iff, bool_decide_eq_false. Qed.

Lemma is_set_false s : is_set s = false ↔ s = "".
Proof. unfold is_set. by rewrite negb_false_iff, bool_decide_eq_true. Qed.

Definition uses_password (m : MQTTConfig) : Prop := mq_Password m ≠ "" ∨ mq_PasswordFile m ≠ "".
Definition uses_certificate (m : MQTTConfig) : Prop := CertFile (mq_TLS m) ≠ "".

(** Who may connect how: one password source with a user name, a certificate
    with its key, TLS options over TLS only, and anonymous access exactly when
    it is asked for. *)
Record authentication_ok (m : MQTTConfig) (secure : bool) : Prop := {
  ao_one : mq_Password m = "" ∨ mq_PasswordFile m = "";
  ao_user : mq_Username m ≠ "" ↔ uses_password m;
  ao_pair : CertFile (mq_TLS m) = "" ↔ KeyFile (mq_TLS m) = "";
  ao_tls : secure = false →
    CAFile (mq_TLS m) = "" ∧ CertFile (mq_TLS m) = "" ∧ KeyFile (mq_TLS m) = "" ∧
    ServerName (mq_TLS m) = "" ∧ MinVersion (mq_TLS m) = "";
  ao_anonymous : mq_AllowUnauthenticated m = true ↔ ¬ uses_password m ∧ ¬ uses_certificate m;
}.

(** The conditions of [check_authentication], one by one. *)
Lemma not_both (a b : bool) : a && b = false ↔ a = false ∨ b = false.
Proof. destruct a, b; naive_solver. Qed.

Lemma both_or_none (a b : bool) : negb (Bool.eqb (negb a) (negb b)) = false ↔ (a = true ↔ b = true).
Proof. destruct a, b; cbn; naive_solver. Qed.

Lemma only_if_secure (a b c d e secure : bool) :
  (b || c) && negb secure = false ∧ (a || (b || c) || d || e) && negb secure = false ↔
  (secure = false → a = false ∧ b = false ∧ c = false ∧ d = false ∧ e = false).
Proof.
  split.
  - intros [_ H] ->. rewrite andb_true_r, !orb_false_iff in H. tauto.
  - destruct secure; intros H; rewrite ?andb_false_r; [done|].
    destruct (H eq_refl) as (-> & -> & -> & -> & ->). done.
Qed.

Lemma anonymous_only (allow pw cert : bool) :
  allow && (pw || cert) = false ∧ negb pw && negb cert && negb allow = false ↔
  (allow = true ↔ pw = false ∧ cert = false).
Proof. destruct allow, pw, cert; cbn; naive_solver. Qed.

Lemma check_authentication_exact m secure :
  check_authentication m secure = Ok tt ↔ authentication_ok m secure.
Proof.
  unfold check_authentication. rewrite !bind_unit_ok, !reject_if_ok.
  rewrite not_both, !both_or_none.
  set (tls := mq_TLS m). set (pw := is_set (mq_Password m) || is_set (mq_PasswordFile m)).
  assert (pw = true ↔ uses_password m) as Hpw.
  { unfold pw, uses_password. by rewrite orb_true_iff, !is_set_true. }
  assert (pw = false ↔ ¬ uses_password m) as Hpw' by (rewrite <- Hpw; by destruct pw).
  transitivity ((is_set (mq_Password m) = false ∨ is_set (mq_PasswordFile m) = false) ∧
    (is_set (mq_Username m) = true ↔ pw = true) ∧
    (is_set (CertFile tls) = true ↔ is_set (KeyFile tls) = true) ∧
    (secure = false → is_set (CAFile tls) = false ∧ is_set (CertFile tls) = false ∧
       is_set (KeyFile tls) = false ∧ is_set (ServerName tls) = false ∧
       is_set (MinVersion tls) = false) ∧
    (mq_AllowUnauthenticated m = true ↔
       pw = false ∧ is_set (CertFile tls) || is_set (KeyFile tls) = false)).
  - rewrite <- only_if_secure, <- anonymous_only. tauto.
  - rewrite orb_false_iff, Hpw, Hpw', !is_set_true, !is_set_false.
    assert (CertFile tls ≠ "" ↔ ¬ CertFile tls = "") as Hc by done.
    split.
    + intros (H1 & H2 & H3 & H4 & H5). split; try done; fold tls.
      * destruct (decide (CertFile tls = "")), (decide (KeyFile tls = "")); naive_solver.
      * rewrite H5. unfold uses_certificate. fold tls.
        destruct (decide (CertFile tls = "")), (decide (KeyFile tls = "")); naive_solver.
    + intros [H1 H2 H3 H4 H5]. fold tls in H3, H4. unfold uses_certificate in H5. fold tls in H5.
      split_and!; try done.
      * by rewrite H3.
      * rewrite H5, H3. destruct (decide (KeyFile tls = "")); naive_solver.
Qed.

(** U+212A in UTF-8. *)
Definition kelvin_sign : string :=
  String (byte_of 226) (String (byte_of 132) (String (byte_of 170) "")).

(** Texts that are equal up to simple case folding with an ASCII text: letter by
    letter in either case; U+017F folds to [s], U+212A to [k]. *)
Inductive spells : string → string → Prop :=
| spells_nil : spells "" ""
| spells_letter a l s t : lower_ascii a = l → spells s t → spells (String a s) (String l t)
| spells_long_s s t : spells s t → spells ("ſ" +:+ s) (String "s" t)
| spells_kelvin s t : spells s t → spells (kelvin_sign +:+ s) (String "k" t).

Lemma code_eqb a n : (n < 256)%N → (code a =? n)%N = true ↔ a = byte_of n.
Proof.
  intros Hn. rewrite N.eqb_eq. unfold code, byte_of. split.
  - intros <-. by rewrite ascii_N_embedding.
  - intros ->. by apply N_ascii_embedding.
Qed.

Lemma equal_fold_spells s t : equal_fold s t = true ↔ spells s t.
Proof.
  split.
  - remember (String.length s) as n eqn:Hn. revert s t Hn.
    induction (Nat.lt_wf_0 n) as [n _ IH]. intros s t ->.
    destruct s as [|a s1], t as [|l t]; try done; [constructor|]. cbn [equal_fold].
    rewrite !orb_true_iff, andb_true_iff. intros [[Hl Hf]|H].
    { apply spells_letter; [by apply Ascii.eqb_eq|]. eapply IH, Hf; [|done]. cbn. lia. }
    destruct s1 as [|b s2]; [done|]. rewrite orb_true_iff, !andb_true_iff in H.
    destruct H as [(((Ha & Hb) & Hl) & Hf)|H].
    { apply code_eqb in Ha as ->; [|done]. apply code_eqb in Hb as ->; [|done].
      apply Ascii.eqb_eq in Hl as ->. apply (spells_long_s s2).
      eapply IH, Hf; [|done]. cbn. lia. }
    destruct s2 as [|c s3]; [done|]. rewrite !andb_true_iff in H.
    destruct H as ((((Ha & Hb) & Hc) & Hl) & Hf).
    apply code_eqb in Ha as ->; [|done]. apply code_eqb in Hb as ->; [|done].
    apply code_eqb in Hc as ->; [|done]. apply Ascii.eqb_eq in Hl as ->.
    apply (spells_kelvin s3). eapply IH, Hf; [|done]. cbn. lia.
  - induction 1 as [|a l s t <- _ IH|s t _ IH|s t _ IH]; [done|..].
    + cbn [equal_fold]. by rewrite Ascii.eqb_refl, IH.
    + change ("ſ" +:+ s) with (String (byte_of 197) (String (byte_of 191) s)). cbn [equal_fold].
      apply orb_true_iff. right. apply orb_true_iff. left. by rewrite IH.
    + change (kelvin_sign +:+ s)
        with (String (byte_of 226) (String (byte_of 132) (String (byte_of 170) s))).
      cbn [equal_fold].
      apply orb_true_iff. right. apply orb_true_iff. right. by rewrite IH.
Qed.

(** The addresses 127.0.0.0/8, as IPv4 or mapped into IPv6, and ::1. *)
Definition loopback_address (ip : list Z) : Prop :=
  (∃ rest, ip = v4_prefix ++ 127 :: rest) ∨ ip = replicate 15 0 ++ [1].

Lemma IsLoopback_spec ip : IsLoopback ip = true ↔ loopback_address ip.
Proof.
  unfold IsLoopback, loopback_address. case_decide as Hv.
  - rewrite bool_decide_eq_true. split.
    + intros H12. left. exists (drop 13 ip). rewrite <- Hv.
      rewrite <- (take_drop_middle ip 12 127 H12) at 1. done.
    + intros [[rest ->]| ->]; [done|]. by vm_compute in Hv.
  - rewrite bool_decide_eq_true. split; [by right|]. intros [[rest ->]| ->]; [|done].
    by destruct Hv.
Qed.

(** A host on this machine: localhost in any spelling, or a loopback address. *)
Definition on_this_machine (host : string) : Prop :=
  spells host "localhost" ∨ ∃ ip, ParseIP host = Some ip ∧ loopback_address ip.

Lemma isLiteralLoopback_spec host : isLiteralLoopback host = true ↔ on_this_machine host.
Proof.
  unfold isLiteralLoopback, on_this_machine. rewrite <- equal_fold_spells.
  destruct (equal_fold host "localhost"); [naive_solver|].
  destruct (ParseIP host) as [ip|]; [rewrite IsLoopback_spec|]; naive_solver.
Qed.

(** Where the client may connect to: a clean local socket, or an explicit host
    and port, in the clear only on the loopback or when that is asked for. *)
Definition websocket_path (u : URL) : Prop :=
  url_Path u = "" ∨
  has_prefix (url_Path u) "/" = true ∧ Clean (url_Path u) = url_Path u ∧ url_RawPath u = "".

Definition unix_ok (u : URL) : Prop :=
  url_Host u = "" ∧ IsAbs (url_Path u) = true ∧ Clean (url_Path u) = url_Path u ∧
  url_RawPath u = "".

Definition network_ok (m : MQTTConfig) (u : URL) (scheme : string) : Prop :=
  scheme ∈ plain_schemes ++ secure_schemes ∧ Hostname u ≠ "" ∧
  (∃ port, Atoi (Port u) = Some port ∧ 1 ≤ port ≤ 65535) ∧
  (if decide (scheme ∈ ["ws"; "wss"]) then websocket_path u else url_Path u = "") ∧
  (scheme ∈ secure_schemes ∨ mq_AllowInsecureTransport m = true ∨
   on_this_machine (Hostname u)).

Definition transport_ok (m : MQTTConfig) (u : URL) : Prop :=
  let scheme := to_lower (url_Scheme u) in
  if decide (scheme = "unix") then unix_ok u else network_ok m u scheme.

Lemma port_ok port :
  match Atoi port with Some n => (n <? 1) || (65535 <? n) | None => true end = false ↔
  ∃ n, Atoi port = Some n ∧ 1 ≤ n ≤ 65535.
Proof.
  destruct (Atoi port) as [n|]; [|naive_solver].
  rewrite orb_false_iff, !Z.ltb_ge. naive_solver lia.
Qed.

Lemma unsafe_path_false u : unsafe_path u = false ↔ websocket_path u.
Proof.
  unfold unsafe_path, websocket_path.
  rewrite andb_false_iff, !orb_false_iff, !negb_false_iff, !bool_decide_eq_true. tauto.
Qed.

Lemma plaintext_ok scheme allow local :
  negb (secureMQTTSchemes scheme) && negb allow && negb local = false ↔
  scheme ∈ secure_schemes ∨ allow = true ∨ local = true.
Proof.
  unfold secureMQTTSchemes. rewrite !andb_false_iff, !negb_false_iff, bool_decide_eq_true. tauto.
Qed.

Lemma check_transport_exact m u : check_transport m u = Ok tt ↔ transport_ok m u.
Proof.
  unfold check_transport, transport_ok. destruct (decide (to_lower _ = "unix")) as [Hu|Hu].
  { rewrite reject_if_ok, !orb_false_iff, !negb_false_iff, !bool_decide_eq_true.
    unfold unix_ok. tauto. }
  unfold network_ok. destruct (decide (to_lower _ ∈ plain_schemes ++ secure_schemes)) as [Hs|Hs];
    [|by split; [|intros [? _]]].
  rewrite !bind_unit_ok, !reject_if_ok, orb_false_iff, !bool_decide_eq_false.
  rewrite port_ok, plaintext_ok, isLiteralLoopback_spec.
  assert ((if decide (to_lower (url_Scheme u) ∈ ["ws"; "wss"])
     then reject_if (unsafe_path u) ErrBrokerWebsocketPath
     else reject_if (negb (bool_decide (url_Path u = ""))) ErrBrokerPath) = Ok tt ↔
     (if decide (to_lower (url_Scheme u) ∈ ["ws"; "wss"]) then websocket_path u
      else url_Path u = "")) as ->.
  { case_decide; rewrite reject_if_ok; [apply unsafe_path_false|].
    by rewrite negb_false_iff, bool_decide_eq_true. }
  assert ((∃ n, Atoi (Port u) = Some n ∧ 1 ≤ n ≤ 65535) → Port u ≠ "") as Hport.
  { intros (n & Hn & _) Hp. by rewrite Hp in Hn. }
  tauto.
Qed.

Section policy.
Context (url_Parse : string → option URL).

(** The settings of the broker that are in order, TLS being used when [secure]. *)
Definition broker_ok (m : MQTTConfig) (secure : bool) : Prop :=
  trim_space (mq_Broker m) ≠ "" ∧ ∃ u, url_Parse (mq_Broker m) = Some u ∧
    url_User u = false ∧ url_RawQuery u = "" ∧ url_ForceQuery u = false ∧ url_Fragment u = "" ∧
    (secure = true ↔ to_lower (url_Scheme u) ∈ secure_schemes) ∧
    transport_ok m u ∧ authentication_ok m secure.

Lemma check_mqtt_spec m secure : check_mqtt url_Parse m = Ok secure ↔ broker_ok m secure.
Proof.
  unfold broker_ok, check_mqtt, BrokerURL. rewrite bind_unit_ok, reject_if_ok, bool_decide_eq_false.
  destruct (url_Parse (mq_Broker m)) as [u|]; [|by split; [intros [_ ?]|intros (_ & ? & ? & _)]].
  cbn [mbind result_bind].
  rewrite !bind_unit_ok, !reject_if_ok, !orb_false_iff, !is_set_false, check_transport_exact.
  rewrite check_authentication_exact.
  assert (∀ b, secureMQTTSchemes (to_lower (url_Scheme u)) = b ↔
               (b = true ↔ to_lower (url_Scheme u) ∈ secure_schemes)) as Hb.
  { intros b. unfold secureMQTTSchemes. destruct b.
    - rewrite bool_decide_eq_true. by split; [intros ?; split|intros [H _]; apply H].
    - rewrite bool_decide_eq_false. split; [by intros ?; split|]. intros [_ H] Hin.
      by apply H in Hin. }
  split.
  - intros (Ht & Hu & [[Hq Hf] Hfr] & Htr & Ha & [= Hs]). split; [done|]. exists u.
    rewrite Hs in Ha. apply Hb in Hs. by split_and!.
  - intros (Ht & u' & [= <-] & Hu & Hq & Hf & Hfr & Hs%Hb & Htr & Ha).
    rewrite Hs. by split_and!.
Qed.

Lemma check_mqtt_policy m secure :
  check_mqtt url_Parse m = Ok secure →
  ∃ u, url_Parse (mq_Broker m) = Some u ∧
    (secure = true ↔ to_lower (url_Scheme u) ∈ secure_schemes) ∧
    transport_ok m u ∧ authentication_ok m secure.
Proof. intros (_ & u & ? & _ & _ & _ & _ & ? & ? & ?)%check_mqtt_spec. eauto. Qed.
End policy.

(** [strings.EqualFold] knows two letters s: a host spelt with U+017F passes for
    localhost. *)
Example localhost_folds : isLiteralLoopback "localhoſt" = true.
Proof. vm_compute. reflexivity. Qed.

(** ** Password files *)

Lemma cut_suffix_Some c s t : cut_suffix c s = Some t ↔ s = t +:+ String c "".
Proof.
  revert t. induction s as [|a s IH]; intros t; cbn.
  { split; [done|]. by destruct t. }
  case_bool_decide as Hs.
  - subst s. destruct (Ascii.eqb_spec a c) as [->|Hne].
    + split; [by intros [= <-]|]. destruct t as [|b t]; [done|]. intros [= _ Ht]. by destruct t.
    + split; [done|]. destruct t as [|b t]; [by intros [= ?]|]. intros [= _ Ht]. by destruct t.
  - rewrite fmap_Some. split.
    + intros (t' & ->%IH & ->). by rewrite str_cons_app.
    + destruct t as [|b t]; [by intros [= _ ?]|]. rewrite str_cons_app. intros [= -> Ht].
      exists t. split; [by apply IH|done].
Qed.

Lemma cut_suffix_None c s : cut_suffix c s = None ↔ ∀ t, s ≠ t +:+ String c "".
Proof.
  split.
  - intros Hn t Ht%cut_suffix_Some. congruence.
  - intros Hs. destruct (cut_suffix c s) as [t|] eqn:Ht; [|done].
    apply cut_suffix_Some in Ht. by destruct (Hs t).
Qed.

Definition ends_with (c : ascii) (s : string) : Prop := ∃ t, s = t +:+ String c "".

(** [b] is [s] with at most one newline after it. *)
Definition one_line (b s : string) : Prop :=
  (b = s ∧ ¬ ends_with lf s) ∨ (b = s +:+ String lf "" ∧ ¬ ends_with cr s) ∨
  b = s +:+ String cr "" +:+ String lf "".

Lemma str_snoc_inj s t c d : s +:+ String c "" = t +:+ String d "" → s = t ∧ c = d.
Proof.
  intros H. assert (cut_suffix d (s +:+ String c "") = Some t) as Ht by by apply cut_suffix_Some.
  destruct (decide (c = d)) as [->|Hne].
  - assert (cut_suffix d (s +:+ String d "") = Some s) by by apply cut_suffix_Some. naive_solver.
  - exfalso. revert t H Ht. induction s as [|a s IH]; intros t H Ht.
    + destruct t as [|b t]; cbn in H; [by injection H|]. injection H as _ H. by destruct t.
    + destruct t as [|b t]; rewrite str_cons_app in H; cbn in H.
      * injection H as _ H. by destruct s.
      * rewrite str_cons_app in H. injection H as -> H. apply (IH t H). by apply cut_suffix_Some.
Qed.

Lemma strip_newline_exact b s : strip_newline b = s ↔ one_line b s.
Proof.
  unfold strip_newline, one_line. destruct (cut_suffix lf b) as [b'|] eqn:Hb.
  - apply cut_suffix_Some in Hb as ->.
    destruct (cut_suffix cr b') as [b''|] eqn:Hb'; cbn.
    + apply cut_suffix_Some in Hb' as ->. split.
      * intros <-. right. right. by rewrite str_app_assoc.
      * intros [[<- Hn]|[[[<- _]%str_snoc_inj Hn]|H]].
        -- destruct Hn. by eexists.
        -- destruct Hn. by eexists.
        -- rewrite <- str_app_assoc in H. apply str_snoc_inj in H as [H _]. by apply str_snoc_inj in H as [-> _].
    + pose proof (proj1 (cut_suffix_None _ _) Hb') as Hn. split.
      * intros <-. right. left. split; [done|]. by intros [t Ht%Hn].
      * intros [[<- Hf]|[[[<- _]%str_snoc_inj _]|H]]; [|done|].
        -- destruct Hf. by eexists.
        -- rewrite <- str_app_assoc in H. apply str_snoc_inj in H as [H _]. by apply Hn in H.
  - pose proof (proj1 (cut_suffix_None _ _) Hb) as Hn. split.
    + intros <-. left. split; [done|]. by intros [t Ht%Hn].
    + intros [[-> _]|[[-> _]|H]]; [done| |].
      * by destruct (Hn s).
      * rewrite <- str_app_assoc in H. by apply Hn in H.
Qed.

(** ** Files *)

Abbreviation file_event := {o : fop & fresp o}.
Definition fev (o : fop) (r : fresp o) : file_event := existT o r.

Definition opens_or_closes (o : fop) : bool :=
  match o with OpOpen _ | OpCloseFile _ => true | _ => false end.

(** Every descriptor that is opened is closed, right at the end. *)
Definition balanced (l : list file_event) : Prop :=
  (∃ file e, l = [fev (OpOpen file) (Err e)]) ∨
  (∃ file fd l', l = fev (OpOpen file) (Ok fd) :: l' ++ [fev (OpCloseFile fd) tt] ∧
                 Forall (λ e, opens_or_closes (projT1 e) = false) l').

(** A file that was read: regular, within the limit and, if it is a secret, for
    its owner (and readers of its group) alone. *)
Record file_ok (info : OpenInfo) (limit : Z) (restrictive : bool) (b : string) : Prop := {
  fo_regular : oi_regular info = true;
  fo_size : oi_size info ≤ limit;
  fo_length : Z.of_nat (String.length b) ≤ limit;
  fo_secret : restrictive = true → oi_perm info ∈ credential_modes ∧ oi_special info = false;
}.

Definition reading (file : string) (limit fd : Z) (info : OpenInfo) (b : string)
    : list file_event :=
  [fev (OpOpen file) (Ok fd); fev (OpStatOpen fd) (Ok info); fev (OpRead fd (limit + 1)) (Ok b);
   fev (OpCloseFile fd) tt].

Lemma path_on_file {A} (o : fop) (k : fresp o → prog fresp A) l a :
  path (on_file o k) l a ↔ ∃ r l', l = fev o r :: l' ∧ path (k r) l' a.
Proof. done. Qed.

Lemma loose_false info :
  loose info = false ↔ oi_perm info ∈ credential_modes ∧ oi_special info = false.
Proof. unfold loose. by rewrite orb_false_iff, negb_false_iff, bool_decide_eq_true. Qed.

Lemma read_open_file_shape fd limit restrictive l r :
  path (read_open_file fd limit restrictive) l r →
  Forall (λ e, opens_or_closes (projT1 e) = false) l ∧
  ∀ b, r = Ok b → ∃ info, file_ok info limit restrictive b ∧
    l = [fev (OpStatOpen fd) (Ok info); fev (OpRead fd (limit + 1)) (Ok b)].
Proof.
  unfold read_open_file. intros (ri & l1 & -> & H)%path_on_file.
  destruct ri as [info|e]; [|destruct H as [-> ->]; split; [by repeat constructor|done]].
  destruct (oi_regular info) eqn:Hreg; cbn [negb] in H;
    [|destruct H as [-> ->]; split; [by repeat constructor|done]].
  destruct (restrictive && loose info) eqn:Hl;
    [destruct H as [-> ->]; split; [by repeat constructor|done]|].
  destruct (Z.ltb_spec limit (oi_size info)) as [Hs|Hs];
    [destruct H as [-> ->]; split; [by repeat constructor|done]|].
  apply path_on_file in H as (rb & l2 & -> & H).
  destruct rb as [b|e]; [|destruct H as [-> ->]; split; [by repeat constructor|done]].
  destruct (Z.ltb_spec limit (Z.of_nat (String.length b))) as [Hb|Hb];
    destruct H as [-> ->]; (split; [by repeat constructor|]); [done|].
  intros b' [= <-]. exists info. split; [|done]. split; try done.
  intros ->. by apply loose_false.
Qed.

Lemma read_file_shape file limit restrictive l r :
  path (readBoundedRegularFile file limit restrictive) l r →
  balanced l ∧
  ∀ b, r = Ok b → ∃ fd info, file_ok info limit restrictive b ∧ l = reading file limit fd info b.
Proof.
  unfold readBoundedRegularFile. intros (rf & l1 & -> & H)%path_on_file.
  destruct rf as [fd|e].
  - apply path_bind in H as (la & ra & lb & -> & (Hf & Hok)%read_open_file_shape & H).
    apply path_on_file in H as ([] & lc & -> & [-> ->]). split.
    + right. by exists file, fd, la.
    + intros b ->. destruct (Hok b eq_refl) as (info & ? & ->). by exists fd, info.
  - destruct H as [-> ->]. split; [|done]. left. eauto.
Qed.

(** C28: a password from a file comes from a regular file of mode 0400, 0600 or
    0640 and at most 64 KiB: its one line, without the newline, not empty and
    without a NUL byte; and the file is closed whatever goes wrong. *)
Theorem MQTTPassword_from_file m l r :
  path (MQTTPassword m) l r → mq_PasswordFile m ≠ "" →
  balanced l ∧
  ∀ s, r = Ok s → ∃ fd info b,
    l = reading (mq_PasswordFile m) maxCredentialFileSize fd info b ∧
    file_ok info maxCredentialFileSize true b ∧
    one_line b s ∧ s ≠ "" ∧ has_nul s = false.
Proof.
  intros H Hf. unfold MQTTPassword in H. rewrite decide_False in H by done.
  apply path_bind in H as (l1 & r1 & l2 & -> & H1 & H2).
  apply path_bind in H1 as (l3 & r3 & l4 & -> & H3 & [-> ->]).
  apply read_file_shape in H3 as [Hbal Hok].
  destruct r3 as [b|e]; destruct H2 as [-> ->]; rewrite !app_nil_r; (split; [done|]); [|done].
  intros s Hs. destruct (Hok b eq_refl) as (fd & info & Hinfo & ->). exists fd, info, b.
  split; [done|]. split; [done|]. unfold password_of in Hs.
  rewrite !bind_unit_ok, !reject_if_ok, bool_decide_eq_false in Hs.
  destruct Hs as (Hne & Hnul & [= Hs]). rewrite <- Hs at 2 3. split_and!; [|done|done].
  by apply strip_newline_exact.
Qed.

(** *** Complete readings *)

(** A credential file that was read: what the kernel answered, and its bytes. *)
Definition read_from (file : string) (limit : Z) (restrictive : bool) (l : list file_event)
    (b : string) : Prop :=
  ∃ fd info, l = reading file limit fd info b ∧ file_ok info limit restrictive b.

Lemma path_read_file file limit restrictive l b :
  path (readBoundedRegularFile file limit restrictive) l (Ok b) ↔
  read_from file limit restrictive l b.
Proof.
  split.
  - intros H. apply read_file_shape in H as [_ Hok].
    destruct (Hok b eq_refl) as (fd & info & ? & ?). by exists fd, info.
  - intros (fd & info & -> & [Hreg Hsize Hlen Hsecret]).
    eexists _, _. split; [reflexivity|]. apply path_bind.
    exists [fev (OpStatOpen fd) (Ok info); fev (OpRead fd (limit + 1)) (Ok b)], (Ok b),
      [fev (OpCloseFile fd) tt].
    split; [done|]. split; [|eexists _, _; split; [reflexivity|by split]].
    eexists _, _. split; [reflexivity|]. cbv beta iota. rewrite Hreg. cbn [negb].
    assert (restrictive && loose info = false) as ->.
    { destruct restrictive; [|done]. apply loose_false. auto. }
    rewrite (proj2 (Z.ltb_ge _ _) Hsize).
    eexists _, _. split; [reflexivity|]. cbv beta iota.
    rewrite (proj2 (Z.ltb_ge _ _) Hlen). by split.
Qed.

Lemma password_of_ok b s :
  password_of b = Ok s ↔ one_line b s ∧ s ≠ "" ∧ has_nul s = false.
Proof.
  unfold password_of. rewrite !bind_unit_ok, !reject_if_ok, bool_decide_eq_false.
  rewrite <- strip_newline_exact. split.
  - intros (? & ? & [= <-]). by split_and!.
  - intros (-> & ? & ?). by split_and!.
Qed.

(** The password file, if there is one, was read and holds a password. *)
Definition password_read (m : MQTTConfig) (l : list file_event) : Prop :=
  if decide (mq_PasswordFile m = "") then l = []
  else ∃ b s, read_from (mq_PasswordFile m) maxCredentialFileSize true l b ∧
         one_line b s ∧ s ≠ "" ∧ has_nul s = false.

Lemma path_MQTTPassword_ok m l s :
  mq_PasswordFile m ≠ "" →
  path (MQTTPassword m) l (Ok s) ↔
  ∃ b, read_from (mq_PasswordFile m) maxCredentialFileSize true l b ∧
       one_line b s ∧ s ≠ "" ∧ has_nul s = false.
Proof.
  intros Hf. unfold MQTTPassword. rewrite decide_False by done.
  rewrite path_ebind_ok. setoid_rewrite path_emap_ok. setoid_rewrite path_read_file.
  split.
  - intros (l1 & b & l2 & -> & Hb & [-> Hs]). rewrite app_nil_r. symmetry in Hs.
    apply password_of_ok in Hs. eauto.
  - intros (b & Hb & Hs). exists l, b, []. rewrite app_nil_r.
    split_and!; [done..|]. by apply password_of_ok in Hs as ->.
Qed.

Section validation.
Context (url_Parse : string → option URL).

Lemma path_validateMQTT_ok m l secure :
  path (validateMQTT url_Parse m) l (Ok secure) ↔
  broker_ok url_Parse m secure ∧ password_read m l.
Proof.
  unfold validateMQTT, password_read. rewrite path_ebind_ok. split.
  - intros (l1 & b & l2 & -> & [-> Hb] & H). cbn [app]. symmetry in Hb.
    apply check_mqtt_spec in Hb. destruct (decide (mq_PasswordFile m = "")) as [Hf|Hf].
    + destruct H as [-> [= ->]]. done.
    + apply path_ebind_ok in H as (l3 & s & l4 & -> & Hs & [-> [= ->]]).
      rewrite app_nil_r. apply path_MQTTPassword_ok in Hs as (c & ? & ?); [|done].
      split; [done|]. eauto.
  - intros [Hb Hp]. exists [], secure, l. apply check_mqtt_spec in Hb. rewrite Hb.
    split; [done|]. split; [done|]. destruct (decide (mq_PasswordFile m = "")) as [Hf|Hf].
    + by subst l.
    + destruct Hp as (c & s & Hc & Hs). apply path_ebind_ok. exists l, s, [].
      rewrite app_nil_r. split; [done|]. split; [|done]. apply path_MQTTPassword_ok; eauto.
Qed.

(** C26: the broker settings that [validateMQTT] accepts are exactly these: a URL
    without credentials, query or fragment, to a clean local socket or to an
    explicit host and a port in range, in the clear only to this machine
    (localhost up to case folding, or a loopback address) or when that is asked
    for; one kind of authentication, complete, or none exactly when that is asked
    for; and a password file, if there is one, that is private, within the limit
    and holds a password.  Its only system calls are those of reading that file,
    and the answer says whether the connection is TLS. *)
Theorem validateMQTT_exact m l secure :
  path (validateMQTT url_Parse m) l (Ok secure) ↔
  (trim_space (mq_Broker m) ≠ "" ∧ ∃ u, url_Parse (mq_Broker m) = Some u ∧
     url_User u = false ∧ url_RawQuery u = "" ∧ url_ForceQuery u = false ∧ url_Fragment u = "" ∧
     (secure = true ↔ to_lower (url_Scheme u) ∈ secure_schemes) ∧
     transport_ok m u ∧ authentication_ok m secure) ∧
  password_read m l.
Proof. apply path_validateMQTT_ok. Qed.
End validation.

Definition secret_settings (file : string) : MQTTConfig :=
  let m := cfg_MQTT sample_config in
  {| mq_Broker := "mqtts://broker:8883"; mq_Username := "pi"; mq_Password := "";
     mq_PasswordFile := file; mq_AllowUnauthenticated := false;
     mq_AllowInsecureTransport := false; mq_TLS := mq_TLS m; mq_ClientID := mq_ClientID m;
     mq_BaseTopic := mq_BaseTopic m; mq_QoS := mq_QoS m; mq_KeepAlive := mq_KeepAlive m;
     mq_ConnectTimeout := mq_ConnectTimeout m; mq_Discovery := mq_Discovery m |}.

Definition secret_info : OpenInfo :=
  {| oi_regular := true; oi_perm := 384; oi_special := false; oi_size := 7 |}.

Lemma MQTTPassword_from_file_witness :
  ∃ b, one_line b "secret" ∧ "secret" ≠ "" ∧ has_nul "secret" = false.
Proof.
  assert (path (MQTTPassword (secret_settings "/etc/pw"))
    (reading "/etc/pw" maxCredentialFileSize 3 secret_info ("secret" +:+ String lf "")) (Ok "secret"))
    as Hp by (repeat (eexists _, _; split; [reflexivity|]); split; vm_compute; reflexivity).
  destruct (proj2 (MQTTPassword_from_file (secret_settings "/etc/pw") _ _ Hp ltac:(discriminate))
              "secret" eq_refl) as (fd & info & b & _ & _ & Hline).
  exact (ex_intro _ b Hline).
Defined.
