(* ===== verification/Load.v ===== *)
(** * Loading a configuration and building the client

    [load] of [src/config/config.go] and [New] of [src/mqtt/client.go], the two
    places that put validation to use.  The YAML decoder is an argument. *)

From S2P Require Import Prelude Effects GoString GoTime GoNet Config Expansion Validation.
From S2P Require Import Broker Mqtt.

Open Scope Z_scope.

Inductive LoadError : Type :=
| ErrReadConfig (path cause : string)
| ErrDecodeYAML (cause : string)
| ErrExpand (cause : ExpandError)
| ErrInvalidConfig (cause : BrokerError).

(** What [New] asks of Paho. *)
Record ClientOptions := {
  po_Broker : string;
  po_ClientID : string;
  po_Username : string;
  po_Password : string;
  po_CleanSession : bool;
  po_AutoReconnect : bool;
  po_ConnectRetry : bool;
  po_ConnectTimeout : Z;
  po_KeepAlive : Z;
  po_PingTimeout : Z;
  po_OrderMatters : bool;
  po_TLS : option TLSConfig;
  po_Will : string * string * Z * bool;    (* topic, payload, QoS, retained *)
}.

(** The schemes [New] configures TLS for. *)
Definition tls_schemes : list string := ["ssl"; "tls"; "mqtts"; "mqtt+ssl"; "tcps"; "wss"].

Section load.
Context (url_Parse : string → option URL).
Context (AppendCertsFromPEM : string → bool) (X509KeyPair : string → string → bool).
Context (yaml_Decode : string → result string Config).

(** The answers of [os.Stat], and the orders in which Go ranges over the maps of
    a configuration. *)
Context (os_Stat : string → result string FileInfo).
Context (range_outputs : gmap string GPIOOutputConfig → list (string * GPIOOutputConfig)).
Context (range_inputs : gmap string GPIOInputConfig → list (string * GPIOInputConfig)).

Definition validate (c : Config) : fprog BrokerError unit :=
  Validate url_Parse AppendCertsFromPEM X509KeyPair os_Stat
    (range_outputs (gpio_Outputs (cfg_GPIO c))) (range_inputs (gpio_Inputs (cfg_GPIO c))) c.

Definition load (path : string) (lookup : lookupEnvFunc) : fprog LoadError Config :=
  on_file (OpReadFile path) (λ r,
    let! data := elift (map_err (ErrReadConfig path) r) in
    let! raw := elift (map_err ErrDecodeYAML (yaml_Decode data)) in
    let! expanded := elift (map_err ErrExpand (expandEnvironment lookup raw)) in
    let cfg := applyDefaults expanded in
    do! emap_err ErrInvalidConfig (validate cfg) in
    elift (Ok cfg)).

(** [mqtt.New]: the client and the options of its transport. *)
Definition new_mqtt {H SH CH : Type} (cfg : Config)
    : fprog BrokerError (Client H SH CH * ClientOptions) :=
  let m := cfg_MQTT cfg in
  do! validate cfg in
  let! password := MQTTPassword m in
  do! elift (BrokerLogAddress url_Parse m) in
  let! u := elift (BrokerURL url_Parse m) in
  let! tls :=
    (if decide (to_lower (url_Scheme u) ∈ tls_schemes)
     then let! t := tls_config url_Parse AppendCertsFromPEM X509KeyPair m in elift (Ok (Some t))
     else elift (Ok None)) in
  elift (Ok (new_client cfg,
    {| po_Broker := mq_Broker m; po_ClientID := mq_ClientID m; po_Username := mq_Username m;
       po_Password := password; po_CleanSession := true; po_AutoReconnect := true;
       po_ConnectRetry := false; po_ConnectTimeout := MQTTConnectTimeout cfg;
       po_KeepAlive := MQTTKeepAlive cfg; po_PingTimeout := 10 * Second;
       po_OrderMatters := true; po_TLS := tls;
       po_Will := (StatusTopic cfg, "offline", MQTTQoS cfg, true) |})).
End load.
