(* ===== verification/LoadProofs.v ===== *)
(** * Loading a configuration: proofs

    What a configuration that was loaded, and a client that was built from it,
    satisfy. *)

From S2P Require Import Prelude Effects GoString GoTime GoNet Config Expansion Validation.
From S2P Require Import ValidationProofs Broker BrokerProofs Mqtt Load.
From Stdlib Require Import Ascii.

Open Scope Z_scope.

(** ** Defaults *)







(** ** The TLS files *)

Section tls.
Context (url_Parse : string → option URL).
Context (AppendCertsFromPEM : string → bool) (X509KeyPair : string → string → bool).

(** The TLS files, in the order they are read, each complete: the CA file holds
    certificates, the client certificate goes with its key, which is private. *)
Definition ca_read (m : MQTTConfig) (l : list file_event) : Prop :=
  if decide (CAFile (mq_TLS m) = "") then l = []
  else ∃ pem, read_from (CAFile (mq_TLS m)) maxCertificateFileSize false l pem ∧
              AppendCertsFromPEM pem = true.

Definition certificate_read (m : MQTTConfig) (l : list file_event) : Prop :=
  if decide (CertFile (mq_TLS m) = "") then l = []
  else ∃ lc lk cert key, l = lc ++ lk ∧
         read_from (CertFile (mq_TLS m)) maxCertificateFileSize false lc cert ∧
         read_from (KeyFile (mq_TLS m)) maxCertificateFileSize true lk key ∧
         X509KeyPair cert key = true.

Definition tls_read (m : MQTTConfig) (l : list file_event) : Prop :=
  MinVersion (mq_TLS m) ∈ [""; "1.2"; "1.3"] ∧
  (ServerName (mq_TLS m) = "" ∨ validTLSServerName (ServerName (mq_TLS m)) = true) ∧
  ∃ lca lcert, l = lca ++ lcert ∧ ca_read m lca ∧ certificate_read m lcert.

Lemma load_ca_read m l pool :
  path (load_ca AppendCertsFromPEM (CAFile (mq_TLS m))) l (Ok pool) → ca_read m l.
Proof.
  unfold load_ca, ca_read. case_decide as Hf; [by intros [-> _]|].
  intros H. path_inv H. apply path_emap_ok, path_read_file in Hp.
  destruct H as [-> H]. rewrite app_nil_r.
  destruct (AppendCertsFromPEM a) eqn:Ha; [|done]. eauto.
Qed.

Lemma load_certificate_read m l cert :
  path (load_certificate X509KeyPair (CertFile (mq_TLS m)) (KeyFile (mq_TLS m))) l (Ok cert) →
  certificate_read m l.
Proof.
  unfold load_certificate, certificate_read. case_decide as Hf; [by intros [-> _]|].
  intros H. path_inv H. apply path_emap_ok, path_read_file in Hp, Hp0.
  destruct H as [-> H]. rewrite app_nil_r.
  destruct (X509KeyPair a a0) eqn:Hpair; [|done]. eauto 10.
Qed.

Lemma min_version_ok v n :
  min_version v = Ok n → VersionTLS12 ≤ n ∧ v ∈ [""; "1.2"; "1.3"].
Proof.
  unfold min_version. case_decide as Hv.
  { intros [= <-]. split; [done|]. set_solver. }
  case_decide as Hv3; [|done]. intros [= <-]. split; [done|]. subst v. set_solver.
Qed.

Lemma tls_config_ok m l t :
  path (tls_config url_Parse AppendCertsFromPEM X509KeyPair m) l (Ok t) → VersionTLS12 ≤ tls_MinVersion t ∧ tls_read m l.
Proof.
  unfold tls_config. intros H. path_inv H.
  apply path_elift in Hp as [-> Hmin], Hp0 as [-> _], Hp1 as [-> Hname], H as [-> [= ->]].
  symmetry in Hmin. apply min_version_ok in Hmin as [Hmin Hv]. cbn.
  split; [done|]. split; [done|]. split.
  - unfold server_name in Hname. case_decide as Hd; [by left|right]. symmetry in Hname.
    rewrite bind_unit_ok, reject_if_ok, negb_false_iff in Hname. by destruct Hname as [? _].
  - apply load_ca_read in Hp2. apply load_certificate_read in Hp3.
    rewrite app_nil_r. eauto.
Qed.
End tls.

(** ** Validation inside a conversation *)

Section load.
Context (url_Parse : string → option URL).
Context (AppendCertsFromPEM : string → bool) (X509KeyPair : string → string → bool).
Context (yaml_Decode : string → result string Config).
Context (os_Stat : string → result string FileInfo).
Context (range_outputs : gmap string GPIOOutputConfig → list (string * GPIOOutputConfig)).
Context (range_inputs : gmap string GPIOInputConfig → list (string * GPIOInputConfig)).

Abbreviation Settings c :=
  (validateSettings os_Stat (range_outputs (gpio_Outputs (cfg_GPIO c)))
     (range_inputs (gpio_Inputs (cfg_GPIO c))) c).
Abbreviation Valid := (validate url_Parse AppendCertsFromPEM X509KeyPair os_Stat range_outputs
  range_inputs).
Abbreviation Tls := (tls_config url_Parse AppendCertsFromPEM X509KeyPair).
Abbreviation Load := (load url_Parse AppendCertsFromPEM X509KeyPair yaml_Decode os_Stat
  range_outputs range_inputs).
Abbreviation NewMqtt := (new_mqtt url_Parse AppendCertsFromPEM X509KeyPair os_Stat
  range_outputs range_inputs).

(** A whole validation that succeeds: the broker, the password file, the TLS
    files if the connection is TLS, the settings. *)
Definition validation (c : Config) (l : list file_event) : Prop :=
  ∃ secure lp lt, l = lp ++ lt ∧
    broker_ok url_Parse (cfg_MQTT c) secure ∧ password_read (cfg_MQTT c) lp ∧
    (if (secure : bool) then tls_read AppendCertsFromPEM X509KeyPair (cfg_MQTT c) lt else lt = []) ∧ Settings c = Ok tt.

Lemma validate_ok c l : path (Valid c) l (Ok tt) → validation c l.
Proof.
  unfold validate, Validate, validation. intros H. path_inv H.
  apply path_validateMQTT_ok in Hp as [Hb Hpw].
  apply path_elift in H as [-> Hs]. symmetry in Hs. apply map_err_ok in Hs.
  eexists a, _, _. split; [by rewrite app_nil_r|]. split_and!; try done. destruct a.
  - path_inv Hp0. destruct Hp0 as [-> _]. rewrite app_nil_r. by eapply tls_config_ok.
  - by destruct Hp0 as [-> _].
Qed.

(** The parts of the settings that defaults and clients use. *)
Lemma settings_parts c :
  Settings c = Ok tt →
  mq_ClientID (cfg_MQTT c) ≠ "" ∧ mq_BaseTopic (cfg_MQTT c) ≠ "" ∧
  contains_any (mq_BaseTopic (cfg_MQTT c)) "+#" = false ∧
  (DiscoveryEnabled c = true → disc_Prefix (mq_Discovery (cfg_MQTT c)) ≠ "") ∧
  MQTTQoS c ≤ 2 ∧ debounce_ok (mq_KeepAlive (cfg_MQTT c)) ∧
  debounce_ok (mq_ConnectTimeout (cfg_MQTT c)).
Proof.
  unfold validateSettings.
  rewrite !bind_unit, !reject_if_ok, !optional_duration_ok, validateTopicPrefix_ok.
  intros (_ & _ & Hc & [Hb Hw] & Hp & _ & Hq%Z.ltb_ge & Hk & Ht & _).
  apply bool_decide_eq_false in Hc. split_and!; try done.
  intros He. rewrite He in Hp. by apply validateTopicPrefix_ok in Hp as [? _].
Qed.


(** *** The client *)

(** C16: the client that [New] builds uses TLS exactly when the scheme of the
    broker asks for it, at version 1.2 or later; it is never anonymous unless that
    is configured; its times are positive; and the will the broker publishes
    when the connection is lost is the retained offline status of [Close]. *)
Theorem new_mqtt_sound {H SH CH : Type} cfg l (c : Client H SH CH) opts :
  path (NewMqtt cfg) l (Ok (c, opts)) →
  c = new_client cfg ∧
  (∃ u, url_Parse (mq_Broker (cfg_MQTT cfg)) = Some u ∧
    match po_TLS opts with
    | Some t => to_lower (url_Scheme u) ∈ secure_schemes ∧ VersionTLS12 ≤ tls_MinVersion t
    | None => (to_lower (url_Scheme u) ∉ secure_schemes) ∧ transport_ok (cfg_MQTT cfg) u
    end) ∧
  (po_Username opts = "" → mq_AllowUnauthenticated (cfg_MQTT cfg) = true ∨
     uses_certificate (cfg_MQTT cfg)) ∧
  0 < po_KeepAlive opts ∧ 0 < po_ConnectTimeout opts ∧
  po_Will opts = (StatusTopic cfg, "offline", MQTTQoS cfg, true).
Proof.
  unfold new_mqtt. intros Hpath. path_inv Hpath.
  apply path_elift in Hpath as [_ [= -> ->]]. cbn. split; [done|].
  destruct a. apply validate_ok in Hp as (secure & lp & lt & _ & Hm & _ & _ & Hset).
  destruct (settings_parts _ Hset) as (_ & _ & _ & _ & _ & Hk & Ht).
  apply path_elift in Hp2 as [_ Hu]. unfold BrokerURL in Hu.
  destruct Hm as (_ & u & Hurl & _ & _ & _ & _ & Hsec & Htr & Ha). rewrite Hurl in Hu.
  injection Hu as ->. change tls_schemes with secure_schemes in Hp3. split_and!.
  - exists u. split; [done|]. case_decide as Hs.
    + path_inv Hp3. apply path_elift in Hp3 as [_ [= ->]].
      apply tls_config_ok in Hp as [? _]. done.
    + apply path_elift in Hp3 as [_ [= ->]]. done.
  - intros Huser. destruct Ha as [_ Hup _ _ Hanon].
    destruct (decide (CertFile (mq_TLS (cfg_MQTT cfg)) = "")) as [Hc|Hc]; [left|by right].
    apply Hanon. split; [|by intros Hcert]. rewrite <- Hup. intros Hne. by apply Hne.
  - by apply duration_or_positive.
  - by apply duration_or_positive.
  - done.
Qed.
End load.

(** ** A broker on the same machine *)

Definition local_url : URL :=
  {| url_Scheme := "tcp"; url_User := false; url_Host := "localhost:1883"; url_Path := "";
     url_RawPath := ""; url_ForceQuery := false; url_RawQuery := ""; url_Fragment := "" |}.

Definition parse_local (s : string) : option URL :=
  if decide (s = "tcp://localhost:1883") then Some local_url else None.


Definition loaded : Config := applyDefaults sample_config.



Definition local_options : ClientOptions :=
  {| po_Broker := "tcp://localhost:1883"; po_ClientID := "pi"; po_Username := "";
     po_Password := ""; po_CleanSession := true; po_AutoReconnect := true;
     po_ConnectRetry := false; po_ConnectTimeout := 10 * Second; po_KeepAlive := 30 * Second;
     po_PingTimeout := 10 * Second; po_OrderMatters := true; po_TLS := None;
     po_Will := ("home/pi/status", "offline", 1, true) |}.

Lemma sample_client_built :
  path (new_mqtt (H:=unit) (SH:=unit) (CH:=unit) parse_local (λ _, true) (λ _ _, true)
          (λ _, Err "") map_to_list map_to_list loaded)
    [] (Ok (new_client loaded, local_options)).
Proof. vm_compute. split; reflexivity. Qed.

Lemma new_mqtt_sound_witness :
  (po_Username local_options = "" → mq_AllowUnauthenticated (cfg_MQTT loaded) = true ∨
     uses_certificate (cfg_MQTT loaded)) ∧
  0 < po_KeepAlive local_options.
Proof.
  destruct (new_mqtt_sound parse_local (λ _, true) (λ _ _, true) (λ _, Err "") map_to_list
    map_to_list loaded [] _ _ sample_client_built) as (_ & _ & Huser & Hk & _).
  exact (conj Huser Hk).
Defined.
