(* ===== verification/System.v ===== *)
(** * The packages together

    The controller, the executor, the GPIO manager and the MQTT client on one
    world, wired as [main] wires them: the manager and the client implement the
    interfaces of the controller and answer the operations of the executor.
    The end-to-end theorem follows a command from its payload to the line and
    back to the state topic.

    The world [W] of the devices, the broker and the kernel is the one of
    [LineEnv] and [MqttEnv]; a world of the program is the manager and [W]. *)

From S2P Require Import Prelude Effects GoString GoPath GoTime Config Gpio GpioLevels Mqtt Discovery.
From S2P Require Import MqttProofs Action ActionProofs Controller ControllerProofs.

Open Scope Z_scope.

(** ** Running an executor program *)

Section runs.
Context {Op : Type} {resp : Op → Type} {S : Type} (h : ∀ o, S → option (resp o * S)).

(** [None]: an operation does not return. *)
Fixpoint try_run {A} (p : prog resp A) (s : S) : option (A * S) :=
  match p with
  | Ret a => Some (a, s)
  | Vis o k => '(r, s') ← h o s; try_run (k r) s'
  end.

Lemma try_run_bind {A B} (f : A → prog resp B) p s :
  try_run (prog_bind f p) s = '(a, s') ← try_run p s; try_run (f a) s'.
Proof.
  revert s. induction p as [a|o k IH]; intros s; cbn; [done|].
  destruct (h o s) as [[r s']|]; cbn; [apply IH|done].
Qed.

(** What every good operation preserves, a program of good operations does. *)
Lemma try_run_preserves {A} (bad : Op → Prop) (J : S → Prop) (p : prog resp A) s a s' :
  (∀ o s r s', ¬ bad o → h o s = Some (r, s') → J s → J s') →
  avoids bad p → try_run p s = Some (a, s') → J s → J s'.
Proof.
  intros Hh. revert s. induction p as [b|o k IH]; intros s; cbn.
  - by intros _ [= -> ->].
  - intros [Ho Hk] Hr Hj. destruct (h o s) as [[r s1]|] eqn:Hs; [|done]. cbn in Hr.
    by eapply IH, Hh.
Qed.
End runs.

(** ** The wiring *)

Section system.
Context {L MH SH CH W : Type} `{!LineEnv L W, !MqttEnv MH SH CH W}.
Context (kernel : ∀ o, W → option (aresp o * W)).
Context (gpio_text : GpioError → string) (mqtt_text : MqttError → string)
  (action_text : ActionError → string).
Abbreviation S := (Manager L * W)%type.

(** [err.Error()] at the boundary of a package; the state goes through. *)
Definition at_boundary {E A} (text : E → string) (r : result E A * S) : result string A * S :=
  (map_err text r.1, r.2).

(** [gpio.Manager] as the controller's [gpioManager]. *)
#[export] Instance system_gpio : GpioManager S := {
  gpio_OutputState name s := at_boundary gpio_text (OutputState name s);
  gpio_InputState name s := at_boundary gpio_text (InputState name s);
}.

(** [Client.Publish]. *)
Definition publish (topic payload : string) (qos : Z) (retain : bool) (s : S)
    : result string unit * S :=
  let '(r, w) := Publish topic payload qos retain s.2 in (map_err mqtt_text r, (s.1, w)).

#[export] Instance system_mqtt : MqttPublisher S := { mqtt_Publish := publish }.

Definition ask_kernel (o : aop) (s : S) : option (aresp o * S) :=
  match kernel o s.2 with Some (r, w) => Some (r, (s.1, w)) | None => None end.

(** The executor's operations: outputs and messages go to the manager and the
    client, the rest to the kernel. *)
Definition answer_action (o : aop) : S → option (aresp o * S) :=
  match o with
  | OpSetOutput name v => λ s, Some (at_boundary gpio_text (SetOutput name v s))
  | OpPublish topic payload qos retain => λ s, Some (publish topic payload qos retain s)
  | OpPanic => λ _, None
  | o => ask_kernel o
  end.

(** [Executor.Execute] on the wired program. *)
Definition execute (cfg : Config) (actions : list Action) (s : S)
    : option (result ActionError unit * S) :=
  try_run answer_action (Execute cfg actions) s.

(** The executor the controller was given is that one: when it returns, so does
    the call through the interface. *)
Class WiredExecutor (cfg : Config) `{!ActionExecutor S} : Prop :=
  wired_execute actions s r s' :
    execute cfg actions s = Some (r, s') →
    executor_Execute actions s = (map_err action_text r, s').

(** ** Levels *)

(** Publishing and the kernel leave the lines alone. *)
Class LevelLaws `{!LineLevels L W} := {
  level_publish t q rt p timeout w r w' l' :
    tr_Publish t q rt p timeout w = (r, w') → level w' l' = level w l';
  level_kernel o w r w' l' : kernel o w = Some (r, w') → level w' l' = level w l';
}.

Section levels.
Context `{!LineLevels L W, !LevelLaws}.
Implicit Types (m : Manager L) (w : W).

Lemma publish_level topic payload qos retain m w r m' w' :
  publish topic payload qos retain (m, w) = (r, (m', w')) →
  m' = m ∧ ∀ l, level w' l = level w l.
Proof.
  unfold publish, Publish, publishWithTimeout. cbn [fst snd].
  destruct (tr_IsConnected w); cbn; [|by intros [= _ <- <-]].
  destruct (tr_Publish _ _ _ _ _ w) as [t w1] eqn:Hp.
  destruct t; intros [= _ <- <-]; (split; [done|intros l]); by eapply level_publish.
Qed.

(** Only [SetOutput] changes levels, and nothing changes the manager. *)
Lemma answer_action_spec o m w r m' w' :
  answer_action o (m, w) = Some (r, (m', w')) →
  m' = m ∧ ((∃ name v r0, o = OpSetOutput name v ∧ SetOutput name v (m, w) = (r0, (m, w'))) ∨
            ∀ l, level w' l = level w l).
Proof.
  intros Ha.
  assert (ask_kernel o (m, w) = Some (r, (m', w')) → m' = m ∧ ∀ l, level w' l = level w l) as Hask.
  { unfold ask_kernel. cbn. destruct (kernel o w) as [[r1 w1]|] eqn:Hk; [|done].
    intros [= _ <- <-]. split; [done|]. intros l. by eapply level_kernel. }
  destruct o; try (destruct (Hask Ha) as [-> Hw]; split; [done|by right]); try discriminate.
  - unfold answer_action, at_boundary in Ha.
    destruct (SetOutput name value (m, w)) as [r1 [m1 w1]] eqn:Hs. cbn [fst snd] in Ha.
    injection Ha; clear Ha; intros; subst.
    pose proof (SetOutput_level _ _ _ _ _ _ _ Hs) as (-> & _ & _). split; [done|]. left. eauto.
  - unfold answer_action in Ha. destruct (publish _ _ _ _ _) as [r1 [m1 w1]] eqn:Hp.
    injection Ha; clear Ha; intros; subst.
    apply publish_level in Hp as [-> Hw]. split; [done|by right].
Qed.

(** What an answer does to the level of the output [g]. *)
Lemma answer_level m g l x o s r s' :
  gm_outputs m !! g = Some l → (∀ n, gm_outputs m !! n = Some l → n = g) →
  ¬ (∃ v, o = OpSetOutput g v) → answer_action o s = Some (r, s') →
  s.1 = m ∧ level s.2 l = x → s'.1 = m ∧ level s'.2 l = x.
Proof.
  destruct s as [m0 w], s' as [m' w']. cbn [fst snd].
  intros Hl Hinj Hbad [-> Ha]%answer_action_spec [-> Hx]. split; [done|]. rewrite <- Hx.
  destruct Ha as [(name & v & r0 & -> & Hs)|Hw]; [|done].
  apply SetOutput_level in Hs as (_ & _ & Hother). apply Hother. intros Hn. apply Hbad.
  exists v. by rewrite (Hinj _ Hn).
Qed.

Context (cfg : Config).

(** The execution of a list of actions that succeeds, action by action. *)
Lemma execute_cons i a rest s s' :
  try_run answer_action (execute_from cfg i (a :: rest)) s = Some (Ok tt, s') →
  ∃ s1 r s2, answer_action OpContextErr s = Some (None, s1) ∧
    try_run answer_action (executeOne cfg a) s1 = Some (r, s2) ∧
    (r = Ok tt ∨ act_IgnoreError a = true) ∧
    try_run answer_action (execute_from cfg (Datatypes.S i) rest) s2 = Some (Ok tt, s').
Proof.
  cbn [execute_from]. unfold do_op. cbn [try_run].
  destruct (answer_action OpContextErr s) as [[[e|] s1]|] eqn:Hc; cbn [mbind option_bind]; [done| |done].
  rewrite try_run_bind. destruct (try_run _ (executeOne cfg a) s1) as [[r s2]|] eqn:Ho; [|done].
  cbn [mbind option_bind]. intros Hrun. exists s1, r, s2. split; [done|]. split; [done|].
  destruct r as [[]|e]; [auto|]. destruct (act_IgnoreError a); [auto|done].
Qed.

Lemma execute_app i l1 l2 s s' :
  try_run answer_action (execute_from cfg i (l1 ++ l2)) s = Some (Ok tt, s') →
  ∃ s1, try_run answer_action (execute_from cfg (i + length l1) l2) s1 = Some (Ok tt, s') ∧
        try_run answer_action (execute_from cfg i l1) s = Some (Ok tt, s1).
Proof.
  revert i s. induction l1 as [|a l1 IH]; intros i s; cbn [app length].
  - rewrite Nat.add_0_r. eauto.
  - intros (s1 & r & s2 & Hc & Ho & Hr & Hx)%execute_cons. apply IH in Hx as (s3 & H3 & H1).
    exists s3. split; [by rewrite Nat.add_succ_r|].
    cbn [execute_from]. unfold do_op. cbn [try_run]. rewrite Hc. cbn [mbind option_bind].
    rewrite try_run_bind, Ho. cbn [mbind option_bind].
    destruct r as [[]|e]; [done|]. destruct Hr as [Hr|Hr]; [done|]. rewrite Hr. done.
Qed.

(** The last action on an output decides its level. *)
Lemma execute_level m w m' w' g l v before a after :
  gm_outputs m !! g = Some l → (∀ n, gm_outputs m !! n = Some l → n = g) →
  act_Type a = "gpio" → act_GPIO a = g → act_Value a = Some v → act_IgnoreError a = false →
  Forall (λ b, act_Type b = "gpio" → act_GPIO b ≠ g) after →
  execute cfg (before ++ a :: after) (m, w) = Some (Ok tt, (m', w')) →
  m' = m ∧ level w' l = Some (bit v).
Proof.
  intros Hl Hinj Ht Hg Hv Hi Hafter Hx. unfold execute, Execute in Hx.
  apply execute_app in Hx as ([m1 w1] & Hx & Hbefore).
  apply (try_run_preserves answer_action (λ _, False) (λ s, s.1 = m)) in Hbefore; [|..|done].
  2: { intros o [m2 w2] r [m3 w3] _ Ho. apply answer_action_spec in Ho as [-> _]. by cbn. }
  2: { apply avoids_execute_from; [by intros o _ []|]. apply Forall_forall. intros b _.
       apply avoids_executeOne; try (by intros; intros []).
       intros _. apply avoids_runCommand; by intros; intros []. }
  cbn in Hbefore. subst m1.
  apply execute_cons in Hx as ([m2 w2] & r & [m3 w3] & Hc & Ho & Hr & Hx).
  apply answer_action_spec in Hc as [-> _].
  assert (m3 = m ∧ level w3 l = Some (bit v)) as [-> Hw3].
  { destruct Hr as [->|?]; [|congruence].
    unfold executeOne in Ho. rewrite decide_True, Hv in Ho by done.
    unfold do_op in Ho. cbn [try_run] in Ho. unfold answer_action, at_boundary in Ho.
    destruct (SetOutput (act_GPIO a) v (m, w2)) as [r1 [m1 w4]] eqn:Hs. cbn in Ho.
    apply SetOutput_level in Hs as (-> & Hok & _). injection Ho as Hr1 <- <-.
    split; [done|]. destruct (Hok ltac:(by destruct r1 as [[]|])) as (l' & Hl' & Hw).
    congruence. }
  apply (try_run_preserves answer_action (λ o, ∃ v, o = OpSetOutput g v)
           (λ s, s.1 = m ∧ level s.2 l = Some (bit v))) in Hx; [done| |..|done].
  - intros o s1 r1 s2. by apply answer_level.
  - apply avoids_execute_from; [by intros o Hplain [v' ->]|].
    eapply Forall_impl; [exact Hafter|]. intros b Hb.
    apply avoids_executeOne; try (by intros; intros [? ?]).
    + intros Hbt v' _ [v'' [= Heq _]]. by apply (Hb Hbt).
    + intros _. apply avoids_runCommand; try (by intros; intros [? ?]). by intros o Hplain [v' ->].
Qed.

(** ** From the command to the state topic *)

Lemma gpio_OutputState_level g l v m w :
  gm_outputs m !! g = Some l → level w l = Some (bit v) →
  match line_Value l w with
  | (Ok _, w') => gpio_OutputState g (m, w) = (Ok v, (m, w'))
  | (Err e, w') => gpio_OutputState g (m, w) = (Err (gpio_text (ErrRead g e)), (m, w'))
  end.
Proof.
  intros Hl Hv. cbn [gpio_OutputState system_gpio]. unfold OutputState, line_state. rewrite Hl.
  destruct (line_Value l w) as [[x|e] w'] eqn:Hr; [|done].
  apply level_read in Hr. rewrite Hv in Hr. injection Hr as <-. by destruct v.
Qed.

Context `{!ActionExecutor S, !Clock S, !WiredExecutor cfg}.

(** C9: the packages together.  A command to a GPIO switch whose actions
    succeed leaves the line at the level that the last action on it asks for,
    and publishes, retained, that state: what the broker is told is what the
    hardware does.  (Only when reading the line back fails nothing is published.) *)
Theorem switch_command_reaches_line e payload desired rt c m w m1 w1 g l v before a after :
  parseSwitchPayload payload = Some desired →
  state_Type (ent_State e) = "gpio" → state_GPIO (ent_State e) = g →
  c_switches c !! ent_ID e = Some rt →
  gm_outputs m !! g = Some l → (∀ n, gm_outputs m !! n = Some l → n = g) →
  requested e desired = before ++ a :: after →
  act_Type a = "gpio" → act_GPIO a = g → act_Value a = Some v → act_IgnoreError a = false →
  Forall (λ b, act_Type b = "gpio" → act_GPIO b ≠ g) after →
  execute cfg (requested e desired) (m, w) = Some (Ok tt, (m1, w1)) →
  ∃ c' s', handleSwitch e payload (c, (m, w)) = Some (c', s') ∧ level s'.2 l = Some (bit v) ∧
    s' = match line_Value l w1 with
         | (Ok _, w2) => (publish (entityTopic (c_cfg c) (ent_ID e) "state") (statePayload v)
                            (MQTTQoS (c_cfg c)) true (m, w2)).2
         | (Err _, w2) => (m, w2)
         end.
Proof.
  intros Hp Hstate <- Hrt Hl Hinj Hreq Ht Hg Hv Hi Hafter Hx.
  pose proof (wired_execute _ _ _ _ Hx) as Hexec. rewrite Hreq in Hx.
  destruct (execute_level _ _ _ _ _ _ _ _ _ _ Hl Hinj Ht Hg Hv Hi Hafter Hx) as [-> Hlevel].
  destruct (handleSwitch_gpio_spec e payload desired rt c (m, w) _ _ Hp Hstate Hrt Hexec)
    as (c' & Hh & _).
  pose proof (gpio_OutputState_level _ _ _ _ _ Hl Hlevel) as Hread.
  destruct (line_Value l w1) as [[x|err] w2] eqn:Hr; rewrite Hread in Hh;
    eexists c', _; (split; [exact Hh|]); (split; [|done]).
  - cbn [mqtt_Publish system_mqtt].
    destruct (publish _ _ _ _ _) as [rp [mp wp]] eqn:Hpub. cbn.
    apply publish_level in Hpub as [_ Hw]. rewrite Hw. by rewrite (level_value _ _ _ _ _ Hr).
  - cbn. by rewrite (level_value _ _ _ _ _ Hr).
Qed.
End levels.
End system.

(** ** A lamp on a simulated desk *)

Abbreviation desk := (board * sim)%type.

Definition on_board {A} (r : A * board) (w : desk) : A * desk := (r.1, (r.2, w.2)).
Definition on_broker {A} (r : A * sim) (w : desk) : A * desk := (r.1, (w.1, r.2)).

#[export] Instance desk_lines : LineEnv Z desk := {
  RequestLine chip offset options w := on_board (RequestLine chip offset options w.1) w;
  line_SetValue l v w := on_board (line_SetValue l v w.1) w;
  line_Value l w := on_board (line_Value l w.1) w;
  line_Close l w := on_board (line_Close l w.1) w;
  range_lines _ m := map_to_list m;
}.

#[export] Instance desk_mqtt : MqttEnv string string string desk := {
  env_client w := env_client w.2;
  env_set_client c w := (w.1, env_set_client c w.2);
  env_now w := env_now w.2;
  tr_IsConnected w := tr_IsConnected w.2;
  tr_Connect w := on_broker (tr_Connect w.2) w;
  tr_Publish t q r p d w := on_broker (tr_Publish t q r p d w.2) w;
  tr_Subscribe t q h d w := on_broker (tr_Subscribe t q h d w.2) w;
  tr_Disconnect q w := (w.1, tr_Disconnect q w.2);
  env_wait_callbacks d w := on_broker (env_wait_callbacks d w.2) w;
  run_message h m w := (w.1, run_message h m w.2);
  run_session h w := (w.1, run_session h w.2);
  run_connect h w := (w.1, run_connect h w.2);
}.

(** Contexts are never over and delays end; there are no commands. *)
Definition desk_kernel (o : aop) (w : desk) : option (aresp o * desk) :=
  match o with
  | OpContextErr | OpDelay _ => Some (None, w)
  | _ => None
  end.

(** A step of the board is a step of the desk. *)
Lemma on_board_inv {A} (r : A * board) (w : desk) x w' :
  on_board r w = (x, w') → r = (x, w'.1).
Proof. destruct r. by intros [= -> <-]. Qed.

#[export] Program Instance desk_line_levels : LineLevels Z desk := { level w l := level w.1 l; inverted w l := inverted w.1 l }.
Next Obligation. intros c o opts w l w' v Hr%on_board_inv. by eapply level_request. Qed.
Next Obligation. intros c o opts w l w' v Hr%on_board_inv. by eapply inverted_request. Qed.
Next Obligation. intros c o opts w r w' l' Hr%on_board_inv. by eapply level_request_other. Qed.
Next Obligation. intros l v w r w' Hr%on_board_inv. by eapply level_set. Qed.
Next Obligation. intros l w v w' Hr%on_board_inv. by eapply level_read. Qed.
Next Obligation. intros l w r w' l' Hr%on_board_inv. by eapply level_value. Qed.

#[export] Instance desk_levels : LevelLaws desk_kernel.
Proof.
  split.
  - intros t q rt p d [b s] r w' l'. cbn. by intros [= _ <-].
  - intros [] w r w' l'; cbn; try done; by intros [= _ <-].
Qed.

Definition no_text {E} (e : E) : string := "error".

#[export] Instance desk_executor : ActionExecutor (Manager Z * desk) := {
  executor_Execute actions s :=
    match execute desk_kernel no_text no_text sample_config actions s with
    | Some (r, s') => (map_err no_text r, s')
    | None => (Err "does not return", s)
    end;
}.
#[export] Instance desk_clock : Clock (Manager Z * desk) := { time_Now s := env_now s.2 }.

#[export] Instance desk_wired : WiredExecutor desk_kernel no_text no_text no_text sample_config.
Proof. intros actions s r s' Hx. cbn. by rewrite Hx. Qed.

(** The outputs are open and the lamp is off. *)
Definition desk_start : Manager Z * desk :=
  let '(_, (m, b)) := OpenOutputs (new_manager (cfg_GPIO sample_config), board0) in (m, (b, sim_start)).

Example desk_outputs : gm_outputs desk_start.1 = {[ "relay" := 17 ]}.
Proof. vm_compute. reflexivity. Qed.

Definition desk_executed : option (result ActionError unit * (Manager Z * desk)) :=
  execute desk_kernel no_text no_text sample_config (ent_On sample_lamp) desk_start.

Example desk_executes : ∃ m1 w1, desk_executed = Some (Ok tt, (m1, w1)).
Proof. vm_compute. eauto. Qed.

Lemma switch_command_reaches_line_witness :
  ∃ c' s', handleSwitch (GpioManager0 := system_gpio no_text) (MqttPublisher0 := system_mqtt no_text)
             sample_lamp " on " (sample, desk_start) = Some (c', s') ∧
           level s'.2 17 = Some 1.
Proof.
  destruct desk_executes as (m1 & w1 & Hx).
  assert (Hinj : ∀ n, gm_outputs desk_start.1 !! n = Some 17 → n = "relay").
  { intros n Hn. rewrite desk_outputs in Hn. by apply lookup_singleton_Some in Hn as [-> _]. }
  assert (Hl : gm_outputs desk_start.1 !! "relay" = Some 17) by (rewrite desk_outputs; reflexivity).
  destruct (switch_command_reaches_line desk_kernel no_text no_text no_text sample_config
    sample_lamp " on " true lamp_runtime sample desk_start.1 desk_start.2 m1 w1 "relay" 17 true
    [] (set_output "relay" true) [] eq_refl eq_refl eq_refl eq_refl Hl Hinj eq_refl eq_refl
    eq_refl eq_refl eq_refl (List.Forall_nil _) Hx) as (c' & s' & Hh & Hlevel & _).
  exact (ex_intro _ c' (ex_intro _ s' (conj Hh Hlevel))).
Defined.
